(* ===== verification/_CoqProject ===== *)
-Q . S2P
Prelude.v
Program.v
Externals.v
Concrete.v
Task.v
Protocol.v
Verify.v
Validation.v
Registry.v
RegistryConcrete.v
RegistryFacts.v
RegistrySpec.v
RegistryRefines.v
RegistryTasks.v
RegistryRecords.v
Records.v
RegistryViews.v
Lookup.v
Admission.v
Gas.v
Float64.v
Roster.v
ChainTypes.v
Rpc.v
Chain.v
ContractReads.v
Replay.v
RowText.v
ReplayFacts.v
RegistryReplay.v
ReplayRuns.v
Rescue.v
Sentinel.v
Submission.v
ContractRun.v
Shell.v
Store.v
StoreInv.v
StoreConcrete.v
StoreFacts.v
Http.v
Queue.v
Challenge.v
Worker.v
WorkerLoop.v
StoreTasks.v
SqlStore.v
SqlFacts.v
Submitter.v
SubmitterFacts.v
Maintenance.v
CfMaintenance.v
ChainWorker.v
CfClient.v
CfWire.v
Edge.v
EdgeFacts.v
Startup.v
System.v
