(* ===== verification/Prelude.v ===== *)
(** * A verification library for the WebAuthn P-256 registry service

    The repository runs a service that writes passkey groups and references
    to a registry contract and answers lookups about them.  A request is
    validated and admitted ([p256-registrar/src/admission.rs]), its task is
    stored and queued; a worker drives each queued batch through the
    submission core ([submission.rs]), which decides when to broadcast,
    retry, settle or give up; lookups ([lookup.rs]) are served from cache,
    chain and pending tasks; a maintenance pass replaces stuck transactions.
    Two shells run these cores: the Docker server ([p256-index-server]: Redis
    and an Iggy queue) and the Cloudflare worker ([p256-index-cf]: one Durable
    Object with SQLite behind a stateless edge).  A tool
    ([p256-replay/src/main.rs]) moves a registry to another deployment of the
    contract ([contracts/src/WebAuthnP256PublicKeyRegistry.sol]).

    ** The files

    Shared: this file; [Externals] (the third-party crates, as classes with
    their documented laws), [Concrete] (executable instances of them);
    [Program] (effectful code as trees of operations, with executions under
    an arbitrary shell [exec], logics over traces [wp] and [wpm], and runs
    against a concrete shell [run]).

    The portable core ([p256-registrar]): [Task] (task.rs), [Protocol] and
    [Records] (protocol.rs: hashes, calldata, error classes, decoders),
    [Verify] (verify.rs), [Validation] and [Admission] (admission.rs),
    [Lookup] (lookup.rs), [Submission] (submission.rs), [Gas] (gas.rs),
    [Roster] (roster.rs), [Rescue] (rescue.rs), [Sentinel] with [Float64]
    (sentinel.rs, whose runway is a binary64 computation).

    The Docker server: [ChainTypes], [Rpc] (the endpoint pool) and [Chain]
    (the client) for chain.rs; [Store], [StoreInv], [StoreFacts],
    [StoreTasks] for store.rs, with [StoreConcrete]; [Queue] (queue.rs);
    [Http] and [Challenge] (http.rs); [Worker], [WorkerLoop] and
    [ChainWorker] (worker.rs, alone and over the client); [Maintenance]
    (maintenance.rs); [Startup] (config.rs, telegram.rs, main.rs).  [Shell]
    is the transition system of any shell of these cores, [System] the
    Docker server as one.

    The Cloudflare worker: [SqlStore] and [SqlFacts], [Submitter] and
    [SubmitterFacts], [CfMaintenance] (submitter.rs); [CfClient] (config.rs
    and chain.rs: a client of its own, proved operation by operation to be
    [Chain]); [CfWire] (the object over its client); [Edge] and
    [EdgeFacts] (edge.rs, lib.rs); [Startup] again for what its
    configuration shares with the server's.

    The replay tool: [Replay], [RowText] (the JSON text of an archived row),
    [ReplayFacts], [ReplayRuns].  The contract:
    [Registry] (its storage, writes and reads), [RegistryConcrete] (an
    instance with the real curve), [RegistryFacts] (its proof check is the
    service's), [RegistrySpec] and [RegistryRefines] (a ledger without
    storage, and the refinement), [RegistryTasks] (accepted tasks on the
    contract), [RegistryRecords] (its records and their stored calldata),
    [RegistryViews] (its pages and its dispatch of view calls),
    [RegistryReplay] (the replay tool's queue on the contract),
    [ContractRun] (the worker's batch on it), [ContractReads] (the chain
    client's reads of it).

    ** How the program is modelled

    - Pure code is a function.  A Rust [Result] is [result], [?] is [try], an
      [expect] that could panic is a value of its own.  Machine integers are
      [Z] with the source's saturating, wrapping or checked arithmetic
      written out; strings are byte strings, bytes are [list Byte.byte].
    - Effectful code awaits one operation at a time.  The cores and the
      chain client are trees ([Prog]) whose operations any shell may answer;
      the shells are state functions on their stores, in which a Redis
      command may be lost before it runs, or run and lose its reply, a SQL
      statement or a broker call may fail, and a call between edge and object
      may be lost on either way.  An endpoint may answer anything.
    - Where a shell is a client of the chain, it is proved against an
      interface ([ChainClient], [SweepChain], and the object's and the edge's
      own) of arbitrary behaviour; [Chain] and [CfClient] implement them, and
      [ChainWorker] and [CfWire] say what then goes on the wire.
    - A Durable Object runs the statements between two awaits without
      interleaving; requests, alarms and the passage of time are steps of its
      transition system.  A replica of the server interleaves at single store
      commands ([StoreInv]).
    - Third-party code is a parameter: digests, the ABI coder, P-256, text
      functions, JSON, transaction signing, the EVM's decoder and its P-256
      precompile.  Collision freedom of a digest is a hypothesis of the
      theorems that need it, on the inputs concerned.

    ** What is proved

    - No task is lost: in each shell, a request answered as accepted is in
      the store and queued until it is done or failed, whatever is lost
      between ([System], [SubmitterFacts], [EdgeFacts]); the worker's offset
      passes a batch only when its tasks are settled, over whole runs with
      sessions and restarts ([Worker], [WorkerLoop]).
    - Submission: a broadcast follows its own negative on-chain check, every
      mark has its cause; what reaches the wire, in both shells, is a signed
      transaction of a stored task within the caps ([Submission], [Chain],
      [ChainWorker], [CfWire]).
    - Stores: an invariant of every reachable Redis state ([StoreInv]), the
      agreement of the SQLite rows ([SqlFacts]), the retry ladder, the rate
      windows, the life of a cached body.
    - Admission, validation and proofs: what is enqueued is what is stored,
      gates come first, an accepted task is exactly the request's and signed
      for its own challenge; hashes bind every field they should.
    - The contract: it is its ledger; its records never change and carry the
      calldata that made them, which names their group, passkeys and
      content; a request that the service accepts is a write that the
      contract takes unless what it already holds forbids it; what the
      worker marks done is on it; every lookup of the chain client comes to
      exactly what it holds, page by page, or to no answer; an archive
      replays into a mirror in the tool's order, which then agrees on what
      is registered, referred and held, though not on ids or page order.
    - Lookup (what is fetched, cached and served is the page asked for, up
      to the width of its offset), gas, rescue, maintenance, the watchdog,
      start-up of both shells and the agreement of their configurations;
      the replay tool exports every write, accounts for every row and ends.

    ** Bounds and fuel

    [Gas.escalate_loop] counts the source's own bounded loop;
    [Chain.receipt_fuel] and [Replay]'s receipt turns are the waits that fit
    the receipt's time limit, and a theorem says that a clock that advances
    ends them first; [Replay.scan_fuel] is the number of ranges of the
    smallest size in the scanned blocks, the bisection takes 65 turns for a
    64-bit range, and [Replay.rounds] as many rounds as the queue is long,
    each of which shortens it.  [WorkerLoop.turn] runs as many turns as it is
    given: its loop does not end, and the theorems hold for every number.
    Other recursion is structural.  Request programs are well-founded trees,
    so every execution of a core ends.

    ** What is not modelled

    The frameworks around the handlers (axum's routing and size limits, the
    parsing of bodies, CORS headers, the HTML page), the connections of Redis and Iggy and the
    broker's retention, signals, logging and the two waits of a shutdown, the
    delivery of a Telegram message, the probes under [examples/], the tests
    and build scripts, the earlier index contract and the batch helper.  Of
    the registry: gas, and events beyond the id they carry.  Real time enters as clocks and the
    store's time; a [HGETALL] lists its rows in one fixed order, which no
    theorem depends on.  The runtime's own retry of an alarm whose handler
    failed is not modelled: such a handler is shown to leave the alarm slot
    as it was, and the alarms that fire are steps of the transition system.

    This file: the scopes, results, strings, bytes and machine arithmetic the
    components share, with their lemmas and tactics. *)
From Stdlib Require Import Ascii String Strings.Byte.
From stdpp Require Export base numbers list gmap strings pretty sorting.
From stdpp Require Import options.

#[global] Open Scope string_scope.
#[global] Open Scope list_scope.
#[global] Open Scope Z_scope.

(** ** Results

    Rust's [Result<T, E>]; every [?] of the source is a [rbind]. *)

Inductive result (A E : Type) : Type :=
| Ok (a : A)
| Err (e : E).
Arguments Ok {A E} _.
Arguments Err {A E} _.

Declare Scope rust_scope.
Delimit Scope rust_scope with rust.
#[global] Open Scope rust_scope.

Definition rbind {A B E} (m : result A E) (f : A → result B E) : result B E :=
  match m with Ok a => f a | Err e => Err e end.

(** [m.map_err(f)?]: rewrite the error, keep the value. *)
Definition map_err {A E F} (f : E → F) (m : result A E) : result A F :=
  match m with Ok a => Ok a | Err e => Err (f e) end.

(** [o.ok_or(e)?]. *)
Definition ok_or {A E} (e : E) (o : option A) : result A E :=
  match o with Some a => Ok a | None => Err e end.

Definition is_ok {A E} (m : result A E) : bool :=
  match m with Ok _ => true | Err _ => false end.

Notation "'try' x := m 'in' k" := (rbind m (λ x, k))
  (at level 10, x name, m at level 100, k at level 200,
   format "'try'  x  :=  m  'in' '//' k") : rust_scope.
Notation "'try' ' p := m 'in' k" := (rbind m (λ p, k))
  (at level 10, p strict pattern, m at level 100, k at level 200) : rust_scope.

(** [xs.iter().map(f).collect::<Result<Vec<_>>>()]: the first error wins. *)
Fixpoint rmap {A B E} (f : A → result B E) (l : list A) : result (list B) E :=
  match l with
  | [] => Ok []
  | x :: l => try y := f x in try ys := rmap f l in Ok (y :: ys)
  end.

Lemma rbind_ok {A B E} (m : result A E) (f : A → result B E) b :
  rbind m f = Ok b ↔ ∃ a, m = Ok a ∧ f a = Ok b.
Proof.
  destruct m as [a|e]; simpl; (split; [|intros (a'&?&?)]); try congruence; eauto.
Qed.

Lemma map_err_ok {A E F} (f : E → F) (m : result A E) a :
  map_err f m = Ok a ↔ m = Ok a.
Proof. destruct m; simpl; naive_solver. Qed.

Lemma ok_or_ok {A E} (e : E) (o : option A) a : ok_or e o = Ok a ↔ o = Some a.
Proof. destruct o; simpl; naive_solver. Qed.

Lemma rmap_ok {A B E} (f : A → result B E) l ys :
  rmap f l = Ok ys ↔ Forall2 (λ x y, f x = Ok y) l ys.
Proof.
  revert ys. induction l as [|x l IH]; intros ys; simpl.
  - split; [by intros [= <-]|by inversion 1].
  - rewrite rbind_ok. setoid_rewrite rbind_ok. setoid_rewrite IH.
    split; [intros (?&?&?&?&[= <-]); by constructor|].
    inversion 1; subst; eauto.
Qed.

Lemma rmap_total {A B E} (f : A → result B E) l :
  Forall (λ x, ∃ y, f x = Ok y) l → ∃ ys, rmap f l = Ok ys.
Proof.
  induction 1 as [|x l [y Hy] _ [ys IH]]; simpl; [by eexists|].
  rewrite Hy. simpl. rewrite IH. by eexists.
Qed.

(** Peel the binds of an equation [.. = Ok v]. *)
Ltac res_inv :=
  repeat match goal with
  | H : rbind _ _ = Ok _ |- _ =>
      apply rbind_ok in H; let a := fresh "v" in let H1 := fresh "Hok" in
      destruct H as (a & H1 & H)
  | H : map_err _ _ = Ok _ |- _ => apply map_err_ok in H
  | H : ok_or _ _ = Ok _ |- _ => apply ok_or_ok in H
  | H : Ok _ = Ok _ |- _ => injection H as H
  | H : Err _ = Ok _ |- _ => discriminate H
  | H : Ok _ = Err _ |- _ => discriminate H
  end.

(** ** Machine integers

    An unsigned w-bit integer is a [Z] in its range; the saturating and
    wrapping operations of the source are written out. *)

Definition U8_MAX : Z := 2 ^ 8 - 1.
Definition U32_MAX : Z := 2 ^ 32 - 1.
Definition U64_MAX : Z := 2 ^ 64 - 1.
Definition U128_MAX : Z := 2 ^ 128 - 1.
Definition U256_MAX : Z := 2 ^ 256 - 1.

Definition sat_add (mx a b : Z) : Z := Z.min mx (a + b).
Definition sat_mul (mx a b : Z) : Z := Z.min mx (a * b).
Definition sat_sub (a b : Z) : Z := Z.max 0 (a - b).
Definition wrap64 (a : Z) : Z := a mod 2 ^ 64.
Definition wrap32 (a : Z) : Z := a mod 2 ^ 32.
Definition in_u64 (a : Z) : Prop := 0 ≤ a ≤ U64_MAX.
Definition in_u256 (a : Z) : Prop := 0 ≤ a ≤ U256_MAX.

(** [u64::try_from(x).ok()], [u128::try_from(x).ok()]. *)
Definition try_u64 (a : Z) : option Z := if decide (0 ≤ a ≤ U64_MAX) then Some a else None.
Definition try_u128 (a : Z) : option Z := if decide (0 ≤ a ≤ U128_MAX) then Some a else None.

Lemma wrap64_small n : in_u64 n → wrap64 n = n.
Proof. unfold in_u64, U64_MAX, wrap64. intros. apply Z.mod_small. lia. Qed.

(** Split every [Z.min]/[Z.max]/boolean comparison in sight, then [lia]. *)
Ltac zsplit :=
  repeat match goal with
  | H : context [Z.ltb ?a ?b] |- _ => destruct (Z.ltb_spec a b)
  | H : context [Z.leb ?a ?b] |- _ => destruct (Z.leb_spec a b)
  | |- context [Z.ltb ?a ?b] => destruct (Z.ltb_spec a b)
  | |- context [Z.leb ?a ?b] => destruct (Z.leb_spec a b)
  end.

(** ** Strings and bytes

    A Rust [String] is the Rocq [string] of its UTF-8 bytes ([len] counts
    bytes); [&[u8]] and [Vec<u8>] are [list byte]. *)

Abbreviation bytes := (list byte).

#[export] Instance byte_eq_decision : EqDecision byte := Byte.byte_eq_dec.

Definition as_bytes (s : string) : bytes := list_byte_of_string s.
Definition str_len (s : string) : Z := Z.of_nat (String.length s).
Definition byte_len (b : bytes) : Z := Z.of_nat (length b).
Definition byte_val (b : byte) : Z := Z.of_N (Byte.to_N b).

Definition starts_with (p s : string) : bool := String.prefix p s.

Fixpoint strip_prefix (p s : string) : option string :=
  match p with
  | EmptyString => Some s
  | String a p' =>
      match s with
      | EmptyString => None
      | String b s' => if Ascii.eqb a b then strip_prefix p' s' else None
      end
  end.

(** [value.strip_prefix("0x").unwrap_or(value)]. *)
Definition strip_0x (s : string) : string := default s (strip_prefix "0x" s).

(** [s.trim_start_matches(p)], for a non-empty text [p]: every copy goes. *)
Fixpoint trim_copies (fuel : nat) (p s : string) : string :=
  match fuel with
  | O => s
  | S fuel => match strip_prefix p s with Some s => trim_copies fuel p s | None => s end
  end.
Definition trim_start_str (p s : string) : string := trim_copies (String.length s) p s.

(** [hay.contains(needle)]. *)
Fixpoint str_contains (needle hay : string) : bool :=
  String.prefix needle hay ||
  match hay with EmptyString => false | String _ h => str_contains needle h end.

Fixpoint str_all (f : ascii → bool) (s : string) : bool :=
  match s with EmptyString => true | String c s' => f c && str_all f s' end.

Fixpoint str_map (f : ascii → ascii) (s : string) : string :=
  match s with EmptyString => EmptyString | String c s' => String (f c) (str_map f s') end.

Definition code (c : ascii) : Z := Z.of_N (N_of_ascii c).

(** [u8::is_ascii_hexdigit], [u8::to_ascii_lowercase]. *)
Definition is_ascii_hexdigit (c : ascii) : bool :=
  ((48 <=? code c) && (code c <=? 57)) || ((65 <=? code c) && (code c <=? 70))
  || ((97 <=? code c) && (code c <=? 102)).

Definition ascii_lower (c : ascii) : ascii :=
  if (65 <=? code c) && (code c <=? 90) then ascii_of_N (Z.to_N (code c + 32)) else c.

Definition to_ascii_lowercase (s : string) : string := str_map ascii_lower s.

#[global] Arguments is_ascii_hexdigit : simpl never.
#[global] Arguments ascii_lower : simpl never.

(** [format!("{n}")] for an unsigned integer. *)
Definition fmt (n : Z) : string := pretty n.

Lemma ascii_lower_idemp c : ascii_lower (ascii_lower c) = ascii_lower c.
Proof. by destruct c as [[] [] [] [] [] [] [] []]. Qed.

Lemma ascii_lower_hexdigit c : is_ascii_hexdigit (ascii_lower c) = is_ascii_hexdigit c.
Proof. by destruct c as [[] [] [] [] [] [] [] []]. Qed.

Lemma to_ascii_lowercase_idemp s :
  to_ascii_lowercase (to_ascii_lowercase s) = to_ascii_lowercase s.
Proof.
  unfold to_ascii_lowercase.
  induction s as [|c s IH]; simpl; [done|]. by rewrite ascii_lower_idemp, IH.
Qed.

Lemma length_to_ascii_lowercase s :
  String.length (to_ascii_lowercase s) = String.length s.
Proof.
  unfold to_ascii_lowercase. induction s as [|c s IH]; simpl; [done|]. by rewrite IH.
Qed.

Lemma str_all_lower_hexdigit s :
  str_all is_ascii_hexdigit (to_ascii_lowercase s) = str_all is_ascii_hexdigit s.
Proof.
  unfold to_ascii_lowercase.
  induction s as [|c s IH]; simpl; [done|]. by rewrite ascii_lower_hexdigit, IH.
Qed.

Lemma length_as_bytes s : length (as_bytes s) = String.length s.
Proof.
  unfold as_bytes, list_byte_of_string. rewrite length_map.
  induction s as [|c s IH]; simpl; [done|]. by rewrite IH.
Qed.

Lemma as_bytes_inj s1 s2 : as_bytes s1 = as_bytes s2 → s1 = s2.
Proof.
  intros H. rewrite <-(string_of_list_byte_of_string s1), <-(string_of_list_byte_of_string s2).
  by f_equal.
Qed.

Lemma as_bytes_app s1 s2 : as_bytes (s1 +:+ s2) = as_bytes s1 ++ as_bytes s2.
Proof.
  unfold as_bytes, list_byte_of_string. rewrite <-map_app. f_equal.
  induction s1 as [|c s IH]; simpl; [done|]. by rewrite IH.
Qed.

Lemma byte_val_range b : 0 ≤ byte_val b < 256.
Proof. unfold byte_val. pose proof (Byte.to_N_bounded b). lia. Qed.

Lemma byte_val_inj b1 b2 : byte_val b1 = byte_val b2 → b1 = b2.
Proof.
  unfold byte_val. intros H%N2Z.inj.
  pose proof (Byte.of_to_N b1). pose proof (Byte.of_to_N b2). congruence.
Qed.

Lemma strip_prefix_app p s : strip_prefix p (p +:+ s) = Some s.
Proof. induction p as [|c p IH]; simpl; [done|]. by rewrite Ascii.eqb_refl. Qed.

Lemma omap_app {A B} (f : A → option B) l1 l2 :
  omap f (l1 ++ l2) = omap f l1 ++ omap f l2.
Proof.
  induction l1 as [|x l IH]; [done|].
  change (omap f ((x :: l) ++ l2)) with
    (match f x with Some y => y :: omap f (l ++ l2) | None => omap f (l ++ l2) end).
  rewrite IH. cbn. by destruct (f x).
Qed.

Lemma sublist_filter_mono {A} (P : A → Prop) `{!∀ x, Decision (P x)} (l1 l2 : list A) :
  l1 `sublist_of` l2 → filter P l1 `sublist_of` filter P l2.
Proof.
  induction 1 as [|x l1 l2 _ IH|x l1 l2 _ IH]; [done|..]; rewrite ?filter_cons;
    repeat case_decide; try done; by constructor.
Qed.

(** ** UTF-8

    [valid_utf8] holds of the byte strings that are Rust [String]s (RFC 3629:
    shortest forms, no surrogates, at most U+10FFFF). *)

Definition in_range (lo hi : Z) (c : ascii) : bool := (lo <=? code c) && (code c <=? hi).

Fixpoint valid_utf8 (s : string) : bool :=
  match s with
  | EmptyString => true
  | String a s1 =>
      if in_range 0x00 0x7F a then valid_utf8 s1 else
      match s1 with
      | EmptyString => false
      | String b s2 =>
          if in_range 0xC2 0xDF a then in_range 0x80 0xBF b && valid_utf8 s2 else
          match s2 with
          | EmptyString => false
          | String c s3 =>
              if in_range 0xE0 0xEF a then
                (if code a =? 0xE0 then in_range 0xA0 0xBF b
                 else if code a =? 0xED then in_range 0x80 0x9F b
                 else in_range 0x80 0xBF b)
                && in_range 0x80 0xBF c && valid_utf8 s3
              else
              match s3 with
              | EmptyString => false
              | String d s4 =>
                  in_range 0xF0 0xF4 a
                  && (if code a =? 0xF0 then in_range 0x90 0xBF b
                      else if code a =? 0xF4 then in_range 0x80 0x8F b
                      else in_range 0x80 0xBF b)
                  && in_range 0x80 0xBF c && in_range 0x80 0xBF d && valid_utf8 s4
              end
          end
      end
  end.

(** [str::trim]: the encodings of the Unicode White_Space characters are
    removed at both ends. *)

Definition whitespace : list (list Z) :=
  [[0x09]; [0x0A]; [0x0B]; [0x0C]; [0x0D]; [0x20]; [0xC2; 0x85]; [0xC2; 0xA0];
   [0xE1; 0x9A; 0x80]; [0xE2; 0x80; 0x80]; [0xE2; 0x80; 0x81]; [0xE2; 0x80; 0x82];
   [0xE2; 0x80; 0x83]; [0xE2; 0x80; 0x84]; [0xE2; 0x80; 0x85]; [0xE2; 0x80; 0x86];
   [0xE2; 0x80; 0x87]; [0xE2; 0x80; 0x88]; [0xE2; 0x80; 0x89]; [0xE2; 0x80; 0x8A];
   [0xE2; 0x80; 0xA8]; [0xE2; 0x80; 0xA9]; [0xE2; 0x80; 0xAF]; [0xE2; 0x81; 0x9F];
   [0xE3; 0x80; 0x80]].

(** Drop the codes [pat] from the front of [s]. *)
Fixpoint drop_codes (pat : list Z) (s : list ascii) : option (list ascii) :=
  match pat, s with
  | [], _ => Some s
  | n :: pat, c :: s => if code c =? n then drop_codes pat s else None
  | _ :: _, [] => None
  end.

Definition drop_one_of (pats : list (list Z)) (s : list ascii) : option (list ascii) :=
  foldr (λ pat acc, match drop_codes pat s with Some s' => Some s' | None => acc end) None pats.

Fixpoint trim_start (fuel : nat) (pats : list (list Z)) (s : list ascii) : list ascii :=
  match fuel with
  | O => s
  | S fuel => match drop_one_of pats s with Some s' => trim_start fuel pats s' | None => s end
  end.

Definition trim (s : string) : string :=
  let l := trim_start (String.length s) whitespace (list_ascii_of_string s) in
  string_of_list_ascii
    (reverse (trim_start (length l) (reverse <$> whitespace) (reverse l))).

Lemma drop_codes_length pat s s' : drop_codes pat s = Some s' → (length s' ≤ length s)%nat.
Proof.
  revert s. induction pat as [|n pat IH]; intros [|c s] H; simpl in *; simplify_eq; try done.
  case_match; [|done]. apply IH in H. lia.
Qed.

Lemma drop_one_of_length pats s s' : drop_one_of pats s = Some s' → (length s' ≤ length s)%nat.
Proof.
  induction pats as [|p pats IH]; simpl; [done|].
  destruct (drop_codes p s) eqn:E; [|done]. intros [= <-]. by eapply drop_codes_length.
Qed.

Lemma trim_start_length fuel pats s : (length (trim_start fuel pats s) ≤ length s)%nat.
Proof.
  revert s. induction fuel as [|fuel IH]; intros s; simpl; [done|].
  destruct (drop_one_of pats s) eqn:E; [|done].
  apply drop_one_of_length in E. specialize (IH l). lia.
Qed.

Lemma length_string_of_list_ascii l : String.length (string_of_list_ascii l) = length l.
Proof. induction l as [|c l IH]; simpl; [done|]. by rewrite IH. Qed.

Lemma length_list_ascii_of_string s : length (list_ascii_of_string s) = String.length s.
Proof. induction s as [|c s IH]; simpl; [done|]. by rewrite IH. Qed.

Lemma trim_length s : (String.length (trim s) ≤ String.length s)%nat.
Proof.
  unfold trim. rewrite length_string_of_list_ascii, length_reverse.
  etransitivity; [apply trim_start_length|]. rewrite length_reverse.
  etransitivity; [apply trim_start_length|]. by rewrite length_list_ascii_of_string.
Qed.

(** ** Hint databases of the library *)

Create HintDb registry discriminated.
Create Rewrite HintDb registry.
#[export] Hint Resolve byte_val_range : registry.
#[export] Hint Rewrite length_as_bytes as_bytes_app length_to_ascii_lowercase
  to_ascii_lowercase_idemp : registry.
