(* ===== verification/Program.v ===== *)
(** * Request programs

    The three cores of [p256-registrar] (admission, lookup, submission) are
    crux apps: an async function that awaits one shell operation at a time
    ([ctx.request_from_shell(op).await]) and finally emits one [Settled]
    event.  A value of [Prog Op Res A] is such a function: it either returns
    or requests one operation and continues with the shell's answer.

    The shell is arbitrary: [exec p t a] holds when some sequence of answers
    makes [p] issue the operations of [t] in order and return [a]; [wp] is
    the matching program logic, and [run] executes a program against a
    concrete stateful shell. *)
From S2P Require Export Prelude.
From stdpp Require Import options.

Inductive Prog (Op Res A : Type) : Type :=
| Ret (a : A)
| Req (op : Op) (k : Res → Prog Op Res A).
Arguments Ret {Op Res A} _.
Arguments Req {Op Res A} _ _.

Section prog.
Context {Op Res : Type}.

Definition trace : Type := list (Op * Res).

Fixpoint pbind {A B} (p : Prog Op Res A) (f : A → Prog Op Res B) : Prog Op Res B :=
  match p with
  | Ret a => f a
  | Req op k => Req op (λ r, pbind (k r) f)
  end.

(** One awaited operation. *)
Definition request (op : Op) : Prog Op Res Res := Req op Ret.

(** [Flow<T> = Result<T, E>]: a [?] on an awaited flow. *)
Definition fbind {A B E} (p : Prog Op Res (result A E))
    (f : A → Prog Op Res (result B E)) : Prog Op Res (result B E) :=
  pbind p (λ m, match m with Ok a => f a | Err e => Ret (Err e) end).

(** ** Executions under an arbitrary shell *)

Inductive exec {A} : Prog Op Res A → trace → A → Prop :=
| exec_ret a : exec (Ret a) [] a
| exec_req op k r t a : exec (k r) t a → exec (Req op k) ((op, r) :: t) a.

Fixpoint wp {A} (p : Prog Op Res A) (Φ : trace → A → Prop) : Prop :=
  match p with
  | Ret a => Φ [] a
  | Req op k => ∀ r, wp (k r) (λ t a, Φ ((op, r) :: t) a)
  end.

Lemma wp_mono {A} (p : Prog Op Res A) (Φ Ψ : trace → A → Prop) :
  (∀ t a, Φ t a → Ψ t a) → wp p Φ → wp p Ψ.
Proof.
  revert Φ Ψ. induction p as [a|op k IH]; intros Φ Ψ HΦ; simpl; [by apply HΦ|].
  intros H r. eapply IH, H. simpl. auto.
Qed.

Lemma wp_exec {A} (p : Prog Op Res A) Φ :
  wp p Φ ↔ ∀ t a, exec p t a → Φ t a.
Proof.
  revert Φ. induction p as [a|op k IH]; intros Φ; simpl.
  - split; [by intros H t a'; inversion 1; subst|]. intros H. apply H. constructor.
  - split.
    + intros H t a Hex. inversion Hex; subst. eapply IH in H; [|done]. done.
    + intros H r. apply IH. intros t a Hex. apply H. by constructor.
Qed.

Lemma wp_bind {A B} (p : Prog Op Res A) (f : A → Prog Op Res B) Φ :
  wp (pbind p f) Φ ↔ wp p (λ t a, wp (f a) (λ t' b, Φ (t ++ t') b)).
Proof.
  revert Φ. induction p as [a|op k IH]; intros Φ; simpl; [done|].
  split; intros H r; by apply (IH r (λ t b, Φ ((op, r) :: t) b)).
Qed.

Lemma wp_and {A} (p : Prog Op Res A) Φ Ψ :
  wp p Φ → wp p Ψ → wp p (λ t a, Φ t a ∧ Ψ t a).
Proof. rewrite !wp_exec. naive_solver. Qed.

Lemma wp_use {A B} (p : Prog Op Res A) (f : A → Prog Op Res B) Φ Ψ :
  wp p Φ →
  (∀ t a, Φ t a → wp (f a) (λ t' b, Ψ (t ++ t') b)) →
  wp (pbind p f) Ψ.
Proof. intros Hp Hf. apply wp_bind. eapply wp_mono, Hp. auto. Qed.

Lemma pbind_assoc_wp {A B C} (p : Prog Op Res A) (f : A → Prog Op Res B)
    (g : B → Prog Op Res C) Φ :
  wp (pbind (pbind p f) g) Φ ↔ wp (pbind p (λ a, pbind (f a) g)) Φ.
Proof.
  revert Φ. induction p as [a|op k IH]; intros Φ; simpl; [done|].
  split; intros H r; by apply (IH r (λ t b, Φ ((op, r) :: t) b)).
Qed.

Lemma exec_bind {A B} (p : Prog Op Res A) (f : A → Prog Op Res B) t b :
  exec (pbind p f) t b ↔ ∃ t1 t2 a, t = t1 ++ t2 ∧ exec p t1 a ∧ exec (f a) t2 b.
Proof.
  revert t. induction p as [a|op k IH]; intros t; simpl.
  - split; [intros H; exists [], t, a; repeat constructor; done|].
    intros (t1&t2&a'&->&Hp&Hf). by inversion Hp; subst.
  - split.
    + inversion 1; subst. apply IH in H4 as (t1&t2&a&->&?&?).
      eexists ((op, r) :: t1), t2, a. split_and!; [done|by constructor|done].
    + intros (t1&t2&a&->&Hp&Hf). inversion Hp; subst. simpl. constructor.
      apply IH. eauto 6.
Qed.

Lemma exec_fbind {A B E} (p : Prog Op Res (result A E)) (f : A → Prog Op Res (result B E)) t m :
  exec (fbind p f) t m ↔
    (∃ e, exec p t (Err e) ∧ m = Err e) ∨
    (∃ t1 t2 a, t = t1 ++ t2 ∧ exec p t1 (Ok a) ∧ exec (f a) t2 m).
Proof.
  unfold fbind. rewrite exec_bind. split.
  - intros (t1&t2&[a|e]&->&Hp&Hf); [by right; eauto 7|left].
    inversion Hf; subst. rewrite app_nil_r. eauto.
  - intros [(e&Hp&->)|(t1&t2&a&->&Hp&Hf)]; [|by exists t1, t2, (Ok a)].
    exists t, [], (Err e). rewrite app_nil_r. split_and!; [done|done|constructor].
Qed.

Lemma exec_ret_inv {A} (a b : A) t : exec (Ret a) t b ↔ t = [] ∧ b = a.
Proof. split; [by inversion 1|intros [-> ->]; constructor]. Qed.

Lemma exec_req_inv {A} op (k : Res → Prog Op Res A) t b :
  exec (Req op k) t b ↔ ∃ r t', t = (op, r) :: t' ∧ exec (k r) t' b.
Proof. split; [inversion 1; subst; eauto|intros (r&t'&->&?); by constructor]. Qed.

(** Every program has an execution: whatever the shell answers, the program
    issues finitely many operations and returns. *)
Lemma exec_total {A} (answer : nat → Op → Res) (p : Prog Op Res A) n :
  ∃ t a, exec p t a ∧
    (∀ i op r, t !! i = Some (op, r) → r = answer (n + i)%nat op).
Proof.
  revert n. induction p as [a|op k IH]; intros n.
  - exists [], a. split; [constructor|]. intros i op r Hi. destruct i; discriminate Hi.
  - destruct (IH (answer n op) (S n)) as (t&a&Hex&Ht).
    exists ((op, answer n op) :: t), a. split; [by constructor|].
    intros [|i] op' r' Hi; simpl in Hi.
    + rewrite Nat.add_0_r. congruence.
    + apply Ht in Hi. rewrite Hi. f_equal. lia.
Qed.

(** ** Executions under a concrete shell

    [h] answers one operation and updates the shell's state.  [run] returns
    the final state, the operations issued with their answers, and the
    program's result. *)

Fixpoint run {S A} (h : Op → S → Res * S) (p : Prog Op Res A) (s : S) : S * trace * A :=
  match p with
  | Ret a => (s, [], a)
  | Req op k =>
      let '(r, s1) := h op s in
      let '(s2, t, a) := run h (k r) s1 in
      (s2, (op, r) :: t, a)
  end.

Lemma run_exec {S A} (h : Op → S → Res * S) (p : Prog Op Res A) s s' t a :
  run h p s = (s', t, a) → exec p t a.
Proof.
  revert s s' t a. induction p as [a0|op k IH]; intros s s' t a; simpl.
  - intros [= <- <- <-]. constructor.
  - destruct (h op s) as [r s1] eqn:Hh. destruct (run h (k r) s1) as [[s2 t2] a2] eqn:Hr.
    intros [= <- <- <-]. constructor. eauto.
Qed.

Lemma run_bind {S A B} (h : Op → S → Res * S) (p : Prog Op Res A) (f : A → Prog Op Res B) s :
  run h (pbind p f) s =
    let '(s1, t1, a) := run h p s in
    let '(s2, t2, b) := run h (f a) s1 in (s2, t1 ++ t2, b).
Proof.
  revert s. induction p as [a|op k IH]; intros s; simpl.
  - by destruct (run h (f a) s) as [[??]?].
  - destruct (h op s) as [r s1]. rewrite IH.
    destruct (run h (k r) s1) as [[s2 t2] a]. by destruct (run h (f a) s2) as [[??]?].
Qed.

(** ** Monitored executions

    [Q pre e]: the event [e] may follow the trace [pre]; [R t a]: the
    program may return [a] after the trace [t].  [wpm] proves both of every
    execution, one event at a time. *)

Fixpoint always (Q : trace → Op * Res → Prop) (pre t : trace) : Prop :=
  match t with
  | [] => True
  | e :: t => Q pre e ∧ always Q (pre ++ [e]) t
  end.

Definition wpm {A} (Q : trace → Op * Res → Prop) (R : trace → A → Prop) (pre : trace)
    (p : Prog Op Res A) : Prop :=
  wp p (λ t a, always Q pre t ∧ R (pre ++ t) a).

Lemma wpm_ret {A} Q (R : trace → A → Prop) pre a : R pre a → wpm Q R pre (Ret a).
Proof. unfold wpm. simpl. by rewrite app_nil_r. Qed.

Lemma wpm_req {A} Q (R : trace → A → Prop) pre op k :
  (∀ r, Q pre (op, r)) → (∀ r, wpm Q R (pre ++ [(op, r)]) (k r)) → wpm Q R pre (Req op k).
Proof.
  intros HQ Hk r. eapply wp_mono; [|apply (Hk r)]. simpl. intros t a [??].
  rewrite <-app_assoc in *. auto.
Qed.

Lemma wpm_mono {A} Q (R R' : trace → A → Prop) pre p :
  (∀ t a, R t a → R' t a) → wpm Q R pre p → wpm Q R' pre p.
Proof. intros H. apply wp_mono. intros t a [??]. auto. Qed.

Lemma always_app Q pre t1 t2 : always Q pre (t1 ++ t2) ↔ always Q pre t1 ∧ always Q (pre ++ t1) t2.
Proof.
  revert pre. induction t1 as [|e t1 IH]; intros pre; simpl; [rewrite app_nil_r; tauto|].
  rewrite IH, <-app_assoc. simpl. tauto.
Qed.

Lemma wpm_bind {A B} Q (R1 : trace → A → Prop) (R : trace → B → Prop) pre p f :
  wpm Q R1 pre p → (∀ pre' a, R1 pre' a → wpm Q R pre' (f a)) → wpm Q R pre (pbind p f).
Proof.
  intros Hp Hf. apply wp_bind. eapply wp_mono; [|apply Hp]. intros t a [Ht Ha].
  eapply wp_mono; [|by apply Hf]. intros t' b [Ht' Hb].
  rewrite always_app. by rewrite app_assoc.
Qed.

Lemma wpm_exec {A} Q (R : trace → A → Prop) (p : Prog Op Res A) t a :
  wpm Q R [] p → exec p t a →
  (∀ pre e post, t = pre ++ e :: post → Q pre e) ∧ R t a.
Proof.
  intros H He. eapply wp_exec in H as [Ha HR]; [|done]. split; [|done].
  intros pre e post ->. apply always_app in Ha as [_ [HQ _]]. done.
Qed.
(** ** Partial executions

    [steps p t q]: after the operations and answers [t], [p] stands at [q]. *)

Inductive steps {A} : Prog Op Res A → trace → Prog Op Res A → Prop :=
| steps_here p : steps p [] p
| steps_more op k r t q : steps (k r) t q → steps (Req op k) ((op, r) :: t) q.

Lemma steps_snoc {A} (p : Prog Op Res A) t op k r :
  steps p t (Req op k) → steps p (t ++ [(op, r)]) (k r).
Proof.
  intros H. remember (Req op k) as q eqn:Hq. revert Hq.
  induction H as [p|op' k' r' t q H IH]; intros ->; simpl.
  - constructor. constructor.
  - constructor. by apply IH.
Qed.

Lemma steps_exec {A} (p : Prog Op Res A) t q t' a :
  steps p t q → exec q t' a → exec p (t ++ t') a.
Proof. induction 1 as [|op k r t q H IH]; intros He; [done|]. constructor. by apply IH. Qed.

Lemma steps_done {A} (p : Prog Op Res A) t a : steps p t (Ret a) → exec p t a.
Proof. intros H. rewrite <-(app_nil_r t). eapply steps_exec; [done|constructor]. Qed.

(** The monitor holds of every partial execution. *)
Lemma steps_always {A} Q (R : trace → A → Prop) (p : Prog Op Res A) t op k r :
  wpm Q R [] p → steps p t (Req op k) → Q t (op, r).
Proof.
  intros Hw Hs. apply (steps_snoc _ _ _ _ r) in Hs.
  destruct (exec_total (λ _ _, r) (k r) 0) as (t' & a & He & _).
  pose proof (steps_exec _ _ _ _ _ Hs He) as Hx.
  eapply wpm_exec in Hx as [HQ _]; [|exact Hw]. apply (HQ t (op, r) t'). by rewrite <-app_assoc.
Qed.

End prog.
Arguments trace : clear implicits.

Notation "'await' x := op 'in' k" := (Req op (λ x, k))
  (at level 10, x name, op at level 100, k at level 200,
   format "'await'  x  :=  op  'in' '//' k") : rust_scope.
Notation "'call' x := p 'in' k" := (fbind p (λ x, k))
  (at level 10, x name, p at level 100, k at level 200,
   format "'call'  x  :=  p  'in' '//' k") : rust_scope.

(** ** Symbolic execution

    [wp_step] consumes one request by splitting on every answer of the shell;
    [wp_auto] does so to the end and leaves the leaves' goals. *)

Ltac wp_step :=
  lazymatch goal with
  | |- wp (pbind _ _) _ => cbn [pbind fbind]
  | |- wp (fbind _ _) _ => unfold fbind; cbn [pbind]
  | |- wp (Req _ _) _ => let r := fresh "r" in cbn [wp]; intros r; destruct r
  | |- wp (Ret _) _ => cbn [wp]
  | |- wp (match ?x with _ => _ end) _ => destruct x eqn:?
  end.
Ltac wp_auto := repeat (wp_step; try done).

(** The same for monitored executions: the side goals are the monitor's and
    the result's obligations. *)
Ltac wpm_step :=
  lazymatch goal with
  | |- wpm _ _ _ (Req _ _) => apply wpm_req; [intros ?|intros ?]
  | |- wpm _ _ _ (Ret _) => apply wpm_ret
  | |- wpm _ _ _ (match ?x with _ => _ end) => destruct x eqn:?
  end.
