(* ===== verification/Externals.v ===== *)
(** * Third-party code the service relies on

    The crates the sources only call ([hex], [sha2], [p256], [alloy]) are
    parameters: one class each, with the documented behaviour the
    development uses as its laws.  [Concrete] satisfies the laws with
    executable functions. *)
From Stdlib Require Import Ascii String Strings.Byte.
From S2P Require Export Prelude.
From stdpp Require Import options.
#[local] Set Warnings "-register-all".

(** ** [hex]: lowercase encoding, case-insensitive decoding *)

Class HexCrate := {
  hex_encode : bytes → string;
  hex_decode : string → option bytes;
  (** The message of a failed decode. *)
  hex_decode_error : string → string;
  hex_decode_encode b : hex_decode (hex_encode b) = Some b;
  hex_encode_decode s b : hex_decode s = Some b → hex_encode b = to_ascii_lowercase s;
  hex_decode_is_some s :
    is_Some (hex_decode s) ↔ Nat.Even (String.length s) ∧ str_all is_ascii_hexdigit s = true;
  hex_encode_length b : String.length (hex_encode b) = (2 * length b)%nat;
}.

(** ** [sha2] and [alloy]'s keccak: 32-byte digests *)

Class Digests := {
  keccak256 : bytes → bytes;
  sha256 : bytes → bytes;
  keccak256_length b : length (keccak256 b) = 32%nat;
  sha256_length b : length (sha256 b) = 32%nat;
}.

(** ** [p256]: SEC1 points and ECDSA over a prehash *)

Class P256Crate := {
  VerifyingKey : Type;
  Signature : Type;
  (** [PublicKey::from_sec1_bytes(b).is_ok()] *)
  public_key_from_sec1 : bytes → bool;
  verifying_key_from_sec1 : bytes → option VerifyingKey;
  signature_from_scalars : bytes → bytes → option Signature;
  verify_prehash : VerifyingKey → bytes → Signature → bool;
}.

(** ** [alloy]'s ABI coder *)

Inductive AbiType :=
| TUint256 | TUint32 | TBool | TAddress | TString | TBytes | TBytes32
| TArray (t : AbiType)
| TTuple (ts : list AbiType).

Inductive AbiValue :=
| VUint (n : Z)
| VBool (b : bool)
| VAddress (a : bytes)
| VString (s : string)
| VBytes (b : bytes)
| VBytes32 (b : bytes)
| VSeq (vs : list AbiValue).

Fixpoint has_type (t : AbiType) (v : AbiValue) {struct t} : bool :=
  match t, v with
  | TUint256, VUint n => (0 <=? n) && (n <=? U256_MAX)
  | TUint32, VUint n => (0 <=? n) && (n <=? U32_MAX)
  | TBool, VBool _ => true
  | TAddress, VAddress a => (length a =? 20)%nat
  | TString, VString _ => true
  | TBytes, VBytes _ => true
  | TBytes32, VBytes32 b => (length b =? 32)%nat
  | TArray t, VSeq vs => forallb (has_type t) vs
  | TTuple ts, VSeq vs =>
      (fix go ts vs := match ts, vs with
        | [], [] => true
        | t :: ts, v :: vs => has_type t v && go ts vs
        | _, _ => false
        end) ts vs
  | _, _ => false
  end.

Definition has_types (ts : list AbiType) (vs : list AbiValue) : bool :=
  has_type (TTuple ts) (VSeq vs).

Lemma has_types_cons t ts v vs :
  has_types (t :: ts) (v :: vs) = has_type t v && has_types ts vs.
Proof. done. Qed.

Fixpoint utf8_value (v : AbiValue) : bool :=
  match v with
  | VString s => valid_utf8 s
  | VSeq vs => forallb utf8_value vs
  | _ => true
  end.

Class AlloyAbi := {
  (** [(v1, .., vn).abi_encode_params()] *)
  abi_encode_params : list AbiValue → bytes;
  (** [..Call::abi_decode_returns(bytes)], as the tuple of return values *)
  abi_decode_returns : list AbiType → bytes → option (list AbiValue);
  (** The coding of values of one type is unambiguous. *)
  abi_encode_inj ts vs ws :
    has_types ts vs = true → has_types ts ws = true →
    abi_encode_params vs = abi_encode_params ws → vs = ws;
  abi_decode_encode ts vs :
    has_types ts vs = true → forallb utf8_value vs = true →
    abi_decode_returns ts (abi_encode_params vs) = Some vs;
  abi_decode_typed ts b vs : abi_decode_returns ts b = Some vs → has_types ts vs = true;
}.

(** ** Text: [Address::from_str], [str::to_lowercase], [from_utf8_lossy] *)

Class TextCrates := {
  address_parse : string → option bytes;
  address_parse_length s a : address_parse s = Some a → length a = 20%nat;
  (** Unicode lowercasing; ASCII lowercasing on ASCII text. *)
  to_lowercase : string → string;
  to_lowercase_ascii s :
    str_all (in_range 0 127) s = true → to_lowercase s = to_ascii_lowercase s;
  from_utf8_lossy : bytes → string;
  from_utf8_lossy_valid s :
    valid_utf8 s = true → from_utf8_lossy (as_bytes s) = s;
}.

Class Crates := {
  crates_hex :: HexCrate;
  crates_digests :: Digests;
  crates_p256 :: P256Crate;
  crates_abi :: AlloyAbi;
  crates_text :: TextCrates;
}.

(** ** Conversions of fixed-width values *)

(** [U256::from_be_bytes], [to_be_bytes]. *)
Definition from_be_bytes (b : bytes) : Z := fold_left (λ acc x, acc * 256 + byte_val x) b 0.

Definition byte_of_Z (n : Z) : byte := default x00 (Byte.of_N (Z.to_N (n mod 256))).

Fixpoint to_be_bytes (width : nat) (n : Z) : bytes :=
  match width with
  | O => []
  | S w => to_be_bytes w (n / 256) ++ [byte_of_Z n]
  end.

Lemma length_to_be_bytes w n : length (to_be_bytes w n) = w.
Proof. revert n. induction w as [|w IH]; intros n; simpl; [done|]. rewrite length_app, IH. simpl. lia. Qed.

Lemma byte_val_of_Z n : byte_val (byte_of_Z n) = n mod 256.
Proof.
  unfold byte_val, byte_of_Z. pose proof (Z.mod_pos_bound n 256 ltac:(lia)) as Hb.
  destruct (Byte.of_N (Z.to_N (n mod 256))) as [b|] eqn:E; simpl.
  - apply Byte.to_of_N in E. rewrite E. lia.
  - apply Byte.of_N_None_iff in E. lia.
Qed.

Lemma from_be_bytes_app b c : from_be_bytes (b ++ [c]) = from_be_bytes b * 256 + byte_val c.
Proof. unfold from_be_bytes. by rewrite fold_left_app. Qed.

Lemma from_to_be_bytes w n : from_be_bytes (to_be_bytes w n) = n mod 2 ^ (8 * Z.of_nat w).
Proof.
  revert n. induction w as [|w IH]; intros n; simpl to_be_bytes; [by rewrite Z.mod_1_r|].
  rewrite from_be_bytes_app, IH, byte_val_of_Z.
  replace (8 * Z.of_nat (S w)) with (8 + 8 * Z.of_nat w) by lia.
  rewrite Z.pow_add_r by lia. change (2 ^ 8) with 256.
  assert (0 < 2 ^ (8 * Z.of_nat w)) by (apply Z.pow_pos_nonneg; lia).
  rewrite Z.rem_mul_r by lia. lia.
Qed.

Lemma from_be_bytes_range b : 0 ≤ from_be_bytes b < 256 ^ Z.of_nat (length b).
Proof.
  induction b as [|c b IH] using rev_ind; [done|].
  rewrite from_be_bytes_app, length_app. simpl length.
  pose proof (byte_val_range c). rewrite Nat2Z.inj_add, Z.pow_add_r by lia.
  change (256 ^ Z.of_nat 1) with 256. nia.
Qed.

Lemma from_be_bytes_inj b1 b2 :
  length b1 = length b2 → from_be_bytes b1 = from_be_bytes b2 → b1 = b2.
Proof.
  revert b2. induction b1 as [|c b1 IH] using rev_ind; intros b2 Hl H.
  - by destruct b2.
  - destruct b2 as [|c2 b2 _] using rev_ind; [rewrite length_app in Hl; simpl in Hl; lia|].
    rewrite !length_app in Hl. simpl in Hl. rewrite !from_be_bytes_app in H.
    pose proof (byte_val_range c). pose proof (byte_val_range c2).
    assert (from_be_bytes b1 = from_be_bytes b2 ∧ byte_val c = byte_val c2) as [E1 E2%byte_val_inj] by lia.
    rewrite (IH b2), E2 by (done || lia). done.
Qed.

(** The [Display]/[{:#x}] form of a [B256]. *)
Definition fmt_b256 `{HexCrate} (h : bytes) : string := "0x" +:+ hex_encode h.

(** A call's calldata: the function's selector, then its arguments. *)
Definition abi_encode_call `{Crates} (signature : string) (args : list AbiValue) : bytes :=
  take 4 (keccak256 (as_bytes signature)) ++ abi_encode_params args.

Section derived.
Context `{C : Crates}.

Lemma hex_encode_inj b1 b2 : hex_encode b1 = hex_encode b2 → b1 = b2.
Proof.
  intros H. pose proof (hex_decode_encode b1) as E. rewrite H, hex_decode_encode in E.
  by simplify_eq.
Qed.

Lemma hex_encode_digits b : str_all is_ascii_hexdigit (hex_encode b) = true.
Proof. apply hex_decode_is_some. rewrite hex_decode_encode. eauto. Qed.

Lemma hex_encode_lower b : to_ascii_lowercase (hex_encode b) = hex_encode b.
Proof. symmetry. apply hex_encode_decode, hex_decode_encode. Qed.

Lemma hex_decode_length s b : hex_decode s = Some b → String.length s = (2 * length b)%nat.
Proof.
  intros H. rewrite <-hex_encode_length, (hex_encode_decode s b H).
  by rewrite length_to_ascii_lowercase.
Qed.

Lemma hex_encode_nil : hex_encode [] = "".
Proof. pose proof (hex_encode_length []) as E. by destruct (hex_encode []). Qed.

Lemma fmt_b256_inj h1 h2 : fmt_b256 h1 = fmt_b256 h2 → h1 = h2.
Proof. unfold fmt_b256. intros [=]. by apply hex_encode_inj. Qed.
End derived.
#[export] Hint Rewrite @hex_decode_encode @hex_encode_length @hex_encode_lower @hex_encode_nil
  @keccak256_length @sha256_length @length_to_be_bytes : registry.
