(* ===== verification/Concrete.v ===== *)
(** * Concrete crates

    Executable functions that satisfy the laws of [Externals]: the hex coder
    is the real one, the digests, curve and ABI coder are stand-ins.  They
    are used to evaluate the model on examples only. *)
From Stdlib Require Import Ascii String Strings.Byte.
From S2P Require Export Externals.
From stdpp Require Import options.

(** ** Hex *)

Definition digit (n : Z) : ascii :=
  ascii_of_N (Z.to_N (if n <? 10 then 48 + n else 87 + n)).

Definition undigit (c : ascii) : option Z :=
  let n := code c in
  if (48 <=? n) && (n <=? 57) then Some (n - 48)
  else if (65 <=? n) && (n <=? 70) then Some (n - 55)
  else if (97 <=? n) && (n <=? 102) then Some (n - 87)
  else None.

Fixpoint hex_enc (b : bytes) : string :=
  match b with
  | [] => EmptyString
  | x :: b => String (digit (byte_val x / 16)) (String (digit (byte_val x mod 16)) (hex_enc b))
  end.

Fixpoint hex_dec (s : string) : option bytes :=
  match s with
  | EmptyString => Some []
  | String c1 (String c2 s) =>
      h ← undigit c1; l ← undigit c2; b ← hex_dec s; Some (byte_of_Z (h * 16 + l) :: b)
  | _ => None
  end.

Lemma undigit_digit n : 0 ≤ n < 16 → undigit (digit n) = Some n.
Proof.
  intros Hn.
  assert (H : forallb (λ n, bool_decide (undigit (digit n) = Some n)) (seqZ 0 16) = true)
    by by vm_compute.
  rewrite forallb_forall in H. eapply bool_decide_eq_true, H, list_elem_of_In, elem_of_seqZ. lia.
Qed.

Lemma undigit_inv c n : undigit c = Some n → 0 ≤ n < 16 ∧ digit n = ascii_lower c.
Proof.
  assert (H : match undigit c with
    | Some n => (0 <=? n) && (n <? 16) && Ascii.eqb (digit n) (ascii_lower c)
    | None => true end = true) by by destruct c as [[] [] [] [] [] [] [] []].
  intros E. rewrite E in H. apply andb_true_iff in H as [H H2%Ascii.eqb_eq]. split; [lia|done].
Qed.

Lemma undigit_is_some c : is_Some (undigit c) ↔ is_ascii_hexdigit c = true.
Proof.
  unfold undigit, is_ascii_hexdigit.
  repeat case_match; simpl in *; split; intros; eauto; try done; by destruct H as [??].
Qed.

Lemma byte_of_val x : byte_of_Z (byte_val x) = x.
Proof.
  apply byte_val_inj. rewrite byte_val_of_Z. apply Z.mod_small, byte_val_range.
Qed.

Lemma hex_dec_enc b : hex_dec (hex_enc b) = Some b.
Proof.
  induction b as [|x b IH]; simpl; [done|]. pose proof (byte_val_range x).
  assert (E : byte_of_Z (byte_val x / 16 * 16 + byte_val x mod 16) = x).
  { transitivity (byte_of_Z (byte_val x)); [|apply byte_of_val]. f_equal.
    pose proof (Z.div_mod (byte_val x) 16 ltac:(lia)). lia. }
  rewrite !undigit_digit by (Z.div_mod_to_equations; lia). cbn. rewrite IH. cbn. by rewrite E.
Qed.

Lemma string_pair_ind (P : string → Prop) :
  P "" → (∀ c, P (String c "")) → (∀ c1 c2 s, P s → P (String c1 (String c2 s))) → ∀ s, P s.
Proof.
  intros H0 H1 H2 s. enough (P s ∧ ∀ c, P (String c s)) by tauto.
  induction s as [|c s [IH1 IH2]]; split; auto.
Qed.

Lemma hex_enc_dec s b : hex_dec s = Some b → hex_enc b = to_ascii_lowercase s.
Proof.
  unfold to_ascii_lowercase. revert b.
  induction s as [|c|c1 c2 s IH] using string_pair_ind; intros b; simpl; [by intros [= <-]|done|].
  destruct (undigit c1) as [h|] eqn:E1, (undigit c2) as [l|] eqn:E2, (hex_dec s) as [b'|]; simpl;
    try done. intros [= <-]. simpl.
  apply undigit_inv in E1 as [? <-], E2 as [? <-].
  rewrite byte_val_of_Z, Z.mod_small by lia.
  rewrite (IH b'), Z.div_add_l, Z.div_small, Z.add_0_r by (done || lia).
  rewrite Z.add_comm, Z.mod_add, Z.mod_small by lia. done.
Qed.

Lemma hex_dec_is_some s :
  is_Some (hex_dec s) ↔ Nat.Even (String.length s) ∧ str_all is_ascii_hexdigit s = true.
Proof.
  induction s as [|c|c1 c2 s IH] using string_pair_ind; simpl.
  - split; [split; [by exists 0%nat|done]|eauto].
  - split; [by intros [??]|intros [[n ?] _]; lia].
  - rewrite !andb_true_iff, <-!undigit_is_some, Nat.Even_succ_succ.
    transitivity (is_Some (undigit c1) ∧ is_Some (undigit c2) ∧ is_Some (hex_dec s));
      [|rewrite IH; tauto].
    clear IH. destruct (undigit c1), (undigit c2), (hex_dec s); simpl; unfold is_Some; naive_solver.
Qed.

Lemma hex_enc_length b : String.length (hex_enc b) = (2 * length b)%nat.
Proof. induction b as [|x b IH]; simpl; [done|]. rewrite IH. lia. Qed.

#[local] Instance concrete_hex : HexCrate := {|
  hex_decode_error s := "Invalid string length or character";
  hex_decode_encode := hex_dec_enc;
  hex_encode_decode := hex_enc_dec;
  hex_decode_is_some := hex_dec_is_some;
  hex_encode_length := hex_enc_length;
|}.

(** ** Digests: a 32-bit polynomial checksum, padded to 32 bytes

    The checksum comes first, so that it is also the four-byte selector. *)

Definition checksum (seed : Z) (b : bytes) : bytes :=
  to_be_bytes 4 (fold_left (λ h x, Z.land (h * 257 + byte_val x + 1) 0xFFFFFFFF) b seed) ++
  replicate 28 x00.

Lemma checksum_length seed b : length (checksum seed b) = 32%nat.
Proof. unfold checksum. by rewrite length_app, length_to_be_bytes. Qed.

#[local] Instance concrete_digests : Digests := {|
  keccak256 := checksum 1;
  sha256 := checksum 2;
  keccak256_length := checksum_length 1;
  sha256_length := checksum_length 2;
|}.

(** ** A curve whose signatures carry the signed digest in [r] *)

Definition sec1_shape (b : bytes) : bool :=
  (length b =? 65)%nat && match b with x :: _ => byte_val x =? 4 | [] => false end.

#[local] Instance concrete_p256 : P256Crate := {|
  VerifyingKey := bytes;
  Signature := bytes * bytes;
  public_key_from_sec1 := sec1_shape;
  verifying_key_from_sec1 b := if sec1_shape b then Some b else None;
  signature_from_scalars r s := if from_be_bytes s =? 0 then None else Some (r, s);
  verify_prehash _ digest sg := bool_decide (sg.1 = digest);
|}.

(** ** A self-delimiting coder of ABI values *)

Fixpoint enc_bytes (b : bytes) : bytes :=
  match b with [] => [x00] | x :: b => x01 :: x :: enc_bytes b end.

Fixpoint dec_bytes (b : bytes) : option (bytes * bytes) :=
  match b with
  | x00 :: r => Some ([], r)
  | x01 :: x :: r => '(b, r) ← dec_bytes r; Some (x :: b, r)
  | _ => None
  end.

Fixpoint enc_pos (p : positive) : bytes :=
  match p with xH => [x02] | xO p => x00 :: enc_pos p | xI p => x01 :: enc_pos p end.

Fixpoint dec_pos (b : bytes) : option (positive * bytes) :=
  match b with
  | x02 :: r => Some (xH, r)
  | x00 :: r => '(p, r) ← dec_pos r; Some (xO p, r)
  | x01 :: r => '(p, r) ← dec_pos r; Some (xI p, r)
  | _ => None
  end.

Definition enc_Z (n : Z) : bytes :=
  match n with Z0 => [x00] | Zpos p => x01 :: enc_pos p | Zneg p => x02 :: enc_pos p end.

Definition dec_Z (b : bytes) : option (Z * bytes) :=
  match b with
  | x00 :: r => Some (0, r)
  | x01 :: r => '(p, r) ← dec_pos r; Some (Zpos p, r)
  | x02 :: r => '(p, r) ← dec_pos r; Some (Zneg p, r)
  | _ => None
  end.

Fixpoint enc_value (v : AbiValue) : bytes :=
  match v with
  | VUint n => x00 :: enc_Z n
  | VBool b => [x01; if b then x01 else x00]
  | VAddress b => x02 :: enc_bytes b
  | VString s => x03 :: enc_bytes (list_byte_of_string s)
  | VBytes b => x04 :: enc_bytes b
  | VBytes32 b => x05 :: enc_bytes b
  | VSeq vs => x06 :: foldr (λ v r, x01 :: enc_value v ++ r) [x00] vs
  end.

Definition enc_values (vs : list AbiValue) : bytes :=
  foldr (λ v r, x01 :: enc_value v ++ r) [x00] vs.

Fixpoint dec_list (d : bytes → option (AbiValue * bytes)) (fuel : nat) (b : bytes)
    : option (list AbiValue * bytes) :=
  match fuel with
  | O => None
  | S fuel =>
      match b with
      | x00 :: r => Some ([], r)
      | x01 :: r => '(v, r) ← d r; '(vs, r) ← dec_list d fuel r; Some (v :: vs, r)
      | _ => None
      end
  end.

Fixpoint dec_value (fuel : nat) (b : bytes) : option (AbiValue * bytes) :=
  match fuel with
  | O => None
  | S fuel =>
      match b with
      | x00 :: r => '(n, r) ← dec_Z r; Some (VUint n, r)
      | x01 :: x :: r => Some (VBool (bool_decide (x = x01)), r)
      | x02 :: r => '(b, r) ← dec_bytes r; Some (VAddress b, r)
      | x03 :: r => '(b, r) ← dec_bytes r; Some (VString (string_of_list_byte b), r)
      | x04 :: r => '(b, r) ← dec_bytes r; Some (VBytes b, r)
      | x05 :: r => '(b, r) ← dec_bytes r; Some (VBytes32 b, r)
      | x06 :: r => '(vs, r) ← dec_list (dec_value fuel) fuel r; Some (VSeq vs, r)
      | _ => None
      end
  end.

Lemma dec_enc_bytes b r : dec_bytes (enc_bytes b ++ r) = Some (b, r).
Proof. induction b as [|x b IH]; cbn; [done|]. by rewrite IH. Qed.

Lemma dec_enc_pos p r : dec_pos (enc_pos p ++ r) = Some (p, r).
Proof. induction p as [p IH|p IH|]; cbn; by rewrite ?IH. Qed.

Lemma dec_enc_Z n r : dec_Z (enc_Z n ++ r) = Some (n, r).
Proof. destruct n; cbn; by rewrite ?dec_enc_pos. Qed.

Lemma dec_enc_list vs fuel r :
  (∀ v r, v ∈ vs → dec_value fuel (enc_value v ++ r) = Some (v, r)) →
  ∀ k, (length vs < k)%nat →
  dec_list (dec_value fuel) k (enc_values vs ++ r) = Some (vs, r).
Proof.
  induction vs as [|v vs IH]; intros Hd [|k] Hk; simpl in Hk; try lia; [done|].
  cbn. rewrite <-app_assoc, Hd by set_solver. cbn.
  rewrite IH; [done|intros; apply Hd; set_solver|lia].
Qed.

Lemma enc_values_length vs v :
  v ∈ vs → (length (enc_value v) < length (enc_values vs))%nat.
Proof.
  induction vs as [|w vs IH]; [set_solver|]. intros [->|H]%elem_of_cons; cbn; rewrite length_app.
  - lia.
  - apply IH in H. unfold enc_values in *. lia.
Qed.

Lemma length_enc_values vs : (length vs < length (enc_values vs))%nat.
Proof. induction vs as [|v vs IH]; cbn; [lia|]. rewrite length_app. unfold enc_values in *. lia. Qed.

Lemma dec_enc_value fuel v r :
  (length (enc_value v) ≤ fuel)%nat → dec_value fuel (enc_value v ++ r) = Some (v, r).
Proof.
  revert v r. induction fuel as [|fuel IH]; intros v r Hf; [by destruct v; simpl in Hf; lia|].
  destruct v as [n|[]|b|s|b|b|vs]; cbn in *;
    rewrite ?dec_enc_Z, ?dec_enc_bytes; cbn; rewrite ?string_of_list_byte_of_string; try done.
  fold (enc_values vs) in *.
  rewrite dec_enc_list; [done| |].
  - intros v r' Hv%enc_values_length. apply IH. lia.
  - pose proof (length_enc_values vs). lia.
Qed.

Definition dec_values (ts : list AbiType) (b : bytes) : option (list AbiValue) :=
  '(vs, _) ← dec_list (dec_value (length b)) (length b) b;
  if has_types ts vs then Some vs else None.

Lemma dec_enc_values vs :
  dec_list (dec_value (length (enc_values vs))) (length (enc_values vs)) (enc_values vs) =
    Some (vs, []).
Proof.
  rewrite <-(app_nil_r (enc_values vs)) at 3. apply dec_enc_list.
  - intros v r Hv%enc_values_length. apply dec_enc_value. lia.
  - apply length_enc_values.
Qed.

#[local, refine] Instance concrete_abi : AlloyAbi := {|
  abi_encode_params := enc_values;
  abi_decode_returns := dec_values;
|}.
Proof.
  - intros ts vs ws _ _ H. pose proof (dec_enc_values vs) as E.
    rewrite H, dec_enc_values in E. by simplify_eq.
  - intros ts vs H _. unfold dec_values. rewrite dec_enc_values.
    cbn [mbind option_bind]. by rewrite H.
  - intros ts b vs. unfold dec_values. destruct (dec_list _ _ b) as [[ws r]|]; cbn; [|done].
    case_match; [|done]. by intros [= <-].
Defined.

(** ** Text *)

Definition parse_address (s : string) : option bytes :=
  b ← hex_dec (strip_0x s); if (length b =? 20)%nat then Some b else None.

#[local, refine] Instance concrete_text : TextCrates := {|
  address_parse := parse_address;
  to_lowercase := to_ascii_lowercase;
  from_utf8_lossy := string_of_list_byte;
|}.
Proof.
  - intros s a. unfold parse_address. destruct (hex_dec (strip_0x s)); simpl; [|done].
    destruct (Nat.eqb_spec (length l) 20); [|done]. by intros [= <-].
  - done.
  - intros s _. apply string_of_list_byte_of_string.
Defined.

Definition concrete_crates : Crates := Build_Crates _ _ _ _ _.
