(* ===== verification/Task.v ===== *)
(** * The task vocabulary ([p256-registrar/src/task.rs])

    One chain write from an accepted request to its on-chain outcome. *)
From S2P Require Export Prelude.
From stdpp Require Import options.

Record Proof_ := mkProof {
  authenticator_data : string;
  client_data_json : string;
  challenge_index : Z;
  type_index : Z;
  proof_r : string;
  proof_s : string;
}.

Record Member := mkMember {
  public_key : string;
  attestation : string;
  credential_id : string;
  authenticator_attachment : string;
  transports : string;
  proof : Proof_;
}.

Inductive TaskKind := Register | Refer.
Inductive TaskStatus := Pending | Done | Failed.

Definition is_terminal (st : TaskStatus) : bool :=
  match st with Done | Failed => true | Pending => false end.

Record RegisterTask := mkTask {
  task_id : string;
  status : TaskStatus;
  kind : TaskKind;
  rp_id : string;
  metadata : string;
  content_hash : string;
  group_public_key : string;
  group_proof : option Proof_;
  members : list Member;
  tx_hash : option string;
  on_chain_id : option Z;
  task_error : option string;
  retries : Z;
  created_at : Z;
  admitted : bool;
}.

#[export] Instance proof_eq_dec : EqDecision Proof_.
Proof. solve_decision. Defined.
#[export] Instance member_eq_dec : EqDecision Member.
Proof. solve_decision. Defined.
#[export] Instance task_kind_eq_dec : EqDecision TaskKind.
Proof. solve_decision. Defined.
#[export] Instance task_status_eq_dec : EqDecision TaskStatus.
Proof. solve_decision. Defined.
#[export] Instance task_eq_dec : EqDecision RegisterTask.
Proof. solve_decision. Defined.

(** Field updates ([task.field = value] on a [mut] task). *)
Definition set_content_hash (h : string) (t : RegisterTask) : RegisterTask :=
  mkTask (task_id t) (status t) (kind t) (rp_id t) (metadata t) h (group_public_key t)
    (group_proof t) (members t) (tx_hash t) (on_chain_id t) (task_error t) (retries t)
    (created_at t) (admitted t).

Definition set_admitted (b : bool) (t : RegisterTask) : RegisterTask :=
  mkTask (task_id t) (status t) (kind t) (rp_id t) (metadata t) (content_hash t)
    (group_public_key t) (group_proof t) (members t) (tx_hash t) (on_chain_id t)
    (task_error t) (retries t) (created_at t) b.

Definition set_retries (n : Z) (t : RegisterTask) : RegisterTask :=
  mkTask (task_id t) (status t) (kind t) (rp_id t) (metadata t) (content_hash t)
    (group_public_key t) (group_proof t) (members t) (tx_hash t) (on_chain_id t)
    (task_error t) n (created_at t) (admitted t).

Definition set_error (e : option string) (t : RegisterTask) : RegisterTask :=
  mkTask (task_id t) (status t) (kind t) (rp_id t) (metadata t) (content_hash t)
    (group_public_key t) (group_proof t) (members t) (tx_hash t) (on_chain_id t)
    e (retries t) (created_at t) (admitted t).

Definition set_status (st : TaskStatus) (t : RegisterTask) : RegisterTask :=
  mkTask (task_id t) st (kind t) (rp_id t) (metadata t) (content_hash t)
    (group_public_key t) (group_proof t) (members t) (tx_hash t) (on_chain_id t)
    (task_error t) (retries t) (created_at t) (admitted t).

Definition set_tx_hash (h : option string) (t : RegisterTask) : RegisterTask :=
  mkTask (task_id t) (status t) (kind t) (rp_id t) (metadata t) (content_hash t)
    (group_public_key t) (group_proof t) (members t) h (on_chain_id t)
    (task_error t) (retries t) (created_at t) (admitted t).

Definition set_on_chain_id (n : option Z) (t : RegisterTask) : RegisterTask :=
  mkTask (task_id t) (status t) (kind t) (rp_id t) (metadata t) (content_hash t)
    (group_public_key t) (group_proof t) (members t) (tx_hash t) n
    (task_error t) (retries t) (created_at t) (admitted t).
