(* ===== verification/Protocol.v ===== *)
(** * The registry protocol ([p256-registrar/src/protocol.rs], write half)

    Chain-error classification, hex parsing, challenge and content hashes,
    calldata.  The read half (decoders) is in [Records]. *)
From S2P Require Export Externals Task Concrete.
From stdpp Require Import options.

Definition CHAIN_ID : Z := 100.
Definition SELECTOR_GROUP_KEY_ALREADY_USED : string := "0x10eafb1a".
Definition SELECTOR_ALREADY_REFERENCED : string := "0x40709c5d".
Definition SELECTOR_GROUP_NOT_FOUND : string := "0xdec308b4".
Definition SELECTOR_INVALID_PROOF : string := "0x09bde339".
Definition GROUP_CREATED_TOPIC : string :=
  "0xec8fb064abac351ab712c446266da8b3539b1c844ef0651babfc85a96f4f8186".
Definition REFERENCE_CREATED_TOPIC : string :=
  "0xac974b7eb67da8eca98f625293e583be13beee67950dcea8c78710b4964b118a".

(** ** Chain errors *)

Inductive ChainError :=
| Unavailable
| Reverted (text : string)
| InvalidResponse
| MissingSigner
| Rejected (text : string).
#[export] Instance chain_error_eq_dec : EqDecision ChainError.
Proof. solve_decision. Defined.

Definition chain_error_display (e : ChainError) : string :=
  match e with
  | Unavailable => "chain RPC temporarily unavailable"
  | Reverted _ => "EVM execution reverted"
  | InvalidResponse => "chain RPC returned an invalid response"
  | MissingSigner => "PRIVATE_KEY is required for chain writes"
  | Rejected _ => "chain RPC rejected the request"
  end.

Definition is_revert (value : string) : bool :=
  let value := to_ascii_lowercase value in
  str_contains "execution reverted" value
  || str_contains "revert" value
  || str_contains SELECTOR_GROUP_KEY_ALREADY_USED value
  || str_contains SELECTOR_ALREADY_REFERENCED value
  || str_contains SELECTOR_INVALID_PROOF value.

Definition is_group_not_found_error (e : ChainError) : bool :=
  match e with
  | Reverted value | Rejected value =>
      str_contains "GroupNotFound" value || str_contains SELECTOR_GROUP_NOT_FOUND value
  | _ => false
  end.

Definition is_already_exists_error (e : ChainError) : bool :=
  match e with
  | Reverted value | Rejected value =>
      str_contains "GroupKeyAlreadyUsed" value
      || str_contains SELECTOR_GROUP_KEY_ALREADY_USED value
      || str_contains "AlreadyReferenced" value
      || str_contains SELECTOR_ALREADY_REFERENCED value
  | _ => false
  end.

Definition is_replacement_underpriced (e : ChainError) : bool :=
  match e with
  | Rejected value | Reverted value =>
      let value := to_ascii_lowercase value in
      str_contains "underpriced" value
      || str_contains "replacement transaction" value
      || str_contains "already known" value
  | _ => false
  end.

Definition is_transient (e : ChainError) : bool :=
  match e with
  | Unavailable | InvalidResponse => true
  | Rejected value =>
      negb (is_revert value)
      && negb (str_contains "GroupKeyAlreadyUsed" value)
      && negb (str_contains "AlreadyReferenced" value)
      && negb (str_contains "InvalidProof" value)
  | Reverted _ | MissingSigner => false
  end.

Inductive ErrorClass := AlreadyExists | Transient | Poison.

Definition classify_chain_error (e : ChainError) : ErrorClass :=
  if is_already_exists_error e then AlreadyExists
  else if is_group_not_found_error e || is_transient e then Transient
  else Poison.

Section protocol.
Context `{C : Crates}.

(** ** Hex *)

Definition parse_hex_bytes (value : string) : result bytes string :=
  let raw := strip_0x value in
  if negb (Nat.even (String.length raw)) then Err "invalid hex"
  else ok_or (hex_decode_error raw) (hex_decode raw).

Definition parse_b256 (value : string) : result bytes string :=
  try b := parse_hex_bytes value in
  if negb (length b =? 32)%nat then Err "expected 32 bytes" else Ok b.

(** ** Challenges and hashes *)

Definition challenge_for (chain_id : Z) (registry : bytes) (rp_id : string)
    (public_key binding : bytes) : bytes :=
  keccak256 (abi_encode_params
    [VUint chain_id; VAddress registry; VString rp_id; VBytes public_key; VBytes32 binding]).

Definition member_binding_for (group_public_key attestation : bytes) : bytes :=
  keccak256 (abi_encode_params [VBytes group_public_key; VBytes attestation]).

Definition reference_binding_for (group_public_key attestation metadata : bytes) : bytes :=
  keccak256 (abi_encode_params
    [VBytes group_public_key; VBytes attestation; VBytes metadata]).

(** One turn of the loop over the members. *)
Definition member_hash (m : Member) : result bytes string :=
  try key := parse_hex_bytes (public_key m) in
  try att := parse_hex_bytes (attestation m) in
  Ok (keccak256 (abi_encode_params [VBytes key; VBytes att])).

Definition content_hash_for (task : RegisterTask) : result bytes string :=
  try group := parse_hex_bytes (group_public_key task) in
  try metadata := parse_hex_bytes (metadata task) in
  try member_hashes := rmap member_hash (members task) in
  match kind task with
  | Register =>
      Ok (keccak256 (abi_encode_params
        [VString (rp_id task); VBytes metadata; VBytes group;
         VSeq (VBytes32 <$> member_hashes)]))
  | Refer =>
      try member := ok_or "refer task has no member" (head (members task)) in
      try member_key := parse_hex_bytes (public_key member) in
      Ok (keccak256 (abi_encode_params [VBytes group; VBytes member_key]))
  end.

(** ** Calldata *)

Definition proof_sol (p : Proof_) : result AbiValue string :=
  try auth := parse_hex_bytes (authenticator_data p) in
  try r := parse_b256 (proof_r p) in
  try s := parse_b256 (proof_s p) in
  Ok (VSeq [VBytes auth; VString (client_data_json p); VUint (challenge_index p);
            VUint (type_index p); VUint (from_be_bytes r); VUint (from_be_bytes s)]).

Definition member_sol (m : Member) : result AbiValue string :=
  try key := parse_hex_bytes (public_key m) in
  try att := parse_hex_bytes (attestation m) in
  try cred := parse_hex_bytes (credential_id m) in
  try p := proof_sol (proof m) in
  Ok (VSeq [VBytes key; VBytes att; VBytes cred;
            VBytes (as_bytes (authenticator_attachment m));
            VBytes (as_bytes (transports m)); p]).

Definition PROOF_SIG : string := "(bytes,string,uint256,uint256,uint256,uint256)".
Definition MEMBER_SIG : string := "(bytes,bytes,bytes,bytes,bytes," +:+ PROOF_SIG +:+ ")".

Definition register_args (task : RegisterTask) : result (list AbiValue) string :=
  try members := rmap member_sol (members task) in
  try group_proof := ok_or "register task has no group proof" (group_proof task) in
  try metadata := parse_hex_bytes (metadata task) in
  try group := parse_hex_bytes (group_public_key task) in
  try gp := proof_sol group_proof in
  Ok [VString (rp_id task); VBytes metadata; VBytes group; gp; VSeq members].

Definition register_calldata (task : RegisterTask) : result bytes string :=
  try args := register_args task in
  Ok (abi_encode_call
    ("register(string,bytes,bytes," +:+ PROOF_SIG +:+ "," +:+ MEMBER_SIG +:+ "[])") args).

Definition refer_args (task : RegisterTask) : result (list AbiValue) string :=
  try member := ok_or "refer task has no member" (head (members task)) in
  try group := parse_hex_bytes (group_public_key task) in
  try metadata := parse_hex_bytes (metadata task) in
  try m := member_sol member in
  Ok [VBytes group; VBytes metadata; m].

Definition refer_calldata (task : RegisterTask) : result bytes string :=
  try args := refer_args task in
  Ok (abi_encode_call ("refer(bytes,bytes," +:+ MEMBER_SIG +:+ ")") args).

Definition write_calldata (task : RegisterTask) : result bytes string :=
  match kind task with
  | Register => register_calldata task
  | Refer => refer_calldata task
  end.

(** ** What a hash covers *)

(** The hash never maps two of the listed inputs to one digest. *)
Definition collision_free (l : list bytes) : Prop :=
  ∀ x y, x ∈ l → y ∈ l → keccak256 x = keccak256 y → x = y.

Definition collision_freeb (l : list bytes) : bool :=
  forallb (λ x, forallb (λ y,
    implb (bool_decide (keccak256 x = keccak256 y)) (bool_decide (x = y))) l) l.

Definition member_content (m : Member) : result (bytes * bytes) string :=
  try key := parse_hex_bytes (public_key m) in
  try att := parse_hex_bytes (attestation m) in
  Ok (key, att).

(** The fields a Register content hash identifies: rpId, metadata, group
    key, and each member's key and attestation in order. *)
Definition register_content (t : RegisterTask)
    : result (string * bytes * bytes * list (bytes * bytes)) string :=
  try group := parse_hex_bytes (group_public_key t) in
  try md := parse_hex_bytes (metadata t) in
  try ms := rmap member_content (members t) in
  Ok (rp_id t, md, group, ms).

Definition member_preimage (c : bytes * bytes) : bytes :=
  abi_encode_params [VBytes c.1; VBytes c.2].
Definition unit_preimage (rp : string) (md group : bytes) (hashes : list bytes) : bytes :=
  abi_encode_params [VString rp; VBytes md; VBytes group; VSeq (VBytes32 <$> hashes)].

(** Every byte string hashed on the way to a Register content hash. *)
Definition register_preimages (t : RegisterTask) : list bytes :=
  match register_content t with
  | Ok (rp, md, group, ms) =>
      unit_preimage rp md group (keccak256 ∘ member_preimage <$> ms) :: (member_preimage <$> ms)
  | Err _ => []
  end.

(** The fields a Refer content hash identifies: the group and the key. *)
Definition refer_content (t : RegisterTask) : result (bytes * bytes) string :=
  try group := parse_hex_bytes (group_public_key t) in
  try member := ok_or "refer task has no member" (head (members t)) in
  try key := parse_hex_bytes (public_key member) in
  Ok (group, key).

Definition refer_preimages (t : RegisterTask) : list bytes :=
  match refer_content t with
  | Ok (group, key) => [abi_encode_params [VBytes group; VBytes key]]
  | Err _ => []
  end.

(** ** Lemmas *)

Lemma collision_freeb_spec l : collision_freeb l = true → collision_free l.
Proof.
  unfold collision_freeb. rewrite forallb_forall. setoid_rewrite forallb_forall.
  intros H x y Hx%list_elem_of_In Hy%list_elem_of_In E. specialize (H x Hx y Hy).
  rewrite (bool_decide_eq_true_2 _ E) in H. by apply bool_decide_eq_true in H.
Qed.

Lemma parse_hex_bytes_ok s b : parse_hex_bytes s = Ok b ↔ hex_decode (strip_0x s) = Some b.
Proof.
  unfold parse_hex_bytes. split.
  - case_match; [done|]. intros. by res_inv.
  - intros E. rewrite E. destruct (proj1 (hex_decode_is_some (strip_0x s))) as [He _]; [eauto|].
    apply Nat.even_spec in He. rewrite He. done.
Qed.

Lemma parse_hex_bytes_encode b : parse_hex_bytes ("0x" +:+ hex_encode b) = Ok b.
Proof.
  apply parse_hex_bytes_ok. unfold strip_0x. rewrite strip_prefix_app. simpl.
  apply hex_decode_encode.
Qed.

Lemma parse_hex_bytes_empty : parse_hex_bytes "" = Ok [].
Proof.
  apply parse_hex_bytes_ok. unfold strip_0x. simpl. rewrite <-hex_encode_nil.
  apply hex_decode_encode.
Qed.

Lemma parse_b256_ok s b : parse_b256 s = Ok b ↔ parse_hex_bytes s = Ok b ∧ length b = 32%nat.
Proof.
  unfold parse_b256. rewrite rbind_ok. split.
  - intros (b'&Hp&H). destruct (Nat.eqb_spec (length b') 32); simpl in H; by simplify_eq.
  - intros [Hp Hl]. exists b. rewrite Hp, Hl. done.
Qed.

Lemma member_hash_ok m h :
  member_hash m = Ok h ↔ ∃ c, member_content m = Ok c ∧ h = keccak256 (member_preimage c).
Proof.
  unfold member_hash, member_content. split.
  - intros H. res_inv. subst. rewrite Hok. simpl. rewrite Hok0. simpl. eauto.
  - intros (c & H & ->). res_inv. subst. rewrite Hok. simpl. rewrite Hok0. done.
Qed.

Lemma member_hashes_ok ms hs :
  rmap member_hash ms = Ok hs ↔
  ∃ cs, rmap member_content ms = Ok cs ∧ hs = keccak256 ∘ member_preimage <$> cs.
Proof.
  rewrite rmap_ok. setoid_rewrite rmap_ok. split.
  - induction 1 as [|m h ms hs (c & Hc & ->)%member_hash_ok _ (cs & Hcs & ->)].
    + exists []. split; [constructor|done].
    + exists (c :: cs). split; [by constructor|done].
  - intros (cs & Hcs & ->). induction Hcs as [|m c ms cs Hm _ IH]; simpl; constructor; [|done].
    apply member_hash_ok. eauto.
Qed.

Lemma content_hash_register t h :
  kind t = Register →
  content_hash_for t = Ok h ↔ ∃ rp md group cs,
    register_content t = Ok (rp, md, group, cs) ∧
    h = keccak256 (unit_preimage rp md group (keccak256 ∘ member_preimage <$> cs)).
Proof.
  intros Hk. unfold content_hash_for, register_content. rewrite Hk. split.
  - intros H. res_inv. subst. apply member_hashes_ok in Hok1 as (cs & Hcs & ->).
    exists (rp_id t), v0, v, cs. rewrite Hok. simpl. rewrite Hok0. simpl. by rewrite Hcs.
  - intros (rp & md & group & cs & H & ->). res_inv. simplify_eq.
    rewrite Hok. simpl. rewrite Hok0. simpl.
    by rewrite (proj2 (member_hashes_ok (members t) _) (ex_intro _ cs (conj Hok1 eq_refl))).
Qed.

Lemma content_hash_refer t h :
  kind t = Refer → content_hash_for t = Ok h →
  ∃ group key, refer_content t = Ok (group, key) ∧
    h = keccak256 (abi_encode_params [VBytes group; VBytes key]).
Proof.
  intros Hk. unfold content_hash_for, refer_content. rewrite Hk. intros H. res_inv. subst.
  rewrite Hok. simpl. rewrite Hok2. simpl. rewrite Hok3. simpl. eauto.
Qed.

Lemma content_hash_length t h : content_hash_for t = Ok h → length h = 32%nat.
Proof.
  unfold content_hash_for. intros H. res_inv. destruct (kind t); res_inv; subst;
    apply keccak256_length.
Qed.

Lemma has_types_hashes (hs : list bytes) :
  Forall (λ h, length h = 32%nat) hs →
  has_type (TArray TBytes32) (VSeq (VBytes32 <$> hs)) = true.
Proof. cbn. induction 1 as [|h hs Hh _ IH]; simpl; [done|]. by rewrite Hh. Qed.

Lemma unit_preimage_inj rp1 md1 g1 hs1 rp2 md2 g2 hs2 :
  Forall (λ h, length h = 32%nat) hs1 → Forall (λ h, length h = 32%nat) hs2 →
  unit_preimage rp1 md1 g1 hs1 = unit_preimage rp2 md2 g2 hs2 →
  rp1 = rp2 ∧ md1 = md2 ∧ g1 = g2 ∧ hs1 = hs2.
Proof.
  intros H1%has_types_hashes H2%has_types_hashes H.
  apply (abi_encode_inj [TString; TBytes; TBytes; TArray TBytes32]) in H;
    [|by rewrite !has_types_cons, ?H1, ?H2..].
  injection H as -> -> -> Hs. split_and!; try done.
  eapply (list_fmap_eq_inj VBytes32); [|done]. by intros ?? [=].
Qed.

Lemma member_preimage_inj c1 c2 : member_preimage c1 = member_preimage c2 → c1 = c2.
Proof.
  intros H. apply (abi_encode_inj [TBytes; TBytes]) in H; [|done..].
  destruct c1, c2. simpl in *. congruence.
Qed.

Lemma keccaks_inj (P Q : list bytes) :
  (∀ x y, x ∈ P → y ∈ Q → keccak256 x = keccak256 y → x = y) →
  keccak256 <$> P = keccak256 <$> Q → P = Q.
Proof.
  revert Q. induction P as [|x P IH]; intros [|y Q] H Heq; simplify_eq/=; [done|].
  f_equal; [apply H; set_solver|]. apply IH; [|done]. intros; apply H; set_solver.
Qed.

Lemma hashes_length (cs : list (bytes * bytes)) :
  Forall (λ h, length h = 32%nat) (keccak256 ∘ member_preimage <$> cs).
Proof. apply Forall_fmap, Forall_true. intros. apply keccak256_length. Qed.

Lemma challenge_for_inj c1 a1 rp1 k1 b1 c2 a2 rp2 k2 b2 :
  in_u64 c1 → in_u64 c2 → length a1 = 20%nat → length a2 = 20%nat →
  length b1 = 32%nat → length b2 = 32%nat →
  collision_free
    [abi_encode_params [VUint c1; VAddress a1; VString rp1; VBytes k1; VBytes32 b1];
     abi_encode_params [VUint c2; VAddress a2; VString rp2; VBytes k2; VBytes32 b2]] →
  challenge_for c1 a1 rp1 k1 b1 = challenge_for c2 a2 rp2 k2 b2 →
  c1 = c2 ∧ a1 = a2 ∧ rp1 = rp2 ∧ k1 = k2 ∧ b1 = b2.
Proof.
  intros Hc1 Hc2 La1 La2 Lb1 Lb2 Hcf H. apply Hcf in H; [|set_solver..].
  assert (Hu : ∀ c, in_u64 c → (0 <=? c) && (c <=? U256_MAX) = true).
  { intros c [??]. assert (U64_MAX ≤ U256_MAX) by done. lia. }
  apply (abi_encode_inj [TUint256; TAddress; TString; TBytes; TBytes32]) in H;
    [by simplify_eq|cbn; rewrite La1, Lb1, Hu by done; done|cbn; rewrite La2, Lb2, Hu by done; done].
Qed.

(** ** Properties *)

(** C25. The content hash is an identity: two Register tasks with one
    content hash agree on rpId, metadata, group key, and every member's
    key and attestation in order, unless keccak256 collides on the very
    byte strings hashed for them. *)
Theorem register_content_hash_binds t1 t2 h :
  kind t1 = Register → kind t2 = Register →
  content_hash_for t1 = Ok h → content_hash_for t2 = Ok h →
  collision_free (register_preimages t1 ++ register_preimages t2) →
  register_content t1 = register_content t2 ∧ is_ok (register_content t1) = true.
Proof.
  intros K1 K2 H1 H2 Hcf.
  apply content_hash_register in H1 as (rp1&md1&g1&cs1&E1&->); [|done].
  apply content_hash_register in H2 as (rp2&md2&g2&cs2&E2&Hh); [|done].
  unfold register_preimages in Hcf. rewrite E1, E2 in *. split; [|done].
  apply Hcf in Hh; [|set_solver..].
  apply unit_preimage_inj in Hh as (->&->&->&Hcs); [|apply hashes_length..].
  do 2 f_equal. apply (list_fmap_eq_inj member_preimage);
    [intros ??; apply member_preimage_inj|].
  apply keccaks_inj; [intros x y ??; apply Hcf; set_solver|].
  by rewrite <-!list_fmap_compose.
Qed.

(** A Refer task's identity is exactly the (group, key) pair: equal
    hashes mean equal pairs (up to a collision on the hashed bytes), and
    tasks that agree on the pair have equal hashes whatever their
    metadata, attestation, proof or rpId. *)
Theorem refer_content_hash_is_pair t1 t2 h1 h2 :
  kind t1 = Refer → kind t2 = Refer →
  content_hash_for t1 = Ok h1 → content_hash_for t2 = Ok h2 →
  collision_free (refer_preimages t1 ++ refer_preimages t2) →
  h1 = h2 ↔ refer_content t1 = refer_content t2.
Proof.
  intros K1 K2 H1 H2 Hcf.
  apply content_hash_refer in H1 as (g1&k1&E1&->); [|done].
  apply content_hash_refer in H2 as (g2&k2&E2&->); [|done].
  unfold refer_preimages in Hcf. rewrite E1, E2 in *. split; [|by intros [= -> ->]].
  intros Hh. apply Hcf in Hh; [|set_solver..].
  apply (abi_encode_inj [TBytes; TBytes]) in Hh; [|done..]. by simplify_eq.
Qed.

(** A challenge pins down everything the signer authorizes: chain,
    registry, rpId, public key and binding.  A proof made for one of them
    cannot be replayed for another unless keccak256 collides on the two
    encodings. *)
Theorem challenge_for_binds c1 a1 rp1 k1 b1 c2 a2 rp2 k2 b2 :
  in_u64 c1 → in_u64 c2 → length a1 = 20%nat → length a2 = 20%nat →
  length b1 = 32%nat → length b2 = 32%nat →
  collision_free
    [abi_encode_params [VUint c1; VAddress a1; VString rp1; VBytes k1; VBytes32 b1];
     abi_encode_params [VUint c2; VAddress a2; VString rp2; VBytes k2; VBytes32 b2]] →
  challenge_for c1 a1 rp1 k1 b1 = challenge_for c2 a2 rp2 k2 b2 →
  c1 = c2 ∧ a1 = a2 ∧ rp1 = rp2 ∧ k1 = k2 ∧ b1 = b2.
Proof. apply challenge_for_inj. Qed.
End protocol.

(** ** Evaluation on examples *)
Section examples.
#[local] Existing Instance concrete_crates.

Definition sample_proof : Proof_ := mkProof "0x00" "{}" 0 0 "00" "01".
Definition sample_member : Member := mkMember "04aa" "" "0x0102" "" "" sample_proof.
Definition sample_register (id : string) : RegisterTask :=
  mkTask id Pending Register "example.com" "0x01" "" "04BB" None [sample_member]
    None None None 0 0 false.
Definition sample_refer (md : string) : RegisterTask :=
  mkTask "r" Pending Refer "example.com" md "" "0x04bb" None [sample_member]
    None None None 0 0 false.

Definition hash_of (t : RegisterTask) : bytes :=
  match content_hash_for t with Ok h => h | Err _ => [] end.

Lemma register_content_hash_binds_witness :
  register_content (sample_register "a") = register_content (sample_register "b").
Proof.
  refine (proj1 (register_content_hash_binds (sample_register "a") (sample_register "b")
    (hash_of (sample_register "a"))
    eq_refl eq_refl _ _ _)).
  - by vm_compute.
  - by vm_compute.
  - apply collision_freeb_spec. by vm_compute.
Defined.

Lemma refer_content_hash_is_pair_witness :
  hash_of (sample_refer "0x01") = hash_of (sample_refer "0x02").
Proof.
  refine (proj2 (refer_content_hash_is_pair (sample_refer "0x01") (sample_refer "0x02") _ _
    eq_refl eq_refl _ _ _) _); [by vm_compute|by vm_compute| |by vm_compute].
  apply collision_freeb_spec. by vm_compute.
Defined.

Definition sample_registry : bytes := replicate 20 Byte.x01.
Definition sample_binding : bytes := replicate 32 Byte.x02.

Lemma challenge_for_binds_witness :
  100 = 100 ∧ sample_registry = sample_registry ∧ "rp" = "rp" ∧ ([] : bytes) = [] ∧
  sample_binding = sample_binding.
Proof.
  apply (challenge_for_binds 100 sample_registry "rp" [] sample_binding
    100 sample_registry "rp" [] sample_binding); try done.
  apply collision_freeb_spec. by vm_compute.
Defined.
End examples.
