(* ===== verification/Verify.v ===== *)
(** * Possession proofs ([p256-registrar/src/verify.rs])

    The service's mirror of the contract's proof check. *)
From Stdlib Require Import Ascii String Strings.Byte.
From S2P Require Export Protocol.
From stdpp Require Import options.

Definition BASE64URL_ALPHABET : list ascii :=
  list_ascii_of_string "ABCDEFGHIJKLMNOPQRSTUVWXYZabcdefghijklmnopqrstuvwxyz0123456789-_".

Definition b64_char (i : Z) : ascii := nth (Z.to_nat i) BASE64URL_ALPHABET "A"%char.

(** The four characters of one three-byte chunk. *)
Definition b64_chunk (b0 b1 b2 : byte) : list ascii :=
  let v := Z.lor (Z.lor (Z.shiftl (byte_val b0) 16) (Z.shiftl (byte_val b1) 8)) (byte_val b2) in
  [b64_char (Z.land (Z.shiftr v 18) 0x3f); b64_char (Z.land (Z.shiftr v 12) 0x3f);
   b64_char (Z.land (Z.shiftr v 6) 0x3f); b64_char (Z.land v 0x3f)].

(** The three characters of the last two bytes. *)
Definition b64_tail (b0 b1 : byte) : list ascii :=
  let tail := Z.lor (Z.shiftl (byte_val b0) 8) (byte_val b1) in
  [b64_char (Z.land (Z.shiftr tail 10) 0x3f); b64_char (Z.land (Z.shiftr tail 4) 0x3f);
   b64_char (Z.land (wrap32 (Z.shiftl tail 2)) 0x3f)].

(** [for chunk in bytes[..30].chunks(3)], then the tail. *)
Fixpoint b64_go (b : bytes) : list ascii :=
  match b with
  | b0 :: b1 :: b2 :: rest => b64_chunk b0 b1 b2 ++ b64_go rest
  | [b0; b1] => b64_tail b0 b1
  | _ => []
  end.

Definition base64url_32 (value : bytes) : string := string_of_list_ascii (b64_go value).

Definition check_substring (data : bytes) (offset : Z) (expected : bytes) : bool :=
  let end_ := offset + byte_len expected in
  if U64_MAX <? end_ then false
  else (end_ <=? byte_len data) &&
       bool_decide (take (length expected) (drop (Z.to_nat offset) data) = expected).

Definition DQ : string := String (ascii_of_nat 34) EmptyString.
Definition TYPE_FIELD : string := DQ +:+ "type" +:+ DQ +:+ ":" +:+ DQ +:+ "webauthn.get" +:+ DQ.

Section verify.
Context `{C : Crates}.

Definition challenge_field (challenge : bytes) : string :=
  DQ +:+ "challenge" +:+ DQ +:+ ":" +:+ DQ +:+ base64url_32 challenge +:+ DQ.

Definition verify_proof (p : Proof_) (challenge : bytes) (rp_id : string)
    (public_key : bytes) : result unit string :=
  try auth_data := map_err (λ _, "authenticatorData must be a valid hex string")
    (parse_hex_bytes (authenticator_data p)) in
  if byte_len auth_data <? 37 then Err "authenticatorData must be at least 37 bytes" else
  let rp_id_hash := sha256 (as_bytes rp_id) in
  if negb (bool_decide (take 32 auth_data = rp_id_hash))
  then Err "authenticatorData rpIdHash does not match rpId" else
  if Z.land (byte_val (nth 32 auth_data x00)) 0x01 =? 0
  then Err "authenticatorData user-present flag is not set" else
  let client_data := as_bytes (client_data_json p) in
  if negb (check_substring client_data (type_index p) (as_bytes TYPE_FIELD))
  then Err ("clientDataJSON does not carry " +:+ TYPE_FIELD +:+ " at typeIndex") else
  let expected_challenge := challenge_field challenge in
  if negb (check_substring client_data (challenge_index p) (as_bytes expected_challenge))
  then Err "clientDataJSON does not carry the storage-authorization challenge at challengeIndex"
  else
  let client_data_hash := sha256 client_data in
  let signed := auth_data ++ client_data_hash in
  let digest := sha256 signed in
  try verifying_key := ok_or "publicKey is not a valid P-256 point"
    (verifying_key_from_sec1 public_key) in
  try r := map_err (λ _, "signature r must be 32-byte hex") (parse_b256 (proof_r p)) in
  try s := map_err (λ _, "signature s must be 32-byte hex") (parse_b256 (proof_s p)) in
  try signature := ok_or "signature scalars are out of range" (signature_from_scalars r s) in
  if verify_prehash verifying_key digest signature then Ok ()
  else Err "signature does not verify for this publicKey".

(** ** Specification

    [occurs_at d i e]: [e] is the part of [d] that starts at byte [i]. *)

Definition occurs_at (d : bytes) (i : Z) (e : bytes) : Prop :=
  ∃ pre post, d = pre ++ e ++ post ∧ i = byte_len pre.

Record valid_assertion (p : Proof_) (challenge : bytes) (rp_id : string) (key : bytes)
    (auth : bytes) : Prop := {
  va_auth : parse_hex_bytes (authenticator_data p) = Ok auth;
  va_len : (37 ≤ length auth)%nat;
  va_rp : take 32 auth = sha256 (as_bytes rp_id);
  va_up : ∃ flags, auth !! 32%nat = Some flags ∧ Z.odd (byte_val flags) = true;
  va_type : occurs_at (as_bytes (client_data_json p)) (type_index p) (as_bytes TYPE_FIELD);
  va_challenge : occurs_at (as_bytes (client_data_json p)) (challenge_index p)
    (as_bytes (challenge_field challenge));
  va_signature : ∃ vk r s sg,
    verifying_key_from_sec1 key = Some vk ∧
    parse_b256 (proof_r p) = Ok r ∧ parse_b256 (proof_s p) = Ok s ∧
    signature_from_scalars r s = Some sg ∧
    verify_prehash vk (sha256 (auth ++ sha256 (as_bytes (client_data_json p)))) sg = true;
}.
End verify.

(** ** Base64 lemmas *)

Lemma shiftl_lor a b k : 0 ≤ k → 0 ≤ b < 2 ^ k → Z.lor (Z.shiftl a k) b = a * 2 ^ k + b.
Proof.
  intros Hk Hb. rewrite <-Z.shiftl_mul_pow2 by done.
  assert (Z.land (Z.shiftl a k) b = 0) as E.
  { apply Z.bits_inj'. intros n Hn. rewrite Z.land_spec, Z.bits_0, Z.shiftl_spec by done.
    destruct (Z.lt_ge_cases n k); [by rewrite Z.testbit_neg_r by lia|].
    rewrite (Z.testbit_eqb b n) by lia.
    assert (2 ^ k ≤ 2 ^ n) by (apply Z.pow_le_mono_r; lia).
    rewrite (Z.div_small b) by lia. by rewrite andb_false_r. }
  pose proof (Z.add_lor_land (Z.shiftl a k) b). lia.
Qed.

Lemma land_63 v : Z.land v 0x3f = v mod 64.
Proof. apply (Z.land_ones v 6). lia. Qed.

Lemma b64_char_inj i j : 0 ≤ i < 64 → 0 ≤ j < 64 → b64_char i = b64_char j → i = j.
Proof.
  intros Hi Hj H. unfold b64_char in H.
  assert (NoDup BASE64URL_ALPHABET) as Hnd by (apply (bool_decide_eq_true_1 (NoDup BASE64URL_ALPHABET)); by vm_compute).
  enough (Z.to_nat i = Z.to_nat j) by lia.
  eapply NoDup_nth; [by apply NoDup_ListNoDup|..|done];
    change (length BASE64URL_ALPHABET) with 64%nat; lia.
Qed.

Lemma chunk_value a b c :
  0 ≤ a < 256 → 0 ≤ b < 256 → 0 ≤ c < 256 →
  Z.lor (Z.lor (Z.shiftl a 16) (Z.shiftl b 8)) c = a * 65536 + b * 256 + c.
Proof.
  intros. rewrite (Z.shiftl_mul_pow2 b 8) by lia.
  rewrite (shiftl_lor a (b * 2 ^ 8) 16) by lia.
  replace (a * 2 ^ 16 + b * 2 ^ 8) with (Z.shiftl (a * 256 + b) 8)
    by (rewrite Z.shiftl_mul_pow2; lia).
  rewrite shiftl_lor by lia. lia.
Qed.

Lemma digits64_inj v w :
  0 ≤ v < 2 ^ 24 → 0 ≤ w < 2 ^ 24 →
  v / 2 ^ 18 mod 64 = w / 2 ^ 18 mod 64 → v / 2 ^ 12 mod 64 = w / 2 ^ 12 mod 64 →
  v / 2 ^ 6 mod 64 = w / 2 ^ 6 mod 64 → v mod 64 = w mod 64 → v = w.
Proof.
  assert (Hd : ∀ x, 0 ≤ x < 2 ^ 24 → x = (x / 2 ^ 18 mod 64) * 2 ^ 18
    + (x / 2 ^ 12 mod 64) * 2 ^ 12 + (x / 2 ^ 6 mod 64) * 2 ^ 6 + x mod 64).
  { intros x Hx. Z.div_mod_to_equations. lia. }
  intros Hv Hw E1 E2 E3 E4. rewrite (Hd v Hv), (Hd w Hw). lia.
Qed.

Lemma b64_chunk_inj a0 a1 a2 b0 b1 b2 :
  b64_chunk a0 a1 a2 = b64_chunk b0 b1 b2 → a0 = b0 ∧ a1 = b1 ∧ a2 = b2.
Proof.
  pose proof (byte_val_range a0). pose proof (byte_val_range a1). pose proof (byte_val_range a2).
  pose proof (byte_val_range b0). pose proof (byte_val_range b1). pose proof (byte_val_range b2).
  unfold b64_chunk. rewrite !chunk_value by done.
  set (v := _ + byte_val a2). set (w := _ + byte_val b2).
  rewrite !land_63, !Z.shiftr_div_pow2 by lia. intros [= E1 E2 E3 E4].
  apply b64_char_inj in E1, E2, E3, E4; try (apply Z.mod_pos_bound; lia).
  assert (v = w) as E.
  { apply (digits64_inj v w); subst v w; try lia; done. }
  subst v w. split_and!; apply byte_val_inj; lia.
Qed.

Lemma b64_tail_inj a0 a1 b0 b1 : b64_tail a0 a1 = b64_tail b0 b1 → a0 = b0 ∧ a1 = b1.
Proof.
  pose proof (byte_val_range a0). pose proof (byte_val_range a1).
  pose proof (byte_val_range b0). pose proof (byte_val_range b1).
  unfold b64_tail, wrap32. rewrite !shiftl_lor by (try done; lia).
  set (v := _ + byte_val a1). set (w := _ + byte_val b1).
  rewrite !land_63, !Z.shiftr_div_pow2, !Z.shiftl_mul_pow2 by lia. intros [= E1 E2 E3].
  apply b64_char_inj in E1, E2, E3; try (apply Z.mod_pos_bound; lia).
  assert (v = w) as E.
  { rewrite !(Z.mod_small (_ * 2 ^ 2)) in E3 by (subst v w; lia).
    assert (0 ≤ v < 2 ^ 16 ∧ 0 ≤ w < 2 ^ 16) as [] by (subst v w; lia).
    clearbody v w. Z.div_mod_to_equations. lia. }
  subst v w. split; apply byte_val_inj; lia.
Qed.

Lemma b64_go_inj k b c :
  length b = (3 * k + 2)%nat → length c = (3 * k + 2)%nat → b64_go b = b64_go c → b = c.
Proof.
  revert b c. induction k as [|k IH]; intros b c Hb Hc.
  - destruct b as [|b0 [|b1 [|]]], c as [|c0 [|c1 [|]]]; cbn [length] in *; try lia.
    by intros [-> ->]%b64_tail_inj.
  - destruct b as [|b0 [|b1 [|b2 b]]], c as [|c0 [|c1 [|c2 c]]]; cbn [length] in *; try lia.
    cbn [b64_go]. intros [(->&->&->)%b64_chunk_inj H]%app_inj_1; [|done].
    do 3 f_equal. apply IH; [lia..|done].
Qed.

Lemma string_of_list_ascii_inj l1 l2 : string_of_list_ascii l1 = string_of_list_ascii l2 → l1 = l2.
Proof.
  intros H. rewrite <-(list_ascii_of_string_of_list_ascii l1), H.
  apply list_ascii_of_string_of_list_ascii.
Qed.

Lemma length_b64_go k b : length b = (3 * k + 2)%nat → length (b64_go b) = (4 * k + 3)%nat.
Proof.
  revert b. induction k as [|k IH]; intros b Hb.
  - by destruct b as [|b0 [|b1 [|]]]; simpl in *; try lia.
  - destruct b as [|b0 [|b1 [|b2 b]]]; simpl in Hb; try lia.
    cbn [b64_go]. rewrite length_app, IH by lia. simpl. lia.
Qed.

Lemma base64url_32_length h : length h = 32%nat → String.length (base64url_32 h) = 43%nat.
Proof.
  intros Hh. unfold base64url_32. rewrite length_string_of_list_ascii.
  by apply (length_b64_go 10).
Qed.

Lemma base64url_32_inj h1 h2 :
  length h1 = 32%nat → length h2 = 32%nat → base64url_32 h1 = base64url_32 h2 → h1 = h2.
Proof.
  intros L1 L2 H%string_of_list_ascii_inj. by apply (b64_go_inj 10) in H.
Qed.

(** ** Lemmas on the checks *)

Lemma check_substring_spec data offset expected :
  in_u64 offset → byte_len data ≤ U64_MAX →
  check_substring data offset expected = true ↔ occurs_at data offset expected.
Proof.
  intros [Ho1 Ho2] Hd. unfold check_substring, occurs_at, byte_len in *. split.
  - case_match; [done|]. rewrite andb_true_iff, bool_decide_eq_true. intros [Hle%Z.leb_le He].
    exists (take (Z.to_nat offset) data), (drop (length expected) (drop (Z.to_nat offset) data)).
    rewrite length_take. split; [|clear He H; lia].
    rewrite <-He at 1. by rewrite !take_drop.
  - intros (pre & post & -> & ->). rewrite !length_app in *.
    destruct (Z.ltb_spec U64_MAX (Z.of_nat (length pre) + Z.of_nat (length expected))); [lia|].
    rewrite Nat2Z.id, drop_app_length, take_app_length, bool_decide_true by done.
    rewrite andb_true_r. apply Z.leb_le. lia.
Qed.

Lemma occurs_at_unique d i e1 e2 :
  length e1 = length e2 → occurs_at d i e1 → occurs_at d i e2 → e1 = e2.
Proof.
  intros Hl (p1 & q1 & -> & ->) (p2 & q2 & H & Hi). unfold byte_len in Hi.
  apply app_inj_1 in H as [-> H]; [|lia]. by apply app_inj_1 in H as [-> _].
Qed.

Lemma land_1_odd n : (Z.land n 1 =? 0) = negb (Z.odd n).
Proof.
  change (Z.land n 1) with (Z.land n (Z.ones 1)).
  rewrite (Z.land_ones n 1) by lia. change (2 ^ 1) with 2. rewrite (Zmod_odd n).
  by destruct (Z.odd n).
Qed.

Section verify_theorems.
Context `{C : Crates}.

(** A proof as the JSON layer delivers it: [u64] indices, and a client
    data string whose length is a [usize]. *)
Definition proof_sized (p : Proof_) : Prop :=
  in_u64 (challenge_index p) ∧ in_u64 (type_index p) ∧
  str_len (client_data_json p) ≤ U64_MAX.

Lemma length_challenge_field h :
  length h = 32%nat → String.length (challenge_field h) = 57%nat.
Proof.
  intros Hh. unfold challenge_field, DQ.
  assert (Happ : ∀ a b, String.length (a +:+ b) = (String.length a + String.length b)%nat).
  { intros a b. induction a as [|c a IH]; simpl; [done|]. by rewrite IH. }
  rewrite !Happ, base64url_32_length by done. done.
Qed.

Lemma challenge_field_inj h1 h2 :
  length h1 = 32%nat → length h2 = 32%nat →
  challenge_field h1 = challenge_field h2 → h1 = h2.
Proof.
  intros L1 L2 H. apply base64url_32_inj; [done..|].
  unfold challenge_field, DQ in H. simpl in H. injection H as H.
  apply (f_equal list_ascii_of_string) in H.
  assert (Happ : ∀ a b, list_ascii_of_string (a +:+ b) =
    list_ascii_of_string a ++ list_ascii_of_string b).
  { intros a b. induction a as [|c a IH]; simpl; [done|]. by rewrite IH. }
  rewrite !Happ in H. change (list_ascii_of_string "") with (@nil ascii) in H.
  cbn [app] in H. apply app_inj_2 in H as [H _]; [|done].
  rewrite <-(string_of_list_ascii_of_string (base64url_32 h1)), H.
  apply string_of_list_ascii_of_string.
Qed.

Lemma verify_proof_ok p ch rp key :
  proof_sized p →
  verify_proof p ch rp key = Ok () ↔ ∃ auth, valid_assertion p ch rp key auth.
Proof.
  intros (Hci & Hti & Hlen). unfold str_len in Hlen.
  assert (Hl : byte_len (as_bytes (client_data_json p)) ≤ U64_MAX)
    by (unfold byte_len; by rewrite length_as_bytes).
  unfold verify_proof. split.
  - intros H. res_inv. exists v.
    destruct (Z.ltb_spec (byte_len v) 37) as [|Hv]; [done|]. unfold byte_len in Hv.
    destruct (bool_decide_reflect (take 32 v = sha256 (as_bytes rp))); simpl in H; [|done].
    rewrite land_1_odd in H. destruct (Z.odd _) eqn:Hodd; simpl in H; [|done].
    destruct (check_substring _ (type_index p) _) eqn:Ht; simpl in H; [|done].
    destruct (check_substring _ (challenge_index p) _) eqn:Hc; simpl in H; [|done].
    apply check_substring_spec in Ht, Hc; [|done..].
    apply rbind_ok in H as (vk & Hvk & H). apply rbind_ok in H as (r & Hr & H).
    apply rbind_ok in H as (s & Hs & H). apply rbind_ok in H as (sg & Hsg & H).
    apply map_err_ok in Hr, Hs. apply ok_or_ok in Hvk, Hsg.
    destruct (verify_prehash _ _ _) eqn:Hver; [|done].
    split; try done; [lia| |by exists vk, r, s, sg].
    destruct (v !! 32%nat) as [f|] eqn:Hf;
      [exists f|by apply lookup_ge_None in Hf; lia].
    split; [done|]. by rewrite (nth_lookup_Some _ _ x00 f Hf) in Hodd.
  - intros (auth & [Ha Hl37 Hrp (f & Hf & Hodd) Ht Hc (vk & r & s & sg & Hvk & Hr & Hs & Hsg & Hv)]).
    apply check_substring_spec in Ht, Hc; [|done..].
    rewrite Ha. cbn [rbind map_err].
    destruct (Z.ltb_spec (byte_len auth) 37); [unfold byte_len in *; lia|].
    rewrite bool_decide_true by done. rewrite land_1_odd, (nth_lookup_Some _ _ x00 f Hf), Hodd.
    simpl negb. rewrite Ht, Hc. simpl negb.
    rewrite Hvk, Hr, Hs. cbn [rbind map_err ok_or]. rewrite Hsg. cbn [rbind ok_or].
    by rewrite Hv.
Qed.

(** ** Properties *)

(** A 32-byte challenge has a 43-character base64url form, and
    distinct challenges have distinct forms. *)
Theorem base64url_32_spec h1 h2 :
  length h1 = 32%nat → length h2 = 32%nat →
  String.length (base64url_32 h1) = 43%nat ∧
  (base64url_32 h1 = base64url_32 h2 ↔ h1 = h2).
Proof.
  intros L1 L2. split; [by apply base64url_32_length|].
  split; [by apply base64url_32_inj|by intros ->].
Qed.

(** C4. [verify_proof] accepts exactly the valid WebAuthn assertions: long
    enough authenticator data bound to the rpId with the user-present bit
    set, client data that carries the type and this challenge at the named
    offsets, and a signature by this key over the two. *)
Theorem verify_proof_spec p ch rp key :
  proof_sized p →
  verify_proof p ch rp key = Ok () ↔ ∃ auth, valid_assertion p ch rp key auth.
Proof. apply verify_proof_ok. Qed.

(** One proof authorizes one thing: a proof accepted under two
    (chain, registry, rpId, key, binding) contexts was made for the same
    context, unless keccak256 collides on the two challenge encodings. *)
Theorem proof_not_replayable p c1 a1 rp1 k1 b1 c2 a2 rp2 k2 b2 :
  proof_sized p →
  in_u64 c1 → in_u64 c2 → length a1 = 20%nat → length a2 = 20%nat →
  length b1 = 32%nat → length b2 = 32%nat →
  collision_free
    [abi_encode_params [VUint c1; VAddress a1; VString rp1; VBytes k1; VBytes32 b1];
     abi_encode_params [VUint c2; VAddress a2; VString rp2; VBytes k2; VBytes32 b2]] →
  verify_proof p (challenge_for c1 a1 rp1 k1 b1) rp1 k1 = Ok () →
  verify_proof p (challenge_for c2 a2 rp2 k2 b2) rp2 k2 = Ok () →
  c1 = c2 ∧ a1 = a2 ∧ rp1 = rp2 ∧ k1 = k2 ∧ b1 = b2.
Proof.
  intros Hp Hc1 Hc2 La1 La2 Lb1 Lb2 Hcf (auth1 & V1)%verify_proof_ok (auth2 & V2)%verify_proof_ok;
    [|done..].
  apply challenge_for_inj; try done.
  apply challenge_field_inj; [apply keccak256_length..|]. apply as_bytes_inj.
  eapply occurs_at_unique; [|apply V1|apply V2].
  rewrite !length_as_bytes, !length_challenge_field by apply keccak256_length. done.
Qed.
End verify_theorems.

(** ** Evaluation on examples *)
Section examples.
#[local] Existing Instance concrete_crates.

(** An assertion over a challenge, as a client would build it. *)
Definition make_proof (challenge : bytes) (rp : string) : Proof_ :=
  let auth := sha256 (as_bytes rp) ++ [x01; x00; x00; x00; x00] in
  let json := "{" +:+ TYPE_FIELD +:+ "," +:+ challenge_field challenge +:+ "}" in
  let digest := sha256 (auth ++ sha256 (as_bytes json)) in
  mkProof (hex_encode auth) json (str_len TYPE_FIELD + 2) 1 (hex_encode digest)
    (hex_encode (to_be_bytes 32 1)).

Definition sample_key : bytes := x04 :: replicate 64 x07.
Definition sample_challenge : bytes :=
  challenge_for 100 sample_registry "rp" sample_key sample_binding.

Lemma base64url_32_spec_witness :
  String.length (base64url_32 sample_binding) = 43%nat ∧
  (base64url_32 sample_binding = base64url_32 sample_challenge ↔ sample_binding = sample_challenge).
Proof. apply (base64url_32_spec sample_binding sample_challenge); by vm_compute. Defined.

Lemma sample_proof_sized ch rp :
  str_len (client_data_json (make_proof ch rp)) ≤ 1000 → proof_sized (make_proof ch rp).
Proof.
  intros H. unfold proof_sized. split_and!; [done..|].
  etransitivity; [exact H|]. by vm_compute.
Qed.

Lemma verify_proof_spec_witness :
  ∃ auth, valid_assertion (make_proof sample_challenge "rp") sample_challenge "rp" sample_key auth.
Proof.
  apply (verify_proof_spec (make_proof sample_challenge "rp") sample_challenge "rp" sample_key).
  - apply sample_proof_sized. by vm_compute.
  - by vm_compute.
Defined.

Lemma proof_not_replayable_witness :
  100 = 100 ∧ sample_registry = sample_registry ∧ "rp" = "rp" ∧ sample_key = sample_key ∧
  sample_binding = sample_binding.
Proof.
  apply (proof_not_replayable (make_proof sample_challenge "rp")
    100 sample_registry "rp" sample_key sample_binding
    100 sample_registry "rp" sample_key sample_binding);
    first [done | apply sample_proof_sized; by vm_compute
           | apply collision_freeb_spec; by vm_compute].
Defined.
End examples.
