(* ===== verification/Validation.v ===== *)
(** * Admission, validation half ([p256-registrar/src/admission.rs])

    Requests, structural parsing, and the total validation of the two
    writes.  An [expect] of the source is a [Panicked] error here, so that
    its absence is a theorem. *)
From Stdlib Require Import Ascii String Strings.Byte.
From S2P Require Export Verify.
From stdpp Require Import options.

Definition MAX_ACTIVE_QUEUE_DEPTH : Z := 10_000.
Definition RETRY_COALESCE_TTL_SECS : Z := 24 * 60 * 60.
Definition MAX_MEMBERS : Z := 7.
Definition MAX_METADATA_BYTES : Z := 2048.
Definition ATTESTATION_BYTES : Z := 20.
Definition ATTESTATION_VERSION : Z := 1.

(** ** Requests *)

Record ProofRequest := mkProofRequest {
  pr_authenticator_data : option string;
  pr_client_data_json : option string;
  pr_challenge_index : option Z;
  pr_type_index : option Z;
  pr_r : option string;
  pr_s : option string;
}.

Record MemberRequest := mkMemberRequest {
  mr_public_key : option string;
  mr_attestation : option string;
  mr_credential_id : option string;
  mr_authenticator_attachment : option string;
  mr_transports : option string;
  mr_proof : option ProofRequest;
}.

Record RegisterRequest := mkRegisterRequest {
  rr_rp_id : option string;
  rr_metadata : option string;
  rr_group_public_key : option string;
  rr_group_proof : option ProofRequest;
  rr_members : option (list MemberRequest);
}.

Record ReferRequest := mkReferRequest {
  fr_rp_id : option string;
  fr_group_public_key : option string;
  fr_metadata : option string;
  fr_member : option MemberRequest;
}.

Inductive AdmissionRequest :=
| ARegister (r : RegisterRequest)
| ARefer (r : ReferRequest).

(** ** Errors *)

Inductive VError :=
| Msg (message : string)
| Panicked (message : string).

Definition prefix_msg (pre : string) (e : VError) : VError :=
  match e with Msg m => Msg (pre +:+ m) | Panicked m => Panicked m end.

(** [o.expect(m)] *)
Definition expect {A} (m : string) (o : option A) : result A VError := ok_or (Panicked m) o.
Definition expect_ok {A E} (m : string) (o : result A E) : result A VError :=
  map_err (λ _, Panicked m) o.

(** [x as i64] of a [u64]. *)
Definition as_i64 (n : Z) : Z := if n <? 2 ^ 63 then n else n - 2 ^ 64.

Section validation.
Context `{C : Crates}.

(** ["" or "0x" ++ hex], the stored form of a byte field. *)
Definition hex_field (b : bytes) : string :=
  match b with [] => "" | _ => "0x" +:+ hex_encode b end.

Definition parse_public_key (value : option string) : result string VError :=
  try public_key := ok_or (Msg "publicKey is required") value in
  let raw := strip_0x public_key in
  if negb (String.length raw =? 130)%nat || negb (str_all is_ascii_hexdigit raw)
  then Err (Msg "publicKey must be an uncompressed P-256 point (04 + 128 hex chars)") else
  if negb (starts_with "04" raw)
  then Err (Msg "publicKey must start with the uncompressed prefix 04") else
  let public_key := to_ascii_lowercase raw in
  try key_bytes := expect "validated hex" (hex_decode public_key) in
  if public_key_from_sec1 key_bytes then Ok public_key
  else Err (Msg "publicKey must be a valid point on the P-256 curve").

Definition validate_public_key_hex (value : string) : result string VError :=
  parse_public_key (Some value).

Definition validate_attestation_hex (value : string) : result string VError :=
  try b := map_err (λ _, Msg "attestation must be a valid hex string") (parse_hex_bytes value) in
  match b with
  | [] => Ok (hex_field b)
  | version :: _ =>
      if negb (byte_len b =? ATTESTATION_BYTES)
      then Err (Msg ("attestation must be " +:+ fmt ATTESTATION_BYTES +:+ " bytes")) else
      if negb (byte_val version =? ATTESTATION_VERSION)
      then Err (Msg "attestation must start with version byte 0x01") else
      Ok (hex_field b)
  end.

Definition parse_proof (p : option ProofRequest) : result Proof_ VError :=
  try p := ok_or (Msg "proof is required") p in
  try a := ok_or (Msg "proof.authenticatorData is required") (pr_authenticator_data p) in
  try c := ok_or (Msg "proof.clientDataJSON is required") (pr_client_data_json p) in
  try ci := ok_or (Msg "proof.challengeIndex is required") (pr_challenge_index p) in
  try ti := ok_or (Msg "proof.typeIndex is required") (pr_type_index p) in
  try r := ok_or (Msg "proof.r is required") (pr_r p) in
  try s := ok_or (Msg "proof.s is required") (pr_s p) in
  Ok (mkProof a c ci ti r s).

Definition normalize_credential_id (value : string) : result string VError :=
  try b := map_err (λ _, Msg "credentialId must be a valid hex string") (parse_hex_bytes value) in
  if 1023 <? byte_len b then Err (Msg "credentialId exceeds 1023 bytes")
  else Ok (hex_field b).

Definition normalize_hint (value : string) (max_bytes : Z) (field : string)
    : result string VError :=
  let trimmed := trim value in
  if max_bytes <? str_len trimmed
  then Err (Msg (field +:+ " exceeds " +:+ fmt max_bytes +:+ " bytes"))
  else Ok trimmed.

Definition parse_member (m : MemberRequest) : result Member VError :=
  try key := parse_public_key (mr_public_key m) in
  try att := validate_attestation_hex (default "" (mr_attestation m)) in
  try cred := normalize_credential_id (default "" (mr_credential_id m)) in
  try aa := normalize_hint (default "" (mr_authenticator_attachment m)) 32
    "authenticatorAttachment" in
  try tr := normalize_hint (default "" (mr_transports m)) 255 "transports" in
  try p := parse_proof (mr_proof m) in
  Ok (mkMember key att cred aa tr p).

(** The metadata block shared by the two validations. *)
Definition parse_metadata (value : option string) : result string VError :=
  try b := map_err (λ _, Msg "metadata must be a valid hex string")
    (parse_hex_bytes (default "" value)) in
  if MAX_METADATA_BYTES <? byte_len b
  then Err (Msg ("metadata exceeds max length (" +:+ fmt MAX_METADATA_BYTES +:+ " bytes)"))
  else Ok (hex_field b).

Definition parse_rp_id (value : option string) : result string VError :=
  match value with
  | None | Some EmptyString => Err (Msg "rpId is required")
  | Some rp_id =>
      if 253 <? str_len rp_id then Err (Msg "rpId exceeds max length (253)") else Ok rp_id
  end.

Definition at_member (index : nat) : string :=
  "members[" +:+ fmt (Z.of_nat index) +:+ "]: ".

(** The structural loop over the members; [parsed] are the earlier ones. *)
Fixpoint parse_members (group_public_key : string) (parsed : list Member) (index : nat)
    (ms : list MemberRequest) : result (list Member) VError :=
  match ms with
  | [] => Ok parsed
  | m :: ms =>
      try member := map_err (prefix_msg (at_member index)) (parse_member m) in
      if bool_decide (public_key member = group_public_key)
      then Err (Msg (at_member index +:+ "the group key cannot also be a member")) else
      if existsb (λ earlier, bool_decide (public_key earlier = public_key member)) parsed
      then Err (Msg (at_member index +:+ "duplicate public key within the unit")) else
      parse_members group_public_key (parsed ++ [member]) (S index) ms
  end.

(** The proof loop over the members. *)
Fixpoint verify_members (chain_id : Z) (registry : bytes) (rp_id : string)
    (group_key_bytes : bytes) (index : nat) (ms : list Member) : result unit VError :=
  match ms with
  | [] => Ok ()
  | m :: ms =>
      try key_bytes := expect "validated hex" (hex_decode (public_key m)) in
      try attestation_bytes := expect_ok "validated hex" (parse_hex_bytes (attestation m)) in
      let binding := member_binding_for group_key_bytes attestation_bytes in
      let challenge := challenge_for chain_id registry rp_id key_bytes binding in
      try u := map_err (λ e, Msg (at_member index +:+ "proof rejected: " +:+ e))
        (verify_proof (proof m) challenge rp_id key_bytes) in
      verify_members chain_id registry rp_id group_key_bytes (S index) ms
  end.

Definition validate_register (request : RegisterRequest) (new_task_id : string)
    (now_ms chain_id : Z) (registry : string) : result (RegisterTask * string) VError :=
  try registry := ok_or (Msg "service misconfigured: invalid registry address")
    (address_parse registry) in
  try rp_id := parse_rp_id (rr_rp_id request) in
  try metadata := parse_metadata (rr_metadata request) in
  try members := match rr_members request with
    | None | Some [] => Err (Msg "members is required (1 to 7 entries)")
    | Some ms => Ok ms
    end in
  if MAX_MEMBERS <? Z.of_nat (length members)
  then Err (Msg ("members must contain 1 to " +:+ fmt MAX_MEMBERS +:+ " entries")) else
  try group_public_key := map_err (prefix_msg "groupPublicKey: ")
    (parse_public_key (rr_group_public_key request)) in
  try group_proof := map_err (prefix_msg "groupProof: ") (parse_proof (rr_group_proof request)) in
  try parsed := parse_members group_public_key [] 0 members in
  let task := mkTask new_task_id Pending Register rp_id metadata "" group_public_key
    (Some group_proof) parsed None None None 0 (as_i64 now_ms) false in
  try hash := map_err Msg (content_hash_for task) in
  let task := set_content_hash (fmt_b256 hash) task in
  try group_key_bytes := expect "validated hex" (hex_decode group_public_key) in
  let group_challenge := challenge_for chain_id registry rp_id group_key_bytes hash in
  try u := map_err (λ e, Msg ("groupProof: proof rejected: " +:+ e))
    (verify_proof group_proof group_challenge rp_id group_key_bytes) in
  try u := verify_members chain_id registry rp_id group_key_bytes 0 parsed in
  Ok (task, content_hash task).

Definition validate_refer (request : ReferRequest) (new_task_id : string)
    (now_ms chain_id : Z) (registry : string) : result (RegisterTask * string) VError :=
  try registry := ok_or (Msg "service misconfigured: invalid registry address")
    (address_parse registry) in
  try rp_id := parse_rp_id (fr_rp_id request) in
  try group_public_key := map_err (prefix_msg "groupPublicKey: ")
    (parse_public_key (fr_group_public_key request)) in
  try metadata := parse_metadata (fr_metadata request) in
  try member := ok_or (Msg "member is required") (fr_member request) in
  try member := map_err (prefix_msg "member: ") (parse_member member) in
  if bool_decide (public_key member = group_public_key)
  then Err (Msg "member: the group key cannot also be a member") else
  let task := mkTask new_task_id Pending Refer rp_id metadata "" group_public_key
    None [member] None None None 0 (as_i64 now_ms) false in
  try hash := map_err Msg (content_hash_for task) in
  let task := set_content_hash (fmt_b256 hash) task in
  try group_key_bytes := expect "validated hex" (hex_decode group_public_key) in
  try key_bytes := expect "validated hex" (hex_decode (public_key member)) in
  try attestation_bytes := expect_ok "validated hex" (parse_hex_bytes (attestation member)) in
  try metadata_bytes := expect_ok "validated hex" (parse_hex_bytes metadata) in
  let binding := reference_binding_for group_key_bytes attestation_bytes metadata_bytes in
  let challenge := challenge_for chain_id registry rp_id key_bytes binding in
  try u := map_err (λ e, Msg ("member: proof rejected: " +:+ e))
    (verify_proof (proof member) challenge rp_id key_bytes) in
  Ok (task, content_hash task).

(** ** What validation guarantees *)

(** A stored public key: 130 lowercase hex digits starting with 04 that
    decode to a point on the curve. *)
Record canonical_key (s : string) (b : bytes) : Prop := {
  ck_decode : hex_decode s = Some b;
  ck_encode : s = hex_encode b;
  ck_length : length b = 65%nat;
  ck_prefix : starts_with "04" s = true;
  ck_point : public_key_from_sec1 b = true;
}.

(** A stored byte field of at most [n] bytes. *)
Definition canonical_field (s : string) (n : Z) : Prop :=
  ∃ b, s = hex_field b ∧ byte_len b ≤ n.

Record wf_member (m : Member) : Prop := {
  wm_key : ∃ b, canonical_key (public_key m) b;
  wm_attestation : ∃ b, attestation m = hex_field b ∧
    (b = [] ∨ byte_len b = ATTESTATION_BYTES ∧
      ∃ v, head b = Some v ∧ byte_val v = ATTESTATION_VERSION);
  wm_credential : canonical_field (credential_id m) 1023;
  wm_attachment : str_len (authenticator_attachment m) ≤ 32;
  wm_transports : str_len (transports m) ≤ 255;
}.

Record wf_task (t : RegisterTask) : Prop := {
  wt_pending : status t = Pending ∧ admitted t = false ∧ retries t = 0 ∧
    tx_hash t = None ∧ on_chain_id t = None ∧ task_error t = None;
  wt_rp_id : 1 ≤ str_len (rp_id t) ≤ 253;
  wt_metadata : canonical_field (metadata t) MAX_METADATA_BYTES;
  wt_group : ∃ b, canonical_key (group_public_key t) b;
  wt_members : Forall wf_member (members t);
  wt_count : 1 ≤ Z.of_nat (length (members t)) ≤ MAX_MEMBERS;
  wt_distinct : NoDup (group_public_key t :: (public_key <$> members t));
  wt_hash : ∃ h, content_hash_for t = Ok h ∧ content_hash t = fmt_b256 h;
}.

(** The signer of [p] authorized [binding] under this deployment. *)
Definition signed_by (chain_id : Z) (registry : bytes) (rp : string) (key : string)
    (p : Proof_) (binding : bytes) : Prop :=
  ∃ kb, canonical_key key kb ∧
    verify_proof p (challenge_for chain_id registry rp kb binding) rp kb = Ok ().

Definition group_signed (chain_id : Z) (registry : bytes) (t : RegisterTask) : Prop :=
  ∃ p h, group_proof t = Some p ∧ content_hash_for t = Ok h ∧
    signed_by chain_id registry (rp_id t) (group_public_key t) p h.

Definition member_signed (chain_id : Z) (registry : bytes) (t : RegisterTask) (m : Member) : Prop :=
  ∃ gb att, canonical_key (group_public_key t) gb ∧ attestation m = hex_field att ∧
    signed_by chain_id registry (rp_id t) (public_key m) (proof m) (member_binding_for gb att).

Definition referrer_signed (chain_id : Z) (registry : bytes) (t : RegisterTask) (m : Member) : Prop :=
  ∃ gb att md, canonical_key (group_public_key t) gb ∧ attestation m = hex_field att ∧
    metadata t = hex_field md ∧
    signed_by chain_id registry (rp_id t) (public_key m) (proof m)
      (reference_binding_for gb att md).

(** ** Parsing lemmas *)

Lemma parse_hex_field b : parse_hex_bytes (hex_field b) = Ok b.
Proof.
  destruct b as [|x b]; [apply parse_hex_bytes_empty|apply parse_hex_bytes_encode].
Qed.

Lemma hex_field_inj b1 b2 : hex_field b1 = hex_field b2 → b1 = b2.
Proof.
  intros H. pose proof (parse_hex_field b1) as E. rewrite H, parse_hex_field in E. by res_inv.
Qed.

Lemma starts_with_04 s : starts_with "04" s = true → ∃ s', s = "04" +:+ s'.
Proof.
  unfold starts_with. destruct s as [|a [|b s]]; cbn [String.prefix]; [done| |].
  - destruct (ascii_dec "0" a); done.
  - destruct (ascii_dec "0" a) as [<-|]; [|done].
    destruct (ascii_dec "4" b) as [<-|]; [|done]. intros _. by exists s.
Qed.

Lemma strip_0x_04 s : starts_with "04" s = true → strip_0x s = s.
Proof. by intros [s' ->]%starts_with_04. Qed.

Lemma canonical_key_parse s b : canonical_key s b → parse_hex_bytes s = Ok b.
Proof. intros [? _ _ ? _]. apply parse_hex_bytes_ok. by rewrite strip_0x_04. Qed.

Lemma canonical_key_unique s b1 b2 : canonical_key s b1 → canonical_key s b2 → b1 = b2.
Proof. intros [E1 _ _ _ _] [E2 _ _ _ _]. congruence. Qed.

Lemma starts_with_04_lower s :
  starts_with "04" s = true → starts_with "04" (to_ascii_lowercase s) = true.
Proof.
  intros [s' ->]%starts_with_04. by destruct s'.
Qed.

Lemma decode_lower s :
  String.length s = 130%nat → str_all is_ascii_hexdigit s = true →
  ∃ b, hex_decode (to_ascii_lowercase s) = Some b ∧ length b = 65%nat ∧
    to_ascii_lowercase s = hex_encode b.
Proof.
  intros Hl Hs. destruct (proj2 (hex_decode_is_some (to_ascii_lowercase s))) as [b Hb].
  - rewrite length_to_ascii_lowercase, Hl, str_all_lower_hexdigit. by split; [exists 65%nat|].
  - exists b. split; [done|]. split.
    + apply hex_decode_length in Hb. rewrite length_to_ascii_lowercase, Hl in Hb. lia.
    + apply hex_encode_decode in Hb. by rewrite to_ascii_lowercase_idemp in Hb.
Qed.

Lemma parse_public_key_ok v s : parse_public_key v = Ok s → ∃ b, canonical_key s b.
Proof.
  unfold parse_public_key. intros H. apply rbind_ok in H as (k & _ & H).
  destruct (Nat.eqb_spec (String.length (strip_0x k)) 130) as [Hl|]; simpl in H; [|done].
  destruct (str_all _ _) eqn:Hs; simpl in H; [|done].
  destruct (starts_with _ _) eqn:H04; simpl in H; [|done].
  destruct (decode_lower _ Hl Hs) as (b & Hb & Hlen & He). rewrite Hb in H. simpl in H.
  destruct (public_key_from_sec1 b) eqn:Hp; [|done]. res_inv. subst s.
  exists b. split; try done. by apply starts_with_04_lower.
Qed.

Lemma validate_attestation_ok v s :
  validate_attestation_hex v = Ok s → ∃ b, s = hex_field b ∧
    (b = [] ∨ byte_len b = ATTESTATION_BYTES ∧
      ∃ x, head b = Some x ∧ byte_val x = ATTESTATION_VERSION).
Proof.
  unfold validate_attestation_hex. intros H. apply rbind_ok in H as (b & _ & H).
  exists b. destruct b as [|x b]; [res_inv; by split; [|left]|].
  destruct (Z.eqb_spec (byte_len (x :: b)) ATTESTATION_BYTES); simpl in H; [|done].
  destruct (Z.eqb_spec (byte_val x) ATTESTATION_VERSION); simpl in H; [|done].
  res_inv. split; [done|]. right. eauto.
Qed.

Lemma normalize_credential_id_ok v s :
  normalize_credential_id v = Ok s → canonical_field s 1023.
Proof.
  unfold normalize_credential_id. intros H. apply rbind_ok in H as (b & _ & H).
  destruct (Z.ltb_spec 1023 (byte_len b)); [done|]. res_inv. by exists b.
Qed.

Lemma normalize_hint_ok v n f s : normalize_hint v n f = Ok s → str_len s ≤ n.
Proof.
  unfold normalize_hint. destruct (Z.ltb_spec n (str_len (trim v))); [done|].
  intros. by res_inv; subst.
Qed.

Lemma parse_metadata_ok v s : parse_metadata v = Ok s → canonical_field s MAX_METADATA_BYTES.
Proof.
  unfold parse_metadata. intros H. apply rbind_ok in H as (b & _ & H).
  destruct (Z.ltb_spec MAX_METADATA_BYTES (byte_len b)); [done|]. res_inv. by exists b.
Qed.

Lemma parse_rp_id_ok v s : parse_rp_id v = Ok s → 1 ≤ str_len s ≤ 253.
Proof.
  unfold parse_rp_id. destruct v as [[|c v]|]; try done.
  destruct (Z.ltb_spec 253 (str_len (String c v))); [done|]. intros. res_inv. subst.
  unfold str_len in *. simpl in *. lia.
Qed.

Lemma parse_member_ok r m : parse_member r = Ok m → wf_member m.
Proof.
  unfold parse_member. intros H. res_inv. subst. split; simpl.
  - by eapply parse_public_key_ok.
  - by eapply validate_attestation_ok.
  - by eapply normalize_credential_id_ok.
  - by eapply normalize_hint_ok.
  - by eapply normalize_hint_ok.
Qed.

Lemma parse_members_ok g parsed i rs ms :
  NoDup (g :: (public_key <$> parsed)) → Forall wf_member parsed →
  parse_members g parsed i rs = Ok ms →
  NoDup (g :: (public_key <$> ms)) ∧ Forall wf_member ms ∧
  length ms = (length parsed + length rs)%nat.
Proof.
  revert parsed i. induction rs as [|r rs IH]; intros parsed i Hnd Hwf H; simpl in H.
  - res_inv. subst. split_and!; [done..|simpl; lia].
  - apply rbind_ok in H as (m & Hm%map_err_ok%parse_member_ok & H).
    destruct (bool_decide_reflect (public_key m = g)) as [|Hg]; [done|].
    destruct (existsb _ _) eqn:Hex; [done|].
    apply IH in H as (?&?&Hl).
    + rewrite length_app in Hl. simpl in *. split_and!; [done..|lia].
    + rewrite fmap_app, app_comm_cons. apply NoDup_app. split_and!; [done| |apply NoDup_singleton].
      intros k Hk ->%list_elem_of_singleton. apply elem_of_cons in Hk as [?|Hk]; [done|].
      apply list_elem_of_fmap in Hk as (e & He & Hin).
      apply not_true_iff_false in Hex. apply Hex, existsb_exists. exists e.
      split; [by apply list_elem_of_In|]. by apply bool_decide_eq_true.
    + by apply Forall_app_2; [|apply Forall_singleton].
Qed.

Lemma verify_members_ok chain reg rp gkb i ms :
  Forall wf_member ms → verify_members chain reg rp gkb i ms = Ok () →
  Forall (λ m, ∃ att, attestation m = hex_field att ∧
    signed_by chain reg rp (public_key m) (proof m) (member_binding_for gkb att)) ms.
Proof.
  revert i. induction ms as [|m ms IH]; intros i Hwf H; [constructor|].
  apply Forall_cons in Hwf as [[(kb & Hkb) (att & Hatt & _) _ _ _] Hwf].
  simpl in H. rewrite Hatt, parse_hex_field, (ck_decode _ _ Hkb) in H. simpl in H.
  apply rbind_ok in H as ([] & Hv%map_err_ok & H).
  constructor; [|by eapply IH]. exists att. split; [done|]. by exists kb.
Qed.

Lemma wf_member_hash m : wf_member m → ∃ h, member_hash m = Ok h.
Proof.
  intros [(kb & Hk%canonical_key_parse) (att & Ha & _) _ _ _].
  unfold member_hash. rewrite Hk, Ha. simpl. rewrite parse_hex_field. simpl. eauto.
Qed.

(** [content_hash_for] reads neither the id, the hash field nor the
    lifecycle fields. *)
Lemma content_hash_set h t : content_hash_for (set_content_hash h t) = content_hash_for t.
Proof. done. Qed.

(** ** No [expect] ever fires *)

Definition no_panic {A} (m : result A VError) : Prop := ∀ x, m ≠ Err (Panicked x).

Lemma no_panic_bind {A B} (m : result A VError) (f : A → result B VError) :
  no_panic m → (∀ a, m = Ok a → no_panic (f a)) → no_panic (rbind m f).
Proof. intros Hm Hf x. destruct m as [a|e]; simpl; [by apply Hf|]. intros [= ->]. by eapply Hm. Qed.

Lemma no_panic_ok {A} (a : A) : no_panic (Ok a).
Proof. done. Qed.
Lemma no_panic_msg {A} m : no_panic (A := A) (Err (Msg m)).
Proof. done. Qed.
Lemma no_panic_ok_or {A} m (o : option A) : no_panic (ok_or (Msg m) o).
Proof. by destruct o. Qed.
Lemma no_panic_map_err {A E} (f : E → string) (m : result A E) :
  no_panic (map_err (λ e, Msg (f e)) m).
Proof. by destruct m. Qed.
Lemma no_panic_prefix {A} pre (m : result A VError) :
  no_panic m → no_panic (map_err (prefix_msg pre) m).
Proof. intros Hm x. destruct m as [|[]]; simpl; [done..|]. intros [= ->]. by eapply Hm. Qed.
Lemma no_panic_if {A} (b : bool) (m1 m2 : result A VError) :
  no_panic m1 → (b = false → no_panic m2) → no_panic (if b then m1 else m2).
Proof. destruct b; auto. Qed.
End validation.
#[export] Hint Resolve no_panic_ok no_panic_msg no_panic_ok_or no_panic_map_err
  no_panic_prefix : registry.

Ltac no_panic_step :=
  lazymatch goal with
  | |- no_panic (rbind _ _) => apply no_panic_bind; [|intros ? ?]
  | |- no_panic (if _ then _ else _) => apply no_panic_if; [|intros ?]
  | |- no_panic (match ?x with _ => _ end) => destruct x eqn:?
  | |- _ => eauto with registry
  end.
Ltac no_panic_auto := repeat (no_panic_step; try done).

Section theorems.
Context `{C : Crates}.

Lemma canonical_decode s b m : canonical_key s b → expect m (hex_decode s) = Ok b.
Proof. intros H. by rewrite (ck_decode _ _ H). Qed.

(** ** Soundness *)

Lemma validate_register_ok req id now chain reg t ch :
  validate_register req id now chain reg = Ok (t, ch) →
  ∃ ra, address_parse reg = Some ra ∧ kind t = Register ∧ task_id t = id ∧ wf_task t ∧
    ch = content_hash t ∧ created_at t = as_i64 now ∧
    group_signed chain ra t ∧ Forall (member_signed chain ra t) (members t).
Proof.
  unfold validate_register. intros H.
  apply rbind_ok in H as (ra & Hra%ok_or_ok & H).
  apply rbind_ok in H as (rp & Hrp%parse_rp_id_ok & H).
  apply rbind_ok in H as (md & Hmd%parse_metadata_ok & H).
  apply rbind_ok in H as (rs & Hrs & H).
  assert (Hne : (1 ≤ length rs)%nat)
    by (destruct (rr_members req) as [[|]|]; try done; injection Hrs as <-; simpl; lia).
  destruct (Z.ltb_spec MAX_MEMBERS (Z.of_nat (length rs))) as [|Hmax]; [done|].
  apply rbind_ok in H as (g & Hg%map_err_ok%parse_public_key_ok & H).
  apply rbind_ok in H as (gp & _ & H).
  apply rbind_ok in H as (ms & Hms & H).
  apply parse_members_ok in Hms as (Hnd & Hwf & Hlen);
    [|apply NoDup_singleton|constructor].
  apply rbind_ok in H as (h & Hh%map_err_ok & H).
  destruct Hg as (gkb & Hgkb).
  apply rbind_ok in H as (b & Hb & H).
  rewrite (canonical_decode _ gkb) in Hb by done. injection Hb as <-.
  apply rbind_ok in H as ([] & Hgv%map_err_ok & H).
  apply rbind_ok in H as ([] & Hmv%verify_members_ok & H); [|done].
  injection H as <- <-. exists ra. simpl in Hlen.
  split_and!; try done.
  - split; simpl; try done; [by exists gkb|lia|by exists h].
  - exists gp, h. split_and!; [done..|]. by exists gkb.
  - simpl. eapply Forall_impl; [done|]. intros m (att & ? & ?). by exists gkb, att.
Qed.

Lemma validate_refer_ok req id now chain reg t ch :
  validate_refer req id now chain reg = Ok (t, ch) →
  ∃ ra m, address_parse reg = Some ra ∧ kind t = Refer ∧ task_id t = id ∧ wf_task t ∧
    ch = content_hash t ∧ created_at t = as_i64 now ∧
    members t = [m] ∧ group_proof t = None ∧ referrer_signed chain ra t m.
Proof.
  unfold validate_refer. intros H.
  apply rbind_ok in H as (ra & Hra%ok_or_ok & H).
  apply rbind_ok in H as (rp & Hrp%parse_rp_id_ok & H).
  apply rbind_ok in H as (g & (gkb & Hg)%map_err_ok%parse_public_key_ok & H).
  apply rbind_ok in H as (md & Hmd%parse_metadata_ok & H).
  apply rbind_ok in H as (r & _ & H).
  apply rbind_ok in H as (m & Hm%map_err_ok%parse_member_ok & H).
  destruct (bool_decide_reflect (public_key m = g)) as [|Hne]; [done|].
  apply rbind_ok in H as (h & Hh%map_err_ok & H).
  pose proof Hm as [(kb & Hkb) (att & Hatt & _) _ _ _].
  destruct Hmd as (mdb & -> & Hmdl).
  rewrite (canonical_decode _ gkb) in H by done. cbn [rbind] in H.
  rewrite (canonical_decode _ kb), Hatt, !parse_hex_field in H by done. cbn [rbind map_err expect_ok] in H.
  apply rbind_ok in H as ([] & Hv%map_err_ok & H). injection H as <- <-.
  exists ra, m. split_and!; try done.
  - split; simpl; try done; [by exists mdb|by exists gkb| | |by exists h].
    + by apply Forall_singleton.
    + apply NoDup_cons. split; [|apply NoDup_singleton]. by rewrite list_elem_of_singleton.
  - exists gkb, att, mdb. split_and!; [done..|]. by exists kb.
Qed.

(** ** No panics *)

Lemma no_panic_public_key v : no_panic (parse_public_key v).
Proof.
  unfold parse_public_key. no_panic_step; [auto with registry|].
  do 2 (no_panic_step; [done|]). apply orb_false_iff in H0 as [Hl%negb_false_iff Hs%negb_false_iff].
  apply Nat.eqb_eq in Hl. destruct (decode_lower _ Hl Hs) as (b & Hb & _).
  rewrite Hb. simpl. by case_match.
Qed.

Lemma no_panic_attestation v : no_panic (validate_attestation_hex v).
Proof. unfold validate_attestation_hex. no_panic_auto. Qed.

Lemma no_panic_proof p : no_panic (parse_proof p).
Proof. unfold parse_proof. no_panic_auto. Qed.

Lemma no_panic_member r : no_panic (parse_member r).
Proof.
  unfold parse_member, normalize_credential_id, normalize_hint.
  no_panic_auto; auto using no_panic_public_key, no_panic_attestation, no_panic_proof.
Qed.

Lemma no_panic_members g parsed i rs : no_panic (parse_members g parsed i rs).
Proof.
  revert parsed i. induction rs as [|r rs IH]; intros parsed i; simpl; [done|].
  no_panic_auto. apply no_panic_prefix, no_panic_member.
Qed.

Lemma no_panic_verify_members chain reg rp gkb i ms :
  Forall wf_member ms → no_panic (verify_members chain reg rp gkb i ms).
Proof.
  intros Hwf. revert i. induction Hwf as [|m ms [(kb & Hkb) (att & Hatt & _) _ _ _] _ IH];
    intros i; simpl; [done|].
  rewrite (canonical_decode _ kb), Hatt, parse_hex_field by done. simpl. no_panic_auto.
Qed.

Lemma no_panic_rp_id v : no_panic (parse_rp_id v).
Proof. unfold parse_rp_id. destruct v as [[|]|]; no_panic_auto. Qed.

Lemma no_panic_metadata v : no_panic (parse_metadata v).
Proof. unfold parse_metadata. no_panic_auto. Qed.

Lemma no_panic_register req id now chain reg : no_panic (validate_register req id now chain reg).
Proof.
  unfold validate_register.
  apply no_panic_bind; [auto with registry|intros ra _].
  apply no_panic_bind; [apply no_panic_rp_id|intros rp _].
  apply no_panic_bind; [apply no_panic_metadata|intros md _].
  apply no_panic_bind; [by destruct (rr_members req) as [[|]|]|intros rs _].
  apply no_panic_if; [done|intros _].
  apply no_panic_bind; [apply no_panic_prefix, no_panic_public_key|].
  intros g (gkb & Hg)%map_err_ok%parse_public_key_ok.
  apply no_panic_bind; [apply no_panic_prefix, no_panic_proof|intros gp _].
  apply no_panic_bind; [apply no_panic_members|intros ms Hms].
  apply parse_members_ok in Hms as (_ & Hwf & _); [|apply NoDup_singleton|constructor].
  apply no_panic_bind; [apply (no_panic_map_err (λ m, m))|intros h _].
  rewrite (canonical_decode _ gkb) by done. cbn [rbind].
  apply no_panic_bind; [auto with registry|intros _ _].
  apply no_panic_bind; [by apply no_panic_verify_members|done].
Qed.

Lemma no_panic_refer req id now chain reg : no_panic (validate_refer req id now chain reg).
Proof.
  unfold validate_refer.
  apply no_panic_bind; [auto with registry|intros ra _].
  apply no_panic_bind; [apply no_panic_rp_id|intros rp _].
  apply no_panic_bind; [apply no_panic_prefix, no_panic_public_key|].
  intros g (gkb & Hg)%map_err_ok%parse_public_key_ok.
  apply no_panic_bind; [apply no_panic_metadata|intros md (mdb & -> & _)%parse_metadata_ok].
  apply no_panic_bind; [auto with registry|intros r _].
  apply no_panic_bind; [apply no_panic_prefix, no_panic_member|].
  intros m [(kb & Hk) (att & Ha & _) _ _ _]%map_err_ok%parse_member_ok.
  apply no_panic_if; [done|intros _].
  apply no_panic_bind; [apply (no_panic_map_err (λ m, m))|intros h _].
  rewrite (canonical_decode _ gkb) by done. cbn [rbind].
  rewrite (canonical_decode _ kb), Ha, !parse_hex_field by done. cbn [rbind expect_ok map_err].
  apply no_panic_bind; [auto with registry|done].
Qed.

(** ** Validated tasks always have calldata *)

Lemma verify_proof_encodable p ch rp key :
  verify_proof p ch rp key = Ok () → ∃ v, proof_sol p = Ok v.
Proof.
  unfold verify_proof, proof_sol. intros H.
  apply rbind_ok in H as (auth & Ha%map_err_ok & H). rewrite Ha. cbn [rbind].
  do 5 (case_match; [done|]).
  apply rbind_ok in H as (vk & _ & H). apply rbind_ok in H as (r & Hr%map_err_ok & H).
  apply rbind_ok in H as (s & Hs%map_err_ok & H). rewrite Hr, Hs. simpl. eauto.
Qed.

Lemma member_encodable m :
  wf_member m → (∃ v, proof_sol (proof m) = Ok v) → ∃ v, member_sol m = Ok v.
Proof.
  intros [(kb & Hk%canonical_key_parse) (att & Ha & _) (cred & Hc & _) _ _] (v & Hv).
  unfold member_sol. rewrite Hk, Ha, Hc, Hv. cbn [rbind]. rewrite !parse_hex_field. simpl. eauto.
Qed.

Lemma signed_encodable chain ra rp key p b :
  signed_by chain ra rp key p b → ∃ v, proof_sol p = Ok v.
Proof. intros (kb & _ & Hv). by eapply verify_proof_encodable. Qed.

Lemma register_encodable chain ra t :
  kind t = Register → wf_task t → group_signed chain ra t →
  Forall (member_signed chain ra t) (members t) → ∃ b, write_calldata t = Ok b.
Proof.
  intros Hk Hwf (gp & h & Hgp & _ & Hg%signed_encodable) Hms.
  destruct (rmap_total member_sol (members t)) as (ms & Hm).
  { apply Forall_forall. intros m Hin. rewrite Forall_forall in Hms.
    destruct (Hms m Hin) as (gb & att & _ & _ & Hs%signed_encodable).
    apply member_encodable; [|done]. clear Hs. revert m Hin. apply Forall_forall, (wt_members t Hwf). }
  destruct (wt_metadata t Hwf) as (mdb & Hmd & _), (wt_group t Hwf) as (gb & Hgb%canonical_key_parse).
  destruct Hg as (gv & Hgv).
  unfold write_calldata, register_calldata, register_args.
  rewrite Hk, Hm, Hgp, Hmd, parse_hex_field, Hgb. cbn [rbind ok_or]. rewrite Hgv. simpl. eauto.
Qed.

Lemma refer_encodable chain ra t m :
  kind t = Refer → wf_task t → members t = [m] → referrer_signed chain ra t m →
  ∃ b, write_calldata t = Ok b.
Proof.
  intros Hk Hwf Hm (gb & att & md & Hgb%canonical_key_parse & _ & Hmd & Hs%signed_encodable).
  assert (wf_member m) as Hwm.
  { pose proof (wt_members t Hwf) as H. rewrite Hm in H. by inversion H. }
  destruct (member_encodable m Hwm Hs) as (v & Hv).
  unfold write_calldata, refer_calldata, refer_args.
  rewrite Hk, Hm, Hgb, Hmd. cbn [head rbind ok_or]. rewrite parse_hex_field. cbn [rbind].
  rewrite Hv. simpl. eauto.
Qed.

(** ** Properties *)

(** C18. A Register request that validates yields a well-formed pending
    task: canonical lowercase hex fields within the contract's bounds, one
    to seven members whose keys are on the curve, pairwise distinct and
    distinct from the group key, the content hash of exactly those fields;
    the group key signed that content hash, and every member signed (group
    key, own attestation), under this chain and registry. *)
Theorem validate_register_sound req id now chain reg t ch :
  validate_register req id now chain reg = Ok (t, ch) →
  ∃ ra, address_parse reg = Some ra ∧ kind t = Register ∧ task_id t = id ∧ wf_task t ∧
    ch = content_hash t ∧ created_at t = as_i64 now ∧
    group_signed chain ra t ∧ Forall (member_signed chain ra t) (members t).
Proof. apply validate_register_ok. Qed.

(** A Refer request that validates yields a well-formed pending task
    with exactly one member, which is not the group key and signed (group
    key, own attestation, reference metadata). *)
Theorem validate_refer_sound req id now chain reg t ch :
  validate_refer req id now chain reg = Ok (t, ch) →
  ∃ ra m, address_parse reg = Some ra ∧ kind t = Refer ∧ task_id t = id ∧ wf_task t ∧
    ch = content_hash t ∧ created_at t = as_i64 now ∧
    members t = [m] ∧ group_proof t = None ∧ referrer_signed chain ra t m.
Proof. apply validate_refer_ok. Qed.

(** Validation is total: on every request it returns a task or a
    message, and none of its [expect]s can fire. *)
Theorem validation_never_panics rreq freq id now chain reg msg :
  validate_register rreq id now chain reg ≠ Err (Panicked msg) ∧
  validate_refer freq id now chain reg ≠ Err (Panicked msg).
Proof. split; [apply no_panic_register|apply no_panic_refer]. Qed.

(** A validated task can always be put on the wire: its calldata
    builds, whichever kind it is. *)
Theorem validated_task_encodable rreq freq id now chain reg t ch :
  validate_register rreq id now chain reg = Ok (t, ch) ∨
  validate_refer freq id now chain reg = Ok (t, ch) →
  ∃ calldata, write_calldata t = Ok calldata.
Proof.
  intros [(ra&_&Hk&_&Hwf&_&_&Hg&Hm)%validate_register_ok
         |(ra&m&_&Hk&_&Hwf&_&_&Hm&_&Hs)%validate_refer_ok].
  - by eapply register_encodable.
  - by eapply refer_encodable.
Qed.
End theorems.

(** ** Evaluation on examples *)
Section examples.
#[local] Existing Instance concrete_crates.

Definition request_proof (p : Proof_) : ProofRequest :=
  mkProofRequest (Some (authenticator_data p)) (Some (client_data_json p))
    (Some (challenge_index p)) (Some (type_index p)) (Some (proof_r p)) (Some (proof_s p)).

Definition group_key_bytes : bytes := x04 :: replicate 64 x0a.
Definition member_key_bytes : bytes := x04 :: replicate 64 x0b.
Definition sample_registry_hex : string := "0x" +:+ hex_encode sample_registry.
Definition sample_rp : string := "example.com".
Definition sample_metadata : bytes := [x01; x02].

Definition sample_member_proof : Proof_ :=
  make_proof (challenge_for 100 sample_registry sample_rp member_key_bytes
    (member_binding_for group_key_bytes [])) sample_rp.

Definition sample_content_hash : bytes :=
  keccak256 (unit_preimage sample_rp sample_metadata group_key_bytes
    [keccak256 (member_preimage (member_key_bytes, []))]).

Definition sample_group_proof : Proof_ :=
  make_proof (challenge_for 100 sample_registry sample_rp group_key_bytes
    sample_content_hash) sample_rp.

(** A client that spells its keys with a 0x prefix. *)
Definition sample_register_request : RegisterRequest :=
  mkRegisterRequest (Some sample_rp) (Some "0102")
    (Some ("0x" +:+ hex_encode group_key_bytes)) (Some (request_proof sample_group_proof))
    (Some [mkMemberRequest (Some (hex_encode member_key_bytes)) None (Some "0xABCD") None
      (Some " usb ") (Some (request_proof sample_member_proof))]).

Definition sample_refer_request : ReferRequest :=
  mkReferRequest (Some sample_rp) (Some (hex_encode group_key_bytes)) (Some "0x0102")
    (Some (mkMemberRequest (Some (hex_encode member_key_bytes)) None None None None
      (Some (request_proof (make_proof (challenge_for 100 sample_registry sample_rp
        member_key_bytes (reference_binding_for group_key_bytes [] sample_metadata))
        sample_rp))))).

Definition sample_task : RegisterTask :=
  mkTask "t1" Pending Register sample_rp "0x0102" (fmt_b256 sample_content_hash)
    (hex_encode group_key_bytes) (Some sample_group_proof)
    [mkMember (hex_encode member_key_bytes) "" "0xabcd" "" "usb" sample_member_proof]
    None None None 0 1000 false.

Lemma sample_register_validates :
  validate_register sample_register_request "t1" 1000 100 sample_registry_hex =
    Ok (sample_task, content_hash sample_task).
Proof. by vm_compute. Qed.

Lemma validate_register_sound_witness :
  ∃ ra, address_parse sample_registry_hex = Some ra ∧ kind sample_task = Register ∧
    task_id sample_task = "t1" ∧ wf_task sample_task ∧
    content_hash sample_task = content_hash sample_task ∧ created_at sample_task = as_i64 1000 ∧
    group_signed 100 ra sample_task ∧ Forall (member_signed 100 ra sample_task) (members sample_task).
Proof.
  apply (validate_register_sound sample_register_request "t1" 1000 100 sample_registry_hex).
  apply sample_register_validates.
Defined.

Definition refer_result : RegisterTask :=
  match validate_refer sample_refer_request "t2" 1000 100 sample_registry_hex with
  | Ok (t, _) => t
  | Err _ => sample_task
  end.

Lemma validate_refer_sound_witness :
  ∃ ra m, address_parse sample_registry_hex = Some ra ∧ kind refer_result = Refer ∧
    task_id refer_result = "t2" ∧ wf_task refer_result ∧
    content_hash refer_result = content_hash refer_result ∧
    created_at refer_result = as_i64 1000 ∧
    members refer_result = [m] ∧ group_proof refer_result = None ∧
    referrer_signed 100 ra refer_result m.
Proof.
  apply (validate_refer_sound sample_refer_request "t2" 1000 100 sample_registry_hex).
  by vm_compute.
Defined.

Lemma validated_task_encodable_witness : ∃ calldata, write_calldata sample_task = Ok calldata.
Proof.
  apply (validated_task_encodable sample_register_request sample_refer_request "t1" 1000 100
    sample_registry_hex sample_task (content_hash sample_task)).
  left. apply sample_register_validates.
Defined.
End examples.
