(* ===== verification/Registry.v ===== *)
(** * The registry contract ([contracts/src/WebAuthnP256PublicKeyRegistry.sol])

    The two writes and the reads of the contract, on an explicit storage.  A [require]-style failure is a value of [Revert]; a
    transaction that reverts leaves the storage as it was.  The EVM's own
    parts (the ABI decoder of calldata, the precompile at 0x100) are
    parameters. *)
From Stdlib Require Import Ascii String Strings.Byte.
From S2P Require Export Verify.
From stdpp Require Import options.
#[local] Set Warnings "-register-all".

Definition MAX_RPID_LENGTH : Z := 253.
Definition UNCOMPRESSED_P256_KEY_LENGTH : Z := 65.
Definition MAX_METADATA_LENGTH : Z := 2048.
Definition ATTESTATION_LENGTH : Z := 20.
Definition SOL_ATTESTATION_VERSION : Z := 1.
Definition MAX_CREDENTIAL_ID_LENGTH : Z := 1023.
Definition MAX_AUTHENTICATOR_ATTACHMENT_LENGTH : Z := 32.
Definition MAX_TRANSPORTS_LENGTH : Z := 255.
Definition SOL_MAX_MEMBERS : Z := 7.
Definition P256_P : Z := 0xffffffff00000001000000000000000000000000ffffffffffffffffffffffff.
Definition P256_B : Z := 0x5ac635d8aa3a93e7b3ebbd55769886bc651d06b0cc53b0f63bce3c3e27d2604b.

(** ** The EVM's parts *)

Class Evm `{Crates} := {
  (** Decoding of call arguments: what was encoded is read back. *)
  evm_abi_decode : list AbiType → bytes → option (list AbiValue);
  evm_abi_decode_encode ts vs :
    has_types ts vs = true → evm_abi_decode ts (abi_encode_params vs) = Some vs;
  (** P256VERIFY (EIP-7951): digest, r, s, x, y. *)
  p256_precompile : bytes → Z → Z → Z → Z → bool;
}.

(** ** Data *)

Record Entry_ := mkEntry_ {
  en_publicKey : bytes;
  en_attestation : bytes;
  en_credentialId : bytes;
  en_authenticatorAttachment : bytes;
  en_transports : bytes;
  en_createdAt : Z;
}.

Record Unit_ := mkUnit_ {
  un_rpId : string;
  un_metadata : bytes;
  un_groupPublicKey : bytes;
  un_contentHash : bytes;
  un_memberCount : Z;
  un_createdAt : Z;
}.

Record Reference_ := mkReference_ {
  re_entryId : Z;
  re_unitId : Z;
  re_metadata : bytes;
  re_createdAt : Z;
}.

Record SolProof := mkSolProof {
  sp_authenticatorData : bytes;
  sp_clientDataJSON : string;
  sp_challengeIndex : Z;
  sp_typeIndex : Z;
  sp_r : Z;
  sp_s : Z;
}.

Record SolMember := mkSolMember {
  sm_publicKey : bytes;
  sm_attestation : bytes;
  sm_credentialId : bytes;
  sm_authenticatorAttachment : bytes;
  sm_transports : bytes;
  sm_proof : SolProof;
}.

(** The contract's storage; a mapping is a total function, zero where unset. *)
Record Registry := mkRegistry {
  DOMAIN_CHAIN_ID : Z;
  DOMAIN_REGISTRY : bytes;
  entries_ : list Entry_;
  units_ : list Unit_;
  references_ : list Reference_;
  entryIdPlusOneByKey : bytes → Z;
  unitIdPlusOneByGroupKey : bytes → Z;
  unitIdPlusOneByContent : bytes → Z;
  groupEntryIds : Z → list Z;
  entryUnitIds : Z → list Z;
  isMemberLink : Z → Z → bool;
  referenceIdsByEntry : Z → list Z;
  referenceIdsByUnit : Z → list Z;
  referenceIdPlusOneByLink : Z → Z → Z;
  rpIds_ : list string;
  rpCreatedAt : string → Z;
  unitIdsByRpId : string → list Z;
  registerPayload : Z → bytes;
  referPayload : Z → bytes;
}.

(** [m[k] = v] *)
Definition put {K V} `{EqDecision K} (k : K) (v : V) (m : K → V) : K → V :=
  λ k', if decide (k' = k) then v else m k'.

Inductive Revert :=
| EmptyRpId
| RpIdTooLong (length : Z)
| InvalidPublicKeyLength (length : Z)
| InvalidPublicKeyPrefix (prefix : byte)
| InvalidPublicKeyCoordinate
| InvalidPublicKeyPoint
| MetadataTooLong (length : Z)
| InvalidAttestation (length : Z)
| CredentialIdTooLong (length : Z)
| CredentialIdMismatch (entryId : Z)
| AuthenticatorAttachmentTooLong (length : Z)
| TransportsTooLong (length : Z)
| AttestationMismatch (entryId : Z)
| InvalidMemberCount (count : Z)
| DuplicateMemberKey (index : Z)
| GroupKeyAlreadyUsed (groupKeyHash : bytes)
| GroupNotFound (groupKeyHash : bytes)
| AlreadyReferenced (referenceId : Z)
| InvalidProof
| RpIdMismatch
| EntryNotFound (entryId : Z)
| UnitNotFound (unitId : Z)
| ReferenceNotFound (referenceId : Z)
(** no message: checked arithmetic, or calldata that does not decode *)
| Panic | BadCalldata.

Definition require (ok : bool) (e : Revert) : result () Revert := if ok then Ok tt else Err e.

(** [Base64Url.encode32] *)
Definition encode32_tail (b0 b1 : byte) : list ascii :=
  let tail := Z.lor (Z.shiftl (byte_val b0) 8) (byte_val b1) in
  [b64_char (Z.land (Z.shiftr tail 10) 0x3f); b64_char (Z.land (Z.shiftr tail 4) 0x3f);
   b64_char (Z.land (Z.shiftl tail 2) 0x3f)].
Fixpoint encode32_go (b : bytes) : list ascii :=
  match b with
  | b0 :: b1 :: b2 :: rest => b64_chunk b0 b1 b2 ++ encode32_go rest
  | [b0; b1] => encode32_tail b0 b1
  | _ => []
  end.
Definition encode32 (value : bytes) : string := string_of_list_ascii (encode32_go value).

Section registry.
Context `{C : Crates, V : Evm}.

(** ** Validation *)

Definition key_x (publicKey : bytes) : Z := from_be_bytes (take 32 (drop 1 publicKey)).
Definition key_y (publicKey : bytes) : Z := from_be_bytes (take 32 (drop 33 publicKey)).

Definition on_curve (x y : Z) : bool :=
  let lhs := y * y mod P256_P in
  let x2 := x * x mod P256_P in
  let x3 := x2 * x mod P256_P in
  let rhs := ((x3 + (P256_P - 3) * x mod P256_P) mod P256_P + P256_B) mod P256_P in
  lhs =? rhs.

Definition validatePublicKey (publicKey : bytes) : result (Z * Z) Revert :=
  try u := require (byte_len publicKey =? UNCOMPRESSED_P256_KEY_LENGTH)
    (InvalidPublicKeyLength (byte_len publicKey)) in
  let prefix := nth 0 publicKey x00 in
  try u := require (byte_val prefix =? 4) (InvalidPublicKeyPrefix prefix) in
  let x := key_x publicKey in
  let y := key_y publicKey in
  try u := require ((x <? P256_P) && (y <? P256_P)) InvalidPublicKeyCoordinate in
  try u := require (on_curve x y) InvalidPublicKeyPoint in
  Ok (x, y).

Definition validateRpId (rpId : string) : result () Revert :=
  try u := require (negb (str_len rpId =? 0)) EmptyRpId in
  require (str_len rpId <=? MAX_RPID_LENGTH) (RpIdTooLong (str_len rpId)).

Definition validateMetadata (metadata : bytes) : result () Revert :=
  require (byte_len metadata <=? MAX_METADATA_LENGTH) (MetadataTooLong (byte_len metadata)).

Definition validateAttestation (attestation : bytes) : result () Revert :=
  match attestation with
  | [] => Ok tt
  | version :: _ =>
      require ((byte_len attestation =? ATTESTATION_LENGTH) && (byte_val version =? SOL_ATTESTATION_VERSION))
        (InvalidAttestation (byte_len attestation))
  end.

(** ** Challenges and digests *)

Definition challengeFor (chainId : Z) (registry : bytes) (rpId : string) (publicKey binding : bytes) : bytes :=
  keccak256 (abi_encode_params
    [VUint chainId; VAddress registry; VString rpId; VBytes publicKey; VBytes32 binding]).
Definition memberBindingFor (groupPublicKey attestation : bytes) : bytes :=
  keccak256 (abi_encode_params [VBytes groupPublicKey; VBytes attestation]).
Definition referenceBindingFor (groupPublicKey attestation metadata : bytes) : bytes :=
  keccak256 (abi_encode_params [VBytes groupPublicKey; VBytes attestation; VBytes metadata]).
Definition contentHashFor (rpId : string) (metadata groupPublicKey : bytes) (members : list SolMember) : bytes :=
  let memberHashes := (λ m, keccak256 (abi_encode_params
    [VBytes (sm_publicKey m); VBytes (sm_attestation m)])) <$> members in
  keccak256 (abi_encode_params
    [VString rpId; VBytes metadata; VBytes groupPublicKey; VSeq (VBytes32 <$> memberHashes)]).

(** The addition is checked. *)
Definition checkSubstring (data : bytes) (offset : Z) (expected : bytes) : result bool Revert :=
  let end_ := offset + byte_len expected in
  try u := require (end_ <=? U256_MAX) Panic in
  Ok ((end_ <=? byte_len data) &&
      bool_decide (take (length expected) (drop (Z.to_nat offset) data) = expected)).

Definition verifyProof (p : SolProof) (challenge : bytes) (rpId : string) (x y : Z) : result () Revert :=
  let authData := sp_authenticatorData p in
  try u := require (37 <=? byte_len authData) InvalidProof in
  try u := require (bool_decide (take 32 authData = sha256 (as_bytes rpId))) RpIdMismatch in
  try u := require (negb (Z.land (byte_val (nth 32 authData x00)) 0x01 =? 0)) InvalidProof in
  let clientData := as_bytes (sp_clientDataJSON p) in
  try ok := checkSubstring clientData (sp_typeIndex p) (as_bytes TYPE_FIELD) in
  try u := require ok InvalidProof in
  let expectedChallenge := as_bytes (DQ +:+ "challenge" +:+ DQ +:+ ":" +:+ DQ +:+ encode32 challenge +:+ DQ) in
  try ok := checkSubstring clientData (sp_challengeIndex p) expectedChallenge in
  try u := require ok InvalidProof in
  let digest := sha256 (authData ++ sha256 clientData) in
  require (p256_precompile digest (sp_r p) (sp_s p) x y) InvalidProof.

(** ** Storage steps *)

Definition id_of {A} (l : list A) : Z := Z.of_nat (length l).

Definition push_unit (u : Unit_) (groupKeyHash : bytes) (now : Z) (s : Registry) : Registry :=
  let unitId := id_of (units_ s) in
  let rpId := un_rpId u in
  let fresh := bool_decide (unitIdsByRpId s rpId = []) in
  mkRegistry (DOMAIN_CHAIN_ID s) (DOMAIN_REGISTRY s) (entries_ s) (units_ s ++ [u]) (references_ s)
    (entryIdPlusOneByKey s)
    (put groupKeyHash (unitId + 1) (unitIdPlusOneByGroupKey s))
    (put (un_contentHash u) (unitId + 1) (unitIdPlusOneByContent s))
    (groupEntryIds s) (entryUnitIds s) (isMemberLink s)
    (referenceIdsByEntry s) (referenceIdsByUnit s) (referenceIdPlusOneByLink s)
    (if fresh then rpIds_ s ++ [rpId] else rpIds_ s)
    (if fresh then put rpId now (rpCreatedAt s) else rpCreatedAt s)
    (put rpId (unitIdsByRpId s rpId ++ [unitId]) (unitIdsByRpId s))
    (registerPayload s) (referPayload s).

Definition push_entry (e : Entry_) (keyHash : bytes) (s : Registry) : Registry :=
  mkRegistry (DOMAIN_CHAIN_ID s) (DOMAIN_REGISTRY s) (entries_ s ++ [e]) (units_ s) (references_ s)
    (put keyHash (id_of (entries_ s) + 1) (entryIdPlusOneByKey s))
    (unitIdPlusOneByGroupKey s) (unitIdPlusOneByContent s)
    (groupEntryIds s) (entryUnitIds s) (isMemberLink s)
    (referenceIdsByEntry s) (referenceIdsByUnit s) (referenceIdPlusOneByLink s)
    (rpIds_ s) (rpCreatedAt s) (unitIdsByRpId s) (registerPayload s) (referPayload s).

Definition link_member (unitId entryId : Z) (s : Registry) : Registry :=
  mkRegistry (DOMAIN_CHAIN_ID s) (DOMAIN_REGISTRY s) (entries_ s) (units_ s) (references_ s)
    (entryIdPlusOneByKey s) (unitIdPlusOneByGroupKey s) (unitIdPlusOneByContent s)
    (put unitId (groupEntryIds s unitId ++ [entryId]) (groupEntryIds s))
    (put entryId (entryUnitIds s entryId ++ [unitId]) (entryUnitIds s))
    (put unitId (put entryId true (isMemberLink s unitId)) (isMemberLink s))
    (referenceIdsByEntry s) (referenceIdsByUnit s) (referenceIdPlusOneByLink s)
    (rpIds_ s) (rpCreatedAt s) (unitIdsByRpId s) (registerPayload s) (referPayload s).

Definition push_reference (r : Reference_) (msg_data : bytes) (s : Registry) : Registry :=
  let referenceId := id_of (references_ s) in
  let unitId := re_unitId r in
  let entryId := re_entryId r in
  mkRegistry (DOMAIN_CHAIN_ID s) (DOMAIN_REGISTRY s) (entries_ s) (units_ s) (references_ s ++ [r])
    (entryIdPlusOneByKey s) (unitIdPlusOneByGroupKey s) (unitIdPlusOneByContent s)
    (groupEntryIds s) (entryUnitIds s) (isMemberLink s)
    (put entryId (referenceIdsByEntry s entryId ++ [referenceId]) (referenceIdsByEntry s))
    (put unitId (referenceIdsByUnit s unitId ++ [referenceId]) (referenceIdsByUnit s))
    (put unitId (put entryId (referenceId + 1) (referenceIdPlusOneByLink s unitId)) (referenceIdPlusOneByLink s))
    (rpIds_ s) (rpCreatedAt s) (unitIdsByRpId s) (registerPayload s)
    (put referenceId msg_data (referPayload s)).

Definition keep_register_payload (unitId : Z) (msg_data : bytes) (s : Registry) : Registry :=
  mkRegistry (DOMAIN_CHAIN_ID s) (DOMAIN_REGISTRY s) (entries_ s) (units_ s) (references_ s)
    (entryIdPlusOneByKey s) (unitIdPlusOneByGroupKey s) (unitIdPlusOneByContent s)
    (groupEntryIds s) (entryUnitIds s) (isMemberLink s)
    (referenceIdsByEntry s) (referenceIdsByUnit s) (referenceIdPlusOneByLink s)
    (rpIds_ s) (rpCreatedAt s) (unitIdsByRpId s)
    (put unitId msg_data (registerPayload s)) (referPayload s).

(** ** Write 1: register a group *)

Definition entry_at (s : Registry) (id : Z) : option Entry_ := if id <? 0 then None else entries_ s !! Z.to_nat id.
Definition unit_at (s : Registry) (id : Z) : option Unit_ := if id <? 0 then None else units_ s !! Z.to_nat id.

(** [_resolveEntry]; an index out of range panics. *)
Definition resolveEntry (keyHash : bytes) (m : SolMember) (now : Z) (s : Registry)
    : result (Z * Registry) Revert :=
  let plusOne := entryIdPlusOneByKey s keyHash in
  if negb (plusOne =? 0) then
    let entryId := plusOne - 1 in
    match entry_at s entryId with
    | None => Err Panic
    | Some e =>
        try u := require (bool_decide (keccak256 (en_attestation e) = keccak256 (sm_attestation m)))
          (AttestationMismatch entryId) in
        try u := require (bool_decide (keccak256 (en_credentialId e) = keccak256 (sm_credentialId m)))
          (CredentialIdMismatch entryId) in
        Ok (entryId, s)
    end
  else
    try u := validateAttestation (sm_attestation m) in
    try u := require (byte_len (sm_credentialId m) <=? MAX_CREDENTIAL_ID_LENGTH)
      (CredentialIdTooLong (byte_len (sm_credentialId m))) in
    try u := require (byte_len (sm_authenticatorAttachment m) <=? MAX_AUTHENTICATOR_ATTACHMENT_LENGTH)
      (AuthenticatorAttachmentTooLong (byte_len (sm_authenticatorAttachment m))) in
    try u := require (byte_len (sm_transports m) <=? MAX_TRANSPORTS_LENGTH)
      (TransportsTooLong (byte_len (sm_transports m))) in
    Ok (id_of (entries_ s),
        push_entry (mkEntry_ (sm_publicKey m) (sm_attestation m) (sm_credentialId m)
          (sm_authenticatorAttachment m) (sm_transports m) now) keyHash s).

Definition verifyGroup (s : Registry) (rpId : string) (groupPublicKey : bytes) (groupProof : SolProof)
    (contentHash : bytes) : result () Revert :=
  try xy := validatePublicKey groupPublicKey in
  verifyProof groupProof
    (challengeFor (DOMAIN_CHAIN_ID s) (DOMAIN_REGISTRY s) rpId groupPublicKey contentHash) rpId xy.1 xy.2.

(** The key hashes, pairwise distinct and none the group's. *)
Fixpoint distinctKeys (groupKeyHash : bytes) (seen : list bytes) (index : Z) (members : list SolMember)
    : result (list bytes) Revert :=
  match members with
  | [] => Ok seen
  | m :: members =>
      let keyHash := keccak256 (sm_publicKey m) in
      try u := require (negb (bool_decide (keyHash = groupKeyHash))) (DuplicateMemberKey index) in
      try u := require (negb (bool_decide (keyHash ∈ seen))) (DuplicateMemberKey index) in
      distinctKeys groupKeyHash (seen ++ [keyHash]) (index + 1) members
  end.

Definition admitMember (unitId : Z) (rpId : string) (groupPublicKey keyHash : bytes) (m : SolMember)
    (now : Z) (s : Registry) : result Registry Revert :=
  try xy := validatePublicKey (sm_publicKey m) in
  try r := resolveEntry keyHash m now s in
  let '(entryId, s) := r in
  let s := link_member unitId entryId s in
  let binding := memberBindingFor groupPublicKey (sm_attestation m) in
  try u := verifyProof (sm_proof m)
    (challengeFor (DOMAIN_CHAIN_ID s) (DOMAIN_REGISTRY s) rpId (sm_publicKey m) binding) rpId xy.1 xy.2 in
  Ok s.

Fixpoint admitMembers (unitId : Z) (rpId : string) (groupPublicKey : bytes)
    (members : list (bytes * SolMember)) (now : Z) (s : Registry) : result Registry Revert :=
  match members with
  | [] => Ok s
  | (keyHash, m) :: members =>
      try s := admitMember unitId rpId groupPublicKey keyHash m now s in
      admitMembers unitId rpId groupPublicKey members now s
  end.

(** The unit's id, which the [GroupCreated] event carries. *)
Definition register_ (rpId : string) (metadata groupPublicKey : bytes) (groupProof : SolProof)
    (members : list SolMember) (msg_data : bytes) (now : Z) (s : Registry) : result (Z * Registry) Revert :=
  try u := validateRpId rpId in
  try u := validateMetadata metadata in
  let count := Z.of_nat (length members) in
  try u := require (negb (count =? 0) && (count <=? SOL_MAX_MEMBERS)) (InvalidMemberCount count) in
  let groupKeyHash := keccak256 groupPublicKey in
  try u := require (unitIdPlusOneByGroupKey s groupKeyHash =? 0) (GroupKeyAlreadyUsed groupKeyHash) in
  let contentHash := contentHashFor rpId metadata groupPublicKey members in
  let unitId := id_of (units_ s) in
  let s := push_unit (mkUnit_ rpId metadata groupPublicKey contentHash count now) groupKeyHash now s in
  try u := verifyGroup s rpId groupPublicKey groupProof contentHash in
  try keyHashes := distinctKeys groupKeyHash [] 0 members in
  try s := admitMembers unitId rpId groupPublicKey (combine keyHashes members) now s in
  Ok (unitId, keep_register_payload unitId msg_data s).

(** ** Write 2: refer a passkey to a group *)

Definition refer_ (groupPublicKey metadata : bytes) (m : SolMember) (msg_data : bytes) (now : Z)
    (s : Registry) : result (Z * Registry) Revert :=
  try u := validateMetadata metadata in
  let groupKeyHash := keccak256 groupPublicKey in
  let unitPlusOne := unitIdPlusOneByGroupKey s groupKeyHash in
  try u := require (negb (unitPlusOne =? 0)) (GroupNotFound groupKeyHash) in
  let unitId := unitPlusOne - 1 in
  match unit_at s unitId with
  | None => Err Panic
  | Some group =>
      let rpId := un_rpId group in
      let keyHash := keccak256 (sm_publicKey m) in
      try u := require (negb (bool_decide (keyHash = groupKeyHash))) (DuplicateMemberKey 0) in
      try xy := validatePublicKey (sm_publicKey m) in
      try r := resolveEntry keyHash m now s in
      let '(entryId, s) := r in
      let linkPlusOne := referenceIdPlusOneByLink s unitId entryId in
      try u := require (linkPlusOne =? 0) (AlreadyReferenced (linkPlusOne - 1)) in
      let binding := referenceBindingFor groupPublicKey (sm_attestation m) metadata in
      try u := verifyProof (sm_proof m)
        (challengeFor (DOMAIN_CHAIN_ID s) (DOMAIN_REGISTRY s) rpId (sm_publicKey m) binding) rpId xy.1 xy.2 in
      let referenceId := id_of (references_ s) in
      Ok (referenceId, push_reference (mkReference_ entryId unitId metadata now) msg_data s)
  end.

(** ** A transaction *)

Definition PROOF_T : AbiType := TTuple [TBytes; TString; TUint256; TUint256; TUint256; TUint256].
Definition MEMBER_T : AbiType := TTuple [TBytes; TBytes; TBytes; TBytes; TBytes; PROOF_T].
Definition REGISTER_T : list AbiType := [TString; TBytes; TBytes; PROOF_T; TArray MEMBER_T].
Definition REFER_T : list AbiType := [TBytes; TBytes; MEMBER_T].

Definition proof_of (v : AbiValue) : option SolProof :=
  match v with
  | VSeq [VBytes a; VString c; VUint ci; VUint ti; VUint r; VUint s] => Some (mkSolProof a c ci ti r s)
  | _ => None
  end.
Definition member_of (v : AbiValue) : option SolMember :=
  match v with
  | VSeq [VBytes k; VBytes a; VBytes c; VBytes aa; VBytes tr; p] =>
      p ← proof_of p; Some (mkSolMember k a c aa tr p)
  | _ => None
  end.

Definition REGISTER_SELECTOR : bytes :=
  take 4 (keccak256 (as_bytes ("register(string,bytes,bytes," +:+ PROOF_SIG +:+ "," +:+ MEMBER_SIG +:+ "[])"))).
Definition REFER_SELECTOR : bytes :=
  take 4 (keccak256 (as_bytes ("refer(bytes,bytes," +:+ MEMBER_SIG +:+ ")"))).

(** The writes as decoded calls. *)
Inductive Call :=
| CallRegister (rpId : string) (metadata groupPublicKey : bytes) (groupProof : SolProof) (members : list SolMember)
| CallRefer (groupPublicKey metadata : bytes) (m : SolMember).

Definition decode_call (msg_data : bytes) : option Call :=
  let selector := take 4 msg_data in
  let args := drop 4 msg_data in
  if bool_decide (selector = REGISTER_SELECTOR) then
    vs ← evm_abi_decode REGISTER_T args;
    match vs with
    | [VString rp; VBytes md; VBytes g; p; VSeq ms] =>
        p ← proof_of p; ms ← mapM member_of ms; Some (CallRegister rp md g p ms)
    | _ => None
    end
  else if bool_decide (selector = REFER_SELECTOR) then
    vs ← evm_abi_decode REFER_T args;
    match vs with
    | [VBytes g; VBytes md; m] => m ← member_of m; Some (CallRefer g md m)
    | _ => None
    end
  else None.

Definition run_call (c : Call) (msg_data : bytes) (now : Z) (s : Registry) : result (Z * Registry) Revert :=
  match c with
  | CallRegister rp md g p ms => register_ rp md g p ms msg_data now s
  | CallRefer g md m => refer_ g md m msg_data now s
  end.

Definition call_result (msg_data : bytes) (now : Z) (s : Registry) : result (Z * Registry) Revert :=
  try c := ok_or BadCalldata (decode_call msg_data) in run_call c msg_data now s.

(** A transaction, mined at [now]. *)
Definition transact (msg_data : bytes) (now : Z) (s : Registry) : Registry :=
  match call_result msg_data now s with Ok (_, s') => s' | Err _ => s end.

(** ** Reads *)

Definition isContentRegistered (s : Registry) (contentHash : bytes) : bool :=
  negb (unitIdPlusOneByContent s contentHash =? 0).
Definition isReferenced (s : Registry) (groupPublicKey memberPublicKey : bytes) : bool :=
  let unitPlusOne := unitIdPlusOneByGroupKey s (keccak256 groupPublicKey) in
  let entryPlusOne := entryIdPlusOneByKey s (keccak256 memberPublicKey) in
  if (unitPlusOne =? 0) || (entryPlusOne =? 0) then false
  else negb (referenceIdPlusOneByLink s (unitPlusOne - 1) (entryPlusOne - 1) =? 0).
Definition getUnitByGroupKey (s : Registry) (publicKey : bytes) : result (option (Z * Unit_)) Revert :=
  let plusOne := unitIdPlusOneByGroupKey s (keccak256 publicKey) in
  if plusOne =? 0 then Ok None else
  try u := ok_or Panic (unit_at s (plusOne - 1)) in Ok (Some (plusOne - 1, u)).
Definition getEntryByKey (s : Registry) (publicKey : bytes) : result (option (Z * Entry_)) Revert :=
  let plusOne := entryIdPlusOneByKey s (keccak256 publicKey) in
  if plusOne =? 0 then Ok None else
  try e := ok_or Panic (entry_at s (plusOne - 1)) in Ok (Some (plusOne - 1, e)).
(** The loop of a page: [count] elements from [offset], from the front or
    the back; an index out of range panics. *)
Definition page_index (total offset i : Z) (desc : bool) : Z :=
  if desc then total - 1 - offset - i else offset + i.
Definition paged {A} (l : list A) (offset limit : Z) (desc : bool) : result (Z * list A) Revert :=
  let total := id_of l in
  if total <=? offset then Ok (total, []) else
  let remaining := total - offset in
  let count := if remaining <? limit then remaining else limit in
  try items := rmap (λ i, ok_or Panic (l !! Z.to_nat (page_index total offset (Z.of_nat i) desc)))
    (seq 0 (Z.to_nat count)) in
  Ok (total, items).
Definition pageIds (ids : list Z) (offset limit : Z) (desc : bool) : result (Z * list Z) Revert :=
  paged ids offset limit desc.

Definition getTotalEntries (s : Registry) : Z := id_of (entries_ s).
Definition getTotalUnits (s : Registry) : Z := id_of (units_ s).
Definition getTotalReferences (s : Registry) : Z := id_of (references_ s).
Definition getTotalRpIds (s : Registry) : Z := id_of (rpIds_ s).

Definition reference_at (s : Registry) (id : Z) : option Reference_ :=
  if id <? 0 then None else references_ s !! Z.to_nat id.
Definition getEntry (s : Registry) (entryId : Z) : result Entry_ Revert :=
  if getTotalEntries s <=? entryId then Err (EntryNotFound entryId) else ok_or Panic (entry_at s entryId).
Definition getUnit (s : Registry) (unitId : Z) : result Unit_ Revert :=
  if getTotalUnits s <=? unitId then Err (UnitNotFound unitId) else ok_or Panic (unit_at s unitId).
Definition getReference (s : Registry) (referenceId : Z) : result Reference_ Revert :=
  if getTotalReferences s <=? referenceId then Err (ReferenceNotFound referenceId)
  else ok_or Panic (reference_at s referenceId).
Definition registerPayloadOf (s : Registry) (unitId : Z) : result bytes Revert :=
  if getTotalUnits s <=? unitId then Err (UnitNotFound unitId) else Ok (registerPayload s unitId).
Definition referPayloadOf (s : Registry) (referenceId : Z) : result bytes Revert :=
  if getTotalReferences s <=? referenceId then Err (ReferenceNotFound referenceId)
  else Ok (referPayload s referenceId).

Definition hasEntry (s : Registry) (publicKey : bytes) : bool :=
  negb (entryIdPlusOneByKey s (keccak256 publicKey) =? 0).
Definition isMember (s : Registry) (groupPublicKey memberPublicKey : bytes) : bool :=
  let unitPlusOne := unitIdPlusOneByGroupKey s (keccak256 groupPublicKey) in
  let entryPlusOne := entryIdPlusOneByKey s (keccak256 memberPublicKey) in
  if (unitPlusOne =? 0) || (entryPlusOne =? 0) then false
  else isMemberLink s (unitPlusOne - 1) (entryPlusOne - 1).
Definition getUnitIdByContentHash (s : Registry) (contentHash : bytes) : option Z :=
  let plusOne := unitIdPlusOneByContent s contentHash in
  if plusOne =? 0 then None else Some (plusOne - 1).

(** A list under the id that a key has; an unknown key has none. *)
Definition ids_under (plusOne : Z) (ids : Z → list Z) (offset limit : Z) (desc : bool)
    : result (Z * list Z) Revert :=
  if plusOne =? 0 then Ok (0, []) else pageIds (ids (plusOne - 1)) offset limit desc.
Definition getGroupsOfKey (s : Registry) (publicKey : bytes) : Z → Z → bool → result (Z * list Z) Revert :=
  ids_under (entryIdPlusOneByKey s (keccak256 publicKey)) (entryUnitIds s).
Definition getReferencesOfKey (s : Registry) (publicKey : bytes) : Z → Z → bool → result (Z * list Z) Revert :=
  ids_under (entryIdPlusOneByKey s (keccak256 publicKey)) (referenceIdsByEntry s).
Definition getReferencesToGroup (s : Registry) (groupPublicKey : bytes) : Z → Z → bool → result (Z * list Z) Revert :=
  ids_under (unitIdPlusOneByGroupKey s (keccak256 groupPublicKey)) (referenceIdsByUnit s).
Definition getGroupsByRpId (s : Registry) (rpId : string) : Z → Z → bool → result (Z * list Z) Revert :=
  pageIds (unitIdsByRpId s rpId).

(** The same lists' lengths. *)
Definition count_under (plusOne : Z) (ids : Z → list Z) : Z :=
  if plusOne =? 0 then 0 else id_of (ids (plusOne - 1)).
Definition getTotalGroupsOfKey (s : Registry) (publicKey : bytes) : Z :=
  count_under (entryIdPlusOneByKey s (keccak256 publicKey)) (entryUnitIds s).
Definition getTotalReferencesOfKey (s : Registry) (publicKey : bytes) : Z :=
  count_under (entryIdPlusOneByKey s (keccak256 publicKey)) (referenceIdsByEntry s).
Definition getTotalReferencesToGroup (s : Registry) (groupPublicKey : bytes) : Z :=
  count_under (unitIdPlusOneByGroupKey s (keccak256 groupPublicKey)) (referenceIdsByUnit s).
Definition getTotalGroupsByRpId (s : Registry) (rpId : string) : Z := id_of (unitIdsByRpId s rpId).
Definition getTotalGroupMembers (s : Registry) (unitId : Z) : result Z Revert :=
  if getTotalUnits s <=? unitId then Err (UnitNotFound unitId) else Ok (id_of (groupEntryIds s unitId)).

Definition getGroupMembers (s : Registry) (unitId offset limit : Z) (desc : bool)
    : result (Z * list Z * list Entry_) Revert :=
  if getTotalUnits s <=? unitId then Err (UnitNotFound unitId) else
  try page := pageIds (groupEntryIds s unitId) offset limit desc in
  try entries := rmap (λ id, ok_or Panic (entry_at s id)) page.2 in
  Ok (page.1, page.2, entries).

Definition getRpIds (s : Registry) (offset limit : Z) (desc : bool)
    : result (Z * list (string * Z * Z)) Revert :=
  try page := paged (rpIds_ s) offset limit desc in
  Ok (page.1, (λ rp, (rp, id_of (unitIdsByRpId s rp), rpCreatedAt s rp)) <$> page.2).

(** The constructor: zero asks for the deployment's own domain. *)
Definition new_registry (blockChainId : Z) (this : bytes) (domainChainId : Z) (domainRegistry : bytes) : Registry :=
  mkRegistry
    (if domainChainId =? 0 then blockChainId else domainChainId)
    (if forallb (λ b, byte_val b =? 0) domainRegistry then this else domainRegistry)
    [] [] [] (λ _, 0) (λ _, 0) (λ _, 0) (λ _, []) (λ _, []) (λ _ _, false)
    (λ _, []) (λ _, []) (λ _ _, 0) [] (λ _, 0) (λ _, []) (λ _, []) (λ _, []).
End registry.

(** The curve crate and the precompile agree: both are ECDSA over P-256, on
    an uncompressed key's coordinates. *)
Class MirroredCurve `{C : Crates, V : !Evm} : Prop := {
  mc_point b : length b = 65%nat →
    (public_key_from_sec1 b = true) ↔ nth 0 b x00 = x04 ∧ key_x b < P256_P ∧ key_y b < P256_P ∧
      on_curve (key_x b) (key_y b) = true;
  mc_key b : public_key_from_sec1 b = true → is_Some (verifying_key_from_sec1 b);
  mc_verify b vk r s sg d : length b = 65%nat → verifying_key_from_sec1 b = Some vk →
    signature_from_scalars r s = Some sg →
    verify_prehash vk d sg = p256_precompile d (from_be_bytes r) (from_be_bytes s) (key_x b) (key_y b);
  (** Scalars out of range verify nothing. *)
  mc_scalars r s d x y : signature_from_scalars r s = None →
    p256_precompile d (from_be_bytes r) (from_be_bytes s) x y = false;
}.
