(* ===== verification/RegistryConcrete.v ===== *)
(** * An instance to evaluate the contract on

    The curve's equation is the real one; a signature is valid when [r] is
    the signed digest.  The digests, the coder and the texts are those of
    [Concrete]. *)
From Stdlib Require Import Ascii String Strings.Byte.
From S2P Require Export Registry Validation.
From stdpp Require Import options.
#[local] Set Warnings "-register-all".

Definition point_on_curve (b : bytes) : bool :=
  (length b =? 65)%nat && bool_decide (nth 0 b x00 = x04) &&
  (key_x b <? P256_P) && (key_y b <? P256_P) && on_curve (key_x b) (key_y b).

#[local] Instance registry_p256 : P256Crate := {|
  VerifyingKey := bytes;
  Signature := bytes * bytes;
  public_key_from_sec1 := point_on_curve;
  verifying_key_from_sec1 b := if point_on_curve b then Some b else None;
  signature_from_scalars r s := if from_be_bytes s =? 0 then None else Some (r, s);
  verify_prehash _ digest sg := from_be_bytes sg.1 =? from_be_bytes digest;
|}.

Definition registry_crates : Crates :=
  @Build_Crates (@crates_hex concrete_crates) (@crates_digests concrete_crates) registry_p256
    (@crates_abi concrete_crates) (@crates_text concrete_crates).
#[local] Existing Instance registry_crates.

#[local, refine] Instance registry_evm : Evm := {|
  evm_abi_decode := dec_values;
  p256_precompile d r s x y := (r =? from_be_bytes d) && negb (s =? 0);
|}.
Proof.
  intros ts vs H. change (dec_values ts (enc_values vs) = Some vs). unfold dec_values. rewrite dec_enc_values.
  cbn [mbind option_bind]. by rewrite H.
Defined.

#[local] Instance registry_mirrors : MirroredCurve.
Proof.
  split.
  - intros b Hl. cbn [public_key_from_sec1 crates_p256 registry_crates registry_p256].
    unfold point_on_curve. rewrite Hl, !andb_true_iff, !Z.ltb_lt, bool_decide_eq_true. cbn. tauto.
  - intros b Hb. cbn in *. rewrite Hb. eauto.
  - intros b vk r s sg d Hl Hk Hs. cbn in Hs |- *.
    destruct (Z.eqb_spec (from_be_bytes s) 0); [done|]. injection Hs as <-. by rewrite andb_true_r.
  - intros r s d x y Hs. cbn in Hs |- *. destruct (from_be_bytes s =? 0); [by rewrite andb_false_r|done].
Qed.

(** ** Samples *)

Definition curve_key (x y : Z) : bytes := x04 :: to_be_bytes 32 x ++ to_be_bytes 32 y.
Definition key_5 : bytes := curve_key 5 0x459243b9aa581806fe913bce99817ade11ca503c64d9a3c533415c083248fbcc.
Definition key_6 : bytes := curve_key 6 0x36b24c2c54250ac2466985e533720047dcd102b80fe7c0e9220d5128828223cb.
Definition key_8 : bytes := curve_key 8 0xb706288aca290db0d624d1d23f37f6a627249b16d631ff692242d085636041b3.
Definition key_9 : bytes := curve_key 9 0x8e14e8432caf2e23caaa94f7d33315cbfbc522763c63a432db1812e48fe7b297.

Lemma sample_keys_on_curve : forallb point_on_curve [key_5; key_6; key_8; key_9] = true.
Proof. by vm_compute. Qed.

Definition signs (key binding : bytes) : Proof_ :=
  make_proof (challenge_for 100 sample_registry sample_rp key binding) sample_rp.

Definition ask_member (key : bytes) (p : Proof_) : MemberRequest :=
  mkMemberRequest (Some (hex_encode key)) None None None None (Some (request_proof p)).

Definition ask_register (g : bytes) (ks : list bytes) : RegisterRequest :=
  let hash := keccak256 (unit_preimage sample_rp sample_metadata g
    ((λ k, keccak256 (member_preimage (k, []))) <$> ks)) in
  mkRegisterRequest (Some sample_rp) (Some "0102") (Some (hex_encode g))
    (Some (request_proof (signs g hash)))
    (Some ((λ k, ask_member k (signs k (member_binding_for g []))) <$> ks)).

Definition ask_refer (g k : bytes) : ReferRequest :=
  mkReferRequest (Some sample_rp) (Some (hex_encode g)) (Some "0102")
    (Some (ask_member k (signs k (reference_binding_for g [] sample_metadata)))).

Definition register_task (g : bytes) (ks : list bytes) : RegisterTask :=
  match validate_register (ask_register g ks) "r" 1000 100 sample_registry_hex with
  | Ok (t, _) => t
  | Err _ => sample_task
  end.
Definition refer_task (g k : bytes) : RegisterTask :=
  match validate_refer (ask_refer g k) "f" 1000 100 sample_registry_hex with
  | Ok (t, _) => t
  | Err _ => sample_task
  end.

Definition calldata (t : RegisterTask) : bytes :=
  match write_calldata t with Ok b => b | Err _ => [] end.

(** The original deployment, and a mirror of it on another chain. *)
Definition original : Registry := new_registry 100 sample_registry 0 (replicate 20 x00).
Definition mirror : Registry := new_registry 1 (replicate 20 x07) 100 sample_registry.
