(* ===== verification/RegistrySpec.v ===== *)
(** * The contract's specification

    What the contract holds, without ids, indexes or time: a ledger of the
    groups opened, the passkeys used, the references made and the content
    registered, each an append-only list.  [accepts] says which write a
    ledger accepts; the two writes of [Registry] refine it. *)
From Stdlib Require Import Ascii String Strings.Byte.
From S2P Require Export Registry.
From stdpp Require Import options.
#[local] Set Warnings "-register-all".

Section spec.
Context `{C : Crates, V : !Evm}.

Record Ledger := mkLedger {
  opened : list (bytes * string);     (** group key hash, rpId *)
  passkeys : list SolMember;             (** every accepted use of a passkey *)
  referred : list (bytes * bytes);    (** group key hash, passkey hash *)
  registered : list bytes;              (** content hashes *)
}.

Definition empty_ledger : Ledger := mkLedger [] [] [] [].

Definition key_hash (m : SolMember) : bytes := keccak256 (sm_publicKey m).

(** What a passkey's file is matched against. *)
Definition claim (m : SolMember) : bytes * bytes :=
  (keccak256 (sm_attestation m), keccak256 (sm_credentialId m)).

Definition know (m : SolMember) (L : Ledger) : Ledger :=
  mkLedger (opened L) (passkeys L ++ [m]) (referred L) (registered L).
Definition know_all (ms : list SolMember) (L : Ledger) : Ledger :=
  mkLedger (opened L) (passkeys L ++ ms) (referred L) (registered L).
Definition open_group (gh : bytes) (rp : string) (ch : bytes) (L : Ledger) : Ledger :=
  mkLedger (opened L ++ [(gh, rp)]) (passkeys L) (referred L) (registered L ++ [ch]).
Definition refer_key (gh kh : bytes) (L : Ledger) : Ledger :=
  mkLedger (opened L) (passkeys L) (referred L ++ [(gh, kh)]) (registered L).

Definition record_call (L : Ledger) (c : Call) : Ledger :=
  match c with
  | CallRegister rp md g _ ms => know_all ms (open_group (keccak256 g) rp (contentHashFor rp md g ms) L)
  | CallRefer g _ m => refer_key (keccak256 g) (key_hash m) (know m L)
  end.

(** The ledger of a list of accepted writes. *)
Definition ledger_of (h : list Call) : Ledger := foldl record_call empty_ledger h.

(** The sizes an entry is created with. *)
Record within_limits (m : SolMember) : Prop := {
  wl_attestation : validateAttestation (sm_attestation m) = Ok ();
  wl_credential : byte_len (sm_credentialId m) ≤ MAX_CREDENTIAL_ID_LENGTH;
  wl_attachment : byte_len (sm_authenticatorAttachment m) ≤ MAX_AUTHENTICATOR_ATTACHMENT_LENGTH;
  wl_transports : byte_len (sm_transports m) ≤ MAX_TRANSPORTS_LENGTH;
}.

(** A passkey may be used if it is used as before; its first use is
    measured. *)
Definition admits_key (L : Ledger) (m : SolMember) : Prop :=
  (∀ m', m' ∈ passkeys L → key_hash m' = key_hash m → claim m' = claim m) ∧
  (key_hash m ∈ (key_hash <$> passkeys L) ∨ within_limits m).

(** The holder of [key] signed [binding] under the domain. *)
Definition proved (dc : Z) (dr : bytes) (rp : string) (key : bytes) (p : SolProof) (binding : bytes) : Prop :=
  ∃ x y, validatePublicKey key = Ok (x, y) ∧
    verifyProof p (challengeFor dc dr rp key binding) rp x y = Ok tt.

Definition member_proved (dc : Z) (dr : bytes) (rp : string) (g : bytes) (m : SolMember) : Prop :=
  proved dc dr rp (sm_publicKey m) (sm_proof m) (memberBindingFor g (sm_attestation m)).

(** The conditions on a registration that no storage enters. *)
Record sound_register (dc : Z) (dr : bytes) (rp : string) (md g : bytes) (p : SolProof)
    (ms : list SolMember) : Prop := {
  sr_rp : 1 ≤ str_len rp ≤ MAX_RPID_LENGTH;
  sr_md : byte_len md ≤ MAX_METADATA_LENGTH;
  sr_count : 1 ≤ Z.of_nat (length ms) ≤ SOL_MAX_MEMBERS;
  sr_group : proved dc dr rp g p (contentHashFor rp md g ms);
  sr_distinct : NoDup (keccak256 g :: (key_hash <$> ms));
  sr_members : Forall (member_proved dc dr rp g) ms;
}.

Record sound_refer (dc : Z) (dr : bytes) (rp : string) (g md : bytes) (m : SolMember) : Prop := {
  sf_md : byte_len md ≤ MAX_METADATA_LENGTH;
  sf_distinct : key_hash m ≠ keccak256 g;
  sf_member : proved dc dr rp (sm_publicKey m) (sm_proof m) (referenceBindingFor g (sm_attestation m) md);
}.

(** Which writes a ledger accepts. *)
Definition accepts (dc : Z) (dr : bytes) (L : Ledger) (c : Call) : Prop :=
  match c with
  | CallRegister rp md g p ms =>
      sound_register dc dr rp md g p ms ∧ (keccak256 g ∉ (opened L).*1) ∧ Forall (admits_key L) ms
  | CallRefer g md m =>
      ∃ rp, (keccak256 g, rp) ∈ opened L ∧ sound_refer dc dr rp g md m ∧
        admits_key L m ∧ (keccak256 g, key_hash m) ∉ referred L
  end.

(** ** The storage holds a ledger *)

Record holds (dc : Z) (dr : bytes) (L : Ledger) (s : Registry) : Prop := {
  ho_domain : DOMAIN_CHAIN_ID s = dc ∧ DOMAIN_REGISTRY s = dr;
  ho_group gh :
    (unitIdPlusOneByGroupKey s gh = 0 ∧ (gh ∉ (opened L).*1)) ∨
    ∃ id u, unitIdPlusOneByGroupKey s gh = id + 1 ∧ unit_at s id = Some u ∧
      keccak256 (un_groupPublicKey u) = gh ∧ (∀ rp, (gh, rp) ∈ opened L ↔ rp = un_rpId u);
  ho_key kh :
    (entryIdPlusOneByKey s kh = 0 ∧ kh ∉ (key_hash <$> passkeys L)) ∨
    ∃ id e, entryIdPlusOneByKey s kh = id + 1 ∧ entry_at s id = Some e ∧
      keccak256 (en_publicKey e) = kh ∧ kh ∈ (key_hash <$> passkeys L) ∧
      (∀ m, m ∈ passkeys L → key_hash m = kh →
        claim m = (keccak256 (en_attestation e), keccak256 (en_credentialId e)));
  ho_link u e : referenceIdPlusOneByLink s u e ≠ 0 ↔
    ∃ gh kh, unitIdPlusOneByGroupKey s gh = u + 1 ∧ entryIdPlusOneByKey s kh = e + 1 ∧ 0 ≤ u ∧ 0 ≤ e ∧
      (gh, kh) ∈ referred L;
  ho_referred gh kh : (gh, kh) ∈ referred L → (gh ∈ (opened L).*1) ∧ kh ∈ (key_hash <$> passkeys L);
  ho_content ch : unitIdPlusOneByContent s ch ≠ 0 ↔ ch ∈ registered L;
}.
End spec.
Arguments Ledger : clear implicits.
