(* ===== verification/RegistryRefines.v ===== *)
(** * The contract refines its specification *)
From Stdlib Require Import Ascii String Strings.Byte.
From S2P Require Export RegistrySpec RegistryFacts.
From stdpp Require Import options.
#[local] Set Warnings "-register-all".

Section steps.
Context `{C : Crates, V : !Evm}.
Implicit Types (L : Ledger) (s : Registry) (m : SolMember).

Lemma put_same {K A} `{EqDecision K} (k : K) (v : A) f : put k v f k = v.
Proof. unfold put. by rewrite decide_True. Qed.
Lemma put_other {K A} `{EqDecision K} (k k' : K) (v : A) f : k' ≠ k → put k v f k' = f k'.
Proof. intros. unfold put. by rewrite decide_False. Qed.

Lemma unit_at_Some s id u : unit_at s id = Some u ↔ 0 ≤ id ∧ units_ s !! Z.to_nat id = Some u.
Proof. unfold unit_at. destruct (Z.ltb_spec id 0); intuition (done || lia). Qed.
Lemma entry_at_Some s id e : entry_at s id = Some e ↔ 0 ≤ id ∧ entries_ s !! Z.to_nat id = Some e.
Proof. unfold entry_at. destruct (Z.ltb_spec id 0); intuition (done || lia). Qed.
Lemma id_of_nonneg {A} (l : list A) : 0 ≤ id_of l.
Proof. unfold id_of. lia. Qed.

Lemma unit_at_push u gh now s id v :
  unit_at s id = Some v → unit_at (push_unit u gh now s) id = Some v.
Proof. rewrite !unit_at_Some. intros [? H]. split; [done|]. by apply lookup_app_l_Some. Qed.
Lemma unit_at_new u gh now s : unit_at (push_unit u gh now s) (id_of (units_ s)) = Some u.
Proof.
  apply unit_at_Some. split; [apply id_of_nonneg|]. unfold id_of. rewrite Nat2Z.id.
  cbn. by rewrite lookup_app_r, Nat.sub_diag by lia.
Qed.
Lemma entry_at_push e kh s id v :
  entry_at s id = Some v → entry_at (push_entry e kh s) id = Some v.
Proof. rewrite !entry_at_Some. intros [? H]. split; [done|]. by apply lookup_app_l_Some. Qed.
Lemma entry_at_new e kh s : entry_at (push_entry e kh s) (id_of (entries_ s)) = Some e.
Proof.
  apply entry_at_Some. split; [apply id_of_nonneg|]. unfold id_of. rewrite Nat2Z.id.
  cbn. by rewrite lookup_app_r, Nat.sub_diag by lia.
Qed.

(** ** What the indexes say *)

Lemma group_open dc dr L s gh :
  holds dc dr L s → unitIdPlusOneByGroupKey s gh = 0 ↔ (gh ∉ (opened L).*1).
Proof.
  intros H. destruct (ho_group _ _ _ _ H gh) as [[? ?]|(id & u & Hp & Hu & _ & Hr)]; [done|].
  apply unit_at_Some in Hu as [? _]. split; [lia|]. intros Hn. destruct Hn.
  apply list_elem_of_fmap. exists (gh, un_rpId u). split; [done|]. by apply Hr.
Qed.

Lemma key_known dc dr L s kh :
  holds dc dr L s → entryIdPlusOneByKey s kh = 0 ↔ kh ∉ (key_hash <$> passkeys L).
Proof.
  intros H. destruct (ho_key _ _ _ _ H kh) as [[? ?]|(id & e & Hp & He & _ & Hk & _)]; [done|].
  apply entry_at_Some in He as [? _]. split; [lia|]. by intros [].
Qed.

Lemma group_inj dc dr L s gh gh' id :
  holds dc dr L s → 0 ≤ id → unitIdPlusOneByGroupKey s gh = id + 1 →
  unitIdPlusOneByGroupKey s gh' = id + 1 → gh = gh'.
Proof.
  intros H Hid H1 H2.
  destruct (ho_group _ _ _ _ H gh) as [[? ?]|(i & u & Hp & Hu & Hg & _)]; [lia|].
  destruct (ho_group _ _ _ _ H gh') as [[? ?]|(i' & u' & Hp' & Hu' & Hg' & _)]; [lia|].
  assert (i = i') as -> by lia. congruence.
Qed.

Lemma key_inj dc dr L s kh kh' id :
  holds dc dr L s → 0 ≤ id → entryIdPlusOneByKey s kh = id + 1 →
  entryIdPlusOneByKey s kh' = id + 1 → kh = kh'.
Proof.
  intros H Hid H1 H2.
  destruct (ho_key _ _ _ _ H kh) as [[? ?]|(i & u & Hp & Hu & Hg & _)]; [lia|].
  destruct (ho_key _ _ _ _ H kh') as [[? ?]|(i' & u' & Hp' & Hu' & Hg' & _)]; [lia|].
  assert (i = i') as -> by lia. congruence.
Qed.

Lemma link_free dc dr L s gh kh u e :
  holds dc dr L s → 0 ≤ u → 0 ≤ e →
  unitIdPlusOneByGroupKey s gh = u + 1 → entryIdPlusOneByKey s kh = e + 1 →
  referenceIdPlusOneByLink s u e = 0 ↔ (gh, kh) ∉ referred L.
Proof.
  intros H Hu He Hg Hk. pose proof (ho_link _ _ _ _ H u e) as Hl. split.
  - intros H0 Hin. assert (Hn : referenceIdPlusOneByLink s u e ≠ 0) by (apply Hl; eauto 10). done.
  - intros Hn. destruct (decide (referenceIdPlusOneByLink s u e = 0)) as [|H0]; [done|].
    apply Hl in H0 as (gh' & kh' & Hg' & Hk' & _ & _ & Hin). destruct Hn.
    by rewrite (group_inj dc dr L s gh gh' u), (key_inj dc dr L s kh kh' e).
Qed.

(** ** Storage steps *)

Lemma elem_of_known L m kh :
  kh ∈ (key_hash <$> passkeys (know m L)) ↔ kh ∈ (key_hash <$> passkeys L) ∨ kh = key_hash m.
Proof.
  change (passkeys (know m L)) with (passkeys L ++ [m]). rewrite fmap_app, elem_of_app.
  change (key_hash <$> [m]) with [key_hash m]. by rewrite list_elem_of_singleton.
Qed.

Lemma holds_know_again dc dr L s m :
  holds dc dr L s → key_hash m ∈ (key_hash <$> passkeys L) →
  (∀ m', m' ∈ passkeys L → key_hash m' = key_hash m → claim m' = claim m) → holds dc dr (know m L) s.
Proof.
  intros H Hk Hc. split; try apply H.
  - intros kh. destruct (ho_key _ _ _ _ H kh) as [[H0 Hn]|(id & e & Hp & He & Hpk & Hin & Hcl)].
    + left. split; [done|]. rewrite elem_of_known. intros [| ->]; done.
    + right. exists id, e. rewrite elem_of_known. split_and!; try done; [by left|].
      intros m' [Hm'| ->%list_elem_of_singleton]%elem_of_app Hkh; [by apply Hcl|].
      subst kh. apply list_elem_of_fmap in Hin as (m' & Hm' & Hin').
      rewrite <-(Hc m' Hin') by congruence. by apply Hcl.
  - intros gh kh Hin. rewrite elem_of_known. apply (ho_referred _ _ _ _ H) in Hin as [? ?]. eauto.
Qed.

Lemma holds_know_new dc dr L s m e :
  holds dc dr L s → entryIdPlusOneByKey s (key_hash m) = 0 →
  keccak256 (en_publicKey e) = key_hash m →
  claim m = (keccak256 (en_attestation e), keccak256 (en_credentialId e)) →
  holds dc dr (know m L) (push_entry e (key_hash m) s).
Proof.
  intros H H0 Hpk Hcl. split; try apply H.
  - intros kh. cbn [entryIdPlusOneByKey push_entry]. destruct (decide (kh = key_hash m)) as [->|Hne].
    + right. exists (id_of (entries_ s)), e. rewrite put_same, elem_of_known, entry_at_new.
      split_and!; try done; [by right|].
      intros m' [Hm'| ->%list_elem_of_singleton]%elem_of_app Hkh; [|done].
      apply (key_known _ _ _ _ _ H) in H0. destruct H0. rewrite <-Hkh. by apply list_elem_of_fmap_2.
    + rewrite put_other by done.
      destruct (ho_key _ _ _ _ H kh) as [[Hz Hn]|(id & e' & Hp & He & Hpk' & Hin & Hcl')].
      * left. split; [done|]. rewrite elem_of_known. intros [|]; done.
      * right. exists id, e'. rewrite elem_of_known, (entry_at_push _ _ _ _ e') by done. split_and!; try done; [by left|].
        intros m' [Hm'| ->%list_elem_of_singleton]%elem_of_app Hkh; [by apply Hcl'|done].
  - intros u i. cbn. rewrite (ho_link _ _ _ _ H u i).
    split; intros (gh & kh & Hg & Hk & Hu & Hi & Hin); exists gh, kh; split_and!; try done.
    + destruct (decide (kh = key_hash m)) as [->|]; [lia|]. by rewrite put_other.
    + destruct (decide (kh = key_hash m)) as [->|]; [|by rewrite put_other in Hk].
      apply (ho_referred _ _ _ _ H) in Hin as [_ Hin]. by apply (key_known _ _ _ _ _ H) in H0.
  - intros gh kh Hin. rewrite elem_of_known. apply (ho_referred _ _ _ _ H) in Hin as [? ?]. eauto.
Qed.

Lemma holds_link_member dc dr L s u e : holds dc dr L s → holds dc dr L (link_member u e s).
Proof. intros H. by split; try apply H. Qed.

Lemma holds_payload dc dr L s u data :
  holds dc dr L s → holds dc dr L (keep_register_payload u data s).
Proof. intros H. by split; try apply H. Qed.

Lemma holds_open dc dr L s u gh now :
  holds dc dr L s → unitIdPlusOneByGroupKey s gh = 0 → keccak256 (un_groupPublicKey u) = gh →
  holds dc dr (open_group gh (un_rpId u) (un_contentHash u) L) (push_unit u gh now s).
Proof.
  intros H H0 Hg. pose proof (proj1 (group_open _ _ _ _ gh H) H0) as Hno. split; try apply H.
  - intros gh'. cbn [unitIdPlusOneByGroupKey push_unit opened open_group]. rewrite fmap_app, elem_of_app.
    destruct (decide (gh' = gh)) as [->|Hne].
    + right. exists (id_of (units_ s)), u. rewrite put_same, unit_at_new. split_and!; try done.
      intros rp. rewrite elem_of_app, list_elem_of_singleton. split; [|by intros ->; right].
      intros [Hin|[=]]; [|done]. destruct Hno. apply list_elem_of_fmap. by exists (gh, rp).
    + rewrite put_other by done.
      destruct (ho_group _ _ _ _ H gh') as [[Hz Hn]|(id & u' & Hp & Hu & Hg' & Hr)].
      * left. split; [done|]. cbn. rewrite list_elem_of_singleton. by intros [|].
      * right. exists id, u'. rewrite (unit_at_push _ _ _ _ _ u') by done. split_and!; try done.
        intros rp. rewrite elem_of_app, list_elem_of_singleton, Hr. split; [|by left]. intros [|[=]]; done.
  - intros i e. cbn. rewrite (ho_link _ _ _ _ H i e).
    split; intros (gh' & kh & Hg' & Hk & Hu & Hi & Hin); exists gh', kh; split_and!; try done.
    + destruct (decide (gh' = gh)) as [->|]; [lia|]. by rewrite put_other.
    + destruct (decide (gh' = gh)) as [->|]; [|by rewrite put_other in Hg'].
      by apply (ho_referred _ _ _ _ H) in Hin as [Hin _].
  - intros gh' kh Hin. cbn [opened open_group passkeys]. rewrite fmap_app, elem_of_app.
    apply (ho_referred _ _ _ _ H) in Hin as [? ?]. eauto.
  - intros ch. cbn [unitIdPlusOneByContent push_unit registered open_group].
    rewrite elem_of_app, list_elem_of_singleton, <-(ho_content _ _ _ _ H ch).
    pose proof (id_of_nonneg (units_ s)). destruct (decide (ch = un_contentHash u)) as [->|].
    + rewrite put_same. intuition lia.
    + rewrite put_other by done. intuition done.
Qed.

Lemma holds_refer dc dr L s gh kh u e md now data :
  holds dc dr L s → 0 ≤ u → 0 ≤ e →
  unitIdPlusOneByGroupKey s gh = u + 1 → entryIdPlusOneByKey s kh = e + 1 →
  holds dc dr (refer_key gh kh L) (push_reference (mkReference_ e u md now) data s).
Proof.
  intros H Hu He Hg Hk. split; try apply H.
  - intros u' e'. cbn [referenceIdPlusOneByLink push_reference re_unitId re_entryId unitIdPlusOneByGroupKey
      entryIdPlusOneByKey referred refer_key].
    setoid_rewrite elem_of_app. setoid_rewrite list_elem_of_singleton. pose proof (ho_link _ _ _ _ H u' e') as Hl.
    pose proof (id_of_nonneg (references_ s)).
    destruct (decide (u' = u ∧ e' = e)) as [[-> ->]|Hne].
    + rewrite !put_same. split; [|lia]. intros _. exists gh, kh. eauto 10.
    + assert (Ho : put u (put e (id_of (references_ s) + 1) (referenceIdPlusOneByLink s u))
        (referenceIdPlusOneByLink s) u' e' = referenceIdPlusOneByLink s u' e').
      { destruct (decide (u' = u)) as [->|]; [|by rewrite put_other].
        rewrite put_same, put_other; [done|]. intros ->. by apply Hne. }
      rewrite Ho, Hl. split; intros (gh' & kh' & Hg' & Hk' & Hu' & He' & Hin); exists gh', kh'; [by split_and!; try done; left|].
      destruct Hin as [Hin|[= -> ->]]; [done|]. destruct Hne. lia.
  - intros gh' kh' [Hin|[= -> ->]%list_elem_of_singleton]%elem_of_app; [by apply (ho_referred _ _ _ _ H)|].
    split.
    + destruct (decide (gh ∈ (opened L).*1)) as [|Hn]; [done|]. apply (group_open _ _ _ _ _ H) in Hn. lia.
    + destruct (decide (kh ∈ (key_hash <$> passkeys L))) as [|Hn]; [done|]. apply (key_known _ _ _ _ _ H) in Hn. lia.
Qed.

Lemma holds_new bc this dc dr :
  holds (if dc =? 0 then bc else dc) (if forallb (λ b, byte_val b =? 0) dr then this else dr)
    empty_ledger (new_registry bc this dc dr).
Proof.
  split; cbn; try done.
  - intros gh. left. split; [done|]. apply not_elem_of_nil.
  - intros kh. left. split; [done|]. apply not_elem_of_nil.
  - intros u e. split; [done|]. by intros (? & ? & ? & ? & ? & ? & []%elem_of_nil).
  - intros gh kh []%elem_of_nil.
  - intros ch. split; [done|]. by intros []%elem_of_nil.
Qed.
End steps.

(** ** The operations *)

(** A passkey's file says something else. *)
Definition mismatch (e : Revert) : Prop :=
  match e with AttestationMismatch _ | CredentialIdMismatch _ => True | _ => False end.

Section operations.
Context `{C : Crates, V : !Evm} (dc : Z) (dr : bytes).
Implicit Types (L : Ledger) (s : Registry) (m : SolMember).

(** A check that fails stops the call; the rest runs when it holds. *)
Lemma require_case {B} (P : result B Revert → Prop) b e f :
  (b = false → P (Err e)) → (b = true → P (f tt)) → P (rbind (require b e) f).
Proof. destruct b; cbn; auto. Qed.

Lemma known_file L s m id e :
  holds dc dr L s → entryIdPlusOneByKey s (key_hash m) = id + 1 → entry_at s id = Some e →
  (keccak256 (en_attestation e), keccak256 (en_credentialId e)) = claim m ↔ admits_key L m.
Proof.
  intros H Hp He. apply entry_at_Some in He as He'. destruct He' as [Hid _].
  destruct (ho_key _ _ _ _ H (key_hash m)) as [[? ?]|(id' & e' & Hp' & He'' & _ & Hk & Hcl)]; [lia|].
  assert (id' = id) as -> by lia. rewrite He'' in He. injection He as ->. split.
  - intros Heq. split; [|by left]. intros m' Hin Hkh. by rewrite (Hcl m' Hin Hkh).
  - intros [Hc _]. apply list_elem_of_fmap in Hk as (m' & Hkh & Hin).
    rewrite <-(Hcl m' Hin (eq_sym Hkh)). by apply Hc.
Qed.

Lemma new_file L s m :
  holds dc dr L s → entryIdPlusOneByKey s (key_hash m) = 0 → within_limits m ↔ admits_key L m.
Proof.
  intros H H0. apply (key_known _ _ _ _ _ H) in H0. split; [|by intros [_ [|]]].
  intros Hw. split; [|by right]. intros m' Hin Hkh. destruct H0. rewrite <-Hkh. by apply list_elem_of_fmap_2.
Qed.

Lemma validateAttestation_unit a : validateAttestation a = Ok tt ∨ ∃ e, validateAttestation a = Err e.
Proof. destruct (validateAttestation a) as [[]|e]; eauto. Qed.

Lemma resolve_spec L s m now :
  holds dc dr L s →
  match resolveEntry (key_hash m) m now s with
  | Ok (id, s') => admits_key L m ∧ holds dc dr (know m L) s' ∧ 0 ≤ id ∧
      entryIdPlusOneByKey s' (key_hash m) = id + 1 ∧
      unitIdPlusOneByGroupKey s' = unitIdPlusOneByGroupKey s
  | Err e => ¬ admits_key L m ∧ (within_limits m → mismatch e)
  end.
Proof.
  intros H. unfold resolveEntry. destruct (Z.eqb_spec (entryIdPlusOneByKey s (key_hash m)) 0) as [H0|H0]; cbn [negb].
  - pose proof (new_file L s m H H0) as Hn. destruct (validateAttestation_unit (sm_attestation m)) as [Ha|[e Ha]]; rewrite Ha.
    + cbn [rbind].
      assert (Hbad : ¬ within_limits m → ¬ admits_key L m ∧ (within_limits m → False)) by (rewrite <-Hn; tauto).
      do 3 (apply require_case; [intros ?%Z.leb_gt; cut (¬ within_limits m); [naive_solver|intros []; lia]|
        intros ?%Z.leb_le]).
      assert (Hw : within_limits m) by done. split_and!; try done; [by apply Hn|..].
      * apply holds_know_new; done.
      * apply id_of_nonneg.
      * cbn. by rewrite put_same.
    + cbn [rbind]. rewrite <-Hn. split; intros [Hw]; congruence.
  - set (id := entryIdPlusOneByKey s (key_hash m) - 1).
    assert (Hp : entryIdPlusOneByKey s (key_hash m) = id + 1) by lia.
    destruct (ho_key _ _ _ _ H (key_hash m)) as [[? ?]|(id' & e & Hp' & He & _ & Hk & _)]; [lia|].
    assert (id' = id) as -> by lia. rewrite He. pose proof (known_file L s m id e H Hp He) as Hf.
    unfold claim in Hf.
    do 2 (apply require_case; [intros ?%bool_decide_eq_false; split; [rewrite <-Hf; congruence|done]|
      intros ?%bool_decide_eq_true]).
    assert (Had : admits_key L m) by (apply Hf; congruence).
    split_and!; try done; [|by apply entry_at_Some in He as []].
    apply holds_know_again; [done..|]. apply Had.
Qed.

(** [proved] as the code finds it. *)
Lemma proved_check rp key p binding s L :
  holds dc dr L s →
  match (try xy := validatePublicKey key in
         verifyProof p (challengeFor (DOMAIN_CHAIN_ID s) (DOMAIN_REGISTRY s) rp key binding) rp xy.1 xy.2) with
  | Ok _ => proved dc dr rp key p binding
  | Err _ => ¬ proved dc dr rp key p binding
  end.
Proof.
  intros H. destruct (ho_domain _ _ _ _ H) as [-> ->].
  destruct (validatePublicKey key) as [[x y]|] eqn:Hk; cbn [rbind fst snd].
  - destruct (verifyProof _ _ _ _ _) as [[]|] eqn:Hv; [by exists x, y|].
    intros (x' & y' & Hk' & Hv'). simplify_eq. congruence.
  - intros (x' & y' & Hk' & _). congruence.
Qed.

Lemma admit_spec L s m u rp g now :
  holds dc dr L s →
  match admitMember u rp g (key_hash m) m now s with
  | Ok s' => admits_key L m ∧ member_proved dc dr rp g m ∧ holds dc dr (know m L) s'
  | Err e => ¬ (admits_key L m ∧ member_proved dc dr rp g m) ∧
      (within_limits m → member_proved dc dr rp g m → mismatch e)
  end.
Proof.
  intros H. unfold admitMember.
  pose proof (proved_check rp (sm_publicKey m) (sm_proof m) (memberBindingFor g (sm_attestation m)) s L H) as Hpr.
  pose proof (resolve_spec L s m now H) as Hr. destruct (ho_domain _ _ _ _ H) as [Hd1 Hd2].
  fold (member_proved dc dr rp g m) in Hpr. rewrite Hd1, Hd2 in Hpr.
  destruct (validatePublicKey (sm_publicKey m)) as [xy|e]; cbn [rbind] in Hpr |- *; [|tauto].
  destruct (resolveEntry _ _ _ _) as [[id s']|e]; cbn [rbind]; [|tauto].
  destruct Hr as (Ha & Hs & _). apply (holds_link_member _ _ _ _ u id) in Hs.
  destruct (ho_domain _ _ _ _ Hs) as [-> ->].
  destruct (verifyProof _ _ _ _ _) as [[]|e]; cbn [rbind]; tauto.
Qed.

Lemma admits_key_know L m m' :
  key_hash m' ≠ key_hash m → admits_key (know m L) m' ↔ admits_key L m'.
Proof.
  intros Hne. unfold admits_key. rewrite elem_of_known. split.
  - intros [Hc [[|]|]]; (split; [|by auto]); intros m0 Hin; apply Hc; apply elem_of_app; by left.
  - intros [Hc Hk]. split; [|tauto]. intros m0 [Hin| ->%list_elem_of_singleton]%elem_of_app; [by apply Hc|congruence].
Qed.

Lemma admits_keys_know L m ms :
  key_hash m ∉ (key_hash <$> ms) → Forall (admits_key (know m L)) ms ↔ Forall (admits_key L) ms.
Proof.
  intros Hni. rewrite !Forall_forall. apply forall_proper. intros m'.
  apply forall_proper. intros Hin. apply admits_key_know. intros Heq. destruct Hni. rewrite <-Heq.
  by apply list_elem_of_fmap_2.
Qed.

Lemma know_all_cons m ms L : know_all (m :: ms) L = know_all ms (know m L).
Proof. unfold know_all, know. cbn. by rewrite <-app_assoc. Qed.

Lemma admit_all_spec u rp g now ms : ∀ L s,
  holds dc dr L s → NoDup (key_hash <$> ms) →
  match admitMembers u rp g (combine (key_hash <$> ms) ms) now s with
  | Ok s' => Forall (admits_key L) ms ∧ Forall (member_proved dc dr rp g) ms ∧ holds dc dr (know_all ms L) s'
  | Err e => ¬ (Forall (admits_key L) ms ∧ Forall (member_proved dc dr rp g) ms) ∧
      (Forall within_limits ms → Forall (member_proved dc dr rp g) ms → mismatch e)
  end.
Proof.
  induction ms as [|m ms IH]; intros L s H Hnd.
  - cbn. split_and!; [done..|]. unfold know_all. rewrite app_nil_r. by destruct L.
  - apply NoDup_cons in Hnd as [Hni Hnd]. cbn [fmap list_fmap combine admitMembers].
    pose proof (admit_spec L s m u rp g now H) as Ha.
    destruct (admitMember _ _ _ _ _ _ _) as [s'|e]; cbn [rbind]; [|rewrite !Forall_cons; tauto].
    destruct Ha as (Ha & Hp & Hs). specialize (IH _ _ Hs Hnd).
    pose proof (admits_keys_know L m ms Hni). 
    destruct (admitMembers _ _ _ _ _ _) as [s''|e]; rewrite !Forall_cons, ?know_all_cons; tauto.
Qed.

Lemma distinct_spec gh ms : ∀ seen i, NoDup (gh :: seen) →
  match distinctKeys gh seen i ms with
  | Ok ks => ks = seen ++ (key_hash <$> ms) ∧ NoDup (gh :: ks)
  | Err _ => ¬ NoDup (gh :: seen ++ (key_hash <$> ms))
  end.
Proof.
  induction ms as [|m ms IH]; intros seen i Hnd; cbn [distinctKeys fmap list_fmap].
  - by rewrite app_nil_r.
  - apply require_case; intros Hb; [apply negb_false_iff, bool_decide_eq_true in Hb|
      apply negb_true_iff, bool_decide_eq_false in Hb].
    { intros [Hn _]%NoDup_cons. destruct Hn. apply elem_of_app. right. rewrite <-Hb. by left. }
    apply require_case; intros Hb'; [apply negb_false_iff, bool_decide_eq_true in Hb'|
      apply negb_true_iff, bool_decide_eq_false in Hb'].
    { intros [_ Hn]%NoDup_cons. apply NoDup_app in Hn as (_ & Hn & _). apply (Hn _ Hb'). by left. }
    fold (key_hash m) in *. rewrite (assoc_L (++) seen [key_hash m] (key_hash <$> ms) : seen ++ key_hash m :: _ = _).
    apply IH. apply NoDup_cons in Hnd as [Hg Hs]. apply NoDup_cons. split.
    + intros [?| Heq%list_elem_of_singleton]%elem_of_app; [done|by apply Hb].
    + apply NoDup_app. split_and!; [done| |apply NoDup_singleton]. by intros k Hk ->%list_elem_of_singleton.
Qed.

Lemma count_ok (ms : list SolMember) :
  negb (Z.of_nat (length ms) =? 0) && (Z.of_nat (length ms) <=? SOL_MAX_MEMBERS) = true ↔
  1 ≤ Z.of_nat (length ms) ≤ SOL_MAX_MEMBERS.
Proof. rewrite andb_true_iff, negb_true_iff, Z.eqb_neq, Z.leb_le. lia. Qed.

Lemma rp_ok rp : match validateRpId rp with
  | Ok _ => 1 ≤ str_len rp ≤ MAX_RPID_LENGTH
  | Err _ => ¬ (1 ≤ str_len rp ≤ MAX_RPID_LENGTH)
  end.
Proof.
  unfold validateRpId. unfold str_len at 1.
  apply require_case; [intros ?%negb_false_iff%Z.eqb_eq; unfold str_len; lia|intros Hz%negb_true_iff%Z.eqb_neq].
  destruct (Z.leb_spec (str_len rp) MAX_RPID_LENGTH); cbn; unfold str_len in *; lia.
Qed.

(** What may stop a registration that is sound in itself. *)
Definition register_conflict (e : Revert) : Prop :=
  match e with GroupKeyAlreadyUsed _ => True | _ => mismatch e end.

Lemma register_spec L s rp md g p ms data now :
  holds dc dr L s →
  match register_ rp md g p ms data now s with
  | Ok (_, s') => accepts dc dr L (CallRegister rp md g p ms) ∧
      holds dc dr (record_call L (CallRegister rp md g p ms)) s'
  | Err e => ¬ accepts dc dr L (CallRegister rp md g p ms) ∧
      (sound_register dc dr rp md g p ms → Forall within_limits ms → register_conflict e)
  end.
Proof.
  intros H. cbn [accepts record_call]. unfold register_.
  pose proof (rp_ok rp) as Hrp. destruct (validateRpId rp) as [[]|e]; cbn [rbind];
    [|by split; [intros [[] _]|intros []]].
  unfold validateMetadata. apply require_case; [intros ?%Z.leb_gt; split; [intros [[] _]|intros []]; lia|intros Hmd%Z.leb_le].
  apply require_case; [intros Hc%not_true_iff_false; rewrite count_ok in Hc; by split; [intros [[] _]|intros []]|].
  intros Hc%count_ok.
  apply require_case; intros Hg.
  { apply Z.eqb_neq in Hg. rewrite (group_open _ _ _ _ _ H) in Hg. by split; [intros (_ & ? & _)|]. }
  apply Z.eqb_eq in Hg. set (u := mkUnit_ _ _ _ _ _ _).
  pose proof (holds_open _ _ _ _ u (keccak256 g) now H Hg eq_refl) as Ho. cbn [un_rpId un_contentHash u] in Ho.
  pose proof (proved_check rp g p (contentHashFor rp md g ms) _ _ Ho) as Hp. fold (verifyGroup (push_unit u (keccak256 g) now s) rp g p (contentHashFor rp md g ms)) in Hp.
  destruct (verifyGroup _ _ _ _ _) as [[]|e]; cbn [rbind]; [|by split; [intros [[] _]|intros []]].
  pose proof (distinct_spec (keccak256 g) ms [] 0 (NoDup_singleton _)) as Hd.
  destruct (distinctKeys _ _ _ _) as [ks|e]; cbn [rbind]; [|by split; [intros [[] _]|intros []]].
  destruct Hd as [-> Hd]. cbn [app] in *. apply NoDup_cons in Hd as Hd'. destruct Hd' as [_ Hnd].
  pose proof (admit_all_spec (id_of (units_ s)) rp g now ms _ _ Ho Hnd) as Ha.
  assert (Heq : Forall (admits_key (open_group (keccak256 g) rp (contentHashFor rp md g ms) L)) ms ↔ Forall (admits_key L) ms) by done.
  rewrite (group_open _ _ _ _ _ H) in Hg.
  destruct (admitMembers _ _ _ _ _ _) as [s'|e]; cbn [rbind].
  - destruct Ha as (Ha & Hm & Hs). split; [by split_and!; try apply Heq|]. by apply holds_payload.
  - destruct Ha as [Hn Hmm]. split.
    + intros ([] & _ & Hf). apply Hn. by split; [apply Heq|].
    + intros [_ _ _ _ _ Hms] Hw. specialize (Hmm Hw Hms). by destruct e.
Qed.

(** What may stop a reference that is sound in itself. *)
Definition refer_conflict (e : Revert) : Prop :=
  match e with GroupNotFound _ | AlreadyReferenced _ => True | _ => mismatch e end.

Lemma refer_spec L s g md m data now :
  holds dc dr L s →
  match refer_ g md m data now s with
  | Ok (_, s') => accepts dc dr L (CallRefer g md m) ∧ holds dc dr (record_call L (CallRefer g md m)) s'
  | Err e => ¬ accepts dc dr L (CallRefer g md m) ∧
      ((∀ rp, (keccak256 g, rp) ∈ opened L → sound_refer dc dr rp g md m) → byte_len md ≤ MAX_METADATA_LENGTH →
        within_limits m → refer_conflict e)
  end.
Proof.
  intros H. cbn [accepts record_call]. unfold refer_, validateMetadata.
  apply require_case; [intros ?%Z.leb_gt; split; [intros (rp & _ & [] & _)|]; lia|intros Hmd%Z.leb_le].
  apply require_case.
  { intros Hg%negb_false_iff%Z.eqb_eq. rewrite (group_open _ _ _ _ _ H) in Hg. split; [|done].
    intros (rp & Hin & _). destruct Hg. apply list_elem_of_fmap. by exists (keccak256 g, rp). }
  intros Hg%negb_true_iff%Z.eqb_neq. set (u := unitIdPlusOneByGroupKey s (keccak256 g) - 1).
  destruct (ho_group _ _ _ _ H (keccak256 g)) as [[? ?]|(u' & un & Hu & Hat & _ & Hr)]; [lia|].
  assert (u = u') as <- by lia. rewrite Hat. apply unit_at_Some in Hat as [Hu0 _].
  fold (key_hash m).
  assert (Hsound : (∀ rp, (keccak256 g, rp) ∈ opened L → sound_refer dc dr rp g md m) →
    sound_refer dc dr (un_rpId un) g md m) by (intros Hs; by apply Hs, Hr).
  assert (Hac : ∀ P, (∃ rp, (keccak256 g, rp) ∈ opened L ∧ sound_refer dc dr rp g md m ∧ P) →
    sound_refer dc dr (un_rpId un) g md m ∧ P).
  { intros P (rp & Hin & Hs & HP). apply Hr in Hin as ->. done. }
  apply require_case.
  { intros Hb%negb_false_iff%bool_decide_eq_true. split; [intros [[] _]%Hac; done|intros []%Hsound; done]. }
  intros Hne%negb_true_iff%bool_decide_eq_false.
  pose proof (proved_check (un_rpId un) (sm_publicKey m) (sm_proof m) (referenceBindingFor g (sm_attestation m) md) s L H) as Hp.
  destruct (ho_domain _ _ _ _ H) as [Hd1 Hd2]. rewrite Hd1, Hd2 in Hp.
  destruct (validatePublicKey _) as [xy|e]; cbn [rbind] in Hp |- *;
    [|split; [intros [[] _]%Hac; done|intros []%Hsound; done]].
  pose proof (resolve_spec L s m now H) as Hres.
  destruct (resolveEntry _ _ _ _) as [[i s']|e]; cbn [rbind].
  2:{ split; [intros (rp & _ & _ & Ha & _); by apply Hres|]. intros _ _ Hw. apply Hres in Hw. by destruct e. }
  destruct Hres as (Ha & Hs & Hi & Hk & Hpg).
  assert (Hu' : unitIdPlusOneByGroupKey s' (keccak256 g) = u + 1) by (rewrite Hpg; lia).
  pose proof (link_free _ _ _ _ _ _ _ _ Hs Hu0 Hi Hu' Hk) as Hl. cbn [referred know] in Hl.
  apply require_case.
  { intros Hz%Z.eqb_neq. rewrite Hl in Hz. split; [|done]. by intros (rp & _ & _ & _ & ?). }
  intros Hz%Z.eqb_eq. apply Hl in Hz. destruct (ho_domain _ _ _ _ Hs) as [-> ->].
  destruct (verifyProof _ _ _ _ _) as [[]|e]; cbn [rbind];
    [|split; [intros [[] _]%Hac; done|intros []%Hsound; done]].
  split; [|by apply holds_refer].
  exists (un_rpId un). split_and!; try done. by apply Hr.
Qed.

(** One write: the storage refines the ledger, and reverts exactly when the
    ledger does not accept. *)
Lemma run_call_spec L s c data now :
  holds dc dr L s →
  match run_call c data now s with
  | Ok (_, s') => accepts dc dr L c ∧ holds dc dr (record_call L c) s'
  | Err _ => ¬ accepts dc dr L c
  end.
Proof.
  intros H. destruct c as [rp md g p ms|g md m]; cbn [run_call].
  - pose proof (register_spec L s rp md g p ms data now H). destruct (register_ _ _ _ _ _ _ _ _) as [[]|]; tauto.
  - pose proof (refer_spec L s g md m data now H). destruct (refer_ _ _ _ _ _ _) as [[]|]; tauto.
Qed.
End operations.
