(* ===== verification/RegistryTasks.v ===== *)
(** * What an accepted request does on the contract

    The contract over its whole life, and the agreement of the service's
    validation with it: the calldata of a task that validation accepted is
    a write whose every check of its own passes, so that only what is
    already stored can stop it. *)
From Stdlib Require Import Ascii String Strings.Byte.
From S2P Require Export RegistryRefines.
From stdpp Require Import options.
#[local] Set Warnings "-register-all".

(** ** The life of a contract *)

Section life.
Context `{C : Crates, V : !Evm}.

(** The transactions of a chain, each with its time. *)
Definition mined (s : Registry) (txs : list (bytes * Z)) : Registry :=
  foldl (λ s tx, transact tx.1 tx.2 s) s txs.

(** The writes among them that succeeded. *)
Fixpoint accepted_calls (s : Registry) (txs : list (bytes * Z)) : list Call :=
  match txs with
  | [] => []
  | (data, now) :: txs =>
      match decode_call data, call_result data now s with
      | Some c, Ok (_, s') => c :: accepted_calls s' txs
      | _, _ => accepted_calls s txs
      end
  end.

Lemma call_result_ok data now s r :
  call_result data now s = Ok r → ∃ c, decode_call data = Some c ∧ run_call c data now s = Ok r.
Proof.
  unfold call_result. intros H. apply rbind_ok in H as (c & Hc%ok_or_ok & Hr). eauto.
Qed.

Lemma holds_mined dc dr txs : ∀ L s,
  holds dc dr L s → holds dc dr (foldl record_call L (accepted_calls s txs)) (mined s txs).
Proof.
  induction txs as [|[data now] txs IH]; intros L s H; [done|]. cbn [accepted_calls mined foldl fst snd].
  fold (mined (transact data now s) txs). unfold transact, call_result.
  destruct (decode_call data) as [c|]; cbn [ok_or rbind]; [|by apply IH].
  pose proof (run_call_spec dc dr L s c data now H) as Hc.
  destruct (run_call c data now s) as [[id s']|e]; [|by apply IH]. apply IH, Hc.
Qed.

(** The domain a deployment freezes. *)
Definition domain_of (bc : Z) (this : bytes) (dc : Z) (dr : bytes) : Z * bytes :=
  let s := new_registry bc this dc dr in (DOMAIN_CHAIN_ID s, DOMAIN_REGISTRY s).

Lemma holds_life bc this dc dr txs :
  let s0 := new_registry bc this dc dr in
  let D := domain_of bc this dc dr in
  holds D.1 D.2 (ledger_of (accepted_calls s0 txs)) (mined s0 txs).
Proof. cbn zeta. apply holds_mined, holds_new. Qed.

Lemma call_result_spec dc dr L s data now :
  holds dc dr L s →
  is_ok (call_result data now s) = true ↔ ∃ c, decode_call data = Some c ∧ accepts dc dr L c.
Proof.
  intros H. unfold call_result. destruct (decode_call data) as [c|]; cbn [ok_or rbind];
    [|by split; [|intros (c & ? & _)]].
  pose proof (run_call_spec dc dr L s c data now H) as Hc.
  destruct (run_call c data now s) as [[id s']|e]; cbn [is_ok].
  - split; [|done]. intros _. exists c. split; [done|]. apply Hc.
  - split; [done|]. by intros (c' & [= <-] & Ha).
Qed.

Lemma isContentRegistered_spec dc dr L s ch :
  holds dc dr L s → isContentRegistered s ch = true ↔ ch ∈ registered L.
Proof. intros H. unfold isContentRegistered. rewrite negb_true_iff, Z.eqb_neq. apply (ho_content _ _ _ _ H). Qed.

Lemma isReferenced_spec dc dr L s g k :
  holds dc dr L s → isReferenced s g k = true ↔ (keccak256 g, keccak256 k) ∈ referred L.
Proof.
  intros H. unfold isReferenced.
  destruct (Z.eqb_spec (unitIdPlusOneByGroupKey s (keccak256 g)) 0) as [Hg|Hg]; cbn [orb].
  { split; [done|]. intros [Hin _]%(ho_referred _ _ _ _ H). apply (group_open _ _ _ _ _ H) in Hg. done. }
  destruct (Z.eqb_spec (entryIdPlusOneByKey s (keccak256 k)) 0) as [Hk|Hk].
  { split; [done|]. intros [_ Hin]%(ho_referred _ _ _ _ H). apply (key_known _ _ _ _ _ H) in Hk. done. }
  destruct (ho_group _ _ _ _ H (keccak256 g)) as [[? ?]|(u & un & Hu & [Hu0 _]%unit_at_Some & _)]; [lia|].
  destruct (ho_key _ _ _ _ H (keccak256 k)) as [[? ?]|(e & en & He & [He0 _]%entry_at_Some & _)]; [lia|].
  rewrite negb_true_iff, Z.eqb_neq.
  rewrite (link_free dc dr L s (keccak256 g) (keccak256 k)) by (done || lia).
  destruct (decide ((keccak256 g, keccak256 k) ∈ referred L)); tauto.
Qed.

(** C20. The contract, deployed anywhere and after any transactions, is its
    ledger: a call succeeds exactly when it is a write that the ledger of
    the writes so far accepts, and the two reads the service asks answer
    from that ledger. *)
Theorem contract_is_its_ledger bc this dc dr txs data now g k ch :
  let s0 := new_registry bc this dc dr in
  let D := domain_of bc this dc dr in
  let L := ledger_of (accepted_calls s0 txs) in
  let s := mined s0 txs in
  (is_ok (call_result data now s) = true ↔ ∃ c, decode_call data = Some c ∧ accepts D.1 D.2 L c) ∧
  (isContentRegistered s ch = true ↔ ch ∈ registered L) ∧
  (isReferenced s g k = true ↔ (keccak256 g, keccak256 k) ∈ referred L).
Proof.
  intros s0 D L s. pose proof (holds_life bc this dc dr txs) as H.
  split_and!; [by apply call_result_spec|by eapply isContentRegistered_spec|by eapply isReferenced_spec].
Qed.
End life.

(** ** Records *)

Section records.
Context `{C : Crates, V : !Evm}.

(** What a write leaves alone: every record, and its payload. *)
Record kept (s s' : Registry) : Prop := {
  kp_entries : entries_ s `prefix_of` entries_ s';
  kp_units : units_ s `prefix_of` units_ s';
  kp_references : references_ s `prefix_of` references_ s';
  kp_register id : id < id_of (units_ s) → registerPayload s' id = registerPayload s id;
  kp_refer id : id < id_of (references_ s) → referPayload s' id = referPayload s id;
}.

Lemma append_only_refl s : kept s s.
Proof. done. Qed.

Lemma id_of_prefix {A} (l l' : list A) : l `prefix_of` l' → id_of l ≤ id_of l'.
Proof. intros H%prefix_length. unfold id_of. lia. Qed.

Lemma append_only_trans s1 s2 s3 : kept s1 s2 → kept s2 s3 → kept s1 s3.
Proof.
  intros [E1 U1 R1 P1 Q1] [E2 U2 R2 P2 Q2]. pose proof (id_of_prefix _ _ U1). pose proof (id_of_prefix _ _ R1).
  split; try (etransitivity; eassumption); intros id Hid; [rewrite P2 by lia; by apply P1|rewrite Q2 by lia; by apply Q1].
Qed.

(** Only entries and links may change. *)
Record same_groups (s s' : Registry) : Prop := {
  sg_entries : entries_ s `prefix_of` entries_ s';
  sg_units : units_ s' = units_ s;
  sg_references : references_ s' = references_ s;
  sg_register : registerPayload s' = registerPayload s;
  sg_refer : referPayload s' = referPayload s;
}.

Lemma resolve_same kh m now s id s' : resolveEntry kh m now s = Ok (id, s') → same_groups s s'.
Proof.
  unfold resolveEntry. destruct (negb _).
  - destruct (entry_at _ _); [|done]. intros H. do 2 (apply rbind_ok in H as ([] & _ & H)).
    by injection H as _ <-.
  - intros H. do 4 (apply rbind_ok in H as ([] & _ & H)). injection H as _ <-.
    split; try done. apply prefix_app_r. done.
Qed.

Lemma admit_same u rp g khs now s s' : admitMembers u rp g khs now s = Ok s' → same_groups s s'.
Proof.
  revert s. induction khs as [|[kh m] khs IH]; intros s H; cbn [admitMembers] in H; [by injection H as <-|].
  apply rbind_ok in H as (s1 & H1 & H). apply IH in H as [E U R P Q]. unfold admitMember in H1.
  apply rbind_ok in H1 as (xy & _ & H1). apply rbind_ok in H1 as ([id s2] & [E2 U2 R2 P2 Q2]%resolve_same & H1).
  apply rbind_ok in H1 as ([] & _ & H1). injection H1 as <-. cbn in *.
  split; [by etransitivity|congruence..].
Qed.

Lemma register_keeps rp md g p ms data now s id s' :
  register_ rp md g p ms data now s = Ok (id, s') →
  kept s s' ∧ references_ s' = references_ s ∧ id = id_of (units_ s) ∧
  units_ s' = units_ s ++ [mkUnit_ rp md g (contentHashFor rp md g ms) (Z.of_nat (length ms)) now] ∧
  registerPayload s' id = data.
Proof.
  unfold register_. intros H. do 4 (apply rbind_ok in H as ([] & _ & H)).
  apply rbind_ok in H as ([] & _ & H). apply rbind_ok in H as (ks & _ & H).
  apply rbind_ok in H as (s1 & [E U R P Q]%admit_same & H). injection H as <- <-. cbn in *.
  split_and!; [|done..|apply put_same]. split; cbn; rewrite ?U, ?R, ?P, ?Q; try done; [by apply prefix_app_r|].
  intros id Hid. apply put_other. lia.
Qed.

Lemma refer_keeps g md m data now s id s' :
  refer_ g md m data now s = Ok (id, s') →
  kept s s' ∧ units_ s' = units_ s ∧ id = id_of (references_ s) ∧
  (∃ e u, references_ s' = references_ s ++ [mkReference_ e u md now]) ∧ referPayload s' id = data.
Proof.
  unfold refer_. intros H. do 2 (apply rbind_ok in H as ([] & _ & H)).
  destruct (unit_at _ _) as [un|]; [|done]. apply rbind_ok in H as ([] & _ & H).
  apply rbind_ok in H as (xy & _ & H). apply rbind_ok in H as ([e s1] & [E U R P Q]%resolve_same & H).
  do 2 (apply rbind_ok in H as ([] & _ & H)). injection H as <- <-. cbn. rewrite R.
  split_and!; [|done|done|eauto|apply put_same].
  split; cbn; rewrite ?U, ?R, ?P, ?Q; try done; [by apply prefix_app_r|]. intros id Hid. apply put_other. lia.
Qed.

Lemma transact_keeps data now s : kept s (transact data now s).
Proof.
  unfold transact. destruct (call_result data now s) as [[id s']|] eqn:Hr; [|apply append_only_refl].
  apply call_result_ok in Hr as (c & _ & Hr). destruct c; cbn in Hr; [by apply register_keeps in Hr as []|].
  by apply refer_keeps in Hr as [].
Qed.

Lemma mined_keeps txs : ∀ s, kept s (mined s txs).
Proof.
  induction txs as [|[data now] txs IH]; intros s; [apply append_only_refl|].
  eapply append_only_trans; [apply (transact_keeps data now)|apply IH].
Qed.
End records.

(** ** The calldata of a task *)

Section tasks.
Context `{C : Crates, V : !Evm}.

(** A member as it is encoded for the contract. *)
Record member_image (m : Member) (sm : SolMember) : Prop := {
  mi_key : parse_hex_bytes (public_key m) = Ok (sm_publicKey sm);
  mi_attestation : parse_hex_bytes (attestation m) = Ok (sm_attestation sm);
  mi_credential : parse_hex_bytes (credential_id m) = Ok (sm_credentialId sm);
  mi_attachment : sm_authenticatorAttachment sm = as_bytes (authenticator_attachment m);
  mi_transports : sm_transports sm = as_bytes (transports m);
  mi_proof : proof_image (proof m) (sm_proof sm);
}.

Lemma u64_is_uint256 n : in_u64 n → has_type TUint256 (VUint n) = true.
Proof. intros [H1 H2]. cbn. unfold U64_MAX, U256_MAX in *. apply andb_true_iff. rewrite !Z.leb_le. lia. Qed.

Lemma b256_is_uint256 s b : parse_b256 s = Ok b → has_type TUint256 (VUint (from_be_bytes b)) = true.
Proof.
  unfold parse_b256. intros H. apply rbind_ok in H as (b' & _ & H).
  destruct (Nat.eqb_spec (length b') 32) as [Hl|]; [|done]. injection H as <-.
  pose proof (from_be_bytes_range b') as [H1 H2]. rewrite Hl in H2. cbn.
  apply andb_true_iff. rewrite !Z.leb_le. unfold U256_MAX. split; [done|].
  change (256 ^ Z.of_nat 32) with (2 ^ 256) in H2. lia.
Qed.

Lemma proof_sol_image p v :
  proof_sol p = Ok v → ∃ sp, proof_of v = Some sp ∧ proof_image p sp ∧
    (proof_sized p → has_type PROOF_T v = true).
Proof.
  unfold proof_sol. intros H. apply rbind_ok in H as (a & Ha & H).
  apply rbind_ok in H as (r & Hr & H). apply rbind_ok in H as (s & Hs & H). injection H as <-.
  eexists. split; [done|]. split; [split; try done; eauto|].
  intros (Hc & Ht & _). unfold PROOF_T. cbn [has_type].
  pose proof (u64_is_uint256 _ Hc) as E1. pose proof (u64_is_uint256 _ Ht) as E2.
  pose proof (b256_is_uint256 _ _ Hr) as E3. pose proof (b256_is_uint256 _ _ Hs) as E4.
  cbn [has_type] in E1, E2, E3, E4. by rewrite E1, E2, E3, E4.
Qed.

Lemma member_sol_image m v :
  member_sol m = Ok v → ∃ sm, member_of v = Some sm ∧ member_image m sm ∧
    (proof_sized (proof m) → has_type MEMBER_T v = true).
Proof.
  unfold member_sol. intros H. apply rbind_ok in H as (k & Hk & H).
  apply rbind_ok in H as (a & Ha & H). apply rbind_ok in H as (c & Hc & H).
  apply rbind_ok in H as (p & Hp%proof_sol_image & H). injection H as <-.
  destruct Hp as (sp & Hsp & Hi & Ht). eexists. split; [cbn; rewrite Hsp; done|]. split; [done|].
  intros Hz. unfold MEMBER_T. cbn [has_type] in Ht |- *. by rewrite Ht.
Qed.

Lemma members_sol_image ms vs :
  rmap member_sol ms = Ok vs → ∃ sms, mapM member_of vs = Some sms ∧ Forall2 member_image ms sms ∧
    (Forall (λ m, proof_sized (proof m)) ms → forallb (has_type MEMBER_T) vs = true).
Proof.
  revert vs. induction ms as [|m ms IH]; intros vs H; cbn [rmap] in H.
  - injection H as <-. exists []. split_and!; done || constructor.
  - apply rbind_ok in H as (v & Hv%member_sol_image & H). apply rbind_ok in H as (vs' & Hvs & H).
    injection H as <-. destruct Hv as (sm & Hsm & Hi & Ht). destruct (IH _ Hvs) as (sms & Hm & Hf & Hts).
    exists (sm :: sms). cbn [mapM mbind option_bind mret option_ret]. rewrite Hsm. cbn [mbind option_bind]. rewrite Hm. split_and!; [done|by constructor|].
    intros [Hz Hzs]%Forall_cons. cbn [forallb]. by rewrite Ht, Hts.
Qed.

Lemma take_selector (sig : string) (args : bytes) :
  take 4 (take 4 (keccak256 (as_bytes sig)) ++ args) = take 4 (keccak256 (as_bytes sig)) ∧
  drop 4 (take 4 (keccak256 (as_bytes sig)) ++ args) = args.
Proof.
  assert (Happ : ∀ sel : bytes, length sel = 4%nat → take 4 (sel ++ args) = sel ∧ drop 4 (sel ++ args) = args).
  { intros sel <-. split; [apply take_app_length|apply drop_app_length]. }
  apply Happ. by rewrite length_take, keccak256_length.
Qed.

(** The indices of a task's proofs are [u64]s and its texts fit memory. *)
Definition task_sized (t : RegisterTask) : Prop :=
  (∀ p, group_proof t = Some p → proof_sized p) ∧ Forall (λ m, proof_sized (proof m)) (members t).

(** A Register task's calldata is the call of its fields. *)
Lemma register_decodes t data :
  kind t = Register → task_sized t → write_calldata t = Ok data →
  ∃ md g p sp sms, decode_call data = Some (CallRegister (rp_id t) md g sp sms) ∧
    parse_hex_bytes (metadata t) = Ok md ∧ parse_hex_bytes (group_public_key t) = Ok g ∧
    group_proof t = Some p ∧ proof_image p sp ∧ Forall2 member_image (members t) sms.
Proof.
  intros Hk [Hzg Hzm] H. unfold write_calldata in H. rewrite Hk in H.
  unfold register_calldata in H. apply rbind_ok in H as (args & Ha & H). injection H as <-.
  unfold register_args in Ha. apply rbind_ok in Ha as (vs & Hvs%members_sol_image & Ha).
  apply rbind_ok in Ha as (p & Hp%ok_or_ok & Ha). apply rbind_ok in Ha as (md & Hmd & Ha).
  apply rbind_ok in Ha as (g & Hg & Ha). apply rbind_ok in Ha as (pv & Hpv%proof_sol_image & Ha).
  injection Ha as <-. destruct Hvs as (sms & Hsms & Hf & Htm). destruct Hpv as (sp & Hsp & Hi & Htp).
  exists md, g, p, sp, sms. split; [|done].
  unfold decode_call, abi_encode_call.
  rewrite !(proj1 (take_selector _ _)), (proj2 (take_selector _ _)).
  rewrite bool_decide_true by done.
  rewrite evm_abi_decode_encode; [|].
  - cbn [mbind option_bind]. rewrite Hsp. cbn [mbind option_bind]. by rewrite Hsms.
  - unfold REGISTER_T. rewrite !has_types_cons. rewrite (Htp (Hzg p Hp)).
    cbn [has_type]. change (forallb _ vs) with (forallb (has_type MEMBER_T) vs). rewrite (Htm Hzm). done.
Qed.

Lemma refer_decodes t m data :
  REGISTER_SELECTOR ≠ REFER_SELECTOR →
  kind t = Refer → head (members t) = Some m → task_sized t → write_calldata t = Ok data →
  ∃ md g sm, decode_call data = Some (CallRefer g md sm) ∧
    parse_hex_bytes (metadata t) = Ok md ∧ parse_hex_bytes (group_public_key t) = Ok g ∧ member_image m sm.
Proof.
  intros Hsel Hk Hm [_ Hzm] H. unfold write_calldata in H. rewrite Hk in H.
  unfold refer_calldata, refer_args in H. rewrite Hm in H. cbn [head ok_or rbind] in H.
  apply rbind_ok in H as (args & Ha & H). injection H as <-.
  apply rbind_ok in Ha as (g & Hg & Ha). apply rbind_ok in Ha as (md & Hmd & Ha).
  apply rbind_ok in Ha as (v & Hv%member_sol_image & Ha). injection Ha as <-.
  destruct Hv as (sm & Hsm & Hi & Ht). exists md, g, sm. split; [|done].
  unfold decode_call, abi_encode_call.
  rewrite !(proj1 (take_selector _ _)), (proj2 (take_selector _ _)).
  rewrite bool_decide_false by (intros Heq; by apply Hsel).
  rewrite bool_decide_true by done.
  rewrite evm_abi_decode_encode; [|].
  - cbn [mbind option_bind]. by rewrite Hsm.
  - unfold REFER_T. rewrite !has_types_cons. destruct (members t) as [|m' ms]; [done|]. injection Hm as ->. apply Forall_cons in Hzm as [Hzm _].
    rewrite (Ht Hzm). done.
Qed.
End tasks.

(** ** Accepted tasks *)

Section accepted.
Context `{C : Crates, V : !Evm, M : !MirroredCurve}.

Lemma image_limits m sm : wf_member m → member_image m sm → within_limits sm.
Proof.
  intros [_ (ab & Ha & Hab) (cb & Hc & Hcb) Hat Htr] [_ Ia Ic Iat Itr _].
  rewrite Ha, parse_hex_field in Ia. rewrite Hc, parse_hex_field in Ic. injection Ia as ->. injection Ic as ->.
  split; [|done|rewrite Iat|rewrite Itr]; try (unfold byte_len; by rewrite length_as_bytes).
  destruct Hab as [-> |[Hl (v & Hv & Hver)]]; [done|]. destruct (sm_attestation sm) as [|v' ab]; [done|].
  injection Hv as ->. cbn [validateAttestation]. rewrite Hver. unfold ATTESTATION_LENGTH, ATTESTATION_BYTES in *.
  rewrite Hl. done.
Qed.

Lemma signed_proved dc dr rp key kb p sp binding :
  signed_by dc dr rp key p binding → parse_hex_bytes key = Ok kb → proof_sized p → proof_image p sp →
  proved dc dr rp kb sp binding.
Proof using M.
  intros (kb' & Hck & Hv) Hk Hz Hi. pose proof (canonical_key_parse _ _ Hck) as Hp.
  assert (kb' = kb) as -> by congruence. destruct Hck as [_ _ Hl _ Hpt].
  exists (key_x kb), (key_y kb). split; [by apply validatePublicKey_ok|].
  apply (proof_mirrored p sp (challenge_for dc dr rp kb binding) rp kb); try done. apply keccak256_length.
Qed.

Lemma images_hashes ms sms :
  Forall2 member_image ms sms →
  rmap member_hash ms = Ok ((λ m, keccak256 (abi_encode_params
    [VBytes (sm_publicKey m); VBytes (sm_attestation m)])) <$> sms).
Proof.
  induction 1 as [|m sm ms sms [Hk Ha _ _ _ _] _ IH]; [done|]. cbn [rmap fmap list_fmap].
  unfold member_hash at 1. rewrite Hk, Ha. cbn [rbind]. rewrite IH. done.
Qed.

Lemma image_content_hash t md g sms :
  kind t = Register → parse_hex_bytes (metadata t) = Ok md → parse_hex_bytes (group_public_key t) = Ok g →
  Forall2 member_image (members t) sms → content_hash_for t = Ok (contentHashFor (rp_id t) md g sms).
Proof.
  intros Hk Hmd Hg Hf. unfold content_hash_for. rewrite Hmd, Hg, (images_hashes _ _ Hf), Hk. done.
Qed.

Lemma nodup_hashed l : collision_free l → NoDup l → NoDup (keccak256 <$> l).
Proof.
  intros Hc. induction l as [|b l IH]; [constructor|]. intros [Hn Hl]%NoDup_cons.
  cbn. apply NoDup_cons. split.
  - intros (b' & Heq & Hin)%list_elem_of_fmap. apply Hc in Heq; [|by left|by right]. by subst.
  - apply IH; [|done]. intros x y Hx Hy. apply Hc; by right.
Qed.

(** The keys that the task's registration hashes. *)
Definition task_keys (t : RegisterTask) : list bytes :=
  match register_content t with Ok (_, _, g, ms) => g :: ms.*1 | Err _ => [] end.

Lemma image_task_keys t g sms md :
  parse_hex_bytes (metadata t) = Ok md → parse_hex_bytes (group_public_key t) = Ok g →
  Forall2 member_image (members t) sms → task_keys t = g :: (sm_publicKey <$> sms).
Proof.
  intros Hmd Hg Hf. unfold task_keys, register_content. rewrite Hg, Hmd. cbn [rbind].
  assert (Hr : rmap member_content (members t) = Ok ((λ m, (sm_publicKey m, sm_attestation m)) <$> sms)).
  { induction Hf as [|m sm ms sms' [Hk Ha _ _ _ _] _ IH]; [done|]. cbn [rmap fmap list_fmap].
    unfold member_content at 1. rewrite Hk, Ha. cbn [rbind]. by rewrite IH. }
  rewrite Hr. cbn [rbind]. f_equal. rewrite <-list_fmap_compose. done.
Qed.

Lemma images_keys ms sms :
  Forall2 member_image ms sms → Forall wf_member ms → public_key <$> ms = hex_encode <$> (sm_publicKey <$> sms).
Proof.
  induction 1 as [|m sm ms sms [Hk _ _ _ _ _] _ IH]; [done|]. intros [[(kb & Hkb) _ _ _ _] Hm]%Forall_cons.
  cbn. f_equal; [|by apply IH]. pose proof (canonical_key_parse _ _ Hkb).
  assert (kb = sm_publicKey sm) as -> by congruence. apply Hkb.
Qed.

Lemma image_distinct t g sms :
  wf_task t → parse_hex_bytes (group_public_key t) = Ok g → Forall2 member_image (members t) sms →
  collision_free (task_keys t) → NoDup (keccak256 g :: (key_hash <$> sms)).
Proof.
  intros Hwf Hg Hf Hc. destruct (wt_metadata t Hwf) as (mdb & Hmd & _).
  rewrite (image_task_keys t g sms mdb) in Hc by (done || by rewrite Hmd, parse_hex_field).
  pose proof (wt_distinct t Hwf) as Hnd.
  assert (Hkh : key_hash <$> sms = keccak256 <$> (sm_publicKey <$> sms)) by by rewrite <-list_fmap_compose.
  rewrite Hkh. apply (nodup_hashed _ Hc).
  assert (Hs : (group_public_key t :: (public_key <$> members t)) = hex_encode <$> (g :: (sm_publicKey <$> sms))).
  { cbn. f_equal.
    - destruct (wt_group t Hwf) as (gb & Hgb). pose proof (canonical_key_parse _ _ Hgb).
      assert (gb = g) as -> by congruence. apply Hgb.
    - by apply images_keys, wt_members. }
  rewrite Hs in Hnd. by apply NoDup_fmap_1 in Hnd.
Qed.

Lemma images_proved dc dr t g sms :
  Forall (member_signed dc dr t) (members t) → Forall2 member_image (members t) sms →
  parse_hex_bytes (group_public_key t) = Ok g → Forall (λ m, proof_sized (proof m)) (members t) →
  Forall (member_proved dc dr (rp_id t) g) sms.
Proof using M.
  intros Hs Hf Hg Hz. induction Hf as [|m sm ms sms [Hk Ha _ _ _ Hp] _ IH]; [constructor|].
  apply Forall_cons in Hs as [(gb & att & Hgb & Hatt & Hsg) Hs], Hz as [Hzm Hz].
  constructor; [|by apply IH]. apply canonical_key_parse in Hgb.
  assert (gb = g) as -> by congruence. rewrite Hatt, parse_hex_field in Ha. injection Ha as ->.
  by eapply signed_proved.
Qed.

Lemma images_limits ms sms : Forall wf_member ms → Forall2 member_image ms sms → Forall within_limits sms.
Proof.
  intros Hm. induction 1 as [|m sm ms sms Hi _ IH]; [constructor|]. apply Forall_cons in Hm as [Hm Hms].
  constructor; [by eapply image_limits|by apply IH].
Qed.

Lemma accepted_register_sound req id now chain reg t ch :
  validate_register req id now chain reg = Ok (t, ch) → task_sized t → collision_free (task_keys t) →
  ∃ ra data md g sp sms, address_parse reg = Some ra ∧ write_calldata t = Ok data ∧
    decode_call data = Some (CallRegister (rp_id t) md g sp sms) ∧
    sound_register chain ra (rp_id t) md g sp sms ∧ Forall within_limits sms ∧
    content_hash t = fmt_b256 (contentHashFor (rp_id t) md g sms) ∧ task_keys t = g :: (sm_publicKey <$> sms).
Proof using M.
  intros (ra & Hra & Hk & _ & Hwf & _ & _ & (p & h & Hp & Hh & Hgs) & Hms)%validate_register_ok Hz Hc.
  destruct (register_encodable chain ra t Hk Hwf) as (data & Hd); [by exists p, h|done|].
  destruct (register_decodes t data Hk Hz Hd) as (md & g & p' & sp & sms & Hdec & Hmd & Hg & Hp' & Hi & Hf).
  assert (p' = p) as -> by congruence. destruct Hz as [Hzg Hzm].
  pose proof (image_content_hash t md g sms Hk Hmd Hg Hf) as Hch.
  assert (h = contentHashFor (rp_id t) md g sms) as -> by congruence.
  exists ra, data, md, g, sp, sms. split_and!; try done.
  - split.
    + apply Hwf.
    + destruct (wt_metadata t Hwf) as (mdb & Hmd' & Hl). rewrite Hmd', parse_hex_field in Hmd. by injection Hmd as <-.
    + rewrite <-(Forall2_length _ _ _ Hf). apply Hwf.
    + eapply signed_proved; [exact Hgs|done|by apply Hzg|done].
    + by eapply image_distinct.
    + by eapply images_proved.
  - eapply images_limits; [apply Hwf|done].
  - destruct (wt_hash t Hwf) as (h & Hh' & ->). congruence.
  - by eapply image_task_keys.
Qed.

Lemma absent_key dc dr L s k :
  holds dc dr L s → getEntryByKey s k = Ok None → entryIdPlusOneByKey s (keccak256 k) = 0.
Proof.
  intros H. unfold getEntryByKey. destruct (Z.eqb_spec (entryIdPlusOneByKey s (keccak256 k)) 0); [done|].
  destruct (ho_key _ _ _ _ H (keccak256 k)) as [[? ?]|(id & e & Hp & He & _)]; [done|].
  rewrite Hp. replace (id + 1 - 1) with id by lia. by rewrite He.
Qed.

Lemma absent_group dc dr L s k :
  holds dc dr L s → getUnitByGroupKey s k = Ok None → unitIdPlusOneByGroupKey s (keccak256 k) = 0.
Proof.
  intros H. unfold getUnitByGroupKey. destruct (Z.eqb_spec (unitIdPlusOneByGroupKey s (keccak256 k)) 0); [done|].
  destruct (ho_group _ _ _ _ H (keccak256 k)) as [[? ?]|(id & e & Hp & He & _)]; [done|].
  rewrite Hp. replace (id + 1 - 1) with id by lia. by rewrite He.
Qed.

(** C19. A Register request that the service accepts is a write that the
    contract takes, whatever was written before: every check of the
    request's own passes on chain too, so that its transaction creates the
    group under the task's content hash, or is stopped by what the registry
    already holds, a used group key or another file of a passkey. With keys
    the registry has not seen it succeeds. *)
Theorem accepted_register_lands req id now chain reg t ch bc this dc dr txs at_ :
  let s := mined (new_registry bc this dc dr) txs in
  validate_register req id now chain reg = Ok (t, ch) → task_sized t → collision_free (task_keys t) →
  domain_of bc this dc dr = (chain, default [] (address_parse reg)) →
  ∃ data h, write_calldata t = Ok data ∧ content_hash t = fmt_b256 h ∧
    match call_result data at_ s with
    | Ok (_, s') => isContentRegistered s' h = true
    | Err e => register_conflict e
    end ∧
    ((∀ k, k ∈ task_keys t → getUnitByGroupKey s k = Ok None ∧ getEntryByKey s k = Ok None) →
      is_ok (call_result data at_ s) = true).
Proof using M.
  intros s Hv Hz Hc HD. pose proof (holds_life bc this dc dr txs) as H. cbn zeta in H. fold s in H.
  destruct (accepted_register_sound _ _ _ _ _ _ _ Hv Hz Hc) as (ra & data & md & g & sp & sms & Hra & Hd & Hdec & Hs & Hl & Hch & Hks).
  rewrite HD, Hra in H. cbn [default fst snd] in H. set (L := ledger_of _) in H.
  exists data, (contentHashFor (rp_id t) md g sms). split_and!; try done.
  - unfold call_result. rewrite Hdec. cbn [ok_or rbind run_call].
    pose proof (register_spec chain ra L s (rp_id t) md g sp sms data at_ H) as Hr.
    destruct (register_ _ _ _ _ _ _ _ _) as [[i s']|e]; [|by apply Hr].
    destruct Hr as [_ Hr]. apply (isContentRegistered_spec _ _ _ _ _ Hr). cbn. apply elem_of_app. right. by left.
  - rewrite Hks. intros Hf. apply (call_result_spec _ _ _ _ _ _ H). exists (CallRegister (rp_id t) md g sp sms).
    split; [done|]. split_and!; [done| |].
    + apply (group_open _ _ _ _ _ H), (absent_group _ _ _ _ _ H), Hf. by left.
    + apply Forall_forall. intros m Hin. apply (new_file _ _ _ _ _ H).
      * apply (absent_key _ _ _ _ _ H), Hf. right. by apply list_elem_of_fmap_2.
      * rewrite Forall_forall in Hl. by apply Hl.
Qed.

(** A Refer request that the service accepts, for a group that is not
    registered under another rpId, is a write that the contract takes: it
    makes the reference, or is stopped by a group that is not there yet, the
    same reference made before, or another file of the passkey. *)
Theorem accepted_refer_lands req id now chain reg t ch bc this dc dr txs at_ g k :
  let s := mined (new_registry bc this dc dr) txs in
  validate_refer req id now chain reg = Ok (t, ch) → task_sized t → refer_content t = Ok (g, k) →
  collision_free [g; k] → REGISTER_SELECTOR ≠ REFER_SELECTOR →
  domain_of bc this dc dr = (chain, default [] (address_parse reg)) →
  (∀ i u, getUnitByGroupKey s g = Ok (Some (i, u)) → un_rpId u = rp_id t) →
  ∃ data, write_calldata t = Ok data ∧
    match call_result data at_ s with
    | Ok (_, s') => isReferenced s' g k = true
    | Err e => refer_conflict e
    end.
Proof using M.
  intros s (ra & m & Hra & Hk & _ & Hwf & _ & _ & Hm & _ & Hs)%validate_refer_ok Hz Hct Hc Hsel HD Hrp.
  pose proof (holds_life bc this dc dr txs) as H. cbn zeta in H. fold s in H.
  rewrite HD, Hra in H. cbn [default fst snd] in H. set (L := ledger_of _) in H.
  destruct (refer_encodable chain ra t m Hk Hwf Hm Hs) as (data & Hd).
  destruct (refer_decodes t m data Hsel Hk ltac:(by rewrite Hm) Hz Hd) as (md & g' & sm & Hdec & Hmd & Hg & Hi).
  pose proof Hi as [Hkey Hatt _ _ _ Hpi].
  unfold refer_content in Hct. rewrite Hg, Hm in Hct. cbn [rbind ok_or head] in Hct. rewrite Hkey in Hct.
  injection Hct as <- <-. exists data. split; [done|].
  assert (Hmdl : byte_len md ≤ MAX_METADATA_LENGTH).
  { destruct (wt_metadata t Hwf) as (mdb & Hmd' & Hl). rewrite Hmd', parse_hex_field in Hmd. by injection Hmd as <-. }
  unfold call_result. rewrite Hdec. cbn [ok_or rbind run_call].
  pose proof (refer_spec chain ra L s g' md sm data at_ H) as Hr.
  destruct (refer_ _ _ _ _ _ _) as [[i s']|e].
  { destruct Hr as [_ Hr]. apply (isReferenced_spec _ _ _ _ _ _ Hr). cbn. apply elem_of_app. right. by left. }
  apply Hr.
  - intros rp Hin. destruct (ho_group _ _ _ _ H (keccak256 g')) as [[_ Hn]|(i & u & Hp & Hu & _ & Hr')].
    { destruct Hn. apply list_elem_of_fmap. by exists (keccak256 g', rp). }
    assert (rp = rp_id t) as ->.
    { apply Hr' in Hin as ->. apply (Hrp i). unfold getUnitByGroupKey. rewrite Hp.
      apply unit_at_Some in Hu as Hu'. destruct (Z.eqb_spec (i + 1) 0); [lia|].
      replace (i + 1 - 1) with i by lia. by rewrite Hu. }
    destruct Hs as (gb & att & mdb & Hgb%canonical_key_parse & Ha & Hmd' & Hsg).
    assert (gb = g') as -> by congruence. rewrite Hmd', parse_hex_field in Hmd. injection Hmd as ->.
    rewrite Ha, parse_hex_field in Hatt. injection Hatt as ->. destruct Hz as [_ Hzm]. rewrite Hm in Hzm.
    apply Forall_cons in Hzm as [Hzm _]. split.
    + exact Hmdl.
    + intros Heq%Hc; [|by right; left|by left]. pose proof (wt_distinct t Hwf) as Hnd. rewrite Hm in Hnd.
      pose proof (wt_members t Hwf) as Hw. rewrite Hm in Hw. apply Forall_cons in Hw as [[(kb & Hkb) _ _ _ _] _].
      destruct (wt_group t Hwf) as (gb & Hg2). apply canonical_key_parse in Hg2 as Hg3, Hkb as Hkb3.
      apply NoDup_cons in Hnd as [Hn _]. destruct Hn. apply list_elem_of_fmap.
      exists m. split; [|by left]. rewrite (ck_encode _ _ Hg2), (ck_encode _ _ Hkb). congruence.
    + by eapply signed_proved.
  - exact Hmdl.
  - eapply image_limits; [|done]. pose proof (wt_members t Hwf) as Hw. rewrite Hm in Hw. by apply Forall_cons in Hw as [? _].
Qed.
End accepted.

(** ** Evaluation on examples *)
Section examples.
#[local] Existing Instances registry_crates registry_evm registry_mirrors.

Definition proof_sizedb (p : Proof_) : bool :=
  (0 <=? challenge_index p) && (challenge_index p <=? U64_MAX) && (0 <=? type_index p) &&
  (type_index p <=? U64_MAX) && (str_len (client_data_json p) <=? U64_MAX).
Definition task_sizedb (t : RegisterTask) : bool :=
  match group_proof t with Some p => proof_sizedb p | None => true end &&
  forallb (λ m, proof_sizedb (proof m)) (members t).

Lemma proof_sizedb_spec p : proof_sizedb p = true → proof_sized p.
Proof.
  unfold proof_sizedb, proof_sized, in_u64. rewrite !andb_true_iff, !Z.leb_le. tauto.
Qed.
Lemma task_sizedb_spec t : task_sizedb t = true → task_sized t.
Proof.
  unfold task_sizedb. rewrite andb_true_iff, forallb_forall. intros [Hg Hm]. split.
  - intros p Hp. rewrite Hp in Hg. by apply proof_sizedb_spec.
  - apply Forall_forall. intros m Hin. apply proof_sizedb_spec, Hm. by apply list_elem_of_In.
Qed.

Definition lands_as (t : RegisterTask) (s : Registry) : Prop :=
  ∃ data h, write_calldata t = Ok data ∧ content_hash t = fmt_b256 h ∧
    match call_result data 0 s with
    | Ok (_, s') => isContentRegistered s' h = true
    | Err e => register_conflict e
    end ∧
    ((∀ k, k ∈ task_keys t → getUnitByGroupKey s k = Ok None ∧ getEntryByKey s k = Ok None) →
      is_ok (call_result data 0 s) = true).

(** The second group shares a member with the first. *)
Definition two_groups : list (bytes * Z) :=
  [(calldata (register_task key_5 [key_6]), 10); (calldata (register_task key_8 [key_6; key_9]), 20)].

Lemma accepted_register_lands_witness :
  lands_as (register_task key_8 [key_6; key_9]) (mined original (take 1 two_groups)).
Proof.
  apply (accepted_register_lands (ask_register key_8 [key_6; key_9]) "r" 1000 100 sample_registry_hex
    (register_task key_8 [key_6; key_9]) (content_hash (register_task key_8 [key_6; key_9]))
    100 sample_registry 0 (replicate 20 x00) (take 1 two_groups) 0).
  - by vm_compute.
  - apply task_sizedb_spec. by vm_compute.
  - apply collision_freeb_spec. by vm_compute.
  - by vm_compute.
Defined.

(** Both registrations succeed, the same calldata never twice. *)
Example two_groups_land :
  is_ok (call_result (calldata (register_task key_8 [key_6; key_9])) 0 (mined original (take 1 two_groups))) = true ∧
  call_result (calldata (register_task key_5 [key_6])) 0 (mined original two_groups) =
    Err (GroupKeyAlreadyUsed (keccak256 key_5)).
Proof. split; by vm_compute. Qed.

Lemma accepted_refer_lands_witness :
  ∃ data, write_calldata (refer_task key_5 key_8) = Ok data ∧
    match call_result data 30 (mined original two_groups) with
    | Ok (_, s') => isReferenced s' key_5 key_8 = true
    | Err e => refer_conflict e
    end.
Proof.
  apply (accepted_refer_lands (ask_refer key_5 key_8) "f" 1000 100 sample_registry_hex
    (refer_task key_5 key_8) (content_hash (refer_task key_5 key_8))
    100 sample_registry 0 (replicate 20 x00) two_groups 30).
  - by vm_compute.
  - apply task_sizedb_spec. by vm_compute.
  - by vm_compute.
  - apply collision_freeb_spec. by vm_compute.
  - by vm_compute.
  - by vm_compute.
  - intros i u. vm_compute. by intros [= <- <-].
Defined.
End examples.
