(* ===== verification/RegistryRecords.v ===== *)
(** * The contract's records carry the writes that made them

    Every group and every reference is stored with the calldata of its write;
    the calldata names the group, the passkeys and the content of the
    record. *)
From Stdlib Require Import Ascii String Strings.Byte.
From S2P Require Export RegistryTasks.
From stdpp Require Import options.
#[local] Set Warnings "-register-all".

Section records.
Context `{C : Crates, V : !Evm}.

(** ** What the indexes point at *)

(** The file [e] is that of the passkey [m], with its attestation and its
    credential. *)
Definition file_of (s : Registry) (e : Z) (m : SolMember) : Prop :=
  ∃ en, entry_at s e = Some en ∧ keccak256 (en_publicKey en) = key_hash m ∧
    claim m = (keccak256 (en_attestation en), keccak256 (en_credentialId en)).

(** The group [u] is that of the key [g]. *)
Definition group_of_key (s : Registry) (u : Z) (g : bytes) : Prop :=
  ∃ un, unit_at s u = Some un ∧ keccak256 (un_groupPublicKey un) = keccak256 g.

Record indexed (s : Registry) : Prop := {
  ix_key kh : entryIdPlusOneByKey s kh ≠ 0 →
    ∃ en, entry_at s (entryIdPlusOneByKey s kh - 1) = Some en ∧ keccak256 (en_publicKey en) = kh;
  ix_group gh : unitIdPlusOneByGroupKey s gh ≠ 0 →
    ∃ un, unit_at s (unitIdPlusOneByGroupKey s gh - 1) = Some un ∧ keccak256 (un_groupPublicKey un) = gh;
  ix_fresh u : id_of (units_ s) ≤ u → groupEntryIds s u = [];
}.

Lemma prefix_entry s s' id e : entries_ s `prefix_of` entries_ s' → entry_at s id = Some e → entry_at s' id = Some e.
Proof. rewrite !entry_at_Some. intros Hp [? He]. split; [done|]. by eapply prefix_lookup_Some. Qed.
Lemma prefix_unit s s' id u : units_ s `prefix_of` units_ s' → unit_at s id = Some u → unit_at s' id = Some u.
Proof. rewrite !unit_at_Some. intros Hp [? Hu]. split; [done|]. by eapply prefix_lookup_Some. Qed.

Lemma file_mono s s' e m : entries_ s `prefix_of` entries_ s' → file_of s e m → file_of s' e m.
Proof. intros Hp (en & He & ?). exists en. split; [by eapply prefix_entry|done]. Qed.
Lemma group_mono s s' u g : units_ s `prefix_of` units_ s' → group_of_key s u g → group_of_key s' u g.
Proof. intros Hp (un & Hu & ?). exists un. split; [by eapply prefix_unit|done]. Qed.
Lemma files_mono s s' ids ms :
  entries_ s `prefix_of` entries_ s' → Forall2 (file_of s) ids ms → Forall2 (file_of s') ids ms.
Proof. intros Hp Hf. eapply Forall2_impl; [exact Hf|]. intros e m. by apply file_mono. Qed.

(** ** The writes *)

Lemma resolve_file m now s id s' :
  resolveEntry (key_hash m) m now s = Ok (id, s') → indexed s →
  indexed s' ∧ file_of s' id m ∧ groupEntryIds s' = groupEntryIds s ∧
    unitIdPlusOneByGroupKey s' = unitIdPlusOneByGroupKey s.
Proof.
  unfold resolveEntry. intros H Hi. pose proof Hi as [Hk Hg Hf].
  destruct (Z.eqb_spec (entryIdPlusOneByKey s (key_hash m)) 0) as [Hz|Hn]; cbn [negb] in H.
  - do 4 (apply rbind_ok in H as ([] & _ & H)). injection H as <- <-. set (en := mkEntry_ _ _ _ _ _ _).
    split_and!; try done; [split; try done|exists en; split; [apply entry_at_new|done]].
    intros kh. cbn [entryIdPlusOneByKey push_entry]. unfold put. case_decide as Hkh; [intros _; subst kh|].
    + exists en. split; [|done]. replace (id_of (entries_ s) + 1 - 1) with (id_of (entries_ s)) by lia.
      apply entry_at_new.
    + intros (e & He & ?)%Hk. exists e. split; [by apply entry_at_push|done].
  - destruct (Hk _ Hn) as (en & He & Hkey). rewrite He in H.
    apply rbind_ok in H as ([] & Ha%require_ok%bool_decide_eq_true & H).
    apply rbind_ok in H as ([] & Hc%require_ok%bool_decide_eq_true & H). injection H as <- <-.
    split_and!; try done. exists en. unfold claim. by rewrite Ha, Hc.
Qed.

Lemma indexed_link u e s : u < id_of (units_ s) → indexed s → indexed (link_member u e s).
Proof.
  intros Hu [Hk Hg Hf]. split; try done. intros v Hv. cbn in *. rewrite put_other by lia. by apply Hf.
Qed.

Lemma admit_files u rp g now ms : ∀ s s',
  admitMembers u rp g ((λ m, (key_hash m, m)) <$> ms) now s = Ok s' → u < id_of (units_ s) → indexed s →
  indexed s' ∧ unitIdPlusOneByGroupKey s' = unitIdPlusOneByGroupKey s ∧
  ∃ ids, groupEntryIds s' u = groupEntryIds s u ++ ids ∧ Forall2 (file_of s') ids ms ∧
    ∀ v, v ≠ u → groupEntryIds s' v = groupEntryIds s v.
Proof.
  induction ms as [|m ms IH]; intros s s' H Hu Hi; cbn [fmap list_fmap admitMembers] in H.
  { injection H as <-. split_and!; [done..|]. exists []. by rewrite app_nil_r. }
  apply rbind_ok in H as (s1 & H1 & H). unfold admitMember in H1.
  apply rbind_ok in H1 as (xy & _ & H1). apply rbind_ok in H1 as ([id s2] & Hr & H1).
  apply rbind_ok in H1 as ([] & _ & H1). injection H1 as <-.
  pose proof (resolve_same _ _ _ _ _ _ Hr) as [_ Hun _ _ _].
  destruct (resolve_file _ _ _ _ _ Hr Hi) as (Hi2 & Hfile & Hge & Hgi).
  pose proof (admit_same _ _ _ _ _ _ _ H) as Hsame.
  assert (Hu2 : u < id_of (units_ s2)) by by rewrite Hun.
  apply (IH _ s') in H as (Hi' & Hgi' & ids & Hids & Hfs & Hother); [|done|by apply indexed_link].
  split_and!; [done|by rewrite Hgi'|]. exists (id :: ids). split_and!.
  - rewrite Hids. cbn [groupEntryIds link_member]. rewrite put_same, Hge. by rewrite <-app_assoc.
  - constructor; [|done]. eapply file_mono; [apply Hsame|]. exact Hfile.
  - intros v Hv. rewrite Hother by done. cbn [groupEntryIds link_member]. by rewrite put_other, Hge.
Qed.

Lemma combine_hashes ms : combine (key_hash <$> ms) ms = (λ m, (key_hash m, m)) <$> ms.
Proof. induction ms as [|m ms IH]; [done|]. cbn. by f_equal. Qed.

Lemma register_files rp md g p ms data now s id s' :
  register_ rp md g p ms data now s = Ok (id, s') → indexed s →
  indexed s' ∧ Forall2 (file_of s') (groupEntryIds s' id) ms ∧
    ∀ v, v ≠ id → groupEntryIds s' v = groupEntryIds s v.
Proof.
  unfold register_. intros H Hi. pose proof Hi as [Hk Hg Hf]. do 4 (apply rbind_ok in H as ([] & _ & H)).
  apply rbind_ok in H as ([] & _ & H). apply rbind_ok in H as (ks & Hks & H).
  pose proof (distinct_spec (keccak256 g) ms [] 0 (NoDup_singleton _)) as Hd. rewrite Hks in Hd.
  destruct Hd as [-> _]. cbn [app] in H. rewrite combine_hashes in H.
  apply rbind_ok in H as (s1 & Ha & H). injection H as <- <-. set (u := id_of (units_ s)) in *.
  apply admit_files in Ha as (Hi' & _ & ids & Hids & Hfs & Hother).
  - cbn [groupEntryIds push_unit] in Hids, Hother. rewrite Hf in Hids by done.
    split_and!; [by destruct Hi'| |done]. cbn [groupEntryIds keep_register_payload]. by rewrite Hids.
  - cbn [units_ push_unit]. unfold u, id_of. rewrite length_app. cbn. lia.
  - split; [done| |].
    + intros gh. cbn [unitIdPlusOneByGroupKey push_unit]. unfold put. case_decide as Hgh; [intros _; subst gh|].
      * eexists. replace (id_of (units_ s) + 1 - 1) with (id_of (units_ s)) by lia.
        split; [apply unit_at_new|done].
      * intros (un & Hun & ?)%Hg. exists un. split; [by apply unit_at_push|done].
    + intros v. cbn [units_ push_unit groupEntryIds]. intros Hv. apply Hf. unfold id_of in *.
      rewrite length_app in Hv. cbn in Hv. lia.
Qed.

Lemma refer_files g md m data now s id s' :
  refer_ g md m data now s = Ok (id, s') → indexed s →
  indexed s' ∧ groupEntryIds s' = groupEntryIds s ∧
  ∃ e u, references_ s' = references_ s ++ [mkReference_ e u md now] ∧ group_of_key s' u g ∧ file_of s' e m.
Proof.
  unfold refer_. intros H Hi. apply rbind_ok in H as ([] & _ & H).
  apply rbind_ok in H as ([] & Hz%require_ok%negb_true_iff%Z.eqb_neq & H).
  destruct (ix_group _ Hi _ Hz) as (un & Hat & Hg). rewrite Hat in H. apply rbind_ok in H as ([] & _ & H).
  apply rbind_ok in H as (xy & _ & H). apply rbind_ok in H as ([e s1] & Hr & H).
  do 2 (apply rbind_ok in H as ([] & _ & H)). injection H as <- <-.
  pose proof (resolve_same _ _ _ _ _ _ Hr) as [_ Hun Hrf _ _].
  destruct (resolve_file m _ _ _ _ Hr Hi) as ([] & Hfile & Hge & _).
  split_and!; [by split|done|]. eexists e, _. cbn [references_ push_reference]. rewrite Hrf.
  split_and!; [done| |exact Hfile]. exists un. split; [|done].
  change (unit_at s1 (unitIdPlusOneByGroupKey s (keccak256 g) - 1) = Some un). unfold unit_at in *. by rewrite Hun.
Qed.

(** ** The property *)

(** A group's stored calldata is a registration with the group's fields,
    whose members are the group's files in order; a reference's is a refer
    with its metadata, of its own group and passkey. *)
Definition carries_calls (s : Registry) : Prop :=
  (∀ id u, unit_at s id = Some u → ∃ p ms,
    decode_call (registerPayload s id) = Some (CallRegister (un_rpId u) (un_metadata u) (un_groupPublicKey u) p ms) ∧
    un_contentHash u = contentHashFor (un_rpId u) (un_metadata u) (un_groupPublicKey u) ms ∧
    un_memberCount u = Z.of_nat (length ms) ∧ Forall2 (file_of s) (groupEntryIds s id) ms) ∧
  (∀ id r, 0 ≤ id → references_ s !! Z.to_nat id = Some r → ∃ g m,
    decode_call (referPayload s id) = Some (CallRefer g (re_metadata r) m) ∧
    group_of_key s (re_unitId r) g ∧ file_of s (re_entryId r) m).

Lemma lookup_snoc_new {A} (l : list A) x id y :
  0 ≤ id → (l ++ [x]) !! Z.to_nat id = Some y →
  (l !! Z.to_nat id = Some y ∧ id < id_of l) ∨ (id = id_of l ∧ y = x).
Proof.
  unfold id_of. intros Hid [H|[Hn Hx]]%lookup_app_Some.
  - left. split; [done|]. apply lookup_lt_Some in H. lia.
  - right. apply list_lookup_singleton_Some in Hx as [Hx ->]. split; [lia|done].
Qed.

Lemma carries_transact data now s :
  indexed s ∧ carries_calls s → indexed (transact data now s) ∧ carries_calls (transact data now s).
Proof.
  intros (Hi & Hu & Hr). unfold transact. destruct (call_result data now s) as [[i s']|] eqn:Hc; [|done].
  apply call_result_ok in Hc as (c & Hd & Hc). destruct c as [rp md g p ms|g md m]; cbn in Hc.
  - destruct (register_files _ _ _ _ _ _ _ _ _ _ Hc Hi) as (Hi' & Hfs & Hother).
    apply register_keeps in Hc as ([Ke Ku _ Kp Kq] & Hrf & -> & Hun & Hp). split; [done|]. split.
    + intros id u [Hid Hat]%unit_at_Some. rewrite Hun in Hat.
      apply lookup_snoc_new in Hat as [[Hat Hlt]|[-> ->]]; [|rewrite Hp; cbn; eauto 10|done].
      rewrite Kp, Hother by lia. destruct (Hu id u) as (p' & ms' & ? & ? & ? & ?); [by apply unit_at_Some|].
      exists p', ms'. split_and!; try done. by eapply files_mono.
    + intros id r Hid. rewrite Hrf. intros Hat. rewrite Kq; [|apply lookup_lt_Some in Hat; unfold id_of; lia].
      destruct (Hr id r Hid Hat) as (g' & m & ? & ? & ?). exists g', m.
      split_and!; [done|by eapply group_mono|by eapply file_mono].
  - destruct (refer_files _ _ _ _ _ _ _ _ Hc Hi) as (Hi' & Hge & e & u & Hrf & Hgk & Hfile).
    apply refer_keeps in Hc as ([Ke Ku _ Kp Kq] & Hun & -> & _ & Hp). split; [done|]. split.
    + intros id v Hv. assert (unit_at s id = Some v) as Hv' by by unfold unit_at in *; rewrite <-Hun.
      pose proof Hv' as [Hid Hat]%unit_at_Some. rewrite Kp, Hge by (apply lookup_lt_Some in Hat; unfold id_of; lia).
      destruct (Hu id v Hv') as (p' & ms' & ? & ? & ? & ?). exists p', ms'. split_and!; try done. by eapply files_mono.
    + intros id r Hid. rewrite Hrf. intros Hat.
      apply lookup_snoc_new in Hat as [[Hat Hlt]|[-> ->]]; [|rewrite Hp; cbn; eauto|done].
      rewrite Kq by done. destruct (Hr id r Hid Hat) as (g' & m' & ? & ? & ?). exists g', m'.
      split_and!; [done|by eapply group_mono|by eapply file_mono].
Qed.

Lemma carries_mined txs : ∀ s, indexed s ∧ carries_calls s → indexed (mined s txs) ∧ carries_calls (mined s txs).
Proof.
  induction txs as [|[data now] txs IH]; intros s H; [done|]. by apply IH, carries_transact.
Qed.

(** C30. The registry is append-only and carries itself: no transaction changes a
    record or its stored calldata, and every group's and every reference's
    stored calldata decodes to the write that made it.  A group's registration
    has its rpId, metadata, key, content hash and member count, and its
    members are, in order, the passkeys of the group's files; a reference's
    refer has its metadata, the key of the group it points at and the passkey
    of the file it points from, each file with the attestation and the
    credential that the write claims. *)
Theorem records_are_kept bc this dc dr txs more :
  let s := mined (new_registry bc this dc dr) txs in
  kept s (mined s more) ∧ carries_calls s.
Proof.
  cbn zeta. split; [apply mined_keeps|]. apply carries_mined. split; [by split|]. split.
  - by intros id u [_ ?]%unit_at_Some.
  - by intros id r _ ?.
Qed.
End records.
