(* ===== verification/Records.v ===== *)
(** * Chain records ([p256-registrar/src/protocol.rs], read half;
    [p256-registrar/src/lookup.rs], records)

    The records served to clients, the calldata of every read, and the
    decoders of the registry's answers. *)
From Stdlib Require Import Ascii String Strings.Byte.
From S2P Require Export Validation.
From stdpp Require Import options.

(** ** Records *)

Record Entry := mkEntry {
  e_entry_id : Z;
  e_public_key : string;
  e_attestation : string;
  e_credential_id : string;
  e_authenticator_attachment : string;
  e_transports : string;
  e_created_at : Z;
}.

Record Unit := mkUnit {
  u_unit_id : Z;
  u_rp_id : string;
  u_metadata : string;
  u_group_public_key : string;
  u_content_hash : string;
  u_member_count : Z;
  u_created_at : Z;
}.

Record ReferenceRecord := mkReference {
  r_reference_id : Z;
  r_entry_id : Z;
  r_unit_id : Z;
  r_metadata : string;
  r_created_at : Z;
}.

Record SiteItem := mkSiteItem {
  s_rp_id : string;
  s_entry_count : Z;
  s_created_at : Z;
}.

Record Page (T : Type) := mkPage {
  total : Z;
  page : Z;
  page_size : Z;
  items : list T;
}.
Arguments mkPage {T} _ _ _ _.

(** ** The solidity structs, as the ABI coder returns them *)

Record EntrySol := mkEntrySol {
  es_publicKey : bytes;
  es_attestation : bytes;
  es_credentialId : bytes;
  es_authenticatorAttachment : bytes;
  es_transports : bytes;
  es_createdAt : Z;
}.
Definition ENTRY_T : AbiType := TTuple [TBytes; TBytes; TBytes; TBytes; TBytes; TUint256].

Definition entry_sol (v : AbiValue) : option EntrySol :=
  match v with
  | VSeq [VBytes k; VBytes a; VBytes c; VBytes aa; VBytes tr; VUint t] =>
      Some (mkEntrySol k a c aa tr t)
  | _ => None
  end.

Record UnitSol := mkUnitSol {
  us_rpId : string;
  us_metadata : bytes;
  us_groupPublicKey : bytes;
  us_contentHash : bytes;
  us_memberCount : Z;
  us_createdAt : Z;
}.
Definition UNIT_T : AbiType := TTuple [TString; TBytes; TBytes; TBytes32; TUint32; TUint256].

Definition unit_sol (v : AbiValue) : option UnitSol :=
  match v with
  | VSeq [VString rp; VBytes md; VBytes g; VBytes32 h; VUint n; VUint t] =>
      Some (mkUnitSol rp md g h n t)
  | _ => None
  end.

Definition uint (v : AbiValue) : option Z := match v with VUint n => Some n | _ => None end.

(** [xs.map(f)] over options, all or nothing. *)
Definition collect {A B} (f : A → option B) (l : list A) : option (list B) := mapM f l.

Section records.
Context `{C : Crates}.

(** ** Read calldata *)

Definition total_entries_calldata : bytes := abi_encode_call "getTotalEntries()" [].
Definition total_units_calldata : bytes := abi_encode_call "getTotalUnits()" [].
Definition total_references_calldata : bytes := abi_encode_call "getTotalReferences()" [].
Definition total_rp_ids_calldata : bytes := abi_encode_call "getTotalRpIds()" [].

Definition get_entry_calldata (entry_id : Z) : bytes :=
  abi_encode_call "getEntry(uint256)" [VUint entry_id].
Definition get_entry_by_key_calldata (public_key : bytes) : bytes :=
  abi_encode_call "getEntryByKey(bytes)" [VBytes public_key].
Definition has_entry_calldata (public_key : bytes) : bytes :=
  abi_encode_call "hasEntry(bytes)" [VBytes public_key].
Definition groups_of_key_calldata (public_key : bytes) (offset limit : Z) (desc : bool) : bytes :=
  abi_encode_call "getGroupsOfKey(bytes,uint256,uint256,bool)"
    [VBytes public_key; VUint offset; VUint limit; VBool desc].
Definition references_of_key_calldata (public_key : bytes) (offset limit : Z) (desc : bool) : bytes :=
  abi_encode_call "getReferencesOfKey(bytes,uint256,uint256,bool)"
    [VBytes public_key; VUint offset; VUint limit; VBool desc].
Definition references_to_group_calldata (group_public_key : bytes) (offset limit : Z) (desc : bool)
    : bytes :=
  abi_encode_call "getReferencesToGroup(bytes,uint256,uint256,bool)"
    [VBytes group_public_key; VUint offset; VUint limit; VBool desc].
Definition get_unit_by_group_key_calldata (public_key : bytes) : bytes :=
  abi_encode_call "getUnitByGroupKey(bytes)" [VBytes public_key].
Definition get_unit_calldata (unit_id : Z) : bytes :=
  abi_encode_call "getUnit(uint256)" [VUint unit_id].
Definition get_reference_calldata (reference_id : Z) : bytes :=
  abi_encode_call "getReference(uint256)" [VUint reference_id].
Definition get_group_members_calldata (unit_id offset limit : Z) (desc : bool) : bytes :=
  abi_encode_call "getGroupMembers(uint256,uint256,uint256,bool)"
    [VUint unit_id; VUint offset; VUint limit; VBool desc].
Definition groups_by_rp_id_calldata (rp_id : string) (offset limit : Z) (desc : bool) : bytes :=
  abi_encode_call "getGroupsByRpId(string,uint256,uint256,bool)"
    [VString rp_id; VUint offset; VUint limit; VBool desc].
Definition rp_ids_calldata (offset limit : Z) (desc : bool) : bytes :=
  abi_encode_call "getRpIds(uint256,uint256,bool)" [VUint offset; VUint limit; VBool desc].
Definition is_content_registered_calldata (content_hash : bytes) : bytes :=
  abi_encode_call "isContentRegistered(bytes32)" [VBytes32 content_hash].
Definition is_referenced_calldata (group_public_key member_public_key : bytes) : bytes :=
  abi_encode_call "isReferenced(bytes,bytes)" [VBytes group_public_key; VBytes member_public_key].

(** ** Decoders *)

(** [u64::try_from(t).unwrap_or(u64::MAX).saturating_mul(1000)]. *)
Definition to_millis (t : Z) : Z := sat_mul U64_MAX (default U64_MAX (try_u64 t)) 1000.

Definition entry_from_sol (entry_id : Z) (value : EntrySol) : Entry :=
  mkEntry entry_id (hex_encode (es_publicKey value)) (hex_encode (es_attestation value))
    (hex_encode (es_credentialId value))
    (from_utf8_lossy (es_authenticatorAttachment value))
    (from_utf8_lossy (es_transports value)) (to_millis (es_createdAt value)).

Definition unit_from_sol (unit_id : Z) (value : UnitSol) : Unit :=
  mkUnit unit_id (us_rpId value) (hex_encode (us_metadata value))
    (hex_encode (us_groupPublicKey value)) (fmt_b256 (us_contentHash value))
    (us_memberCount value) (to_millis (us_createdAt value)).

(** [abi_decode_returns(b)] followed by the struct's projection. *)
Definition decode_as {A} (ts : list AbiType) (project : list AbiValue → option A) (what : string)
    (b : bytes) : result A string :=
  ok_or ("invalid " +:+ what +:+ " response") (vs ← abi_decode_returns ts b; project vs).

Definition decode_entry (entry_id : Z) (b : bytes) : result Entry string :=
  try value := decode_as [ENTRY_T]
    (λ vs, match vs with [v] => entry_sol v | _ => None end) "getEntry" b in
  Ok (entry_from_sol entry_id value).

Definition decode_entry_by_key (b : bytes) : result (option Entry) string :=
  try value := decode_as [TBool; TUint256; ENTRY_T]
    (λ vs, match vs with
           | [VBool exists_; VUint id; v] => e ← entry_sol v; Some (exists_, id, e)
           | _ => None end) "getEntryByKey" b in
  let '(exists_, id, entry) := value in
  if negb exists_ then Ok None else
  try entry_id := ok_or "entry id exceeds u64" (try_u64 id) in
  Ok (Some (entry_from_sol entry_id entry)).

Definition decode_unit_by_group_key (b : bytes) : result (option Unit) string :=
  try value := decode_as [TBool; TUint256; UNIT_T]
    (λ vs, match vs with
           | [VBool exists_; VUint id; v] => u ← unit_sol v; Some (exists_, id, u)
           | _ => None end) "getUnitByGroupKey" b in
  let '(exists_, id, unit) := value in
  if negb exists_ then Ok None else
  try unit_id := ok_or "unit id exceeds u64" (try_u64 id) in
  Ok (Some (unit_from_sol unit_id unit)).

Definition decode_unit (unit_id : Z) (b : bytes) : result Unit string :=
  try value := decode_as [UNIT_T]
    (λ vs, match vs with [v] => unit_sol v | _ => None end) "getUnit" b in
  Ok (unit_from_sol unit_id value).

Definition decode_reference (reference_id : Z) (b : bytes) : result ReferenceRecord string :=
  try value := decode_as [TTuple [TUint256; TUint256; TBytes; TUint256]]
    (λ vs, match vs with
           | [VSeq [VUint e; VUint u; VBytes md; VUint t]] => Some (e, u, md, t)
           | _ => None end) "getReference" b in
  let '(e, u, md, t) := value in
  try entry_id := ok_or "entry id exceeds u64" (try_u64 e) in
  try unit_id := ok_or "unit id exceeds u64" (try_u64 u) in
  Ok (mkReference reference_id entry_id unit_id (hex_encode md) (to_millis t)).

Definition decode_id_page (b : bytes) : result (Z * list Z) string :=
  try value := decode_as [TUint256; TArray TUint256]
    (λ vs, match vs with
           | [VUint total; VSeq ids] => ids ← collect uint ids; Some (total, ids)
           | _ => None end) "id-page" b in
  let '(total, ids) := value in
  try ids := rmap (λ id, ok_or "id exceeds u64" (try_u64 id)) ids in
  try total := ok_or "total exceeds u64" (try_u64 total) in
  Ok (total, ids).

Definition decode_group_members (b : bytes) : result (Z * list Entry) string :=
  try value := decode_as [TUint256; TArray TUint256; TArray ENTRY_T]
    (λ vs, match vs with
           | [VUint total; VSeq ids; VSeq entries] =>
               ids ← collect uint ids; entries ← collect entry_sol entries;
               Some (total, ids, entries)
           | _ => None end) "getGroupMembers" b in
  let '(total, ids, entries) := value in
  try entries := rmap (λ p : Z * EntrySol,
      try id := ok_or "entry id exceeds u64" (try_u64 p.1) in Ok (entry_from_sol id p.2))
    (zip ids entries) in
  try total := ok_or "total exceeds u64" (try_u64 total) in
  Ok (total, entries).

Definition bool_of (vs : list AbiValue) : option bool :=
  match vs with [VBool x] => Some x | _ => None end.

Definition decode_has_entry (b : bytes) : result bool string :=
  decode_as [TBool] bool_of "hasEntry" b.

Definition decode_bool (b : bytes) : result bool string := decode_as [TBool] bool_of "bool" b.

Definition decode_total (b : bytes) : result Z string :=
  try value := decode_as [TUint256]
    (λ vs, match vs with [VUint n] => Some n | _ => None end) "total" b in
  ok_or "total exceeds u64" (try_u64 value).

Definition decode_rp_ids (b : bytes) : result (Z * list (string * Z * Z)) string :=
  try value := decode_as [TUint256; TArray TString; TArray TUint256; TArray TUint256]
    (λ vs, match vs with
           | [VUint total; VSeq rps; VSeq counts; VSeq ts] =>
               rps ← collect (λ v, match v with VString s => Some s | _ => None end) rps;
               counts ← collect uint counts; ts ← collect uint ts;
               Some (total, rps, counts, ts)
           | _ => None end) "getRpIds" b in
  let '(total, rps, counts, ts) := value in
  try sites := rmap (λ p : string * Z * Z,
      try count := ok_or "count exceeds u64" (try_u64 p.1.2) in
      try t := ok_or "timestamp exceeds u64" (try_u64 p.2) in
      Ok (p.1.1, count, sat_mul U64_MAX t 1000)) (zip (zip rps counts) ts) in
  try total := ok_or "total exceeds u64" (try_u64 total) in
  Ok (total, sites).
End records.

Section theorems.
Context `{C : Crates}.

Lemma try_u64_ok n m : try_u64 n = Some m ↔ m = n ∧ in_u64 n.
Proof. unfold try_u64, in_u64. case_decide; naive_solver. Qed.

Lemma decode_as_encode {A} ts (project : list AbiValue → option A) what vs :
  has_types ts vs = true → forallb utf8_value vs = true →
  decode_as ts project what (abi_encode_params vs) =
    ok_or ("invalid " +:+ what +:+ " response") (project vs).
Proof. intros Ht Hu. unfold decode_as. by rewrite abi_decode_encode. Qed.

Lemma collect_uint ids : collect uint (VUint <$> ids) = Some ids.
Proof.
  unfold collect. induction ids as [|n ids IH]; [done|]. cbn. by rewrite IH.
Qed.

Lemma has_type_uints ids :
  Forall in_u256 ids → has_type (TArray TUint256) (VSeq (VUint <$> ids)) = true.
Proof.
  cbn. induction 1 as [|n ids Hn _ IH]; [done|]. cbn. rewrite IH, andb_true_r.
  unfold in_u256 in Hn. lia.
Qed.

Lemma utf8_uints ids : forallb utf8_value (VUint <$> ids) = true.
Proof. by induction ids. Qed.

Lemma rmap_try_u64 ids ids' :
  rmap (λ id, ok_or "id exceeds u64" (try_u64 id)) ids = Ok ids' ↔ ids' = ids ∧ Forall in_u64 ids.
Proof.
  rewrite rmap_ok. split.
  - induction 1 as [|n m ids ids' Hn _ [-> IH]]; [done|].
    apply ok_or_ok, try_u64_ok in Hn as [-> ?]. by split; [|constructor].
  - intros [-> H]. induction H as [|n ids Hn _ IH]; constructor; [|done].
    apply ok_or_ok, try_u64_ok. done.
Qed.

Lemma strip_hex_field b : strip_0x (hex_field b) = hex_encode b.
Proof.
  destruct b as [|x b]; [by rewrite hex_encode_nil|].
  change (hex_field (x :: b)) with ("0x" +:+ hex_encode (x :: b)). unfold strip_0x.
  by rewrite strip_prefix_app.
Qed.

(** ** Properties *)

(** What a client registers is what a lookup serves: when the registry
    stores the fields that the calldata carried for a validated member, the
    decoded entry shows the member's own key, attestation, credential id
    (without their 0x) and display hints, at the block's time in
    milliseconds. *)
Theorem registered_member_reads_back m key att cred aa tr p id t :
  wf_member m →
  valid_utf8 (authenticator_attachment m) = true → valid_utf8 (transports m) = true →
  member_sol m = Ok (VSeq [key; att; cred; aa; tr; p]) → in_u256 t →
  decode_entry id (abi_encode_params [VSeq [key; att; cred; aa; tr; VUint t]]) =
    Ok (mkEntry id (public_key m) (strip_0x (attestation m)) (strip_0x (credential_id m))
      (authenticator_attachment m) (transports m) (to_millis t)).
Proof.
  intros [(kb & Hk) (ab & Ha & _) (cb & Hc & _) _ _] Hu1 Hu2 Hm Ht.
  unfold member_sol in Hm. rewrite (canonical_key_parse _ _ Hk), Ha, Hc in Hm. cbn [rbind] in Hm.
  rewrite !parse_hex_field in Hm. cbn [rbind] in Hm.
  apply rbind_ok in Hm as (pv & _ & Hm). injection Hm as <- <- <- <- <- <-.
  unfold decode_entry. rewrite decode_as_encode; [| |done].
  - rewrite Ha, Hc, !strip_hex_field. cbn [entry_sol ok_or rbind]. unfold entry_from_sol.
    cbn [es_publicKey es_attestation es_credentialId es_authenticatorAttachment es_transports
      es_createdAt].
    by rewrite !from_utf8_lossy_valid, <-(ck_encode _ _ Hk) by done.
  - cbn. unfold in_u256 in Ht. rewrite !andb_true_r. lia.
Qed.

(** Reads never truncate: a page of ids decodes exactly when its total
    and all its ids fit a [u64], and then to those very numbers. *)
Theorem decode_id_page_exact total ids total' ids' :
  in_u256 total → Forall in_u256 ids →
  decode_id_page (abi_encode_params [VUint total; VSeq (VUint <$> ids)]) = Ok (total', ids') ↔
    total' = total ∧ ids' = ids ∧ in_u64 total ∧ Forall in_u64 ids.
Proof.
  intros Ht Hids. unfold decode_id_page. rewrite decode_as_encode.
  - cbn [mbind option_bind]. rewrite collect_uint. cbn [mbind option_bind ok_or rbind].
    rewrite rbind_ok. setoid_rewrite rmap_try_u64. setoid_rewrite rbind_ok.
    setoid_rewrite ok_or_ok. setoid_rewrite try_u64_ok. naive_solver.
  - rewrite !has_types_cons, has_type_uints by done. cbn. unfold in_u256 in Ht. lia.
  - cbn. by rewrite utf8_uints.
Qed.
End theorems.

(** ** Evaluation on examples *)
Section examples.
#[local] Existing Instance concrete_crates.

Definition sample_wire_member : Member :=
  mkMember (hex_encode member_key_bytes) "" "0xabcd" "platform" "usb" sample_member_proof.
Definition sample_proof_value : AbiValue :=
  match proof_sol sample_member_proof with Ok v => v | Err _ => VSeq [] end.

Lemma sample_wire_wf : wf_member sample_wire_member.
Proof.
  apply (parse_member_ok (mkMemberRequest (Some (hex_encode member_key_bytes)) None (Some "ABCD")
    (Some "platform") (Some "usb") (Some (request_proof sample_member_proof)))).
  by vm_compute.
Qed.

Lemma registered_member_reads_back_witness :
  decode_entry 5 (abi_encode_params [VSeq [VBytes member_key_bytes; VBytes [];
      VBytes [xab; xcd]; VBytes (as_bytes "platform"); VBytes (as_bytes "usb"); VUint 1700000000]]) =
    Ok (mkEntry 5 (hex_encode member_key_bytes) "" "abcd" "platform" "usb" 1700000000000).
Proof.
  apply (registered_member_reads_back sample_wire_member _ _ _ _ _ sample_proof_value 5 1700000000);
    [apply sample_wire_wf|by vm_compute..|split; by vm_compute].
Defined.

Lemma decode_id_page_exact_witness :
  decode_id_page (abi_encode_params [VUint 3; VSeq (VUint <$> [7; 9])]) = Ok (3, [7; 9]).
Proof.
  apply (decode_id_page_exact 3 [7; 9] 3 [7; 9]); [by vm_compute|repeat constructor; by vm_compute|].
  split_and!; [done..|by vm_compute|repeat constructor; by vm_compute].
Defined.
End examples.
