(* ===== verification/RegistryViews.v ===== *)
(** * The contract's reads, as calls

    Which slice a page is, that every index points at a record, and the
    dispatch of a view call's data to a getter, with its encoded answer. *)
From Stdlib Require Import Ascii String Strings.Byte.
From S2P Require Export RegistryTasks Records.
From stdpp Require Import options.
#[local] Set Warnings "-register-all".

(** ** Pages *)

(** The slice of a list that a page is. *)
Definition slice {A} (l : list A) (offset limit : Z) (desc : bool) : list A :=
  take (Z.to_nat limit) (drop (Z.to_nat offset) (if desc then reverse l else l)).

Lemma slice_lookup {A} (l : list A) offset limit desc (i : nat) :
  0 ≤ offset → Z.of_nat i < limit → offset + Z.of_nat i < id_of l →
  slice l offset limit desc !! i = l !! Z.to_nat (page_index (id_of l) offset (Z.of_nat i) desc).
Proof.
  unfold slice, page_index, id_of. intros Ho Hi Hl. rewrite lookup_take_lt, lookup_drop by lia. destruct desc.
  - rewrite reverse_lookup by lia. f_equal. lia.
  - f_equal. lia.
Qed.

Lemma length_slice {A} (l : list A) offset limit desc :
  length (slice l offset limit desc) = Nat.min (Z.to_nat limit) (length l - Z.to_nat offset).
Proof. unfold slice. rewrite length_take, length_drop. destruct desc; by rewrite ?length_reverse. Qed.

Lemma paged_spec {A} (l : list A) offset limit desc :
  0 ≤ offset → 0 ≤ limit → paged l offset limit desc = Ok (id_of l, slice l offset limit desc).
Proof.
  intros Ho Hl. unfold paged. destruct (Z.leb_spec (id_of l) offset) as [Hle|Hlt].
  - assert (slice l offset limit desc = []) as ->; [|done]. apply nil_length_inv. rewrite length_slice.
    unfold id_of in Hle. lia.
  - set (count := if id_of l - offset <? limit then id_of l - offset else limit).
    assert (Hc : Z.to_nat count = length (slice l offset limit desc)).
    { rewrite length_slice. unfold count, id_of in *. destruct (Z.ltb_spec (Z.of_nat (length l) - offset) limit); lia. }
    assert (Hr : rmap (λ i, ok_or Panic (l !! Z.to_nat (page_index (id_of l) offset (Z.of_nat i) desc)))
      (seq 0 (Z.to_nat count)) = Ok (slice l offset limit desc)); [|by rewrite Hr].
    apply rmap_ok. rewrite Hc. apply Forall2_same_length_lookup_2; [by rewrite length_seq|].
    intros i j x Hj Hx. apply lookup_seq in Hj as [-> Hi]. rewrite Nat.add_0_l. apply ok_or_ok.
    rewrite <-Hx. symmetry. rewrite length_slice in Hi. apply slice_lookup; unfold id_of; lia.
Qed.

(** ** Indexes point at records *)

Definition inside (n : Z) (l : list Z) : Prop := Forall (λ id, 0 ≤ id < n) l.

Lemma inside_mono n n' l : n ≤ n' → inside n l → inside n' l.
Proof. intros Hn Hl. eapply Forall_impl; [exact Hl|]. intros id; cbn. lia. Qed.

Lemma inside_put {K} `{EqDecision K} n (k k' : K) f v :
  inside n (f k') → inside n v → inside n (put k v f k').
Proof. intros Hf Hv. unfold put. by destruct (decide (k' = k)). Qed.

Lemma inside_snoc n l id : inside n l → 0 ≤ id < n → inside n (l ++ [id]).
Proof. intros Hl Hid. apply Forall_app_2; [done|by apply Forall_singleton]. Qed.

Lemma inside_slice n l offset limit desc : inside n l → inside n (slice l offset limit desc).
Proof.
  intros Hl. unfold slice. apply Forall_take, Forall_drop. destruct desc; [|done].
  unfold inside in Hl. by rewrite reverse_Permutation.
Qed.

Record linked (s : Registry) : Prop := {
  lk_member_of e : inside (id_of (units_ s)) (entryUnitIds s e);
  lk_members u : inside (id_of (entries_ s)) (groupEntryIds s u);
  lk_rp rp : inside (id_of (units_ s)) (unitIdsByRpId s rp);
  lk_refers e : inside (id_of (references_ s)) (referenceIdsByEntry s e);
  lk_referred u : inside (id_of (references_ s)) (referenceIdsByUnit s u);
  lk_key kh : 0 ≤ entryIdPlusOneByKey s kh ≤ id_of (entries_ s);
  lk_group gh : 0 ≤ unitIdPlusOneByGroupKey s gh ≤ id_of (units_ s);
}.

Section links.
Context `{C : Crates, V : !Evm}.

Lemma id_of_snoc {A} (l : list A) x : id_of (l ++ [x]) = id_of l + 1.
Proof. unfold id_of. rewrite length_app. cbn. lia. Qed.

Lemma linked_push_unit u gh now s : linked s → linked (push_unit u gh now s).
Proof.
  intros [H1 H2 H3 H4 H5 H6 H7]. pose proof (id_of_nonneg (units_ s)). split; cbn; try done; rewrite id_of_snoc.
  - intros e. eapply inside_mono; [|done]. lia.
  - intros rp. apply inside_put; [eapply inside_mono; [|done]; lia|].
    apply inside_snoc; [eapply inside_mono; [|done]; lia|lia].
  - intros gh'. specialize (H7 gh'). unfold put. case_decide; lia.
Qed.

Lemma linked_push_entry e kh s : linked s → linked (push_entry e kh s).
Proof.
  intros [H1 H2 H3 H4 H5 H6 H7]. split; cbn; try done; rewrite id_of_snoc.
  - intros u. eapply inside_mono; [|done]. lia.
  - intros kh'. specialize (H6 kh'). pose proof (id_of_nonneg (entries_ s)). unfold put. case_decide; lia.
Qed.

Lemma linked_link_member u e s :
  linked s → 0 ≤ u < id_of (units_ s) → 0 ≤ e < id_of (entries_ s) → linked (link_member u e s).
Proof.
  intros [H1 H2 H3 H4 H5 H6 H7] Hu He. split; cbn; try done; intros k; by apply inside_put, inside_snoc.
Qed.

Lemma linked_push_reference r data s : linked s → linked (push_reference r data s).
Proof.
  intros [H1 H2 H3 H4 H5 H6 H7]. pose proof (id_of_nonneg (references_ s)). split; cbn; try done; intros k; rewrite id_of_snoc;
    (apply inside_put; [|apply inside_snoc]); try (eapply inside_mono; [|done]); lia.
Qed.

Lemma linked_resolve kh m now s id s' :
  resolveEntry kh m now s = Ok (id, s') → linked s → linked s' ∧ 0 ≤ id < id_of (entries_ s').
Proof.
  unfold resolveEntry. destruct (negb _).
  - destruct (entry_at _ _) as [e|] eqn:He; [|done]. intros H. do 2 (apply rbind_ok in H as ([] & _ & H)).
    injection H as <- <-. intros Hl. split; [done|]. apply entry_at_Some in He as [? He].
    apply lookup_lt_Some in He. unfold id_of. lia.
  - intros H. do 4 (apply rbind_ok in H as ([] & _ & H)). injection H as <- <-. intros Hl.
    split; [by apply linked_push_entry|]. cbn. rewrite id_of_snoc. pose proof (id_of_nonneg (entries_ s)). lia.
Qed.

Lemma linked_admit u rp g khs now s s' :
  admitMembers u rp g khs now s = Ok s' → linked s → 0 ≤ u < id_of (units_ s) → linked s'.
Proof.
  revert s. induction khs as [|[kh m] khs IH]; intros s H Hl Hu; cbn [admitMembers] in H; [by injection H as <-|].
  apply rbind_ok in H as (s1 & H1 & H). unfold admitMember in H1.
  apply rbind_ok in H1 as (xy & _ & H1). apply rbind_ok in H1 as ([id s2] & Hr & H1).
  apply rbind_ok in H1 as ([] & _ & H1). injection H1 as <-.
  apply resolve_same in Hr as Hs. apply linked_resolve in Hr as [Hl2 Hid]; [|done].
  assert (Hu2 : 0 ≤ u < id_of (units_ s2)) by by rewrite (sg_units _ _ Hs).
  apply (IH _ H); [by apply linked_link_member|done].
Qed.

Lemma linked_transact data now s : linked s → linked (transact data now s).
Proof.
  intros Hl. unfold transact. destruct (call_result data now s) as [[i s']|] eqn:Hc; [|done].
  apply call_result_ok in Hc as (c & _ & Hc). destruct c as [rp md g p ms|g md m]; cbn [run_call] in Hc.
  - unfold register_ in Hc. do 4 (apply rbind_ok in Hc as ([] & _ & Hc)).
    apply rbind_ok in Hc as ([] & _ & Hc). apply rbind_ok in Hc as (ks & _ & Hc).
    apply rbind_ok in Hc as (s1 & Ha & Hc). injection Hc as _ <-.
    apply linked_admit in Ha as [H1 H2 H3 H4 H5 H6 H7]; [done|by apply linked_push_unit|].
    cbn. rewrite id_of_snoc. pose proof (id_of_nonneg (units_ s)). lia.
  - unfold refer_ in Hc. do 2 (apply rbind_ok in Hc as ([] & _ & Hc)).
    destruct (unit_at _ _) as [un|]; [|done]. apply rbind_ok in Hc as ([] & _ & Hc).
    apply rbind_ok in Hc as (xy & _ & Hc). apply rbind_ok in Hc as ([e s1] & Hr & Hc).
    do 2 (apply rbind_ok in Hc as ([] & _ & Hc)). injection Hc as _ <-.
    apply linked_push_reference. by apply linked_resolve in Hr as [? _].
Qed.

Lemma linked_mined txs : ∀ s, linked s → linked (mined s txs).
Proof.
  induction txs as [|[data now] txs IH]; intros s H; [done|]. by apply IH, linked_transact.
Qed.

Lemma linked_life bc this dc dr txs : linked (mined (new_registry bc this dc dr) txs).
Proof. apply linked_mined. split; intros; try constructor; done. Qed.
(** ** What a reader can decode

    Counters and times that fit their words, and text that is text; [n]
    bounds every list. *)

Definition short {A} (n : Z) (l : list A) : Prop := id_of l ≤ n.

Lemma short_mono {A} n n' (l : list A) : n ≤ n' → short n l → short n' l.
Proof. unfold short. lia. Qed.
Lemma short_snoc {A} n (l : list A) x : short n l → short (n + 1) (l ++ [x]).
Proof. unfold short. rewrite id_of_snoc. lia. Qed.
Lemma short_put {K A} `{EqDecision K} n (k k' : K) (f : K → list A) x :
  (∀ k, short n (f k)) → short (n + 1) (put k (f k ++ [x]) f k').
Proof.
  intros Hf. unfold put. case_decide; [by apply short_snoc|]. apply (short_mono n); [lia|done].
Qed.

Record readable_unit (u : Unit_) : Prop := {
  ru_rp : valid_utf8 (un_rpId u) = true;
  ru_hash : length (un_contentHash u) = 32%nat;
  ru_count : 0 ≤ un_memberCount u ≤ U32_MAX;
  ru_time : in_u256 (un_createdAt u);
}.

Record readable (n : Z) (s : Registry) : Prop := {
  rd_entries : short n (entries_ s);
  rd_units : short n (units_ s);
  rd_references : short n (references_ s);
  rd_rps : short n (rpIds_ s);
  rd_groups e : short n (entryUnitIds s e);
  rd_members u : short n (groupEntryIds s u);
  rd_by_rp rp : short n (unitIdsByRpId s rp);
  rd_refers e : short n (referenceIdsByEntry s e);
  rd_referred u : short n (referenceIdsByUnit s u);
  rd_entry : Forall (λ e, in_u256 (en_createdAt e)) (entries_ s);
  rd_unit : Forall readable_unit (units_ s);
  rd_rp : Forall (λ rp, valid_utf8 rp = true) (rpIds_ s);
  rd_created rp : in_u64 (rpCreatedAt s rp);
}.

Hint Resolve short_put short_snoc Forall_app_2 Forall_nil_2 Forall_cons_2 : core.
Hint Extern 1 (short (_ + 1) _) => (eapply short_mono; [|eassumption || done]; lia) : core.
Hint Extern 2 (short (_ + 1) _) => (eapply short_mono; [|solve [auto]]; lia) : core.

Lemma u64_u256 n : in_u64 n → in_u256 n.
Proof. unfold in_u64, in_u256, U64_MAX, U256_MAX. lia. Qed.

Lemma readable_push_unit n u gh now s :
  readable n s → readable_unit u → in_u64 now → readable (n + 1) (push_unit u gh now s).
Proof.
  intros [] Hu Hn. split; cbn; auto.
  - case_bool_decide; auto.
  - case_bool_decide; [|done]. by apply Forall_app_2; [|apply Forall_singleton, ru_rp].
  - intros rp. case_bool_decide; [|done]. unfold put. by case_decide.
Qed.

Lemma readable_push_entry n e kh s :
  readable n s → in_u256 (en_createdAt e) → readable (n + 1) (push_entry e kh s).
Proof. intros [] He. split; cbn; auto. Qed.

Lemma readable_link_member n u e s : readable n s → readable (n + 1) (link_member u e s).
Proof. intros []. split; cbn; auto. Qed.

Lemma readable_push_reference n r data s : readable n s → readable (n + 1) (push_reference r data s).
Proof. intros []. split; cbn; auto. Qed.

Lemma readable_mono n n' s : n ≤ n' → readable n s → readable n' s.
Proof. intros Hn []. split; try done; intros; by eapply short_mono. Qed.

Lemma readable_resolve n kh m now s id s' :
  resolveEntry kh m now s = Ok (id, s') → in_u64 now → readable n s → readable (n + 1) s'.
Proof.
  unfold resolveEntry. destruct (negb _).
  - destruct (entry_at _ _) as [e|]; [|done]. intros H. do 2 (apply rbind_ok in H as ([] & _ & H)).
    injection H as _ <-. intros _. apply readable_mono. lia.
  - intros H. do 4 (apply rbind_ok in H as ([] & _ & H)). injection H as _ <-. intros Hn Hr.
    by apply readable_push_entry, u64_u256.
Qed.

Lemma readable_admit n u rp g khs now s s' :
  admitMembers u rp g khs now s = Ok s' → in_u64 now → readable n s → readable (n + 2 * id_of khs) s'.
Proof.
  revert n s. induction khs as [|[kh m] khs IH]; intros n s H Hn Hr; cbn [admitMembers] in H.
  - injection H as <-. by rewrite Z.add_0_r.
  - apply rbind_ok in H as (s1 & H1 & H). unfold admitMember in H1.
    apply rbind_ok in H1 as (xy & _ & H1). apply rbind_ok in H1 as ([id s2] & H2 & H1).
    apply rbind_ok in H1 as ([] & _ & H1). injection H1 as <-.
    eapply readable_mono; [|eapply IH; [exact H|done|apply readable_link_member, (readable_resolve n _ _ _ _ _ _ H2)];
      done]. unfold id_of. cbn. lia.
Qed.

(** A registration of a name that is text. *)
Definition texts (c : Call) : Prop :=
  match c with CallRegister rp _ _ _ _ => valid_utf8 rp = true | CallRefer _ _ _ => True end.

Lemma contentHashFor_length rp md g ms : length (contentHashFor rp md g ms) = 32%nat.
Proof. apply keccak256_length. Qed.

Lemma readable_run n c data now s id s' :
  run_call c data now s = Ok (id, s') → texts c → in_u64 now → readable n s → readable (n + 15) s'.
Proof.
  intros Hc Hx Hn Hr. destruct c as [rp md g p ms|g md m]; cbn [run_call] in Hc.
  - unfold register_ in Hc. do 2 (apply rbind_ok in Hc as ([] & _ & Hc)).
    apply rbind_ok in Hc as ([] & Hk%require_ok & Hc). apply rbind_ok in Hc as ([] & _ & Hc).
    apply rbind_ok in Hc as ([] & _ & Hc). apply rbind_ok in Hc as (ks & _ & Hc).
    apply rbind_ok in Hc as (s1 & Ha & Hc). injection Hc as _ <-. unfold SOL_MAX_MEMBERS in Hk.
    apply (readable_admit (n + 1)) in Ha; [|done|].
    + apply (readable_mono _ (n + 15)) in Ha as []; [by split|]. unfold id_of.
      rewrite length_combine. lia.
    + apply readable_push_unit; [done| |done]. split; cbn; [done|apply contentHashFor_length| |by apply u64_u256].
      unfold U32_MAX. lia.
  - unfold refer_ in Hc. do 2 (apply rbind_ok in Hc as ([] & _ & Hc)).
    destruct (unit_at _ _) as [un|]; [|done]. apply rbind_ok in Hc as ([] & _ & Hc).
    apply rbind_ok in Hc as (xy & _ & Hc). apply rbind_ok in Hc as ([e s1] & H1 & Hc).
    do 2 (apply rbind_ok in Hc as ([] & _ & Hc)). injection Hc as _ <-.
    apply (readable_mono (n + 1 + 1)); [lia|]. apply readable_push_reference. by eapply readable_resolve.
Qed.

Lemma readable_mined txs : ∀ n s,
  Forall (λ tx, in_u64 tx.2 ∧ ∀ c, decode_call tx.1 = Some c → texts c) txs →
  readable n s → readable (n + 15 * id_of txs) (mined s txs).
Proof.
  induction txs as [|[data now] txs IH]; intros n s Htx Hr; [by rewrite Z.add_0_r|].
  apply Forall_cons in Htx as [[Hn Hx] Htx]. cbn [mined foldl fst snd]. fold (mined (transact data now s) txs).
  eapply readable_mono; [|apply (IH (n + 15)); [done|]]; [unfold id_of; cbn; lia|]. unfold transact.
  destruct (call_result data now s) as [[i s']|] eqn:Hc; [|eapply readable_mono; [|done]; lia].
  apply call_result_ok in Hc as (c & Hd & Hc). eapply readable_run; eauto.
Qed.

Lemma readable_life bc this dc dr txs :
  Forall (λ tx, in_u64 tx.2 ∧ ∀ c, decode_call tx.1 = Some c → texts c) txs → 15 * id_of txs ≤ U64_MAX →
  readable U64_MAX (mined (new_registry bc this dc dr) txs).
Proof.
  intros Htx Hl. eapply readable_mono; [exact Hl|]. apply (readable_mined _ 0); [done|].
  by split.
Qed.
End links.

(** ** View calls *)

Record View := mkView {
  vw_signature : string;
  vw_arguments : list AbiType;
  vw_run : Registry → list AbiValue → result (list AbiValue) Revert;
}.

Section views.
Context `{C : Crates, V : !Evm}.

(** The structs as they are returned; a missing one is all zero. *)
Definition entry_value (e : Entry_) : AbiValue :=
  VSeq [VBytes (en_publicKey e); VBytes (en_attestation e); VBytes (en_credentialId e);
        VBytes (en_authenticatorAttachment e); VBytes (en_transports e); VUint (en_createdAt e)].
Definition unit_value (u : Unit_) : AbiValue :=
  VSeq [VString (un_rpId u); VBytes (un_metadata u); VBytes (un_groupPublicKey u); VBytes32 (un_contentHash u);
        VUint (un_memberCount u); VUint (un_createdAt u)].
Definition reference_value (r : Reference_) : AbiValue :=
  VSeq [VUint (re_entryId r); VUint (re_unitId r); VBytes (re_metadata r); VUint (re_createdAt r)].
Definition no_entry : Entry_ := mkEntry_ [] [] [] [] [] 0.
Definition no_unit : Unit_ := mkUnit_ "" [] [] (replicate 32 x00) 0 0.

Definition ids_value (m : result (Z * list Z) Revert) : result (list AbiValue) Revert :=
  try p := m in Ok [VUint p.1; VSeq (VUint <$> p.2)].

Definition total_view (signature : string) (f : Registry → Z) : View :=
  mkView signature [] (λ s args, match args with [] => Ok [VUint (f s)] | _ => Err BadCalldata end).
Definition id_view (signature : string) (f : Registry → Z → result AbiValue Revert) : View :=
  mkView signature [TUint256]
    (λ s args, match args with [VUint id] => try v := f s id in Ok [v] | _ => Err BadCalldata end).
Definition key_page_view (signature : string)
    (f : Registry → bytes → Z → Z → bool → result (Z * list Z) Revert) : View :=
  mkView signature [TBytes; TUint256; TUint256; TBool]
    (λ s args, match args with
     | [VBytes key; VUint offset; VUint limit; VBool desc] => ids_value (f s key offset limit desc)
     | _ => Err BadCalldata
     end).

Definition view_total_entries : View := total_view "getTotalEntries()" getTotalEntries.
Definition view_total_units : View := total_view "getTotalUnits()" getTotalUnits.
Definition view_total_references : View := total_view "getTotalReferences()" getTotalReferences.
Definition view_total_rp_ids : View := total_view "getTotalRpIds()" getTotalRpIds.
Definition view_entry : View :=
  id_view "getEntry(uint256)" (λ s id, try e := getEntry s id in Ok (entry_value e)).
Definition view_unit : View :=
  id_view "getUnit(uint256)" (λ s id, try u := getUnit s id in Ok (unit_value u)).
Definition view_reference : View :=
  id_view "getReference(uint256)" (λ s id, try r := getReference s id in Ok (reference_value r)).
Definition view_has_entry : View := mkView "hasEntry(bytes)" [TBytes]
  (λ s args, match args with [VBytes key] => Ok [VBool (hasEntry s key)] | _ => Err BadCalldata end).
Definition view_entry_by_key : View := mkView "getEntryByKey(bytes)" [TBytes]
  (λ s args, match args with
   | [VBytes key] =>
       try found := getEntryByKey s key in
       Ok (match found with
           | Some (id, e) => [VBool true; VUint id; entry_value e]
           | None => [VBool false; VUint 0; entry_value no_entry]
           end)
   | _ => Err BadCalldata
   end).
Definition view_unit_by_group_key : View := mkView "getUnitByGroupKey(bytes)" [TBytes]
  (λ s args, match args with
   | [VBytes key] =>
       try found := getUnitByGroupKey s key in
       Ok (match found with
           | Some (id, u) => [VBool true; VUint id; unit_value u]
           | None => [VBool false; VUint 0; unit_value no_unit]
           end)
   | _ => Err BadCalldata
   end).
Definition view_groups_of_key : View :=
  key_page_view "getGroupsOfKey(bytes,uint256,uint256,bool)" getGroupsOfKey.
Definition view_references_of_key : View :=
  key_page_view "getReferencesOfKey(bytes,uint256,uint256,bool)" getReferencesOfKey.
Definition view_references_to_group : View :=
  key_page_view "getReferencesToGroup(bytes,uint256,uint256,bool)" getReferencesToGroup.
Definition view_group_members : View :=
  mkView "getGroupMembers(uint256,uint256,uint256,bool)" [TUint256; TUint256; TUint256; TBool]
    (λ s args, match args with
     | [VUint id; VUint offset; VUint limit; VBool desc] =>
         try p := getGroupMembers s id offset limit desc in
         Ok [VUint p.1.1; VSeq (VUint <$> p.1.2); VSeq (entry_value <$> p.2)]
     | _ => Err BadCalldata
     end).
Definition view_groups_by_rp_id : View :=
  mkView "getGroupsByRpId(string,uint256,uint256,bool)" [TString; TUint256; TUint256; TBool]
    (λ s args, match args with
     | [VString rp; VUint offset; VUint limit; VBool desc] => ids_value (getGroupsByRpId s rp offset limit desc)
     | _ => Err BadCalldata
     end).
Definition view_rp_ids : View :=
  mkView "getRpIds(uint256,uint256,bool)" [TUint256; TUint256; TBool]
    (λ s args, match args with
     | [VUint offset; VUint limit; VBool desc] =>
         try p := getRpIds s offset limit desc in
         Ok [VUint p.1; VSeq ((λ x : string * Z * Z, VString x.1.1) <$> p.2);
             VSeq ((λ x : string * Z * Z, VUint x.1.2) <$> p.2); VSeq ((λ x : string * Z * Z, VUint x.2) <$> p.2)]
     | _ => Err BadCalldata
     end).
Definition view_content : View := mkView "isContentRegistered(bytes32)" [TBytes32]
  (λ s args, match args with [VBytes32 h] => Ok [VBool (isContentRegistered s h)] | _ => Err BadCalldata end).
Definition view_referenced : View := mkView "isReferenced(bytes,bytes)" [TBytes; TBytes]
  (λ s args, match args with [VBytes g; VBytes k] => Ok [VBool (isReferenced s g k)] | _ => Err BadCalldata end).

(** The views that the service calls. *)
Definition views : list View :=
  [view_total_entries; view_total_units; view_total_references; view_total_rp_ids; view_entry; view_unit;
   view_reference; view_has_entry; view_entry_by_key; view_unit_by_group_key; view_groups_of_key;
   view_references_of_key; view_references_to_group; view_group_members; view_groups_by_rp_id; view_rp_ids;
   view_content; view_referenced].

Definition view_selector (v : View) : bytes := take 4 (keccak256 (as_bytes (vw_signature v))).

(** A call without a transaction: the encoded answer, or nothing when it
    reverts. *)
Definition eth_view (s : Registry) (data : bytes) : option bytes :=
  '(_, v) ← list_find (λ v, view_selector v = take 4 data) views;
  args ← evm_abi_decode (vw_arguments v) (drop 4 data);
  match vw_run v s args with Ok outs => Some (abi_encode_params outs) | Err _ => None end.

(** The compiler gives the functions of a contract different selectors. *)
Definition selectors_distinct : Prop := NoDup (view_selector <$> views).

Lemma view_call v s args :
  selectors_distinct → v ∈ views → has_types (vw_arguments v) args = true →
  eth_view s (abi_encode_call (vw_signature v) args) =
    match vw_run v s args with Ok outs => Some (abi_encode_params outs) | Err _ => None end.
Proof.
  intros Hnd [i Hi]%list_elem_of_lookup_1 Ht. unfold eth_view, abi_encode_call.
  rewrite (proj1 (take_selector _ _)), (proj2 (take_selector _ _)).
  assert (Hf : list_find (λ w, view_selector w = take 4 (keccak256 (as_bytes (vw_signature v)))) views = Some (i, v)).
  { apply list_find_Some. split_and!; [done|done|]. intros j w Hj Hlt Heq.
    assert (j = i); [|lia].
    apply (NoDup_lookup _ _ _ (view_selector v) Hnd); rewrite list_lookup_fmap, ?Hi, ?Hj; [|done].
    cbn. f_equal. exact Heq. }
  rewrite Hf. cbn [mbind option_bind]. by rewrite evm_abi_decode_encode.
Qed.
End views.
