(* ===== verification/Lookup.v ===== *)
(** * Lookup ([p256-registrar/src/lookup.rs])

    The read path: one request from an endpoint to an outcome, over the
    cache, the chain and the in-flight placeholders. *)
From Stdlib Require Import Ascii String Strings.Byte.
From S2P Require Export Program Records.
From stdpp Require Import options.
#[local] Set Warnings "-register-all".

(** [serde_json::Value]; an object keeps its fields in source order. *)
Inductive Json :=
| JNull
| JBool (b : bool)
| JNum (n : Z)
| JStr (s : string)
| JArr (l : list Json)
| JObj (l : list (string * Json)).

Definition json_option {A} (f : A → Json) (o : option A) : Json :=
  match o with Some a => f a | None => JNull end.

(** ** Bodies *)

Definition is_active_placeholder (task : RegisterTask) : bool :=
  negb (bool_decide (status task = Failed)).

Definition status_json (st : TaskStatus) : Json :=
  JStr (match st with Pending => "pending" | Done => "done" | Failed => "failed" end).
Definition kind_json (k : TaskKind) : Json :=
  JStr (match k with Register => "register" | Refer => "refer" end).

Definition task_status_body (task : RegisterTask) : Json :=
  JObj [("id", JStr (task_id task)); ("status", status_json (status task));
        ("kind", kind_json (kind task)); ("rpId", JStr (rp_id task));
        ("metadata", JStr (metadata task)); ("contentHash", JStr (content_hash task));
        ("groupPublicKey", JStr (group_public_key task));
        ("members", JArr ((λ m, JObj [("publicKey", JStr (public_key m));
           ("attestation", JStr (attestation m)); ("credentialId", JStr (credential_id m));
           ("authenticatorAttachment", JStr (authenticator_attachment m));
           ("transports", JStr (transports m))]) <$> members task));
        ("txHash", json_option JStr (tx_hash task));
        ("onChainId", json_option JNum (on_chain_id task));
        ("error", json_option JStr (task_error task)); ("createdAt", JNum (created_at task))].

Definition queue_pending_body (task : RegisterTask) (public_key : string) : Json :=
  JObj [("total", JNum 0); ("items", JArr []);
        ("_queue", JObj [("id", JStr (task_id task)); ("status", status_json (status task));
                         ("publicKey", JStr public_key)])].

Definition empty_key_profile_body : Json :=
  JObj [("entry", JNull);
        ("groups", JObj [("total", JNum 0); ("unitIds", JArr [])]);
        ("references", JObj [("total", JNum 0); ("referenceIds", JArr [])])].

(** ** Shell protocol *)

Record LookupParams := mkLookupParams {
  lp_public_key : option string;
  lp_entry_id : option string;
  lp_unit_id : option string;
  lp_group_public_key : option string;
  lp_page : option Z;
  lp_page_size : option Z;
  lp_order : option string;
}.

Inductive LookupEndpoint :=
| Query (params : LookupParams)
| StatsTotalE
| StatsSites (params : LookupParams)
| StatsKeys (rp_id : string) (params : LookupParams).

Inductive LookupCacheKey :=
| KEntriesByKey (key_hash : string) (page page_size : Z) (descending : bool)
| KEntry (entry_id : Z)
| KUnit (unit_id page page_size : Z) (descending : bool)
| KGroup (group_key : string) (page page_size : Z) (descending : bool)
| KStatsTotal
| KSites (page page_size : Z) (descending : bool)
| KKeys (rp_id : string) (page page_size : Z) (descending : bool).

Inductive TtlClass := TtlRecord | TtlStats.

Definition ttl_class (k : LookupCacheKey) : TtlClass :=
  match k with
  | KEntriesByKey _ _ _ _ | KEntry _ | KUnit _ _ _ _ | KGroup _ _ _ _ => TtlRecord
  | KStatsTotal | KSites _ _ _ | KKeys _ _ _ _ => TtlStats
  end.

Inductive ChainFetch :=
| FEntriesByKey (public_key : string) (offset limit : Z) (descending : bool)
| FEntry (entry_id : Z)
| FGroupById (unit_id offset limit : Z) (descending : bool)
| FGroupByKey (group_public_key : string) (offset limit : Z) (descending : bool)
| FTotals
| FSites (offset limit : Z) (descending : bool)
| FKeys (rp_id : string) (offset limit : Z) (descending : bool).

Inductive LookupOperation :=
| ReadCache (key : LookupCacheKey)
| WriteCache (key : LookupCacheKey) (value : Json) (negative : bool)
| AllowRead
| FetchChain (fetch : ChainFetch)
| LFindTaskByKey (key_hash : string).

Inductive LookupResult :=
| CacheFresh (value : Json)
| CacheNegative
| CacheStale (value : Json) (age_ms : Z)
| CacheMiss
| LPersisted
| LStoreUnavailable
| LAllowed (allowed : bool)
| LChain (value : Json)
| ChainNotFound
| ChainFailed
| LTaskFound (task : option RegisterTask).

Inductive LookupOutcome :=
| CachedOk (value : Json)
| OkFetched (value : Json)
| StaleOk (value : Json) (age_ms : Z)
| QueuePending (value : Json)
| LInvalid (message : string)
| NotFound
| ReadLimited
| LDependencyUnavailable (dependency : string).

Definition LProg : Type → Type := Prog LookupOperation LookupResult.
Definition LFlow (A : Type) : Type := LProg (result A LookupOutcome).

Definition l_redis_down : LookupOutcome := LDependencyUnavailable "redis".
Definition rpc_down : LookupOutcome := LDependencyUnavailable "rpc".

(** ** Parameters *)

Definition pagination (params : LookupParams) : Z * Z * bool :=
  let page := Z.max (default 1 (lp_page params)) 1 in
  let page_size := Z.min (Z.max (default 20 (lp_page_size params)) 1) 100 in
  let descending := negb (bool_decide (lp_order params = Some "asc")) in
  (page, page_size, descending).

(** [(page - 1) * page_size] in [u64]; release builds wrap. *)
Definition page_offset (page page_size : Z) : Z := wrap64 ((page - 1) * page_size).

Definition normalize_public_key_param (value : string) : result string string :=
  let raw := strip_0x value in
  if negb (String.length raw =? 130)%nat || negb (str_all is_ascii_hexdigit raw)
  then Err "publicKey must be an uncompressed P-256 point (04 + 128 hex chars)" else
  if negb (starts_with "04" raw)
  then Err "publicKey must start with the uncompressed prefix 04" else
  Ok (to_ascii_lowercase raw).

(** [s.parse::<u64>()]: an optional plus sign, then decimal digits. *)
Definition digit_value (c : ascii) : option Z :=
  if in_range 48 57 c then Some (code c - 48) else None.

Fixpoint parse_digits (acc : Z) (s : string) : option Z :=
  match s with
  | EmptyString => Some acc
  | String c s => d ← digit_value c; parse_digits (acc * 10 + d) s
  end.

Definition parse_unsigned (bound : Z → option Z) (s : string) : option Z :=
  let digits := default s (strip_prefix "+" s) in
  match digits with
  | EmptyString => None
  | _ => n ← parse_digits 0 digits; bound n
  end.
Definition parse_u64 : string → option Z := parse_unsigned try_u64.
Definition parse_u128 : string → option Z := parse_unsigned try_u128.

(** ** The program *)

Definition allow_read : LFlow unit :=
  await r := AllowRead in
  match r with
  | LAllowed true => Ret (Ok ())
  | LAllowed false => Ret (Err ReadLimited)
  | _ => Ret (Ok ())
  end.

(** The last arm of every flow: a failed fetch serves the stale copy. *)
Definition serve_stale (stale : option (Json * Z)) : LFlow LookupOutcome :=
  match stale with
  | Some (value, age_ms) => Ret (Ok (StaleOk value age_ms))
  | None => Ret (Err rpc_down)
  end.

(** A successful fetch is cached (best effort) and served. *)
Definition serve_fetched (key : LookupCacheKey) (value : Json) : LFlow LookupOutcome :=
  await _r := WriteCache key value false in Ret (Ok (OkFetched value)).

(** The read-through body shared by the lookups that may be answered by a
    placeholder: a negative cache entry counts as a miss; a key unknown to
    the chain is answered by its in-flight task, else by [missing]. *)
Definition by_key_flow (key : LookupCacheKey) (fetch : ChainFetch) (public_key : string)
    (missing : LookupOutcome) : LFlow LookupOutcome :=
  let fetch_part stale :=
    call u := allow_read in
    await r := FetchChain fetch in
    match r with
    | LChain value => serve_fetched key value
    | ChainNotFound =>
        await r := LFindTaskByKey public_key in
        match r with
        | LTaskFound (Some task) =>
            if is_active_placeholder task
            then Ret (Ok (QueuePending (queue_pending_body task public_key)))
            else Ret (Ok missing)
        | LTaskFound None => Ret (Ok missing)
        | _ => Ret (Err l_redis_down)
        end
    | ChainFailed => serve_stale stale
    | _ => Ret (Err rpc_down)
    end in
  await r := ReadCache key in
  match r with
  | CacheFresh value => Ret (Ok (CachedOk value))
  | CacheStale value age_ms => fetch_part (Some (value, age_ms))
  | CacheNegative | CacheMiss => fetch_part None
  | _ => Ret (Err l_redis_down)
  end.

(** The read-through body of the lookups by immutable id: a miss is cached
    negatively. *)
Definition by_id_flow (key : LookupCacheKey) (fetch : ChainFetch) : LFlow LookupOutcome :=
  let fetch_part stale :=
    call u := allow_read in
    await r := FetchChain fetch in
    match r with
    | LChain value => serve_fetched key value
    | ChainNotFound => await _r := WriteCache key JNull true in Ret (Ok NotFound)
    | ChainFailed => serve_stale stale
    | _ => Ret (Err rpc_down)
    end in
  await r := ReadCache key in
  match r with
  | CacheFresh value => Ret (Ok (CachedOk value))
  | CacheNegative => Ret (Ok NotFound)
  | CacheStale value age_ms => fetch_part (Some (value, age_ms))
  | CacheMiss => fetch_part None
  | _ => Ret (Err l_redis_down)
  end.

Definition entries_by_key_flow (public_key : string) (page page_size : Z) (descending : bool)
    : LFlow LookupOutcome :=
  by_key_flow (KEntriesByKey public_key page page_size descending)
    (FEntriesByKey public_key (page_offset page page_size) page_size descending)
    public_key (OkFetched empty_key_profile_body).

Definition entry_flow (entry_id : Z) : LFlow LookupOutcome :=
  by_id_flow (KEntry entry_id) (FEntry entry_id).

Definition group_by_id_flow (unit_id page page_size : Z) (descending : bool)
    : LFlow LookupOutcome :=
  by_id_flow (KUnit unit_id page page_size descending)
    (FGroupById unit_id (page_offset page page_size) page_size descending).

Definition group_by_key_flow (group_key : string) (page page_size : Z) (descending : bool)
    : LFlow LookupOutcome :=
  by_key_flow (KGroup group_key page page_size descending)
    (FGroupByKey group_key (page_offset page page_size) page_size descending)
    group_key NotFound.

Definition stats_flow (key : LookupCacheKey) (fetch : ChainFetch) : LFlow LookupOutcome :=
  let fetch_part stale :=
    call u := allow_read in
    await r := FetchChain fetch in
    match r with
    | LChain value => serve_fetched key value
    | ChainFailed => serve_stale stale
    | _ => Ret (Err rpc_down)
    end in
  await r := ReadCache key in
  match r with
  | CacheFresh value => Ret (Ok (CachedOk value))
  | CacheStale value age_ms => fetch_part (Some (value, age_ms))
  | CacheNegative | CacheMiss => fetch_part None
  | _ => Ret (Err l_redis_down)
  end.

(** [message.replacen("publicKey", "groupPublicKey", 1)]. *)
Fixpoint replace_first (from to s : string) : string :=
  match strip_prefix from s with
  | Some rest => to +:+ rest
  | None =>
      match s with
      | EmptyString => EmptyString
      | String c s => String c (replace_first from to s)
      end
  end.

Definition query_flow (params : LookupParams) : LFlow LookupOutcome :=
  match lp_entry_id params with
  | Some entry_id =>
      match parse_u64 entry_id with
      | Some entry_id => entry_flow entry_id
      | None => Ret (Ok (LInvalid "entryId must be an unsigned integer"))
      end
  | None =>
  match lp_unit_id params with
  | Some unit_id =>
      match parse_u64 unit_id with
      | Some unit_id =>
          let '(page, page_size, descending) := pagination params in
          group_by_id_flow unit_id page page_size descending
      | None => Ret (Ok (LInvalid "unitId must be an unsigned integer"))
      end
  | None =>
  match lp_group_public_key params with
  | Some group_key =>
      match normalize_public_key_param group_key with
      | Ok group_key =>
          let '(page, page_size, descending) := pagination params in
          group_by_key_flow group_key page page_size descending
      | Err message =>
          Ret (Ok (LInvalid (replace_first "publicKey" "groupPublicKey" message)))
      end
  | None =>
  match lp_public_key params with
  | Some public_key =>
      match normalize_public_key_param public_key with
      | Ok public_key =>
          let '(page, page_size, descending) := pagination params in
          entries_by_key_flow public_key page page_size descending
      | Err message => Ret (Ok (LInvalid message))
      end
  | None => Ret (Ok (LInvalid "publicKey, entryId, unitId or groupPublicKey is required"))
  end end end end.

Definition drive_lookup (endpoint : LookupEndpoint) : LFlow LookupOutcome :=
  match endpoint with
  | Query params => query_flow params
  | StatsTotalE => stats_flow KStatsTotal FTotals
  | StatsSites params =>
      let '(page, page_size, descending) := pagination params in
      stats_flow (KSites page page_size descending)
        (FSites (page_offset page page_size) page_size descending)
  | StatsKeys rp_id params =>
      if (String.length rp_id =? 0)%nat then Ret (Ok (LInvalid "rpId is required")) else
      if 253 <? str_len rp_id then Ret (Ok (LInvalid "rpId exceeds max length (253)")) else
      let '(page, page_size, descending) := pagination params in
      stats_flow (KKeys rp_id page page_size descending)
        (FKeys rp_id (page_offset page page_size) page_size descending)
  end.

(** [update]: a [Start] settles on the outcome of either arm. *)
Definition settle_lookup (m : result LookupOutcome LookupOutcome) : LookupOutcome :=
  match m with Ok o => o | Err o => o end.

(** ** Specification *)

Abbreviation ltrace := (trace LookupOperation LookupResult).

(** What must be fetched to answer for a cache key. *)
Definition fetch_for (key : LookupCacheKey) : ChainFetch :=
  match key with
  | KEntriesByKey k p s d => FEntriesByKey k (page_offset p s) s d
  | KEntry i => FEntry i
  | KUnit u p s d => FGroupById u (page_offset p s) s d
  | KGroup g p s d => FGroupByKey g (page_offset p s) s d
  | KStatsTotal => FTotals
  | KSites p s d => FSites (page_offset p s) s d
  | KKeys rp p s d => FKeys rp (page_offset p s) s d
  end.

(** Lookups by immutable id, the only ones whose absence is cached. *)
Definition by_id (key : LookupCacheKey) : bool :=
  match key with KEntry _ | KUnit _ _ _ _ => true | _ => false end.

(** Lookups a placeholder may answer, with the key it is looked up by. *)
Definition placeholder_key (key : LookupCacheKey) : option string :=
  match key with
  | KEntriesByKey k _ _ _ => Some k
  | KGroup g _ _ _ => Some g
  | _ => None
  end.

Definition key_in_bounds (key : LookupCacheKey) : Prop :=
  match key with
  | KEntry _ | KStatsTotal => True
  | KEntriesByKey _ p s _ | KUnit _ p s _ | KGroup _ p s _ | KSites p s _ | KKeys _ p s _ =>
      1 ≤ p ∧ 1 ≤ s ≤ 100
  end.

(** The cache did not settle the request: a miss, a stale copy, or (except
    by id) a negative marker. *)
Definition unsettled (key : LookupCacheKey) (r : LookupResult) : Prop :=
  r = CacheMiss ∨ (∃ v a, r = CacheStale v a) ∨ (r = CacheNegative ∧ by_id key = false).

(** [served key t m]: the complete behaviour of a lookup under [key]. *)
Inductive served (key : LookupCacheKey) : ltrace → result LookupOutcome LookupOutcome → Prop :=
| served_fresh v : served key [(ReadCache key, CacheFresh v)] (Ok (CachedOk v))
| served_negative : by_id key = true →
    served key [(ReadCache key, CacheNegative)] (Ok NotFound)
| served_no_cache r :
    ¬ unsettled key r → (∀ v, r ≠ CacheFresh v) → r ≠ CacheNegative →
    served key [(ReadCache key, r)] (Err l_redis_down)
| served_limited r : unsettled key r →
    served key [(ReadCache key, r); (AllowRead, LAllowed false)] (Err ReadLimited)
| served_fetched r a v w : unsettled key r → a ≠ LAllowed false →
    served key [(ReadCache key, r); (AllowRead, a); (FetchChain (fetch_for key), LChain v);
                (WriteCache key v false, w)] (Ok (OkFetched v))
| served_absent r a w : unsettled key r → a ≠ LAllowed false → by_id key = true →
    served key [(ReadCache key, r); (AllowRead, a); (FetchChain (fetch_for key), ChainNotFound);
                (WriteCache key JNull true, w)] (Ok NotFound)
| served_pending r a k task : unsettled key r → a ≠ LAllowed false →
    placeholder_key key = Some k → status task ≠ Failed →
    served key [(ReadCache key, r); (AllowRead, a); (FetchChain (fetch_for key), ChainNotFound);
                (LFindTaskByKey k, LTaskFound (Some task))]
      (Ok (QueuePending (queue_pending_body task k)))
| served_unknown r a k o : unsettled key r → a ≠ LAllowed false →
    placeholder_key key = Some k → (∀ task, o = Some task → status task = Failed) →
    served key [(ReadCache key, r); (AllowRead, a); (FetchChain (fetch_for key), ChainNotFound);
                (LFindTaskByKey k, LTaskFound o)]
      (Ok (match key with KEntriesByKey _ _ _ _ => OkFetched empty_key_profile_body
                     | _ => NotFound end))
| served_no_store r a k x : unsettled key r → a ≠ LAllowed false →
    placeholder_key key = Some k → (∀ o, x ≠ LTaskFound o) →
    served key [(ReadCache key, r); (AllowRead, a); (FetchChain (fetch_for key), ChainNotFound);
                (LFindTaskByKey k, x)] (Err l_redis_down)
| served_stale v age a : a ≠ LAllowed false →
    served key [(ReadCache key, CacheStale v age); (AllowRead, a);
                (FetchChain (fetch_for key), ChainFailed)] (Ok (StaleOk v age))
| served_no_chain r a x : unsettled key r → a ≠ LAllowed false →
    (∀ v, x ≠ LChain v) → (x = ChainFailed → ∀ v age, r ≠ CacheStale v age) →
    (x = ChainNotFound → by_id key = false ∧ placeholder_key key = None) →
    served key [(ReadCache key, r); (AllowRead, a); (FetchChain (fetch_for key), x)] (Err rpc_down).

(** The key a request names: the first selector it carries, with its page. *)
Definition request_key (endpoint : LookupEndpoint) : option LookupCacheKey :=
  match endpoint with
  | StatsTotalE => Some KStatsTotal
  | StatsSites params => let '(p, s, d) := pagination params in Some (KSites p s d)
  | StatsKeys rp_id params => let '(p, s, d) := pagination params in Some (KKeys rp_id p s d)
  | Query params =>
      let '(p, s, d) := pagination params in
      match lp_entry_id params, lp_unit_id params, lp_group_public_key params, lp_public_key params with
      | Some entry_id, _, _, _ => KEntry <$> parse_u64 entry_id
      | None, Some unit_id, _, _ => (λ u, KUnit u p s d) <$> parse_u64 unit_id
      | None, None, Some g, _ => match normalize_public_key_param g with Ok g => Some (KGroup g p s d) | Err _ => None end
      | None, None, None, Some k => match normalize_public_key_param k with Ok k => Some (KEntriesByKey k p s d) | Err _ => None end
      | None, None, None, None => None
      end
  end.

(** ** Proofs *)

Lemma wp_allow_read {A} (f : LFlow A) (Φ : ltrace → result A LookupOutcome → Prop) :
  (Φ [(AllowRead, LAllowed false)] (Err ReadLimited)) →
  (∀ a, a ≠ LAllowed false → wp f (λ t m, Φ ((AllowRead, a) :: t) m)) →
  wp (call u := allow_read in f) Φ.
Proof.
  intros Hd Hc. unfold allow_read, fbind. cbn [pbind wp]. intros r.
  destruct r as [| | | | | |[]| | | |]; try done; cbn [pbind]; by apply (Hc _).
Qed.

Lemma wp_serve_stale key r a stale :
  unsettled key r → a ≠ LAllowed false →
  (stale = None → ∀ v age, r ≠ CacheStale v age) →
  (∀ v age, stale = Some (v, age) → r = CacheStale v age) →
  wp (serve_stale stale) (λ t m,
    served key ((ReadCache key, r) :: (AllowRead, a) :: (FetchChain (fetch_for key), ChainFailed) :: t) m).
Proof.
  intros Hr Ha Hn Hs. destruct stale as [[v age]|]; simpl.
  - rewrite (Hs v age) by done. by constructor.
  - constructor; try done. intros _. by apply Hn.
Qed.

Lemma wp_by_id key : by_id key = true →
  wp (by_id_flow key (fetch_for key)) (λ t m, served key t m).
Proof.
  intros Hid. unfold by_id_flow. cbn [wp]. intros r.
  assert (Hno : placeholder_key key = None) by (by destruct key).
  assert (Hfetch : ∀ stale, unsettled key r →
    (stale = None → ∀ v age, r ≠ CacheStale v age) →
    (∀ v age, stale = Some (v, age) → r = CacheStale v age) →
    wp (call u := allow_read in
        await r := FetchChain (fetch_for key) in
        match r with
        | LChain value => serve_fetched key value
        | ChainNotFound => await _r := WriteCache key JNull true in Ret (Ok NotFound)
        | ChainFailed => serve_stale stale
        | _ => Ret (Err rpc_down)
        end) (λ t m, served key ((ReadCache key, r) :: t) m)).
  { intros stale Hr Hn Hs. apply wp_allow_read; [by constructor|]. intros a Ha. cbn [wp]. intros x.
    destruct x; cbn [wp serve_fetched];
      lazymatch goal with
      | |- wp (serve_stale _) _ => by apply wp_serve_stale
      | |- context [LChain] => intros w; by apply served_fetched
      | |- context [ChainNotFound] => intros w; by apply served_absent
      | |- _ => by apply served_no_chain
      end. }
  destruct r; cbn [wp]; try (by constructor);
    try (constructor; [intros [?|[(?&?&?)|[? ?]]]; congruence|done|done]).
  - apply Hfetch; [right; left; eauto|done|by intros ?? [= -> ->]].
  - apply Hfetch; [by left|done|done].
Qed.

Lemma active_placeholder task : is_active_placeholder task = true ↔ status task ≠ Failed.
Proof. unfold is_active_placeholder. case_bool_decide; naive_solver. Qed.

Lemma wp_by_key key k : placeholder_key key = Some k →
  wp (by_key_flow key (fetch_for key) k
    (match key with KEntriesByKey _ _ _ _ => OkFetched empty_key_profile_body | _ => NotFound end))
    (λ t m, served key t m).
Proof.
  intros Hk. unfold by_key_flow. cbn [wp]. intros r.
  assert (Hid : by_id key = false) by (by destruct key).
  set (missing := match key with KEntriesByKey _ _ _ _ => _ | _ => _ end).
  assert (Hfetch : ∀ stale, unsettled key r →
    (stale = None → ∀ v age, r ≠ CacheStale v age) →
    (∀ v age, stale = Some (v, age) → r = CacheStale v age) →
    wp (call u := allow_read in
        await r := FetchChain (fetch_for key) in
        match r with
        | LChain value => serve_fetched key value
        | ChainNotFound =>
            await r := LFindTaskByKey k in
            match r with
            | LTaskFound (Some task) =>
                if is_active_placeholder task
                then Ret (Ok (QueuePending (queue_pending_body task k))) else Ret (Ok missing)
            | LTaskFound None => Ret (Ok missing)
            | _ => Ret (Err l_redis_down)
            end
        | ChainFailed => serve_stale stale
        | _ => Ret (Err rpc_down)
        end) (λ t m, served key ((ReadCache key, r) :: t) m)).
  { intros stale Hr Hn Hs. apply wp_allow_read; [by constructor|]. intros a Ha. cbn [wp]. intros x.
    destruct x; cbn [wp serve_fetched];
      lazymatch goal with
      | |- wp (serve_stale _) _ => by apply wp_serve_stale
      | |- context [LChain] => intros w; by apply served_fetched
      | |- context [ChainNotFound] => idtac
      | |- _ => by apply served_no_chain
      end.
    intros y. destruct y as [| | | | | | | | | |[task|]]; cbn [wp]; try (by eapply served_no_store).
    - destruct (is_active_placeholder task) eqn:Hp.
      + apply served_pending; try done. by apply active_placeholder.
      + cbn [wp]. eapply served_unknown; try done. intros ? [= <-].
        apply dec_stable. intros ?%active_placeholder. congruence.
    - by eapply served_unknown. }
  destruct r; cbn [wp]; try (by constructor);
    try (constructor; [intros [?|[(?&?&?)|[? ?]]]; congruence|done|done]).
  - apply Hfetch; [right; right; done|done|done].
  - apply Hfetch; [right; left; eauto|done|by intros ?? [= -> ->]].
  - apply Hfetch; [by left|done|done].
Qed.

Lemma wp_stats key : by_id key = false → placeholder_key key = None →
  wp (stats_flow key (fetch_for key)) (λ t m, served key t m).
Proof.
  intros Hid Hno. unfold stats_flow. cbn [wp]. intros r.
  assert (Hfetch : ∀ stale, unsettled key r →
    (stale = None → ∀ v age, r ≠ CacheStale v age) →
    (∀ v age, stale = Some (v, age) → r = CacheStale v age) →
    wp (call u := allow_read in
        await r := FetchChain (fetch_for key) in
        match r with
        | LChain value => serve_fetched key value
        | ChainFailed => serve_stale stale
        | _ => Ret (Err rpc_down)
        end) (λ t m, served key ((ReadCache key, r) :: t) m)).
  { intros stale Hr Hn Hs. apply wp_allow_read; [by constructor|]. intros a Ha. cbn [wp]. intros x.
    destruct x; cbn [wp serve_fetched];
      lazymatch goal with
      | |- wp (serve_stale _) _ => by apply wp_serve_stale
      | |- context [LChain] => intros w; by apply served_fetched
      | |- _ => by apply served_no_chain
      end. }
  destruct r; cbn [wp]; try (by constructor);
    try (constructor; [intros [?|[(?&?&?)|[? ?]]]; congruence|done|done]).
  - apply Hfetch; [right; right; done|done|done].
  - apply Hfetch; [right; left; eauto|done|by intros ?? [= -> ->]].
  - apply Hfetch; [by left|done|done].
Qed.

Lemma pagination_bounds params p s d :
  pagination params = (p, s, d) → 1 ≤ p ∧ 1 ≤ s ≤ 100.
Proof. unfold pagination. intros [= <- <- <-]. lia. Qed.

Definition answers_request (endpoint : LookupEndpoint) (t : ltrace) (m : result LookupOutcome LookupOutcome) : Prop :=
  (∃ msg, t = [] ∧ m = Ok (LInvalid msg)) ∨
  ∃ key, request_key endpoint = Some key ∧ key_in_bounds key ∧ served key t m.

Lemma lookup_wp endpoint : wp (drive_lookup endpoint) (answers_request endpoint).
Proof.
  assert (Hinv : ∀ msg, wp (Ret (Op := LookupOperation) (Res := LookupResult)
    (Ok (E := LookupOutcome) (LInvalid msg))) (answers_request endpoint)) by (left; eauto).
  assert (Hlift : ∀ key p, request_key endpoint = Some key → key_in_bounds key →
    wp p (λ t m, served key t m) → wp p (answers_request endpoint)).
  { intros key p Hk Hb. apply wp_mono. intros t m Hs. right. eauto. }
  unfold drive_lookup, query_flow. destruct endpoint as [params| |params|rp params].
  - cbn [request_key] in Hlift. destruct (pagination params) as [[p s] d] eqn:Hp. apply pagination_bounds in Hp.
    destruct (lp_entry_id params) as [i|].
    { destruct (parse_u64 i) as [z|]; [|apply Hinv]. by apply (Hlift (KEntry z)), (wp_by_id (KEntry z)). }
    destruct (lp_unit_id params) as [i|].
    { destruct (parse_u64 i) as [z|]; [|apply Hinv]. by apply (Hlift (KUnit z p s d)), (wp_by_id (KUnit z p s d)). }
    destruct (lp_group_public_key params) as [g|].
    { destruct (normalize_public_key_param g) as [a|]; [|apply Hinv].
      by apply (Hlift (KGroup a p s d)), (wp_by_key (KGroup a p s d) a). }
    destruct (lp_public_key params) as [k|]; [|apply Hinv].
    destruct (normalize_public_key_param k) as [a|]; [|apply Hinv].
    by apply (Hlift (KEntriesByKey a p s d)), (wp_by_key (KEntriesByKey a p s d) a).
  - by apply (Hlift KStatsTotal), (wp_stats KStatsTotal).
  - cbn [request_key] in Hlift. destruct (pagination params) as [[p s] d] eqn:Hp. apply pagination_bounds in Hp.
    by apply (Hlift (KSites p s d)), (wp_stats (KSites p s d)).
  - cbn [request_key] in Hlift. destruct (pagination params) as [[p s] d] eqn:Hp. apply pagination_bounds in Hp.
    do 2 (case_match; [apply Hinv|]). by apply (Hlift (KKeys rp p s d)), (wp_stats (KKeys rp p s d)).
Qed.

Lemma exec_lookup endpoint t m : exec (drive_lookup endpoint) t m → answers_request endpoint t m.
Proof. exact (proj1 (wp_exec _ _) (lookup_wp endpoint) t m). Qed.

(** ** Properties *)

(** C35. The complete serving policy: every lookup is refused before any
    operation, or behaves as [served] under one cache key with page >= 1 and
    1 <= pageSize <= 100.  So: a fresh hit reaches neither the limiter nor
    the chain; only what was fetched for a key is cached under that key; only
    lookups by immutable id cache an absence; a stale copy is served only
    after the chain failed, and a placeholder only after the chain denied the
    key; a missing answer of the limiter lets the read through. *)
Theorem lookup_policy endpoint t m :
  exec (drive_lookup endpoint) t m →
  (∃ msg, t = [] ∧ m = Ok (LInvalid msg)) ∨ ∃ key, key_in_bounds key ∧ served key t m.
Proof. intros [?|(key & _ & ? & ?)]%exec_lookup; [by left|right; eauto]. Qed.

(** ** Evaluation on examples *)

Definition no_params : LookupParams := mkLookupParams None None None None None None None.
Definition entry_request : LookupEndpoint :=
  Query (mkLookupParams None (Some "7") None None None None None).

Lemma lookup_policy_witness :
  (∃ msg, [(ReadCache (KEntry 7), CacheFresh JNull)] = [] ∧
    Ok (E := LookupOutcome) (CachedOk JNull) = Ok (LInvalid msg)) ∨
  ∃ key, key_in_bounds key ∧
    served key [(ReadCache (KEntry 7), CacheFresh JNull)] (Ok (CachedOk JNull)).
Proof.
  apply (lookup_policy entry_request).
  change (drive_lookup entry_request) with (entry_flow 7). constructor. constructor.
Defined.
