(* ===== verification/Admission.v ===== *)
(** * Admission, decision half ([p256-registrar/src/admission.rs])

    The retry digest and the admission program: an async function over the
    shell operations, here a [Prog]. *)
From Stdlib Require Import Ascii String Strings.Byte.
From S2P Require Export Program Validation.
From stdpp Require Import options.

(** ** Shell protocol *)

Inductive AdmissionOperation :=
| AllowIpCreate
| FindTaskByContent (content_hash : string)
| FindTaskByRetryDigest (digest : string)
| RecordRetryDigest (digest task_id : string)
| CheckContentRegistered (content_hash : string)
| CheckReferenced (group_public_key member_public_key : string)
| CheckGroupExists (group_public_key : string)
| FindTaskByKey (key_hash : string)
| QueueDepth
| AllowGlobalCreate
| Admit (task : RegisterTask)
| LoadTask (id : string)
| Enqueue (task : RegisterTask)
| MarkAdmitted (id : string).

Inductive AdmitOutcome := New | Existing (id : string).

Inductive AdmissionResult :=
| Allowed (allowed : bool)
| TaskFound (task : option RegisterTask)
| ChainBool (value : bool)
| ChainReadFailed
| Depth (depth : Z)
| AdmittedAs (o : AdmitOutcome)
| Enqueued
| QueueUnavailable
| Persisted
| StoreUnavailable.

Inductive AdmissionOutcome :=
| Invalid (message : string)
| RateLimited
| Queued (id : string) (status : TaskStatus)
| AlreadyRegistered (content_hash : string)
| ReferGroupMissing
| Busy
| DependencyUnavailable (dependency : string).

Inductive AdmissionEvent :=
| Submit (request : AdmissionRequest) (new_task_id : string) (now_ms chain_id : Z)
    (registry : string)
| Settled (outcome : AdmissionOutcome).

Record AdmissionModel := mkAdmissionModel { model_outcome : option AdmissionOutcome }.

Definition AProg : Type → Type := Prog AdmissionOperation AdmissionResult.
Definition AFlow (A : Type) : Type := AProg (result A AdmissionOutcome).

Definition redis_down : AdmissionOutcome := DependencyUnavailable "redis".

Section admission.
Context `{C : Crates}.

(** ** The retry digest *)

Definition retry_parts (task : RegisterTask) : list string :=
  rp_id task :: metadata task ::
  merge_sort String.le ((λ m, to_lowercase (public_key m)) <$> members task).

Definition length_prefixed (part : string) : bytes :=
  to_be_bytes 4 (wrap32 (str_len part)) ++ as_bytes part.

Definition retry_preimage (task : RegisterTask) : bytes :=
  concat (length_prefixed <$> retry_parts task).

Definition register_retry_digest (task : RegisterTask) : string :=
  hex_encode (keccak256 (retry_preimage task)).

(** ** The program *)

Definition enqueue (task : RegisterTask) : AFlow AdmissionOutcome :=
  let id := task_id task in
  await r := Enqueue task in
  match r with
  | Enqueued =>
      await r := MarkAdmitted id in
      match r with
      | TaskFound (Some task) => Ret (Ok (Queued (task_id task) (status task)))
      | _ => Ret (Err redis_down)
      end
  | QueueUnavailable => Ret (Err (DependencyUnavailable "queue"))
  | _ => Ret (Err redis_down)
  end.

Definition refer_group_gate (task : RegisterTask) : AFlow unit :=
  await r := CheckGroupExists (group_public_key task) in
  match r with
  | ChainBool true | ChainReadFailed => Ret (Ok ())
  | ChainBool false =>
      await r := FindTaskByKey (group_public_key task) in
      match r with
      | TaskFound (Some pending) =>
          if bool_decide (kind pending = Register)
             && bool_decide (group_public_key pending = group_public_key task)
             && negb (is_terminal (status pending))
          then Ret (Ok ())
          else Ret (Err ReferGroupMissing)
      | TaskFound None => Ret (Err ReferGroupMissing)
      | _ => Ret (Err redis_down)
      end
  | _ => Ret (Err redis_down)
  end.

(** A task found under the request's identity: report it, or repair its
    missing phase two. *)
Definition reuse (existing : RegisterTask) : AFlow AdmissionOutcome :=
  if admitted existing || is_terminal (status existing)
  then Ret (Ok (Queued (task_id existing) (status existing)))
  else enqueue existing.

(** Everything after validation and the idempotency lookups. *)
Definition precheck_op (task : RegisterTask) (content_hash : string) : AdmissionOperation :=
  match kind task with
  | Register => CheckContentRegistered content_hash
  | Refer => CheckReferenced (group_public_key task)
      (match members task with m :: _ => public_key m | [] => "" end)
  end.

Definition two_phase (task : RegisterTask) (retry_digest : option string)
    : AFlow AdmissionOutcome :=
  await r := Admit task in
  match r with
  | AdmittedAs (Existing id) =>
      await r := LoadTask id in
      match r with
      | TaskFound (Some existing) =>
          if admitted existing
          then Ret (Ok (Queued (task_id existing) (status existing)))
          else enqueue existing
      | _ => Ret (Err redis_down)
      end
  | AdmittedAs New =>
      match retry_digest with
      | Some digest =>
          await _r := RecordRetryDigest digest (task_id task) in enqueue task
      | None => enqueue task
      end
  | _ => Ret (Err redis_down)
  end.

Definition write_gates (task : RegisterTask) (retry_digest : option string)
    : AFlow AdmissionOutcome :=
  await r := QueueDepth in
  match r with
  | Depth depth =>
      if MAX_ACTIVE_QUEUE_DEPTH <=? depth then Ret (Ok Busy) else
      await r := AllowGlobalCreate in
      match r with
      | Allowed true => two_phase task retry_digest
      | Allowed false => Ret (Ok Busy)
      | _ => Ret (Err redis_down)
      end
  | _ => Ret (Err redis_down)
  end.

Definition chain_gates (task : RegisterTask) (content_hash : string)
    (retry_digest : option string) : AFlow AdmissionOutcome :=
  await r := precheck_op task content_hash in
  match r with
  | ChainBool true => Ret (Ok (AlreadyRegistered content_hash))
  | ChainBool false | ChainReadFailed =>
      match kind task with
      | Refer => call u := refer_group_gate task in write_gates task retry_digest
      | Register => write_gates task retry_digest
      end
  | _ => Ret (Err redis_down)
  end.

Definition admit_valid (task : RegisterTask) (content_hash : string) : AFlow AdmissionOutcome :=
  await r := AllowIpCreate in
  match r with
  | Allowed true =>
      await r := FindTaskByContent content_hash in
      match r with
      | TaskFound (Some existing) => reuse existing
      | TaskFound None =>
          let retry_digest :=
            match kind task with
            | Register => Some (register_retry_digest task)
            | Refer => None
            end in
          match retry_digest with
          | Some digest =>
              await r := FindTaskByRetryDigest digest in
              match r with
              | TaskFound (Some existing) =>
                  if bool_decide (status existing = Failed)
                  then chain_gates task content_hash retry_digest
                  else reuse existing
              | TaskFound None => chain_gates task content_hash retry_digest
              | _ => Ret (Err redis_down)
              end
          | None => chain_gates task content_hash retry_digest
          end
      | _ => Ret (Err redis_down)
      end
  | Allowed false => Ret (Ok RateLimited)
  | _ => Ret (Err redis_down)
  end.

Definition validate (submitted : AdmissionRequest) (new_task_id : string)
    (now_ms chain_id : Z) (registry : string) : result (RegisterTask * string) VError :=
  match submitted with
  | ARegister r => validate_register r new_task_id now_ms chain_id registry
  | ARefer r => validate_refer r new_task_id now_ms chain_id registry
  end.

Definition drive_admission (submitted : AdmissionRequest) (new_task_id : string)
    (now_ms chain_id : Z) (registry : string) : AFlow AdmissionOutcome :=
  match validate submitted new_task_id now_ms chain_id registry with
  | Ok (task, content_hash) => admit_valid task content_hash
  | Err (Msg message) => Ret (Ok (Invalid message))
  | Err (Panicked message) => Ret (Ok (Invalid message)) (* [validation_never_panics] *)
  end.

(** [update]: a [Submit] runs the program and settles on its outcome,
    whichever arm it came from; a [Settled] event stores it. *)
Definition settle (m : result AdmissionOutcome AdmissionOutcome) : AdmissionOutcome :=
  match m with Ok o => o | Err o => o end.

Definition update (event : AdmissionEvent) (model : AdmissionModel)
    : AdmissionModel * option (AProg AdmissionEvent) :=
  match event with
  | Submit request new_task_id now_ms chain_id registry =>
      (model, Some (pbind (drive_admission request new_task_id now_ms chain_id registry)
                      (λ m, Ret (Settled (settle m)))))
  | Settled outcome => (mkAdmissionModel (Some outcome), None)
  end.
End admission.

(** ** The monitor of an admission *)
Section monitor.
Context `{C : Crates} (task : RegisterTask) (ch : string).

Abbreviation atrace := (trace AdmissionOperation AdmissionResult).

(** The target group is on-chain, unknown to a failing RPC, or being
    created by an in-flight register of that very group. *)
Definition group_gate_passed (gg : atrace) : Prop :=
  gg = [(CheckGroupExists (group_public_key task), ChainBool true)] ∨
  gg = [(CheckGroupExists (group_public_key task), ChainReadFailed)] ∨
  ∃ p, gg = [(CheckGroupExists (group_public_key task), ChainBool false);
             (FindTaskByKey (group_public_key task), TaskFound (Some p))] ∧
    kind p = Register ∧ group_public_key p = group_public_key task ∧ status p = Pending.

(** No live task carries the retry digest (Register only). *)
Definition digest_clear (dg : atrace) : Prop :=
  ∃ e, dg = [(FindTaskByRetryDigest (register_retry_digest task), TaskFound e)] ∧
    ∀ x, e = Some x → status x = Failed.

Definition identity_clear (pre : atrace) : Prop :=
  ∃ dg, pre = [(AllowIpCreate, Allowed true); (FindTaskByContent ch, TaskFound None)] ++ dg ∧
    match kind task with Register => digest_clear dg | Refer => dg = [] end.

Definition chain_clear (pre : atrace) : Prop :=
  ∃ pre' pc gg, identity_clear pre' ∧ pre = pre' ++ [(precheck_op task ch, pc)] ++ gg ∧
    (pc = ChainBool false ∨ pc = ChainReadFailed) ∧
    match kind task with Register => gg = [] | Refer => group_gate_passed gg end.

(** Everything that must have happened, in order, before phase one. *)
Definition gates_passed (pre : atrace) : Prop :=
  ∃ pre' d, chain_clear pre' ∧ d < MAX_ACTIVE_QUEUE_DEPTH ∧
    pre = pre' ++ [(QueueDepth, Depth d); (AllowGlobalCreate, Allowed true)].

(** The tasks that may enter the queue: this request's, right after its own
    admission; or a stored, not yet admitted one the last answer returned
    (live, when it was found by identity). *)
Definition may_enqueue (x : RegisterTask) (pre : atrace) : Prop :=
  (x = task ∧ ∃ pre' rd, gates_passed pre' ∧ pre = pre' ++ (Admit task, AdmittedAs New) :: rd ∧
     match kind task with
     | Register => ∃ r, rd = [(RecordRetryDigest (register_retry_digest task) (task_id task), r)]
     | Refer => rd = []
     end) ∨
  (admitted x = false ∧ ∃ pre' op, pre = pre' ++ [(op, TaskFound (Some x))] ∧
     (status x = Pending ∧ (op = FindTaskByContent ch ∨
        op = FindTaskByRetryDigest (register_retry_digest task)) ∨
      ∃ pre'' id, op = LoadTask id ∧ pre' = pre'' ++ [(Admit task, AdmittedAs (Existing id))])).

Definition allowed_event (pre : atrace) (e : AdmissionOperation * AdmissionResult) : Prop :=
  match e.1 with
  | Admit x => x = task ∧ gates_passed pre
  | RecordRetryDigest d i =>
      kind task = Register ∧ d = register_retry_digest task ∧ i = task_id task ∧
      ∃ pre', gates_passed pre' ∧ pre = pre' ++ [(Admit task, AdmittedAs New)]
  | Enqueue x => may_enqueue x pre
  | MarkAdmitted id => ∃ pre' x, may_enqueue x pre' ∧ id = task_id x ∧
      pre = pre' ++ [(Enqueue x, Enqueued)]
  | _ => True
  end.

(** The answers that let the program go on. *)
Definition proper_answer (op : AdmissionOperation) (r : AdmissionResult) : bool :=
  match op, r with
  | (AllowIpCreate | AllowGlobalCreate), Allowed _ => true
  | (FindTaskByContent _ | FindTaskByRetryDigest _ | FindTaskByKey _), TaskFound _ => true
  | (LoadTask _ | MarkAdmitted _), TaskFound (Some _) => true
  | (CheckContentRegistered _ | CheckReferenced _ _ | CheckGroupExists _),
    (ChainBool _ | ChainReadFailed) => true
  | QueueDepth, Depth _ => true
  | Admit _, AdmittedAs _ => true
  | Enqueue _, Enqueued => true
  | RecordRetryDigest _ _, _ => true
  | _, _ => false
  end.

Definition last_event (t : atrace) (P : AdmissionOperation → AdmissionResult → Prop) : Prop :=
  ∃ pre op r, t = pre ++ [(op, r)] ∧ P op r.

(** Why an admission ended the way it did: each outcome names the answer
    that caused it. *)
Definition explained (t : atrace) (m : result AdmissionOutcome AdmissionOutcome) : Prop :=
  match settle m with
  | Invalid _ => False
  | RateLimited => t = [(AllowIpCreate, Allowed false)]
  | Queued id st => ∃ x, id = task_id x ∧ st = status x ∧
      last_event t (λ op r, r = TaskFound (Some x) ∧
        (admitted x = true ∨ is_terminal (status x) = true ∨
         ∃ y pre, op = MarkAdmitted (task_id y) ∧ t = pre ++ [(Enqueue y, Enqueued); (op, r)]))
  | AlreadyRegistered h => h = ch ∧ last_event t (λ op r, op = precheck_op task ch ∧ r = ChainBool true)
  | ReferGroupMissing => kind task = Refer ∧ last_event t (λ op r,
      op = FindTaskByKey (group_public_key task) ∧ ∃ e, r = TaskFound e ∧
      ∀ x, e = Some x → ¬ (kind x = Register ∧ group_public_key x = group_public_key task ∧
                           status x = Pending))
  | Busy => last_event t (λ op r,
      op = QueueDepth ∧ (∃ d, r = Depth d ∧ MAX_ACTIVE_QUEUE_DEPTH ≤ d) ∨
      op = AllowGlobalCreate ∧ r = Allowed false)
  | DependencyUnavailable d => last_event t (λ op r, proper_answer op r = false ∧
      (d = "queue" ↔ r = QueueUnavailable ∧ ∃ x, op = Enqueue x))
  end.

Definition ends (n : nat) (t : atrace) (m : result AdmissionOutcome AdmissionOutcome) : Prop :=
  explained t m ∧ (length t ≤ n)%nat.

Lemma last_event_snoc pre op r (P : AdmissionOperation → AdmissionResult → Prop) :
  P op r → last_event (pre ++ [(op, r)]) P.
Proof. intros. by exists pre, op, r. Qed.

Lemma ends_redis n pre op r :
  proper_answer op r = false → (r = QueueUnavailable → ∀ x, op ≠ Enqueue x) →
  (length pre < n)%nat → ends n (pre ++ [(op, r)]) (Err redis_down).
Proof.
  intros Hp Hq Hl. split; [|rewrite length_app; simpl; lia].
  apply last_event_snoc. split; [done|]. split; [discriminate|].
  intros [-> [x ->]]. by destruct (Hq eq_refl x).
Qed.

Lemma wpm_enqueue n x pre :
  may_enqueue x pre → (length pre + 2 ≤ n)%nat → wpm allowed_event (ends n) pre (enqueue x).
Proof.
  intros Hx Hl. unfold enqueue. apply wpm_req; [done|intros r].
  destruct r; try (apply wpm_ret, ends_redis; [done|done|lia]).
  - apply wpm_req; [intros r; by exists pre, x|intros r].
    assert (Hl' : (length (pre ++ [(Enqueue x, Enqueued)]) < n)%nat)
      by (rewrite length_app; simpl; lia).
    destruct r as [| [y|] | | | | | | | |];
      try (apply wpm_ret, ends_redis; [done|done|done]).
    apply wpm_ret. split; [|rewrite length_app; simpl; lia].
    exists y. split_and!; [done..|]. apply last_event_snoc. split; [done|]. right; right.
    exists x, pre. by rewrite <-app_assoc.
  - apply wpm_ret. split; [|rewrite length_app; simpl; lia]. apply last_event_snoc.
    split; [done|]. split; eauto.
Qed.

Lemma ends_found n pre op x :
  admitted x = true ∨ is_terminal (status x) = true → (length pre < n)%nat →
  ends n (pre ++ [(op, TaskFound (Some x))]) (Ok (Queued (task_id x) (status x))).
Proof.
  intros Hx Hl. split; [|rewrite length_app; simpl; lia]. exists x. split_and!; [done..|].
  apply last_event_snoc. tauto.
Qed.

Lemma wpm_two_phase pre :
  gates_passed pre → (length pre ≤ 7)%nat →
  wpm allowed_event (ends 11) pre (two_phase task (match kind task with
    | Register => Some (register_retry_digest task) | Refer => None end)).
Proof.
  intros Hg Hl. unfold two_phase. apply wpm_req; [done|intros r].
  destruct r as [| | | | |[|id]| | | |]; try (apply wpm_ret, ends_redis; [done|done|lia]).
  - destruct (kind task) eqn:Hk.
    + apply wpm_req; [intros r; split_and!; try done; by exists pre|intros r].
      apply wpm_enqueue; [|rewrite !length_app; simpl; lia]. left. split; [done|].
      eexists pre, _. rewrite <-app_assoc, Hk. split_and!; [done..|by exists r].
    + apply wpm_enqueue; [|rewrite !length_app; simpl; lia]. left. split; [done|].
      exists pre, []. by rewrite Hk.
  - apply wpm_req; [done|intros r].
    assert (Hl' : (length (pre ++ [(Admit task, AdmittedAs (Existing id))]) ≤ 8)%nat)
      by (rewrite length_app; simpl; lia).
    destruct r as [| [y|] | | | | | | | |]; try (apply wpm_ret, ends_redis; [done|done|lia]).
    destruct (admitted y) eqn:Hy.
    + apply wpm_ret, ends_found; [by left|lia].
    + apply wpm_enqueue; [|rewrite length_app; simpl; lia]. right. split; [done|].
      eexists _, _. split; [done|]. right. by exists pre, id.
Qed.

Lemma wpm_write_gates pre :
  chain_clear pre → (length pre ≤ 5)%nat →
  wpm allowed_event (ends 11) pre (write_gates task (match kind task with
    | Register => Some (register_retry_digest task) | Refer => None end)).
Proof.
  intros Hc Hl. unfold write_gates. apply wpm_req; [done|intros r].
  destruct r as [| | | |d| | | | |]; try (apply wpm_ret, ends_redis; [done|done|lia]).
  destruct (Z.leb_spec MAX_ACTIVE_QUEUE_DEPTH d).
  { apply wpm_ret. split; [|rewrite length_app; simpl; lia]. apply last_event_snoc. left. eauto. }
  apply wpm_req; [done|intros r].
  assert (Hl' : (length (pre ++ [(QueueDepth, Depth d)]) ≤ 6)%nat) by (rewrite length_app; simpl; lia).
  destruct r as [[]| | | | | | | | |]; try (apply wpm_ret, ends_redis; [done|done|lia]).
  - apply wpm_two_phase; [|rewrite length_app; simpl; lia].
    exists pre, d. by rewrite <-app_assoc.
  - apply wpm_ret. split; [|rewrite length_app; simpl; lia]. apply last_event_snoc. by right.
Qed.

Lemma wpm_refer_gate pre :
  kind task = Refer → (length pre ≤ 3)%nat →
  wpm allowed_event (λ t m, match m with
    | Ok _ => ∃ gg, t = pre ++ gg ∧ group_gate_passed gg ∧ (length gg ≤ 2)%nat
    | Err o => ends 11 t (Err o) end) pre (refer_group_gate task).
Proof.
  intros Hk Hl. unfold refer_group_gate. apply wpm_req; [done|intros r].
  destruct r as [| |[]| | | | | | |]; try (apply wpm_ret, ends_redis; [done|done|lia]).
  - apply wpm_ret. eexists. split_and!; [done|by left|simpl; lia].
  - apply wpm_req; [done|intros r].
    assert (Hl' : (length (pre ++ [(CheckGroupExists (group_public_key task), ChainBool false)]) ≤ 4)%nat)
      by (rewrite length_app; simpl; lia).
    assert (Hmiss : ∀ e, (∀ x, e = Some x → ¬ (kind x = Register ∧
        group_public_key x = group_public_key task ∧ status x = Pending)) →
      ends 11 ((pre ++ [(CheckGroupExists (group_public_key task), ChainBool false)]) ++
        [(FindTaskByKey (group_public_key task), TaskFound e)]) (Err ReferGroupMissing)).
    { intros e He. split; [|rewrite length_app; simpl; lia]. split; [done|].
      apply last_event_snoc. eauto. }
    destruct r as [| [p|] | | | | | | | |]; try (apply wpm_ret, ends_redis; [done|done|lia]);
      [|by apply wpm_ret, Hmiss].
    destruct (bool_decide_reflect (kind p = Register)), (bool_decide_reflect
      (group_public_key p = group_public_key task)), (status p) eqn:Hs;
      simpl; try (apply wpm_ret, Hmiss; intros ? [= <-]; rewrite Hs; naive_solver).
    apply wpm_ret. rewrite <-app_assoc. eexists. split_and!; [done| |simpl; lia].
    right; right. eauto.
  - apply wpm_ret. eexists. split_and!; [done|by right; left|simpl; lia].
Qed.

Lemma wpm_chain_gates pre :
  identity_clear pre →
  wpm allowed_event (ends 11) pre (chain_gates task ch (match kind task with
    | Register => Some (register_retry_digest task) | Refer => None end)).
Proof.
  intros Hi.
  assert (Hl : (length pre ≤ match kind task with Register => 3 | Refer => 2 end)%nat).
  { destruct Hi as (dg & -> & Hd). destruct (kind task).
    - destruct Hd as (e & -> & _). done.
    - by subst dg. }
  assert (Hl3 : (length pre ≤ 3)%nat) by (destruct (kind task); lia).
  unfold chain_gates. apply wpm_req; [by unfold allowed_event, precheck_op; destruct (kind task)|intros r].
  assert (Hgo : r = ChainBool false ∨ r = ChainReadFailed →
    wpm allowed_event (ends 11) (pre ++ [(precheck_op task ch, r)])
      (match kind task with
       | Register => write_gates task (Some (register_retry_digest task))
       | Refer => call u := refer_group_gate task in write_gates task None end)).
  { intros Hr. pose proof wpm_write_gates as Hw. unfold chain_clear in Hw.
    destruct (kind task) eqn:Hk.
    - apply Hw; [|rewrite length_app; simpl; lia]. by exists pre, r, [].
    - unfold fbind. eapply wpm_bind; [apply wpm_refer_gate; [done|rewrite length_app; simpl; lia]|].
      intros pre' [[]|o] H; [|by apply wpm_ret].
      destruct H as (gg & -> & Hgg & Hlg). apply Hw; [|rewrite !length_app; simpl; lia].
      exists pre, r, gg. by rewrite <-app_assoc. }
  destruct r as [| |[]| | | | | | |];
    try (apply wpm_ret, ends_redis; [by unfold precheck_op; destruct (kind task)
      |intros; by unfold precheck_op; destruct (kind task)|lia]).
  - apply wpm_ret. split; [|rewrite length_app; simpl; lia]. split; [done|]. by apply last_event_snoc.
  - destruct (kind task); apply Hgo; auto.
  - destruct (kind task); apply Hgo; auto.
Qed.

Lemma wpm_reuse pre op x :
  (op = FindTaskByContent ch ∨ op = FindTaskByRetryDigest (register_retry_digest task)) →
  (length pre ≤ 8)%nat →
  wpm allowed_event (ends 11) (pre ++ [(op, TaskFound (Some x))]) (reuse x).
Proof.
  intros Hop Hl. unfold reuse. destruct (admitted x) eqn:Ha; simpl.
  { apply wpm_ret, ends_found; [by left|lia]. }
  destruct (is_terminal (status x)) eqn:Ht.
  { apply wpm_ret, ends_found; [by right|lia]. }
  apply wpm_enqueue; [|rewrite length_app; simpl; lia]. right. split; [done|].
  exists pre, op. split; [done|]. left. by destruct (status x).
Qed.

Lemma wpm_admit_valid : wpm allowed_event (ends 11) [] (admit_valid task ch).
Proof.
  unfold admit_valid. apply wpm_req; [done|intros r].
  destruct r as [[]| | | | | | | | |]; try (apply wpm_ret, (ends_redis 11 []); [done|done|simpl; lia]);
    [|apply wpm_ret; split; [done|simpl; lia]].
  apply wpm_req; [done|intros r]. rewrite <-app_assoc. simpl app.
  destruct r as [| [x|] | | | | | | | |];
    try (apply wpm_ret, (ends_redis 11 [_]); [done|done|simpl; lia]).
  { apply (wpm_reuse [_]); [by left|simpl; lia]. }
  pose proof wpm_chain_gates as Hc. unfold identity_clear in Hc.
  destruct (kind task) eqn:Hk; [|by apply Hc; exists []].
  apply wpm_req; [done|intros r]. simpl app.
  destruct r as [| [x|] | | | | | | | |];
    try (apply wpm_ret, (ends_redis 11 [_; _]); [done|done|simpl; lia]).
  - case_bool_decide as Hst; [|by apply (wpm_reuse [_; _]); [right|simpl; lia]].
    apply Hc. eexists. split; [done|]. eexists. split; [done|]. by intros ? [= <-].
  - apply Hc. eexists. split; [done|]. by eexists.
Qed.
End monitor.

(** ** The retry digest *)
Section digest.
Context `{C : Crates}.

Lemma length_prefixed_app p q r1 r2 :
  str_len p ≤ U32_MAX → str_len q ≤ U32_MAX →
  length_prefixed p ++ r1 = length_prefixed q ++ r2 → p = q ∧ r1 = r2.
Proof.
  unfold length_prefixed. rewrite <-!app_assoc. intros Hp Hq H.
  apply app_inj_1 in H as [Hl H]; [|by rewrite !length_to_be_bytes].
  apply (f_equal from_be_bytes) in Hl. rewrite !from_to_be_bytes in Hl.
  unfold wrap32, U32_MAX, str_len in *. change (8 * Z.of_nat 4) with 32 in Hl.
  rewrite !Z.mod_mod, !Z.mod_small in Hl by lia.
  apply app_inj_1 in H as [H ->]; [|rewrite !length_as_bytes; lia].
  by apply as_bytes_inj in H.
Qed.

Lemma length_prefixed_inj ps qs :
  Forall (λ p, str_len p ≤ U32_MAX) ps → Forall (λ p, str_len p ≤ U32_MAX) qs →
  concat (length_prefixed <$> ps) = concat (length_prefixed <$> qs) → ps = qs.
Proof.
  assert (Hne : ∀ p r, length_prefixed p ++ r ≠ []).
  { intros p r H. apply (f_equal length) in H. unfold length_prefixed in H.
    rewrite !length_app, length_to_be_bytes in H. simpl in H. lia. }
  intros Hps. revert qs. induction Hps as [|p ps Hp _ IH]; intros qs Hqs H.
  - destruct qs as [|q qs]; [done|]. simpl in H. by destruct (Hne q (concat (length_prefixed <$> qs))).
  - destruct Hqs as [|q qs Hq Hqs]; [by destruct (Hne p (concat (length_prefixed <$> ps)))|].
    simpl in H. apply length_prefixed_app in H as [-> H]; [|done..]. f_equal. by apply IH.
Qed.

Lemma hexdigit_ascii s : str_all is_ascii_hexdigit s = true → str_all (in_range 0 127) s = true.
Proof.
  induction s as [|c s IH]; simpl; [done|]. rewrite !andb_true_iff. intros [Hc Hs].
  split; [|by apply IH]. revert Hc. clear. by destruct c as [[] [] [] [] [] [] [] []].
Qed.

Lemma canonical_key_lower k b : canonical_key k b → to_lowercase k = k.
Proof.
  intros [_ He _ _ _]. rewrite to_lowercase_ascii by (rewrite He; apply hexdigit_ascii, hex_encode_digits).
  rewrite He. apply hex_encode_lower.
Qed.

Lemma wf_members_lower ms :
  Forall wf_member ms → (λ m, to_lowercase (public_key m)) <$> ms = public_key <$> ms.
Proof.
  induction 1 as [|m ms [(b & Hb) _ _ _ _] _ IH]; [done|].
  cbn. f_equal; [by eapply canonical_key_lower|apply IH].
Qed.

Lemma str_len_hex_field b : str_len (hex_field b) ≤ 2 + 2 * byte_len b.
Proof.
  unfold str_len, byte_len. destruct b as [|x b]; [done|].
  change (String.length (hex_field (x :: b))) with (S (S (String.length (hex_encode (x :: b))))).
  rewrite hex_encode_length. lia.
Qed.

Lemma wf_retry_parts t : wf_task t → Forall (λ p, str_len p ≤ U32_MAX) (retry_parts t).
Proof.
  intros Hwf. assert (4098 ≤ U32_MAX) by done. unfold retry_parts. constructor; [|constructor].
  - pose proof (wt_rp_id t Hwf). lia.
  - destruct (wt_metadata t Hwf) as (b & -> & Hb). pose proof (str_len_hex_field b).
    unfold MAX_METADATA_BYTES in Hb. lia.
  - rewrite merge_sort_Permutation, (wf_members_lower _ (wt_members t Hwf)).
    apply Forall_fmap. eapply Forall_impl; [apply (wt_members t Hwf)|].
    intros m [(b & [_ He Hl _ _]) _ _ _ _]. unfold str_len. simpl. rewrite He, hex_encode_length. lia.
Qed.

Lemma retry_parts_eq t1 t2 :
  wf_task t1 → wf_task t2 →
  retry_parts t1 = retry_parts t2 ↔
    rp_id t1 = rp_id t2 ∧ metadata t1 = metadata t2 ∧
    (public_key <$> members t1) ≡ₚ (public_key <$> members t2).
Proof.
  intros W1 W2. unfold retry_parts.
  rewrite !wf_members_lower by by apply wt_members.
  split.
  - intros [= -> -> H]. split_and!; [done..|].
    rewrite <-(merge_sort_Permutation String.le (public_key <$> members t1)), H.
    apply merge_sort_Permutation.
  - intros (-> & -> & H). do 2 f_equal.
    apply (StronglySorted_unique String.le); [apply (StronglySorted_merge_sort _)..|].
    by rewrite !merge_sort_Permutation.
Qed.
End digest.

Section properties.
Context `{C : Crates}.

(** The retry digest of two well-formed tasks coincides exactly when
    they register the same member keys (in any order) for the same rpId and
    metadata, whatever their group keys, proofs or hints; the only other
    way is a keccak256 collision on the two preimages. *)
Theorem retry_digest_spec t1 t2 :
  wf_task t1 → wf_task t2 → collision_free [retry_preimage t1; retry_preimage t2] →
  register_retry_digest t1 = register_retry_digest t2 ↔
    rp_id t1 = rp_id t2 ∧ metadata t1 = metadata t2 ∧
    (public_key <$> members t1) ≡ₚ (public_key <$> members t2).
Proof.
  intros W1 W2 Hcf. rewrite <-(retry_parts_eq t1 t2) by done. unfold register_retry_digest. split.
  - intros H%hex_encode_inj%Hcf; [|set_solver..].
    by apply length_prefixed_inj in H; [|apply wf_retry_parts..].
  - unfold retry_preimage. by intros ->.
Qed.

(** An invalid request touches nothing: the program issues no
    operation and answers [Invalid] with the validation message; and that
    is the only way to an [Invalid] outcome. *)
Theorem admission_invalid sub id now chain reg t m :
  exec (drive_admission sub id now chain reg) t m →
  ((∃ msg, settle m = Invalid msg) ↔ is_ok (validate sub id now chain reg) = false) ∧
  (∀ msg, validate sub id now chain reg = Err (Msg msg) → t = [] ∧ settle m = Invalid msg).
Proof.
  unfold drive_admission. destruct (validate sub id now chain reg) as [[task ch]|[msg|msg]];
    intros He; [|inversion He; subst; simpl; naive_solver..].
  apply (wpm_exec _ _ _ _ _ (wpm_admit_valid task ch)) in He as [_ [He _]].
  unfold explained in He. split; [|done]. split; [|done]. intros [msg Hm]. by rewrite Hm in He.
Qed.

(** C16. Phase one happens only behind every gate: whenever the program
    asks the store to admit a task, that task is the request's own
    validated one, and before it, in order, the client's rate limit let it
    pass, no task carries its content hash, no live one its retry digest
    (Register), the chain does not already hold it (or could not be read),
    its target group exists or is being created (Refer), the queue is below
    10,000 and the global budget let it pass. *)
Theorem admission_gates sub id now chain reg t m pre x r post :
  exec (drive_admission sub id now chain reg) t m →
  t = pre ++ (Admit x, r) :: post →
  ∃ ch, validate sub id now chain reg = Ok (x, ch) ∧ gates_passed x ch pre.
Proof.
  unfold drive_admission. destruct (validate sub id now chain reg) as [[task ch]|[msg|msg]] eqn:Hv;
    intros He Ht; [|inversion He; subst; by destruct pre..].
  apply (wpm_exec _ _ _ _ _ (wpm_admit_valid task ch)) in He as [He _].
  destruct (He pre _ post Ht) as [-> Hg]. eauto.
Qed.

(** C15. Nothing enters the queue that is not already persisted: an
    enqueued task is the request's own, right after the store admitted it
    as new, or a stored task whose own phase two never finished (not
    admitted, and live when it was found by identity); only an enqueued
    task is marked admitted, and only right after the queue took it. *)
Theorem enqueue_only_persisted sub id now chain reg t m :
  exec (drive_admission sub id now chain reg) t m →
  (∀ pre x r post, t = pre ++ (Enqueue x, r) :: post → ∃ task ch,
     validate sub id now chain reg = Ok (task, ch) ∧ may_enqueue task ch x pre) ∧
  (∀ pre i r post, t = pre ++ (MarkAdmitted i, r) :: post →
     ∃ pre' x, i = task_id x ∧ pre = pre' ++ [(Enqueue x, Enqueued)]).
Proof.
  unfold drive_admission. destruct (validate sub id now chain reg) as [[task ch]|[msg|msg]] eqn:Hv;
    intros He; [|inversion He; subst; split; intros []; done..].
  apply (wpm_exec _ _ _ _ _ (wpm_admit_valid task ch)) in He as [He _]. split.
  - intros pre x r post Ht. exists task, ch. split; [done|]. apply (He pre _ post Ht).
  - intros pre i r post Ht. destruct (He pre _ post Ht) as (pre' & x & _ & ? & ?). eauto.
Qed.

(** Every admission of a valid request ends within eleven operations,
    and its outcome is explained by the answer that caused it: a [Queued]
    names a task the store just returned that is admitted, terminal, or was
    enqueued by this request; a failing chain read alone never refuses a
    request; a refer is refused for a missing group only when the chain
    denies it and no register of that group is in flight. *)
Theorem admission_outcome_explained sub id now chain reg task ch t m :
  validate sub id now chain reg = Ok (task, ch) →
  exec (drive_admission sub id now chain reg) t m →
  explained task ch t m ∧ (length t ≤ 11)%nat.
Proof.
  unfold drive_admission. intros -> He.
  by apply (wpm_exec _ _ _ _ _ (wpm_admit_valid task ch)) in He as [_ ?].
Qed.
End properties.

(** ** Evaluation on examples *)
Section examples.
#[local] Existing Instance concrete_crates.

(** A shell that admits everything. *)
Definition friendly (op : AdmissionOperation) (s : unit) : AdmissionResult * unit :=
  (match op with
   | AllowIpCreate | AllowGlobalCreate => Allowed true
   | FindTaskByContent _ | FindTaskByRetryDigest _ | FindTaskByKey _ | LoadTask _ => TaskFound None
   | CheckContentRegistered _ | CheckReferenced _ _ => ChainBool false
   | CheckGroupExists _ => ChainBool true
   | QueueDepth => Depth 3
   | Admit _ => AdmittedAs New
   | Enqueue _ => Enqueued
   | MarkAdmitted _ => TaskFound (Some sample_task)
   | RecordRetryDigest _ _ => Persisted
   end, s).

Definition sample_submission : AdmissionRequest := ARegister sample_register_request.
Definition sample_run :=
  run friendly (drive_admission sample_submission "t1" 1000 100 sample_registry_hex) tt.

Lemma sample_exec :
  exec (drive_admission sample_submission "t1" 1000 100 sample_registry_hex)
    sample_run.1.2 sample_run.2.
Proof.
  unfold sample_run. destruct (run friendly _ _) as [[[] t] m] eqn:E.
  by apply run_exec in E.
Qed.

Lemma sample_wf : wf_task sample_task.
Proof. destruct (validate_register_ok _ _ _ _ _ _ _ sample_register_validates) as (?&?&?&?&?&?). done. Qed.

Lemma retry_digest_spec_witness :
  register_retry_digest sample_task = register_retry_digest (set_retries 3 sample_task) ↔
    rp_id sample_task = rp_id sample_task ∧ metadata sample_task = metadata sample_task ∧
    (public_key <$> members sample_task) ≡ₚ (public_key <$> members sample_task).
Proof.
  apply (retry_digest_spec sample_task sample_task); [apply sample_wf..|].
  apply collision_freeb_spec. by vm_compute.
Defined.

Lemma admission_invalid_witness :
  settle (Ok (Invalid "rpId is required")) = Invalid "rpId is required".
Proof.
  refine (proj2 (proj2 (admission_invalid (ARegister (mkRegisterRequest None None None None None))
    "t1" 1000 100 sample_registry_hex [] (Ok (Invalid "rpId is required")) _) _ _)).
  - assert (drive_admission (ARegister (mkRegisterRequest None None None None None))
      "t1" 1000 100 sample_registry_hex = Ret (Ok (Invalid "rpId is required"))) as -> by by vm_compute.
    constructor.
  - by vm_compute.
Defined.

Lemma admission_gates_witness :
  ∃ ch, validate sample_submission "t1" 1000 100 sample_registry_hex = Ok (sample_task, ch) ∧
    gates_passed sample_task ch (take 6 sample_run.1.2).
Proof.
  apply (admission_gates sample_submission "t1" 1000 100 sample_registry_hex
    sample_run.1.2 sample_run.2 (take 6 sample_run.1.2) sample_task (AdmittedAs New)
    (drop 7 sample_run.1.2)).
  - apply sample_exec.
  - by vm_compute.
Defined.

Lemma enqueue_only_persisted_witness :
  ∃ pre' x, "t1" = task_id x ∧ take 9 sample_run.1.2 = pre' ++ [(Enqueue x, Enqueued)].
Proof.
  apply (proj2 (enqueue_only_persisted sample_submission "t1" 1000 100 sample_registry_hex
    sample_run.1.2 sample_run.2 sample_exec)
    (take 9 sample_run.1.2) "t1" (TaskFound (Some sample_task)) []).
  by vm_compute.
Defined.

Lemma admission_outcome_explained_witness :
  explained sample_task (content_hash sample_task) sample_run.1.2 sample_run.2 ∧
  (length sample_run.1.2 ≤ 11)%nat.
Proof.
  apply (admission_outcome_explained sample_submission "t1" 1000 100 sample_registry_hex).
  - by vm_compute.
  - apply sample_exec.
Defined.
End examples.
