(* ===== verification/Gas.v ===== *)
(** * Gas pricing policy ([p256-registrar/src/gas.rs])

    EIP-1559 fee planning: the price of a fresh write, the price of a
    same-nonce replacement, and the bounds on what may be broadcast.  [U256]
    values are [Z] in [0 .. U256_MAX] with the saturating operations of the
    source. *)
From S2P Require Export Prelude.
From stdpp Require Import options.

Definition DEFAULT_MAX_FEE_WEI : Z := 10_000_000.
Definition DEFAULT_TIP_WEI : Z := 1_000.
Definition BASE_FEE_HEADROOM_NUM : Z := 200.
Definition BASE_FEE_HEADROOM_DEN : Z := 100.
Definition REPLACEMENT_NUM : Z := 150.
Definition REPLACEMENT_DEN : Z := 100.
Definition MIN_REPLACEMENT_NUM : Z := 110.
Definition MIN_REPLACEMENT_DEN : Z := 100.
Definition MAX_GAS_LIMIT : Z := 12_000_000.

Record FeePlan := mkFeePlan {
  max_fee_per_gas : Z;
  max_priority_fee_per_gas : Z;
}.

Inductive FeeVerdict :=
| Send (plan : FeePlan)
| TooExpensive (required cap : Z).

Definition plan (v : FeeVerdict) : option FeePlan :=
  match v with Send p => Some p | TooExpensive _ _ => None end.

Definition is_too_expensive (v : FeeVerdict) : bool :=
  match v with TooExpensive _ _ => true | _ => false end.

(** U256 saturating arithmetic. *)
Definition add256 (a b : Z) : Z := sat_add U256_MAX a b.
Definition mul256 (a b : Z) : Z := sat_mul U256_MAX a b.

Definition plan_fees (base_fee tip cap : Z) : FeeVerdict :=
  let minimum := add256 base_fee tip in
  if cap <? minimum then TooExpensive minimum cap
  else
    let target := add256 (mul256 base_fee BASE_FEE_HEADROOM_NUM / BASE_FEE_HEADROOM_DEN) tip in
    let max_fee := Z.min target cap in
    Send {| max_priority_fee_per_gas := Z.min tip max_fee;
            max_fee_per_gas := max_fee |}.

Definition strictly_above (value num den : Z) : Z :=
  if value =? 0 then 0
  else
    let scaled := mul256 value num in
    let ceiling := add256 scaled (sat_sub den 1) / den in
    Z.max ceiling (add256 value 1).

Fixpoint escalate_loop (n : nat) (result : Z) : Z :=
  match n with
  | O => result
  | S n => escalate_loop n (strictly_above result REPLACEMENT_NUM REPLACEMENT_DEN)
  end.

Definition escalate (value attempts : Z) : Z :=
  escalate_loop (Z.to_nat (Z.min attempts 16)) value.

(** The bid the ladder assumes for a ledger row that recorded no fees. *)
Definition assumed_previous (base_fee market_ceiling attempts : Z) : FeePlan :=
  let assumed_tip := escalate (add256 base_fee 1) attempts in
  {| max_fee_per_gas := Z.max (escalate market_ceiling attempts) assumed_tip;
     max_priority_fee_per_gas := assumed_tip |}.

Definition plan_replacement (previous : option FeePlan) (base_fee tip cap attempts : Z)
    : FeeVerdict :=
  let market_ceiling :=
    add256 (mul256 base_fee BASE_FEE_HEADROOM_NUM / BASE_FEE_HEADROOM_DEN) tip in
  let previous := default (assumed_previous base_fee market_ceiling attempts) previous in
  let fee_floor :=
    strictly_above (max_fee_per_gas previous) MIN_REPLACEMENT_NUM MIN_REPLACEMENT_DEN in
  let tip_floor :=
    strictly_above (max_priority_fee_per_gas previous) MIN_REPLACEMENT_NUM MIN_REPLACEMENT_DEN in
  let required := Z.max (Z.max fee_floor tip_floor) (add256 base_fee tip_floor) in
  if cap <? required then TooExpensive required cap
  else
    let new_tip :=
      Z.min (Z.max (Z.max (Z.max
        (strictly_above (max_priority_fee_per_gas previous) REPLACEMENT_NUM REPLACEMENT_DEN)
        tip_floor) tip) 1) cap in
    let new_max_fee :=
      Z.min (Z.max (Z.max (Z.max
        (strictly_above (max_fee_per_gas previous) REPLACEMENT_NUM REPLACEMENT_DEN)
        fee_floor) market_ceiling) new_tip) cap in
    Send {| max_fee_per_gas := new_max_fee;
            max_priority_fee_per_gas := Z.min new_tip new_max_fee |}.

Definition gas_limit_within_bounds (gas_limit : Z) : bool := gas_limit <=? MAX_GAS_LIMIT.

Definition required_balance (gas_limit max_fee : Z) : Z := mul256 gas_limit max_fee.

Definition too_expensive_reason (required cap : Z) : string :=
  "gas price " +:+ fmt required +:+ " wei exceeds the configured cap of " +:+ fmt cap
    +:+ " wei; batch requeued".

(** ** The node's admission rule

    A same-nonce replacement is accepted when each fee field strictly exceeds
    the old one and reaches 110% of it (the rule the module documentation
    quotes from geth, checked on both axes). *)
Definition node_accepts (old new : FeePlan) : Prop :=
  max_fee_per_gas old < max_fee_per_gas new ∧
  MIN_REPLACEMENT_NUM * max_fee_per_gas old ≤ MIN_REPLACEMENT_DEN * max_fee_per_gas new ∧
  max_priority_fee_per_gas old < max_priority_fee_per_gas new ∧
  MIN_REPLACEMENT_NUM * max_priority_fee_per_gas old
    ≤ MIN_REPLACEMENT_DEN * max_priority_fee_per_gas new.

Definition fee_plan_wf (p : FeePlan) : Prop :=
  in_u256 (max_fee_per_gas p) ∧ in_u256 (max_priority_fee_per_gas p).

(** ** Lemmas *)

Lemma strictly_above_range v num den :
  in_u256 v → 0 ≤ num → 0 < den → in_u256 (strictly_above v num den).
Proof.
  unfold in_u256, strictly_above, mul256, add256, sat_mul, sat_add, sat_sub.
  intros Hv Hn Hd. destruct (Z.eqb_spec v 0); [unfold U256_MAX; lia|].
  assert (0 ≤ Z.min U256_MAX (Z.min U256_MAX (v * num) + Z.max 0 (den - 1)) / den ≤ U256_MAX).
  { split; [apply Z.div_pos; lia|]. apply Z.div_le_upper_bound; [lia|].
    transitivity (1 * U256_MAX); [lia|]. apply Z.mul_le_mono_nonneg_r; lia. }
  lia.
Qed.

(** Under the cap the saturating bump is the exact one: a value whose bump
    fits under [U128_MAX] is strictly exceeded and reaches [num/den] of it. *)
Lemma strictly_above_spec v num den :
  0 < v ≤ U256_MAX → den = 100 → 100 ≤ num ≤ 200 →
  strictly_above v num den ≤ U128_MAX →
  v < strictly_above v num den ∧ num * v ≤ den * strictly_above v num den.
Proof.
  unfold strictly_above, mul256, add256, sat_mul, sat_add, sat_sub.
  intros Hv -> Hn. destruct (Z.eqb_spec v 0); [lia|].
  change (Z.max 0 (100 - 1)) with 99. intros Hle.
  assert (Hv1 : v < U256_MAX) by (unfold U128_MAX, U256_MAX in *; lia).
  set (c := Z.min U256_MAX (Z.min U256_MAX (v * num) + 99) / 100) in *.
  assert (Hc : c ≤ U128_MAX) by lia.
  assert (Hs : v * num + 99 < U256_MAX).
  { apply Z.nle_gt. intros Hbig.
    assert (U256_MAX / 100 ≤ c + 1).
    { unfold c. transitivity ((U256_MAX - 99) / 100 + 1); [by vm_compute|].
      apply Z.add_le_mono_r, Z.div_le_mono; lia. }
    assert (U128_MAX + 1 < U256_MAX / 100) by (by vm_compute). lia. }
  assert (Hcv : num * v ≤ 100 * c).
  { unfold c. rewrite !Z.min_r by lia.
    pose proof (Z.div_mod (v * num + 99) 100 ltac:(lia)).
    pose proof (Z.mod_pos_bound (v * num + 99) 100 ltac:(lia)). lia. }
  split; lia.
Qed.

Lemma strictly_above_zero num den : strictly_above 0 num den = 0.
Proof. done. Qed.

Lemma escalate_loop_range n v : in_u256 v → in_u256 (escalate_loop n v).
Proof.
  revert v. induction n as [|n IH]; intros v Hv; simpl; [done|].
  apply IH, strictly_above_range; unfold REPLACEMENT_NUM, REPLACEMENT_DEN; lia || done.
Qed.

Lemma market_range base_fee tip :
  in_u256 base_fee → in_u256 tip →
  in_u256 (add256 (mul256 base_fee BASE_FEE_HEADROOM_NUM / BASE_FEE_HEADROOM_DEN) tip).
Proof.
  unfold in_u256, add256, mul256, sat_add, sat_mul, BASE_FEE_HEADROOM_NUM, BASE_FEE_HEADROOM_DEN.
  intros ??. assert (0 ≤ Z.min U256_MAX (base_fee * 200) / 100) by (apply Z.div_pos; lia).
  unfold U256_MAX in *. lia.
Qed.

Lemma assumed_previous_wf base_fee mc attempts :
  in_u256 base_fee → in_u256 mc → fee_plan_wf (assumed_previous base_fee mc attempts).
Proof.
  intros Hb Hm. unfold fee_plan_wf, assumed_previous. simpl.
  assert (in_u256 (add256 base_fee 1)) as H1.
  { revert Hb. unfold in_u256, add256, sat_add, U256_MAX. lia. }
  pose proof (escalate_loop_range (Z.to_nat (Z.min attempts 16)) _ H1).
  pose proof (escalate_loop_range (Z.to_nat (Z.min attempts 16)) _ Hm).
  unfold escalate, in_u256 in *. lia.
Qed.

(** The floors and the chosen bid of a [Send] verdict, whatever the recorded
    bid was. *)
Lemma plan_replacement_send prev base_fee tip cap attempts p :
  in_u256 base_fee → in_u256 tip → cap ≤ U128_MAX → 1 ≤ cap →
  (∀ q, prev = Some q → fee_plan_wf q) →
  plan_replacement prev base_fee tip cap attempts = Send p →
  let mc := add256 (mul256 base_fee BASE_FEE_HEADROOM_NUM / BASE_FEE_HEADROOM_DEN) tip in
  let old := default (assumed_previous base_fee mc attempts) prev in
  node_accepts old p ∧ base_fee ≤ max_fee_per_gas p ∧
  max_priority_fee_per_gas p ≤ max_fee_per_gas p ≤ cap ∧ 1 ≤ max_priority_fee_per_gas p.
Proof.
  intros Hb Ht Hcap Hcap1 Hprev Hsend mc old.
  assert (Hmc : in_u256 mc) by by apply market_range.
  assert (Hold : fee_plan_wf old).
  { unfold old. destruct prev as [q|]; simpl; [by apply Hprev|by apply assumed_previous_wf]. }
  revert Hsend. unfold plan_replacement. fold mc. fold old.
  destruct Hold as [[Hf0 Hf1] [Hp0 Hp1]].
  set (ff := strictly_above (max_fee_per_gas old) MIN_REPLACEMENT_NUM MIN_REPLACEMENT_DEN).
  set (tf := strictly_above (max_priority_fee_per_gas old) MIN_REPLACEMENT_NUM MIN_REPLACEMENT_DEN).
  destruct (Z.ltb_spec cap (Z.max (Z.max ff tf) (add256 base_fee tf))) as [|Hreq];
    [discriminate|]. intros [= <-]. unfold node_accepts; cbn [max_fee_per_gas max_priority_fee_per_gas].
  assert (Hff : max_fee_per_gas old = 0 ∧ ff = 0 ∨ max_fee_per_gas old < ff ∧
                110 * max_fee_per_gas old ≤ 100 * ff).
  { unfold ff. destruct (decide (max_fee_per_gas old = 0)) as [->|]; [by left|].
    right. apply (strictly_above_spec _ MIN_REPLACEMENT_NUM MIN_REPLACEMENT_DEN);
      [lia|done|by vm_compute|fold ff; lia]. }
  assert (Htf : max_priority_fee_per_gas old = 0 ∧ tf = 0 ∨ max_priority_fee_per_gas old < tf ∧
                110 * max_priority_fee_per_gas old ≤ 100 * tf).
  { unfold tf. destruct (decide (max_priority_fee_per_gas old = 0)) as [->|]; [by left|].
    right. apply (strictly_above_spec _ MIN_REPLACEMENT_NUM MIN_REPLACEMENT_DEN);
      [lia|done|by vm_compute|fold tf; lia]. }
  assert (Hbm : base_fee ≤ mc).
  { assert (base_fee ≤ cap).
    { revert Hreq. unfold add256, sat_add. unfold U128_MAX, U256_MAX in *. lia. }
    unfold mc, add256, mul256, sat_add, sat_mul, BASE_FEE_HEADROOM_NUM, BASE_FEE_HEADROOM_DEN.
    rewrite (Z.min_r U256_MAX (base_fee * 200)) by (unfold U128_MAX, U256_MAX in *; lia).
    replace (base_fee * 200) with (base_fee * 2 * 100) by lia. rewrite Z.div_mul by lia.
    destruct Hb, Ht. lia. }
  assert (base_fee ≤ cap).
  { revert Hreq. unfold add256, sat_add. destruct Hb. unfold U128_MAX, U256_MAX in *. lia. }
  set (nt := Z.min (Z.max (Z.max (Z.max _ tf) tip) 1) cap).
  set (nf := Z.min (Z.max (Z.max (Z.max _ ff) mc) nt) cap).
  assert (Hnt : tf ≤ nt ∧ 1 ≤ nt ∧ nt ≤ cap).
  { unfold nt. clear -Hreq Hcap1. split_and!; [apply Z.min_glb; lia|apply Z.min_glb; lia|lia]. }
  assert (Hnf : ff ≤ nf ∧ nt ≤ nf ∧ base_fee ≤ nf ∧ nf ≤ cap).
  { unfold nf. clearbody nt. clear -Hreq Hnt Hbm H.
    split_and!; [apply Z.min_glb; lia..|lia]. }
  clearbody nt nf. rewrite (Z.min_l nt nf) by lia.
  unfold MIN_REPLACEMENT_NUM, MIN_REPLACEMENT_DEN. clear - Hff Htf Hnt Hnf. lia.
Qed.

(** ** Properties *)

(** C26. A replacement the unstick sweep signs is one every node accepts.
    Whenever [plan_replacement] answers [Send p], for a recorded bid or for
    the bid assumed for a row without one, both fee fields of [p] strictly
    exceed the old ones and reach 110% of them; [p] pays at least the base
    fee, is well formed (tip at most the ceiling, tip at least 1) and never
    exceeds the configured cap. *)
Theorem plan_replacement_accepted prev base_fee tip cap attempts p :
  in_u256 base_fee → in_u256 tip → 1 ≤ cap ≤ U128_MAX →
  (∀ q, prev = Some q → fee_plan_wf q) →
  plan_replacement prev base_fee tip cap attempts = Send p →
  let mc := add256 (mul256 base_fee BASE_FEE_HEADROOM_NUM / BASE_FEE_HEADROOM_DEN) tip in
  node_accepts (default (assumed_previous base_fee mc attempts) prev) p ∧
  base_fee ≤ max_fee_per_gas p ∧
  1 ≤ max_priority_fee_per_gas p ≤ max_fee_per_gas p ∧ max_fee_per_gas p ≤ cap.
Proof.
  intros Hb Ht [Hc1 Hc2] Hprev Hs.
  destruct (plan_replacement_send _ _ _ _ _ _ Hb Ht Hc2 Hc1 Hprev Hs) as (?&?&?&?).
  simpl. split_and!; tauto || lia.
Qed.

Lemma plan_replacement_accepted_witness :
  node_accepts (mkFeePlan 20_000 1_000) (mkFeePlan 30_000 1_500).
Proof.
  apply (plan_replacement_accepted (Some (mkFeePlan 20_000 1_000)) 9_255 1_000 10_000_000 0
           (mkFeePlan 30_000 1_500)).
  - split; by vm_compute.
  - split; by vm_compute.
  - split; by vm_compute.
  - intros q [= <-]. split; split; by vm_compute.
  - by vm_compute.
Defined.

(** A fresh write is priced exactly: it is refused iff even the minimum
    includable price (base fee plus tip) exceeds the cap, and otherwise the
    ceiling is [min (2 * base + tip) cap], which covers base fee plus tip and
    stays under the cap, and the tip is offered in full. *)
Theorem plan_fees_spec base_fee tip cap :
  0 ≤ base_fee → 0 ≤ tip → cap ≤ U128_MAX →
  (plan_fees base_fee tip cap =
     if decide (base_fee + tip ≤ cap) then
       Send {| max_fee_per_gas := Z.min (2 * base_fee + tip) cap;
               max_priority_fee_per_gas := tip |}
     else TooExpensive (Z.min U256_MAX (base_fee + tip)) cap) ∧
  (∀ p, plan_fees base_fee tip cap = Send p →
     base_fee + max_priority_fee_per_gas p ≤ max_fee_per_gas p ≤ cap).
Proof.
  intros Hb Ht Hc.
  assert (Heq : plan_fees base_fee tip cap =
     if decide (base_fee + tip ≤ cap) then
       Send {| max_fee_per_gas := Z.min (2 * base_fee + tip) cap;
               max_priority_fee_per_gas := tip |}
     else TooExpensive (Z.min U256_MAX (base_fee + tip)) cap).
  { unfold plan_fees, add256, mul256, sat_add, sat_mul,
      BASE_FEE_HEADROOM_NUM, BASE_FEE_HEADROOM_DEN.
    assert (U128_MAX < U256_MAX) by by vm_compute.
    case_decide; destruct (Z.ltb_spec cap (Z.min U256_MAX (base_fee + tip))); try lia; [|done].
    assert (base_fee * 200 ≤ U256_MAX) by (unfold U128_MAX, U256_MAX in *; lia).
    rewrite (Z.min_r U256_MAX (base_fee * 200)) by done.
    replace (base_fee * 200) with (base_fee * 2 * 100) by lia. rewrite Z.div_mul by lia.
    f_equal. f_equal; lia. }
  split; [done|]. intros p. rewrite Heq. case_decide; [|done]. intros [= <-]. simpl. lia.
Qed.

Lemma plan_fees_spec_witness :
  plan_fees 9_255 DEFAULT_TIP_WEI DEFAULT_MAX_FEE_WEI = Send (mkFeePlan 19_510 1_000).
Proof.
  rewrite (proj1 (plan_fees_spec 9_255 DEFAULT_TIP_WEI DEFAULT_MAX_FEE_WEI
    ltac:(by vm_compute) ltac:(by vm_compute) ltac:(by vm_compute))). by vm_compute.
Defined.

(** The largest base-fee increase one block can cause under EIP-1559: one
    eighth, and at least one wei. *)
Definition max_base_fee_step (b : Z) : Z := b + Z.max 1 (b / 8).

(** The headroom promise: a fresh transaction whose comfortable price fits
    under the cap still pays the base fee after five maximally full blocks,
    and after six at the shipped tip for any base fee up to 36_000 wei (four
    times the observed Gnosis base fee). *)
Theorem plan_fees_survives_congestion base_fee tip cap p :
  0 ≤ base_fee → 7 ≤ tip → cap ≤ U128_MAX → 2 * base_fee + tip ≤ cap →
  plan_fees base_fee tip cap = Send p →
  Nat.iter 5 max_base_fee_step base_fee ≤ max_fee_per_gas p ∧
  (tip = DEFAULT_TIP_WEI → base_fee ≤ 36_000 →
   Nat.iter 6 max_base_fee_step base_fee ≤ max_fee_per_gas p).
Proof.
  intros Hb Ht Hc Hfit Hs.
  assert (Hp : max_fee_per_gas p = 2 * base_fee + tip).
  { revert Hs. unfold plan_fees, add256, mul256, sat_add, sat_mul,
      BASE_FEE_HEADROOM_NUM, BASE_FEE_HEADROOM_DEN.
    assert (base_fee * 200 ≤ U256_MAX) by (unfold U128_MAX, U256_MAX in *; lia).
    rewrite (Z.min_r U256_MAX (base_fee * 200)) by done.
    replace (base_fee * 200) with (base_fee * 2 * 100) by lia. rewrite Z.div_mul by lia.
    zsplit; [done|]. intros [= <-]. simpl. unfold U128_MAX, U256_MAX in *. lia. }
  assert (Hstep : ∀ b, 0 ≤ b → 0 ≤ max_base_fee_step b ∧ 8 * max_base_fee_step b ≤ 9 * b + 8).
  { intros b Hb0. unfold max_base_fee_step. pose proof (Z.mul_div_le b 8 ltac:(lia)).
    pose proof (Z.div_pos b 8 Hb0 ltac:(lia)). lia. }
  cbn [Nat.iter nat_rect].
  destruct (Hstep base_fee Hb) as [H0 H1].
  destruct (Hstep _ H0) as [H2 H3]. destruct (Hstep _ H2) as [H4 H5].
  destruct (Hstep _ H4) as [H6 H7]. destruct (Hstep _ H6) as [H8 H9].
  destruct (Hstep _ H8) as [H10 H11]. unfold DEFAULT_TIP_WEI. lia.
Qed.

Lemma plan_fees_survives_congestion_witness :
  Nat.iter 6 max_base_fee_step 9_255 ≤ 19_510.
Proof.
  apply (plan_fees_survives_congestion 9_255 1_000 10_000_000 (mkFeePlan 19_510 1_000));
    by vm_compute.
Defined.

(** The unstick ladder: every rung is a replacement of the previous one, at
    whatever base fee the chain then quotes. *)
Inductive ladder (tip cap : Z) : FeePlan → nat → FeePlan → Prop :=
| ladder_here p : ladder tip cap p 0 p
| ladder_rung p base_fee attempts q n r :
    in_u256 base_fee →
    plan_replacement (Some p) base_fee tip cap attempts = Send q →
    ladder tip cap q n r →
    ladder tip cap p (S n) r.

(** The ladder is finite: [n] successive replacements of one nonce obey
    [110^n * fee <= 100^n * cap], so at the shipped cap at most 169 rungs
    exist before the sweep refuses and pages the operator. *)
Theorem replacement_ladder_bounded tip cap p n r :
  in_u256 tip → 1 ≤ cap ≤ U128_MAX → fee_plan_wf p → 1 ≤ max_fee_per_gas p ≤ cap →
  ladder tip cap p n r →
  110 ^ Z.of_nat n * max_fee_per_gas p ≤ 100 ^ Z.of_nat n * cap ∧
  (cap = DEFAULT_MAX_FEE_WEI → (n ≤ 169)%nat).
Proof.
  intros Ht Hc Hwf Hp Hl.
  assert (Hb : 110 ^ Z.of_nat n * max_fee_per_gas p ≤ 100 ^ Z.of_nat n * cap).
  { induction Hl as [p|p base_fee attempts q n r Hbf Hs Hl IH]; [lia|].
    destruct (plan_replacement_send (Some p) base_fee tip cap attempts q) as
      ((Hlt & H110 & _) & _ & Hq & Hq1); [done..|lia|lia|by intros ? [= <-]|done|].
    simpl in *. unfold MIN_REPLACEMENT_NUM, MIN_REPLACEMENT_DEN in *.
    assert (fee_plan_wf q).
    { unfold fee_plan_wf, in_u256, U128_MAX, U256_MAX in *. lia. }
    specialize (IH ltac:(done) ltac:(lia)).
    rewrite Nat2Z.inj_succ, !Z.pow_succ_r by lia.
    assert (0 < 110 ^ Z.of_nat n) by (apply Z.pow_pos_nonneg; lia).
    transitivity (100 * (110 ^ Z.of_nat n * max_fee_per_gas q)); [nia|]. nia. }
  split; [done|]. intros ->. destruct (decide (n ≤ 169)%nat) as [|Hn]; [done|]. exfalso.
  assert (H170 : 100 ^ 170 * DEFAULT_MAX_FEE_WEI < 110 ^ 170) by by vm_compute.
  assert (∃ k, Z.of_nat n = 170 + k ∧ 0 ≤ k) as (k & Hk & Hk0) by (exists (Z.of_nat n - 170); lia).
  rewrite Hk, !Z.pow_add_r in Hb by lia.
  assert (0 < 100 ^ k) by (apply Z.pow_pos_nonneg; lia).
  assert (100 ^ k ≤ 110 ^ k) by (apply Z.pow_le_mono_l; lia).
  remember (100 ^ 170) as A. remember (110 ^ 170) as B. nia.
Qed.

Lemma replacement_ladder_bounded_witness :
  110 ^ 1 * 20_000 ≤ 100 ^ 1 * 10_000_000.
Proof.
  apply (replacement_ladder_bounded 1_000 10_000_000 (mkFeePlan 20_000 1_000) 1
           (mkFeePlan 30_000 1_500)).
  - split; by vm_compute.
  - split; by vm_compute.
  - split; split; by vm_compute.
  - split; by vm_compute.
  - apply (ladder_rung _ _ _ 9_255 0 (mkFeePlan 30_000 1_500)).
    + split; by vm_compute.
    + by vm_compute.
    + constructor.
Defined.
