(* ===== verification/Float64.v ===== *)
(** * The [f64] the sentinel computes with

    IEEE binary64 over the Standard Library's executable specification of
    floating point ([SpecFloat]), with the conversions and the fixed-point
    formatting of Rust's [as] and [{:.n}] as the source uses them. *)
From Stdlib Require Import Ascii String Strings.Byte Floats.SpecFloat.
From S2P Require Export Prelude.
From stdpp Require Import options.

Abbreviation f64 := spec_float.

Definition f64_mul : f64 → f64 → f64 := SFmul 53 1024.
Definition f64_div : f64 → f64 → f64 := SFdiv 53 1024.
(** [n as f64]: to nearest, ties to even. *)
Definition f64_of_Z (n : Z) : f64 := binary_normalize 53 1024 n 0 false.
Definition f64_infinity : f64 := S754_infinity false.

Definition f64_is_infinite (x : f64) : bool := match x with S754_infinity _ => true | _ => false end.
Definition f64_is_finite (x : f64) : bool :=
  match x with S754_zero _ | S754_finite _ _ _ => true | _ => false end.

Definition signed (s : bool) (m : Z) : Z := if s then - m else m.

(** [x.floor()] *)
Definition f64_floor (x : f64) : f64 :=
  match x with
  | S754_finite s m e =>
      if 0 <=? e then x else binary_normalize 53 1024 (Z.shiftr (signed s (Z.pos m)) (- e)) 0 s
  | _ => x
  end.

(** [x as i64]: towards zero, saturating, NaN to 0. *)
Definition f64_as_i64 (x : f64) : Z :=
  let clamp n := Z.max (- 2 ^ 63) (Z.min n (2 ^ 63 - 1)) in
  match x with
  | S754_zero _ | S754_nan => 0
  | S754_infinity s => clamp (signed s (2 ^ 63))
  | S754_finite s m e => clamp (signed s (Z.shiftl (Z.pos m) e))
  end.

(** The integer nearest to [a / b], ties to even. *)
Definition round_half_even (a b : Z) : Z :=
  let q := a / b in
  let r := a mod b in
  match 2 * r ?= b with
  | Lt => q
  | Eq => if Z.even q then q else q + 1
  | Gt => q + 1
  end.

Fixpoint zeros (n : nat) : string :=
  match n with O => EmptyString | S n => String "0"%char (zeros n) end.

(** [n] as at least [k] digits. *)
Definition pad (k : nat) (n : Z) : string :=
  let s := fmt n in zeros (k - String.length s) +:+ s.

(** The value of [m * 2 ^ e] in units of [10 ^ -k]. *)
Definition fixed_units (k : nat) (m e : Z) : Z :=
  if 0 <=? e then m * 2 ^ e * 10 ^ Z.of_nat k
  else round_half_even (m * 10 ^ Z.of_nat k) (2 ^ (- e)).

(** [format!("{x:.k}")], for [k > 0] *)
Definition fmt_fixed (k : nat) (x : f64) : string :=
  let show (s : bool) (units : Z) :=
    (if s then "-" else "") +:+ fmt (units / 10 ^ Z.of_nat k) +:+ "." +:+
    pad k (units mod 10 ^ Z.of_nat k) in
  match x with
  | S754_nan => "NaN"
  | S754_infinity s => (if s then "-" else "") +:+ "inf"
  | S754_zero s => show s 0
  | S754_finite s m e => show s (fixed_units k (Z.pos m) e)
  end.

(** ** Rounding *)

Lemma round_half_even_near a b : 0 < b → Z.abs (2 * (round_half_even a b * b - a)) ≤ b.
Proof.
  intros Hb. unfold round_half_even. pose proof (Z.div_mod a b) as Hd.
  pose proof (Z.mod_pos_bound a b Hb) as Hr. set (q := a / b) in *. set (r := a mod b) in *.
  destruct (Z.compare_spec (2 * r) b); [destruct (Z.even q)|..]; nia.
Qed.

(** What is printed is within half a unit of the last digit. *)
Lemma fixed_units_near k m e :
  e < 0 → Z.abs (2 * (fixed_units k m e * 2 ^ (- e) - m * 10 ^ Z.of_nat k)) ≤ 2 ^ (- e).
Proof.
  intros He. unfold fixed_units. rewrite (proj2 (Z.leb_gt 0 e)) by done.
  apply round_half_even_near, Z.pow_pos_nonneg; lia.
Qed.

(** ** Examples *)

Example one_over_three : fmt_fixed 6 (f64_div (f64_of_Z 1) (f64_of_Z 3)) = "0.333333".
Proof. vm_compute. reflexivity. Qed.
Example quarter : fmt_fixed 1 (f64_div (f64_of_Z 1) (f64_of_Z 4)) = "0.2".
Proof. vm_compute. reflexivity. Qed.
Example floor_pi : f64_as_i64 (f64_floor (f64_div (f64_of_Z 22) (f64_of_Z 7))) = 3.
Proof. vm_compute. reflexivity. Qed.
Example tenth : fmt_fixed 3 (f64_div (f64_of_Z 1) (f64_of_Z 10)) = "0.100".
Proof. vm_compute. reflexivity. Qed.
