(* ===== verification/Roster.v ===== *)
(** * RPC node roster ([p256-registrar/src/roster.rs])

    The selection and cooldown state machine behind the RPC pool: round-robin
    per lane, a failure table shared by the lanes, and the forced pick when
    every node is cooling.  [usize] cursors are 64-bit and wrap. *)
From S2P Require Export Prelude.
From stdpp Require Import options.

Definition RPC_COOLDOWN_MS : Z := 60_000.
Definition MAX_READ_ATTEMPTS : nat := 3.

Inductive Lane := Read | Write.

Record Roster := mkRoster {
  reads : list string;
  writes : list string;
  read_cursor : Z;
  write_cursor : Z;
  failed : gmap string Z;   (** url → failed_at_ms, shared between lanes *)
}.

Definition new (reads writes : list string) : Roster :=
  {| reads := reads; writes := writes; read_cursor := 0; write_cursor := 0; failed := ∅ |}.

Definition urls (lane : Lane) (r : Roster) : list string :=
  match lane with Read => reads r | Write => writes r end.

Definition cursor (lane : Lane) (r : Roster) : Z :=
  match lane with Read => read_cursor r | Write => write_cursor r end.

Definition set_failed (r : Roster) (f : gmap string Z) : Roster :=
  {| reads := reads r; writes := writes r; read_cursor := read_cursor r;
     write_cursor := write_cursor r; failed := f |}.

Definition set_cursor (lane : Lane) (r : Roster) (c : Z) : Roster :=
  match lane with
  | Read => {| reads := reads r; writes := writes r; read_cursor := c;
               write_cursor := write_cursor r; failed := failed r |}
  | Write => {| reads := reads r; writes := writes r; read_cursor := read_cursor r;
                write_cursor := c; failed := failed r |}
  end.

Definition advance (lane : Lane) (r : Roster) : Z * Roster :=
  let current := cursor lane r in
  (current, set_cursor lane r (wrap64 (current + 1))).

Definition available (url : string) (now_ms : Z) (r : Roster) : bool * Roster :=
  match failed r !! url with
  | Some at_ =>
      if sat_sub now_ms at_ <? RPC_COOLDOWN_MS then (false, r)
      else (true, set_failed r (delete url (failed r)))
  | None => (true, r)
  end.

Definition mark_failed (url : string) (now_ms : Z) (r : Roster) : Roster :=
  set_failed r (<[url := now_ms]> (failed r)).

Definition mark_healthy (url : string) (r : Roster) : Roster :=
  set_failed r (delete url (failed r)).

(** [self.reads[current].clone()] with [current = cursor % len]. *)
Definition node_at (lane : Lane) (len : nat) (c : Z) (r : Roster) : option string :=
  urls lane r !! Z.to_nat (c mod Z.of_nat len).

Fixpoint select_loop (n : nat) (lane : Lane) (len : nat) (now_ms : Z) (r : Roster)
    : option string * Roster :=
  match n with
  | O => (* every node is cooling: force-pick the next one *)
      let '(c, r) := advance lane r in (node_at lane len c r, r)
  | S n =>
      let '(c, r) := advance lane r in
      match node_at lane len c r with
      | None => (None, r)
      | Some url =>
          let '(ok, r) := available url now_ms r in
          if ok then (Some url, r) else select_loop n lane len now_ms r
      end
  end.

Definition select (lane : Lane) (now_ms : Z) (r : Roster) : option string * Roster :=
  let len := length (urls lane r) in
  if (len =? 0)%nat then (None, r) else select_loop len lane len now_ms r.

Definition read_attempts (r : Roster) : nat := length (reads r) `min` MAX_READ_ATTEMPTS.

(** [urls.iter().any(|url| self.available(url, now_ms))]: stops at the first
    eligible node, healing the expired entries it inspected. *)
Fixpoint any_available (us : list string) (now_ms : Z) (r : Roster) : bool * Roster :=
  match us with
  | [] => (false, r)
  | u :: us =>
      let '(ok, r) := available u now_ms r in
      if ok then (true, r) else any_available us now_ms r
  end.

Definition circuit_state (now_ms : Z) (r : Roster) : string * Roster :=
  let '(ok, r) := any_available (reads r) now_ms r in
  (if ok then "closed" else "open", r).

(** ** Specification vocabulary *)

(** A node is cooling when its last recorded failure is less than the
    cooldown ago. *)
Definition cooling (r : Roster) (now_ms : Z) (url : string) : bool :=
  match failed r !! url with
  | Some at_ => sat_sub now_ms at_ <? RPC_COOLDOWN_MS
  | None => false
  end.

(** ** Lemmas *)

Lemma available_fst url now r : (available url now r).1 = negb (cooling r now url).
Proof. unfold available, cooling. repeat case_match; naive_solver. Qed.

Lemma available_urls url now r lane : urls lane (available url now r).2 = urls lane r.
Proof. unfold available. repeat case_match; by destruct lane. Qed.

Lemma available_cursor url now r lane : cursor lane (available url now r).2 = cursor lane r.
Proof. unfold available. repeat case_match; by destruct lane. Qed.

(** Inspecting a node never changes which nodes are cooling. *)
Lemma available_cooling url now r u :
  cooling (available url now r).2 now u = cooling r now u.
Proof.
  unfold available, cooling. destruct (failed r !! url) as [a|] eqn:Hu; [|done].
  destruct (Z.ltb_spec (sat_sub now a) RPC_COOLDOWN_MS) as [|Hge]; [done|]. simpl.
  destruct (decide (url = u)) as [->|Hne].
  - rewrite lookup_delete_eq, Hu. symmetry. by apply Z.ltb_ge.
  - by rewrite lookup_delete_ne.
Qed.

Lemma advance_urls lane lane' r : urls lane' (advance lane r).2 = urls lane' r.
Proof. by destruct lane, lane'. Qed.

Lemma advance_cooling lane r now u : cooling (advance lane r).2 now u = cooling r now u.
Proof. by destruct lane. Qed.

Lemma advance_cursor lane r : cursor lane (advance lane r).2 = wrap64 (cursor lane r + 1).
Proof. by destruct lane. Qed.

#[export] Hint Rewrite available_urls available_cursor available_cooling
  advance_urls advance_cooling advance_cursor : registry.

Lemma any_available_spec us now r :
  (any_available us now r).1 = existsb (λ u, negb (cooling r now u)) us.
Proof.
  revert r. induction us as [|u us IH]; intros r; simpl; [done|].
  pose proof (available_fst u now r) as Hf. pose proof (available_cooling u now r) as Hc.
  destruct (available u now r) as [ok r'] eqn:Ha. simpl in *. subst ok.
  destruct (cooling r now u) eqn:Hu; simpl; [|done].
  rewrite IH. clear IH. induction us as [|v us IHus]; simpl; [done|]. by rewrite Hc, IHus.
Qed.

(** The nodes the cursor visits from [c] on. *)
Definition visit (us : list string) (c : Z) : option string :=
  us !! Z.to_nat (c mod Z.of_nat (length us)).

Lemma visit_is_Some us c : us ≠ [] → ∃ u, visit us c = Some u ∧ u ∈ us.
Proof.
  intros Hne. destruct us as [|u0 us0] eqn:Hus; [done|]. rewrite <-Hus.
  assert (0 < Z.of_nat (length us)) by (rewrite Hus; simpl; lia).
  pose proof (Z.mod_pos_bound c (Z.of_nat (length us)) ltac:(done)).
  destruct (lookup_lt_is_Some_2 us (Z.to_nat (c mod Z.of_nat (length us)))) as [u Hu]; [lia|].
  exists u. split; [done|]. by eapply list_elem_of_lookup_2.
Qed.

(** The first non-cooling node among the next [n] visited ones. *)
Fixpoint first_ready (n : nat) (us : list string) (c : Z) (ready : string → bool) : option string :=
  match n with
  | O => None
  | S n =>
      match visit us c with
      | Some u => if ready u then Some u else first_ready n us (c + 1) ready
      | None => None
      end
  end.

(** How far the cursor moves in such a scan (the forced pick included). *)
Fixpoint probes (n : nat) (us : list string) (c : Z) (ready : string → bool) : Z :=
  match n with
  | O => 1
  | S n =>
      match visit us c with
      | Some u => if ready u then 1 else 1 + probes n us (c + 1) ready
      | None => 1
      end
  end.

Lemma select_loop_spec n lane len now r us c :
  urls lane r = us → len = length us → us ≠ [] → cursor lane r = c →
  0 ≤ c → c + Z.of_nat n + 1 < 2 ^ 64 →
  (select_loop n lane len now r).1 =
    (match first_ready n us c (λ u, negb (cooling r now u)) with
     | Some u => Some u | None => visit us (c + Z.of_nat n) end) ∧
  (∀ u, cooling (select_loop n lane len now r).2 now u = cooling r now u) ∧
  (∀ l, urls l (select_loop n lane len now r).2 = urls l r) ∧
  cursor lane (select_loop n lane len now r).2 = c + probes n us c (λ u, negb (cooling r now u)).
Proof.
  revert r c. induction n as [|n IH]; intros r c Hus -> Hne Hc Hc0 Hw; simpl.
  - change (set_cursor lane r (wrap64 (cursor lane r + 1))) with (advance lane r).2.
    unfold node_at. rewrite !Z.add_0_r. split_and!.
    + rewrite advance_urls, Hus. unfold visit. by rewrite Hc.
    + intros u. apply advance_cooling.
    + intros l. apply advance_urls.
    + rewrite advance_cursor, Hc. unfold wrap64. apply Z.mod_small. lia.
  - change (set_cursor lane r (wrap64 (cursor lane r + 1))) with (advance lane r).2.
    remember (advance lane r).2 as r1 eqn:Hr1.
    unfold node_at. rewrite Hr1, advance_urls, <-Hr1, Hus, Hc. fold (visit us c).
    destruct (visit_is_Some us c Hne) as (u & Hu & _). rewrite Hu.
    assert (Hf : (available u now r1).1 = negb (cooling r now u))
      by by rewrite available_fst, Hr1, advance_cooling.
    destruct (available u now r1) as [ok r2] eqn:Ha. simpl in Hf.
    assert (Hcool : ∀ v, cooling r2 now v = cooling r now v).
    { intros v. pose proof (available_cooling u now r1 v) as E. rewrite Ha in E. simpl in E.
      by rewrite E, Hr1, advance_cooling. }
    assert (Hurls : ∀ l, urls l r2 = urls l r).
    { intros l. pose proof (available_urls u now r1 l) as E. rewrite Ha in E. simpl in E.
      by rewrite E, Hr1, advance_urls. }
    assert (Hcur : cursor lane r2 = c + 1).
    { pose proof (available_cursor u now r1 lane) as E. rewrite Ha in E. simpl in E.
      rewrite E, Hr1, advance_cursor, Hc. unfold wrap64. apply Z.mod_small. lia. }
    subst ok. destruct (cooling r now u) eqn:Hcu; simpl.
    + destruct (IH r2 (c + 1)) as (I1 & I2 & I3 & I4);
        [by rewrite Hurls|done|done|done|lia|lia|].
      rewrite I1. split_and!.
      * replace (c + 1 + Z.of_nat n) with (c + Z.of_nat (S n)) by lia.
        assert (Hext : ∀ m d, first_ready m us d (λ v, negb (cooling r2 now v)) =
                              first_ready m us d (λ v, negb (cooling r now v))).
        { clear -Hcool. induction m as [|m IHm]; intros d; simpl; [done|].
          destruct (visit us d); [|done]. by rewrite Hcool, IHm. }
        by rewrite Hext.
      * intros v. by rewrite I2.
      * intros l. by rewrite I3.
      * rewrite I4.
        assert (Hext : ∀ m d, probes m us d (λ v, negb (cooling r2 now v)) =
                              probes m us d (λ v, negb (cooling r now v))).
        { clear -Hcool. induction m as [|m IHm]; intros d; simpl; [done|].
          destruct (visit us d); [|done]. by rewrite Hcool, IHm. }
        rewrite Hext. lia.
    + split_and!; [done|done|done|lia].
Qed.

Lemma first_ready_elem n us c ready u :
  first_ready n us c ready = Some u → u ∈ us ∧ ready u = true.
Proof.
  revert c. induction n as [|n IH]; intros c; simpl; [done|].
  destruct (visit us c) as [v|] eqn:Hv; [|done]. destruct (ready v) eqn:Hr.
  - intros [= <-]. split; [|done]. by eapply list_elem_of_lookup_2.
  - apply IH.
Qed.

(** A full turn of the cursor visits every node of the lane. *)
Lemma visit_surj us c u :
  u ∈ us → 0 ≤ c → ∃ i, (i < length us)%nat ∧ visit us (c + Z.of_nat i) = Some u.
Proof.
  intros [j Hj]%list_elem_of_lookup_1 Hc.
  pose proof (lookup_lt_Some _ _ _ Hj) as Hlt. set (L := Z.of_nat (length us)) in *.
  assert (HL : 0 < L) by lia.
  exists (Z.to_nat ((Z.of_nat j - c) mod L)).
  pose proof (Z.mod_pos_bound (Z.of_nat j - c) L HL). split; [lia|].
  unfold visit. fold L. rewrite Z2Nat.id by lia.
  rewrite Zplus_mod_idemp_r. replace (c + (Z.of_nat j - c)) with (Z.of_nat j) by lia.
  rewrite Z.mod_small by lia. by rewrite Nat2Z.id.
Qed.

Lemma first_ready_None n us c ready :
  us ≠ [] → first_ready n us c ready = None →
  ∀ i u, (i < n)%nat → visit us (c + Z.of_nat i) = Some u → ready u = false.
Proof.
  intros Hne. revert c. induction n as [|n IH]; intros c; simpl; [lia|].
  destruct (visit_is_Some us c Hne) as (v & Hv & _). rewrite Hv.
  destruct (ready v) eqn:Hr; [done|]. intros Hn [|i] u Hi Hu.
  - rewrite Z.add_0_r in Hu. congruence.
  - apply (IH (c + 1) Hn i u); [lia|]. by replace (c + 1 + Z.of_nat i) with (c + Z.of_nat (S i)) by lia.
Qed.

Lemma visit_period us c : us ≠ [] → visit us (c + Z.of_nat (length us)) = visit us c.
Proof.
  intros Hne. unfold visit. do 2 f_equal.
  rewrite <-Zplus_mod_idemp_r, Z_mod_same_full, Z.add_0_r. done.
Qed.

(** The precise outcome of [select] on a non-empty lane. *)
Lemma select_nonempty lane now r us c :
  urls lane r = us → us ≠ [] → cursor lane r = c → 0 ≤ c →
  c + Z.of_nat (length us) + 1 < 2 ^ 64 →
  (select lane now r).1 =
    (match first_ready (length us) us c (λ u, negb (cooling r now u)) with
     | Some u => Some u | None => visit us c end) ∧
  (∀ u, cooling (select lane now r).2 now u = cooling r now u) ∧
  (∀ l, urls l (select lane now r).2 = urls l r) ∧
  cursor lane (select lane now r).2 =
    c + probes (length us) us c (λ u, negb (cooling r now u)).
Proof.
  intros Hus Hne Hc Hc0 Hw. unfold select. rewrite Hus.
  destruct (length us =? 0)%nat eqn:Hl; [by apply Nat.eqb_eq, nil_length_inv in Hl|].
  destruct (select_loop_spec (length us) lane (length us) now r us c) as (H1&H2&H3&H4); try done.
  rewrite H1, visit_period by done. done.
Qed.

(** A scan heals expired entries only. *)
Lemma available_failed url now r u :
  cooling r now u = true → failed (available url now r).2 !! u = failed r !! u.
Proof.
  intros Hu. unfold available, cooling in *. destruct (failed r !! url) as [a|] eqn:Ha; [|done].
  destruct (_ <? _) eqn:Hlt; [done|]. simpl. apply lookup_delete_ne. intros ->.
  rewrite Ha in Hu. congruence.
Qed.

Lemma select_loop_failed n lane len now r u :
  cooling r now u = true → failed (select_loop n lane len now r).2 !! u = failed r !! u.
Proof.
  revert r. induction n as [|n IH]; intros r Hu; simpl; [by destruct lane|].
  change (set_cursor lane r (wrap64 (cursor lane r + 1))) with (advance lane r).2.
  assert (failed (advance lane r).2 = failed r) as Hf by by destruct lane.
  rewrite <-(advance_cooling lane) in Hu. rewrite <-Hf. set (r1 := (advance lane r).2) in *.
  destruct (node_at _ _ _ _) as [url|]; [|done].
  pose proof (available_failed url now r1 u Hu) as Ha. pose proof (available_cooling url now r1 u) as Hc.
  destruct (available url now r1) as [[] r2]; simpl in *; [done|]. rewrite <-Ha. apply IH. by rewrite Hc.
Qed.

Lemma select_failed lane now r u :
  cooling r now u = true → failed (select lane now r).2 !! u = failed r !! u.
Proof. unfold select. case_match; [done|]. apply select_loop_failed. Qed.

Lemma probes_bound n us c f : 0 ≤ probes n us c f ≤ Z.of_nat n + 1.
Proof.
  revert c. induction n as [|n IH]; intros c; cbn [probes]; [lia|].
  specialize (IH (c + 1)). case_match; [|lia]. case_match; lia.
Qed.

(** A node that is not cooling stays so. *)
Lemma cooling_later r now now' u : now ≤ now' → cooling r now u = false → cooling r now' u = false.
Proof. unfold cooling, sat_sub. intros ?. case_match; [|done]. rewrite !Z.ltb_ge. lia. Qed.

Lemma mark_failed_cooling r now now' u v :
  u ≠ v → cooling (mark_failed v now r) now' u = cooling r now' u.
Proof. intros ?. unfold cooling, mark_failed. simpl. by rewrite lookup_insert_ne. Qed.

(** ** Properties *)

(** Selection: an empty lane yields no node.  Otherwise [select] always
    returns a node of the lane; it returns a node that is not cooling whenever
    the lane has one (and a forced pick otherwise, so an outage keeps
    probing), and the choice neither changes the lanes nor which nodes are
    cooling. *)
Theorem select_spec lane now r :
  0 ≤ cursor lane r → cursor lane r + Z.of_nat (length (urls lane r)) + 1 < 2 ^ 64 →
  match (select lane now r).1 with
  | None => urls lane r = []
  | Some u =>
      u ∈ urls lane r ∧
      (cooling r now u = true → ∀ v, v ∈ urls lane r → cooling r now v = true)
  end ∧
  (∀ u, cooling (select lane now r).2 now u = cooling r now u) ∧
  (∀ l, urls l (select lane now r).2 = urls l r).
Proof.
  intros Hc0 Hw. destruct (urls lane r) as [|u0 us0] eqn:Hus.
  { unfold select. rewrite Hus. simpl. done. }
  rewrite <-Hus in *. remember (urls lane r) as us eqn:Hus'.
  assert (Hne : us ≠ []) by by rewrite Hus.
  destruct (select_nonempty lane now r us (cursor lane r)) as (H1 & H2 & H3 & _); try done.
  split; [|done]. rewrite H1.
  destruct (first_ready _ _ _ _) as [u|] eqn:Hf.
  - apply first_ready_elem in Hf as [? ?%negb_true_iff]. split; [done|congruence].
  - destruct (visit_is_Some us (cursor lane r) Hne) as (u & -> & Hu). split; [done|].
    intros _ v Hv. destruct (visit_surj us (cursor lane r) v Hv Hc0) as (i & Hi & Hvi).
    by apply (first_ready_None _ _ _ _ Hne Hf i v Hi), negb_false_iff in Hvi.
Qed.

Lemma select_spec_witness :
  match (select Read 1_000 (mark_failed "a" 1_000 (new ["a"; "b"; "c"] []))).1 with
  | None => False | Some u => u = "b" end.
Proof.
  pose proof (select_spec Read 1_000 (mark_failed "a" 1_000 (new ["a"; "b"; "c"] []))
    ltac:(by vm_compute) ltac:(by vm_compute)) as [H _]. vm_compute in H |- *. done.
Defined.

(** The circuit verdict: "open" exactly when every read node is cooling,
    and reading it never changes which nodes are cooling. *)
Theorem circuit_state_spec now r :
  ((circuit_state now r).1 = "open" ↔ ∀ u, u ∈ reads r → cooling r now u = true) ∧
  ((circuit_state now r).1 = "closed" ↔ ∃ u, u ∈ reads r ∧ cooling r now u = false).
Proof.
  unfold circuit_state. pose proof (any_available_spec (reads r) now r) as H.
  destruct (any_available (reads r) now r) as [ok r']. simpl in *. subst ok.
  assert (He : existsb (λ u, negb (cooling r now u)) (reads r) = true ↔
               ∃ u, u ∈ reads r ∧ cooling r now u = false).
  { rewrite existsb_exists. setoid_rewrite <-list_elem_of_In. setoid_rewrite negb_true_iff. done. }
  destruct (existsb _ _) eqn:E.
  - destruct He as [He _]. destruct (He eq_refl) as (u & Hu & Hcu). split; [|naive_solver].
    split; [done|]. intros Hall. rewrite Hall in Hcu; done.
  - split; [|by split; [done|intros ?%He]]. split; [|done]. intros _ u Hu.
    destruct (cooling r now u) eqn:Hcu; [done|]. by assert (false = true) by (apply He; eauto).
Qed.

(** Consecutive selections at one instant. *)
Fixpoint select_many (k : nat) (lane : Lane) (now : Z) (r : Roster) : list (option string) :=
  match k with
  | O => []
  | S k => let '(u, r) := select lane now r in u :: select_many k lane now r
  end.

Lemma first_ready_const b n us c :
  us ≠ [] → first_ready (S n) us c (λ _, b) = if b then visit us c else None.
Proof.
  intros Hne. revert c. induction n as [|n IH]; intros c; simpl;
    destruct (visit_is_Some us c Hne) as (u & -> & _); destruct b; try done.
  by specialize (IH (c + 1)).
Qed.

Lemma probes_const b n us c :
  us ≠ [] → probes (S n) us c (λ _, b) = if b then 1 else Z.of_nat n + 2.
Proof.
  intros Hne. revert c. induction n as [|n IH]; intros c; simpl;
    destruct (visit_is_Some us c Hne) as (u & -> & _); destruct b; try done.
  specialize (IH (c + 1)). simpl in IH.
  destruct (visit_is_Some us (c + 1) Hne) as (u' & Hu' & _). rewrite Hu' in IH |- *. lia.
Qed.

Lemma first_ready_ext n us c f g :
  (∀ u, u ∈ us → f u = g u) →
  first_ready n us c f = first_ready n us c g ∧ probes n us c f = probes n us c g.
Proof.
  intros Hfg. revert c. induction n as [|n IH]; intros c; simpl; [done|].
  destruct (visit us c) as [u|] eqn:Hu; [|done].
  rewrite (Hfg u) by by eapply list_elem_of_lookup_2.
  destruct (IH (c + 1)) as [-> ->]. done.
Qed.

(** Rotation: while the nodes of a lane are all healthy, and equally while
    they are all cooling (a total outage), [k] consecutive selections return
    the nodes in round-robin order from the cursor, so an outage probes every
    endpoint in turn instead of hammering one. *)
Theorem select_rotates k lane now r (b : bool) :
  urls lane r ≠ [] → 0 ≤ cursor lane r →
  cursor lane r + (Z.of_nat k + 1) * (Z.of_nat (length (urls lane r)) + 1) < 2 ^ 64 →
  (∀ u, u ∈ urls lane r → cooling r now u = b) →
  select_many k lane now r =
    (λ i, visit (urls lane r) (cursor lane r + Z.of_nat i)) <$> seq 0 k.
Proof.
  revert r. induction k as [|k IH]; intros r Hne Hc0 Hw Hb; [done|]. simpl.
  remember (urls lane r) as us eqn:Hus. remember (cursor lane r) as c eqn:Hc.
  destruct (select_nonempty lane now r us c) as (H1 & H2 & H3 & H4); try done; [nia|].
  assert (Hlen : length us = S (pred (length us))).
  { destruct us; [done|]. simpl. lia. }
  destruct (first_ready_ext (length us) us c (λ u, negb (cooling r now u)) (λ _, negb b)) as [Ef Ep].
  { intros u Hu. by rewrite Hb. }
  rewrite Ef, Hlen, first_ready_const in H1 by done.
  rewrite Ep, Hlen, probes_const in H4 by done.
  destruct (select lane now r) as [u r'] eqn:Hs. simpl in H1, H2, H3, H4. rewrite H1. f_equal.
  { rewrite Z.add_0_r. destruct b; simpl; [done|]. by destruct (visit us c). }
  rewrite (IH r'); [|rewrite H3, <-Hus; done|rewrite H4; destruct b; simpl; lia|rewrite H3, <-Hus, H4; destruct b; simpl; nia|
                     intros v Hv; rewrite H2; apply Hb; by rewrite H3, <-Hus in Hv].
  rewrite H3, <-Hus, H4, <-fmap_S_seq, <-list_fmap_compose. apply list_fmap_ext.
  intros i x Hx. unfold compose. destruct b; simpl.
  - rewrite <-(visit_period us (c + Z.of_nat (S x))) by done. f_equal. rewrite Hlen. lia.
  - f_equal. lia.
Qed.

Lemma select_rotates_witness :
  select_many 4 Read 1 (mark_failed "b" 0 (mark_failed "a" 0 (new ["a"; "b"] []))) =
    [Some "a"; Some "b"; Some "a"; Some "b"].
Proof.
  rewrite (select_rotates 4 Read 1 (mark_failed "b" 0 (mark_failed "a" 0 (new ["a"; "b"] []))) true).
  - by vm_compute.
  - done.
  - by vm_compute.
  - by vm_compute.
  - intros u Hu. simpl in Hu. repeat (apply elem_of_cons in Hu as [->|Hu]; [by vm_compute|]).
    by apply not_elem_of_nil in Hu.
Defined.
