(* ===== verification/ChainTypes.v ===== *)
(** * The chain client's vocabulary ([p256-index-server/src/chain.rs], types)

    What the chain client hands to the worker, the sweep and the HTTP layer. *)
From S2P Require Export Records.
From stdpp Require Import options.

(** [WalletRole::Register.ledger_name()] *)
Definition REGISTER_ROLE : string := "register".

Record Broadcast := mkBroadcast {
  bc_hash : string;
  bc_fees_wei : option (Z * Z);
}.

Inductive ReceiptOutcome :=
| Success (on_chain_id : option Z)
| RReverted.

Record Totals := mkTotals {
  t_entries : Z;
  t_units : Z;
  t_references : Z;
  t_rp_ids : Z;
}.

Record KeyProfile := mkKeyProfile {
  kp_entry : Entry;
  kp_group_total : Z;
  kp_group_ids : list Z;
  kp_reference_total : Z;
  kp_reference_ids : list Z;
}.

Record GroupDetail := mkGroupDetail {
  gd_unit : Unit;
  gd_member_total : Z;
  gd_members : list Entry;
  gd_reference_total : Z;
  gd_reference_ids : list Z;
}.
