(* ===== verification/Rpc.v ===== *)
(** * The RPC pool ([p256-index-server/src/chain.rs], [RpcPool])

    JSON-RPC over a roster of endpoints: one POST and the reading of its
    answer ([call_on]), and the failover loop of the read lane ([call]).  The
    roster is shared with every other call of the process, so its accesses
    are operations of the program, like the POST itself; the answers are
    arbitrary.  A concrete shell answers them from a [Roster]. *)
From Stdlib Require Import Ascii String Strings.Byte.
From S2P Require Export Program Roster Lookup.
From stdpp Require Import options.

(** ** [serde_json::Value] accessors *)

Definition json_get (k : string) (j : Json) : option Json :=
  match j with
  | JObj l => snd <$> (snd <$> list_find (λ kv : string * Json, kv.1 = k) l)
  | _ => None
  end.
Definition as_str (j : Json) : option string := match j with JStr s => Some s | _ => None end.
Definition as_array (j : Json) : option (list Json) := match j with JArr l => Some l | _ => None end.
Definition is_null (j : Json) : bool := match j with JNull => true | _ => false end.

(** ** Operations *)

(** What a POST came back with: nothing or an error status, a body that is
    not JSON, a JSON body. *)
Inductive HttpReply := NoAnswer | BadBody | Answer (body : Json).

Inductive RpcOp :=
| ReadAttempts
| Select (lane : Lane)
| MarkFailed (url : string)
| MarkHealthy (url : string)
| CircuitState
| Post (url method : string) (params : Json)
| Elapsed
| Sleep (ms : Z).

Inductive RpcRes :=
| RAttempts (n : nat)
| RUrl (url : option string)
| RCircuit (state : string)
| RDone
| RReply (r : HttpReply)
| RElapsed (ms : Z).

(** The answer to each operation, at its own type. *)
Definition attempts_of (r : RpcRes) : nat := match r with RAttempts n => n | _ => O end.
Definition url_of (r : RpcRes) : option string := match r with RUrl u => u | _ => None end.
Definition circuit_of (r : RpcRes) : string := match r with RCircuit s => s | _ => "open" end.
Definition reply_of (r : RpcRes) : HttpReply := match r with RReply r => r | _ => NoAnswer end.
Definition elapsed_of (r : RpcRes) : Z := match r with RElapsed ms => ms | _ => 0 end.

Definition CProg : Type → Type := Prog RpcOp RpcRes.
Definition CFlow (A : Type) : Type := CProg (result A ChainError).

(** [serde_json::to_string] on a value, as error details print it. *)
Class JsonCrate := { json_to_string : Json → string }.

Section rpc.
Context `{JsonCrate}.

(** The reading of a reply. *)
Definition rpc_error (error : Json) : ChainError :=
  let message := default "RPC rejected request" (json_get "message" error ≫= as_str) in
  let detail := default "" (json_to_string <$> json_get "data" error) in
  let text := message +:+ " " +:+ detail in
  if is_revert text then Reverted text else Rejected text.

Definition read_reply (r : HttpReply) : result Json ChainError :=
  match r with
  | NoAnswer => Err Unavailable
  | BadBody => Err InvalidResponse
  | Answer body =>
      match json_get "error" body with
      | Some error => Err (rpc_error error)
      | None => ok_or InvalidResponse (json_get "result" body)
      end
  end.

Definition call_on (url method : string) (params : Json) : CFlow Json :=
  await r := Post url method params in
  match read_reply (reply_of r) with
  | Ok v => await _r := MarkHealthy url in Ret (Ok v)
  | Err e => Ret (Err e)
  end.

Fixpoint call_loop (attempts : nat) (method : string) (params : Json) : CFlow Json :=
  match attempts with
  | O => Ret (Err Unavailable)
  | S attempts =>
      await r := Select Read in
      match url_of r with
      | None => Ret (Err Unavailable)
      | Some url =>
          pbind (call_on url method params) (λ m,
            match m with
            | Ok v => Ret (Ok v)
            | Err (Reverted error) => Ret (Err (Reverted error))
            | Err _ => await _r := MarkFailed url in call_loop attempts method params
            end)
      end
  end.

Definition rpc_call (method : string) (params : Json) : CFlow Json :=
  await r := ReadAttempts in call_loop (attempts_of r) method params.

Definition select_write : CProg (option string) :=
  await r := Select Write in Ret (url_of r).

Definition read_available : CProg bool :=
  await r := CircuitState in Ret (bool_decide (circuit_of r = "closed")).
End rpc.

(** ** The process's shell

    The operations answered from the shared roster, with the monotonic clock;
    [post] is the network. *)

Record RpcState (N : Type) := mkRpcState {
  rpc_roster : Roster;
  rpc_clock : Z;
  rpc_net : N;
}.
Arguments mkRpcState {N} _ _ _.
Arguments rpc_roster {N} _.
Arguments rpc_clock {N} _.
Arguments rpc_net {N} _.

Class Network (N : Type) := {
  post : string → string → Json → N → HttpReply * Z * N;
  post_time url method params n : 0 ≤ (post url method params n).1.2;
}.

Section shell.
Context {N : Type} `{Network N}.

Definition with_roster (f : Roster → Roster) (s : RpcState N) : RpcState N :=
  mkRpcState (f (rpc_roster s)) (rpc_clock s) (rpc_net s).

(** A POST takes the time its network says, a sleep the time it asks. *)
Definition rpc_shell (op : RpcOp) (s : RpcState N) : RpcRes * RpcState N :=
  match op with
  | ReadAttempts => (RAttempts (read_attempts (rpc_roster s)), s)
  | Select lane =>
      let '(u, r) := select lane (rpc_clock s) (rpc_roster s) in
      (RUrl u, mkRpcState r (rpc_clock s) (rpc_net s))
  | CircuitState =>
      let '(c, r) := circuit_state (rpc_clock s) (rpc_roster s) in
      (RCircuit c, mkRpcState r (rpc_clock s) (rpc_net s))
  | MarkFailed url => (RDone, with_roster (mark_failed url (rpc_clock s)) s)
  | MarkHealthy url => (RDone, with_roster (mark_healthy url) s)
  | Post url method params =>
      let '(r, ms, n) := post url method params (rpc_net s) in
      (RReply r, mkRpcState (rpc_roster s) (rpc_clock s + ms) n)
  | Elapsed => (RElapsed (rpc_clock s), s)
  | Sleep ms => (RDone, mkRpcState (rpc_roster s) (rpc_clock s + ms) (rpc_net s))
  end.
End shell.

(** ** What a trace shows *)

(** An endpoint answered [method params] with [m]. *)
Definition answered_at `{JsonCrate} (t : trace RpcOp RpcRes) (url method : string) (params : Json)
    (m : result Json ChainError) : Prop :=
  ∃ r, (Post url method params, r) ∈ t ∧ read_reply (reply_of r) = m.
Definition answered `{JsonCrate} (t : trace RpcOp RpcRes) (method : string) (params : Json)
    (m : result Json ChainError) : Prop := ∃ url, answered_at t url method params m.

(** The endpoints a trace recorded as failed, in order. *)
Definition marked_failed (t : trace RpcOp RpcRes) : list string :=
  omap (λ e, match e.1 with MarkFailed url => Some url | _ => None end) t.

(** The POSTs of a trace, in order. *)
Definition posts (t : trace RpcOp RpcRes) : list (string * string * Json) :=
  omap (λ e, match e.1 with Post url method params => Some (url, method, params) | _ => None end) t.

Section rpc_lemmas.
Context `{J : JsonCrate}.

Lemma answered_at_mono t t' url method params m :
  t ⊆ t' → answered_at t url method params m → answered_at t' url method params m.
Proof. intros Ht (r & Hr & ?). exists r. auto. Qed.

Lemma answered_mono t t' method params m :
  t ⊆ t' → answered t method params m → answered t' method params m.
Proof. intros Ht (url & Ha). exists url. by eapply answered_at_mono. Qed.

Lemma posts_app t1 t2 : posts (t1 ++ t2) = posts t1 ++ posts t2.
Proof. apply omap_app. Qed.

Lemma marked_failed_app t1 t2 : marked_failed (t1 ++ t2) = marked_failed t1 ++ marked_failed t2.
Proof. apply omap_app. Qed.

Lemma exec_call_on url method params t m :
  exec (call_on url method params) t m →
  answered_at t url method params m ∧ posts t = [(url, method, params)] ∧ marked_failed t = [] ∧
  (is_ok m = true → MarkHealthy url ∈ t.*1).
Proof.
  unfold call_on. rewrite exec_req_inv. intros (r&t'&->&He).
  destruct (read_reply (reply_of r)) as [v|e] eqn:Hr.
  - apply exec_req_inv in He as (r'&t''&->&[-> ->]%exec_ret_inv).
    split_and!; [|done|done|set_solver]. exists r. split; [by left|done].
  - apply exec_ret_inv in He as [-> ->]. split_and!; [|done|done|done].
    exists r. split; [by left|done].
Qed.

(** An answer the caller keeps. *)
Definition definite (m : result Json ChainError) : bool :=
  match m with Ok _ | Err (Reverted _) => true | Err _ => false end.

(** What a call on the failover lane comes back with. *)
Definition call_outcome (n : nat) (method : string) (params : Json) (t : trace RpcOp RpcRes)
    (m : result Json ChainError) : Prop :=
  (length (posts t) ≤ n)%nat ∧
  let failures := (λ url, (url, method, params)) <$> marked_failed t in
  match m with
  | Ok _ => ∃ url, posts t = failures ++ [(url, method, params)] ∧ answered t method params m ∧
      MarkHealthy url ∈ t.*1
  | Err (Reverted _) =>
      ∃ url, posts t = failures ++ [(url, method, params)] ∧ answered t method params m
  | Err Unavailable =>
      posts t = failures ∧
      (length (posts t) = n ∨ ∃ r, (Select Read, r) ∈ t ∧ url_of r = None)
  | _ => False
  end.

Lemma call_outcome_step n method params url r0 r1 t0 t m :
  posts t0 = [(url, method, params)] → marked_failed t0 = [] →
  call_outcome n method params t m →
  call_outcome (S n) method params ((Select Read, r0) :: t0 ++ (MarkFailed url, r1) :: t) m.
Proof.
  intros Hp Hf (Hn & Hm). unfold call_outcome.
  set (t' := _ :: _ ++ _ :: _). assert (posts t' = (url, method, params) :: posts t) as ->.
  { change (posts t') with (posts (t0 ++ (MarkFailed url, r1) :: t)). by rewrite posts_app, Hp. }
  assert (marked_failed t' = url :: marked_failed t) as ->.
  { change (marked_failed t') with (marked_failed (t0 ++ (MarkFailed url, r1) :: t)).
    by rewrite marked_failed_app, Hf. }
  assert (Hin : ∀ e, e ∈ t → e ∈ t') by (subst t'; set_solver).
  assert (Ha : answered t method params m → answered t' method params m).
  { apply answered_mono. intros e. apply Hin. }
  split; [simpl; lia|]. destruct m as [v|[]]; try done.
  - destruct Hm as (u & -> & ? & Hh). exists u. split_and!; [done|auto|].
    apply list_elem_of_fmap in Hh as (e & -> & ?). apply list_elem_of_fmap. eauto.
  - destruct Hm as (-> & [Hl|(r&?&?)]); (split; [done|]); [left; simpl; congruence|eauto].
  - destruct Hm as (u & -> & ?). exists u. auto.
Qed.

Lemma exec_call_loop n method params t m :
  exec (call_loop n method params) t m → call_outcome n method params t m.
Proof.
  revert t. induction n as [|n IH]; intros t; cbn [call_loop].
  - intros [-> ->]%exec_ret_inv. split; [done|]. split; [done|by left].
  - intros (r0&t'&->&He)%exec_req_inv. destruct (url_of r0) as [url|] eqn:Hu.
    + apply exec_bind in He as (t0&t1&m0&->&Hc&Hk).
      pose proof (exec_call_on _ _ _ _ _ Hc) as (Ha & Hp & Hf & Hh).
      assert (Hdone : t1 = [] → call_outcome (S n) method params ((Select Read, r0) :: t0 ++ t1)
        match m0 with Ok v => Ok v | Err e => Err e end ∨ ∃ e, m0 = Err e ∧ ∀ s, e ≠ Reverted s).
      { intros ->. rewrite app_nil_r. set (t := _ :: t0).
        assert (posts t = [(url, method, params)]) as Hpt by done.
        assert (marked_failed t = []) as Hft by done.
        assert (answered t method params m0) as Hat.
        { exists url. eapply answered_at_mono, Ha. intros e. by right. }
        unfold call_outcome. rewrite Hpt, Hft.
        destruct m0 as [v|[]]; try (by right; eexists); left; (split; [simpl; lia|]); exists url;
          split_and!; try done. right. by apply Hh. }
      destruct m0 as [v|e].
      { apply exec_ret_inv in Hk as [-> ->]. by destruct (Hdone eq_refl) as [?|(?&?&?)]. }
      destruct e as [|s| | |s];
        [|apply exec_ret_inv in Hk as [-> ->]; destruct (Hdone eq_refl) as [?|(?&[= <-]&Hs)];
          [done|by destruct (Hs s)]|..];
        apply exec_req_inv in Hk as (r1&t2&->&Hk); by apply call_outcome_step, IH.
    + apply exec_ret_inv in He as [-> ->]. split; [simpl; lia|]. split; [done|].
      right. exists r0. split; [by left|done].
Qed.

Lemma exec_rpc_call method params t m :
  exec (rpc_call method params) t m →
  Forall (λ p, p.1.2 = method ∧ p.2 = params) (posts t) ∧
  (m = Err Unavailable ∨ definite m = true ∧ answered t method params m).
Proof.
  intros (r&t'&->&He)%exec_req_inv. apply exec_call_loop in He as (_ & Hm).
  change (posts (_ :: t')) with (posts t').
  assert (HF : Forall (λ p : string * string * Json, p.1.2 = method ∧ p.2 = params)
    ((λ url, (url, method, params)) <$> marked_failed t')).
  { apply Forall_fmap, Forall_true. by intros. }
  assert (Ha : ∀ m, answered t' method params m → answered ((ReadAttempts, r) :: t') method params m).
  { intros m0. apply answered_mono. set_solver. }
  destruct m as [v|[]]; try done.
  - destruct Hm as (u & -> & ? & _). split; [apply Forall_app; by repeat constructor|right; auto].
  - destruct Hm as [-> _]. split; [done|by left].
  - destruct Hm as (u & -> & ?). split; [apply Forall_app; by repeat constructor|right; auto].
Qed.

Lemma call_loop_no_sleep n method params t m ms :
  exec (call_loop n method params) t m → Sleep ms ∉ t.*1.
Proof.
  revert t. induction n as [|n IH]; intros t; cbn [call_loop].
  - intros [-> _]%exec_ret_inv. set_solver.
  - intros (r&t'&->&H)%exec_req_inv. destruct (url_of r) as [url|];
      [|apply exec_ret_inv in H as [-> _]; set_solver].
    apply exec_bind in H as (t1&t2&m1&->&H1&H). rewrite fmap_cons, fmap_app.
    assert (Sleep ms ∉ t1.*1) as Hn1.
    { unfold call_on in H1. apply exec_req_inv in H1 as (r1&t3&->&H1).
      destruct (read_reply (reply_of r1)); [apply exec_req_inv in H1 as (r2&t4&->&H1)|];
        apply exec_ret_inv in H1 as [-> _]; set_solver. }
    assert (Sleep ms ∉ t2.*1) as Hn2; [|set_solver].
    destruct m1 as [|[]]; try (apply exec_ret_inv in H as [-> _]; set_solver);
      apply exec_req_inv in H as (r2&t4&->&H%IH); set_solver.
Qed.

(** A call followed by the reading of its answer. *)
Lemma exec_on {A} url method params (f : Json → result A ChainError) t m :
  exec (fbind (call_on url method params) (λ v, Ret (f v))) t m →
  posts t = [(url, method, params)] ∧
  ∀ a, m = Ok a → ∃ v, answered_at t url method params (Ok v) ∧ f v = Ok a.
Proof.
  intros [(e&H&->)|(t1&t2&v&->&H&[-> ->]%exec_ret_inv)]%exec_fbind;
    apply exec_call_on in H as (Ha & Hp & _); [done|]. rewrite app_nil_r. eauto.
Qed.

Lemma exec_read {A} method params (f : Json → result A ChainError) t m :
  exec (fbind (rpc_call method params) (λ v, Ret (f v))) t m →
  Forall (λ p, p.1.2 = method ∧ p.2 = params) (posts t) ∧
  ∀ a, m = Ok a → ∃ v, answered t method params (Ok v) ∧ f v = Ok a.
Proof.
  intros [(e&H&->)|(t1&t2&v&->&H&[-> ->]%exec_ret_inv)]%exec_fbind;
    apply exec_rpc_call in H as (Hp & Ha); [done|]. rewrite app_nil_r. split; [done|].
  destruct Ha as [?|[_ Ha]]; [done|]. eauto.
Qed.

(** The failover lane: a read makes at most [read_attempts] POSTs, all of
    the same call; it succeeds or reverts only with what an endpoint
    answered, at once; every endpoint that failed it is marked failed, the
    one that answered is marked healthy, and it is unavailable only after
    all attempts failed or with no endpoint to select. *)
Theorem rpc_call_spec method params t m :
  exec (rpc_call method params) t m →
  ∃ attempts t', t = (ReadAttempts, attempts) :: t' ∧
    call_outcome (attempts_of attempts) method params t' m.
Proof.
  intros (r&t'&->&He)%exec_req_inv. exists r, t'. split; [done|]. by apply exec_call_loop.
Qed.
End rpc_lemmas.

(** ** Runs against the shared roster *)

Section rpc_runs.
Context `{J : JsonCrate} {N : Type} `{Network N}.

Definition answers (url method : string) (params : Json) (n : N) : bool :=
  definite (read_reply (post url method params n).1.1).

(** [REQUEST_TIMEOUT_MS]: the HTTP client's total timeout, ten seconds. *)
Definition REQUEST_TIMEOUT_MS : Z := 10_000.

Lemma run_call_on url method params (s : RpcState N) s' t m :
  run rpc_shell (call_on url method params) s = (s', t, m) →
  m = read_reply (post url method params (rpc_net s)).1.1 ∧
  rpc_clock s' = rpc_clock s + (post url method params (rpc_net s)).1.2 ∧
  (definite m = false → rpc_roster s' = rpc_roster s).
Proof.
  unfold call_on. cbn [run rpc_shell].
  destruct (post url method params (rpc_net s)) as [[r ms] n]. cbn [reply_of fst snd].
  destruct (read_reply r); cbn [run rpc_shell]; by intros [= <- _ <-].
Qed.

Lemma shell_clock op (s : RpcState N) :
  (∀ ms, op = Sleep ms → 0 ≤ ms) → rpc_clock s ≤ rpc_clock (rpc_shell op s).2.
Proof.
  intros Hms. destruct op as [|lane| | | |url method params| |ms]; simpl; try lia.
  - by destruct (select lane _ _).
  - by destruct (circuit_state _ _).
  - pose proof (post_time url method params (rpc_net s)).
    destruct (post url method params (rpc_net s)) as [[r ms] n]. simpl in *. lia.
  - specialize (Hms ms eq_refl). lia.
Qed.

Lemma run_clock {A} (p : CProg A) (s : RpcState N) s' t a :
  run rpc_shell p s = (s', t, a) → (∀ ms, Sleep ms ∈ t.*1 → 0 ≤ ms) →
  rpc_clock s ≤ rpc_clock s'.
Proof.
  revert s s' t a. induction p as [a0|op k IH]; intros s s' t a; cbn [run].
  - by intros [= <- _ _] _.
  - pose proof (shell_clock op s) as Hop. destruct (rpc_shell op s) as [r s1].
    destruct (run rpc_shell (k r) s1) as [[s2 t2] a2] eqn:Er. intros [= <- <- <-] Ht.
    etransitivity; [apply Hop; intros ms ->; apply Ht; by left|].
    eapply IH; [done|]. intros ms Hin. apply Ht. by right.
Qed.

(** The nodes [F] failed this very call, all recently. *)
Definition failing (F : list string) (s : RpcState N) : Prop :=
  NoDup F ∧ F ⊆ reads (rpc_roster s) ∧
  ∀ f, f ∈ F → ∃ at_, failed (rpc_roster s) !! f = Some at_ ∧
    rpc_clock s - at_ ≤ REQUEST_TIMEOUT_MS * Z.of_nat (length F).

Lemma failing_cooling F s f :
  failing F s → (length F ≤ 3)%nat → f ∈ F → cooling (rpc_roster s) (rpc_clock s) f = true.
Proof.
  intros (_ & _ & Hf) Hl Hin. destruct (Hf f Hin) as (at_ & Hat & Hle). unfold cooling. rewrite Hat.
  apply Z.ltb_lt. unfold sat_sub, REQUEST_TIMEOUT_MS, RPC_COOLDOWN_MS in *. lia.
Qed.

Lemma call_loop_survives k method params u F (s : RpcState N) :
  (length F + k = length (reads (rpc_roster s)))%nat → (length F + k ≤ 3)%nat →
  u ∈ reads (rpc_roster s) → u ∉ F → failing F s →
  cooling (rpc_roster s) (rpc_clock s) u = false →
  0 ≤ read_cursor (rpc_roster s) → read_cursor (rpc_roster s) + 4 * Z.of_nat k < 2 ^ 64 →
  (∀ n, answers u method params n = true) →
  (∀ url n, (post url method params n).1.2 ≤ REQUEST_TIMEOUT_MS) →
  definite (run rpc_shell (call_loop k method params) s).2 = true.
Proof.
  intros Hlen Hmax Hu HuF HF Hcu Hc0 Hcw Hans Htime. revert F s Hlen Hmax Hu HuF HF Hcu Hc0 Hcw.
  induction k as [|k IH]; intros F s Hlen Hmax Hu HuF HF Hcu Hc0 Hcw.
  { destruct HuF. destruct HF as (Hnd & Hsub & _).
    assert (incl (reads (rpc_roster s)) F) as Hincl.
    { apply NoDup_length_incl; [by apply NoDup_ListNoDup|lia|].
      intros x Hx%list_elem_of_In. by apply list_elem_of_In, Hsub. }
    by apply list_elem_of_In, Hincl, list_elem_of_In. }
  cbn [call_loop run rpc_shell].
  set (r := rpc_roster s) in *. set (now := rpc_clock s) in *.
  assert (Hne : urls Read r ≠ []) by (intros E; cbn [urls] in E; by rewrite E in Hu; set_solver).
  destruct (select_nonempty Read now r (urls Read r) (read_cursor r)) as (Hsel & Hcool & Hurls & Hcur);
    [done|done|done|done|cbn [urls]; lia|].
  destruct (select_spec Read now r) as (Hpick & _); [done|cbn [urls cursor]; lia|].
  pose proof (probes_bound (length (urls Read r)) (urls Read r) (read_cursor r)
    (λ u, negb (cooling r now u))) as Hpb.
  assert (Hfail : ∀ f, cooling r now f = true → failed (select Read now r).2 !! f = failed r !! f)
    by (intros; by apply select_failed).
  destruct (select Read now r) as [url r1] eqn:Es. cbn [fst snd] in *.
  destruct url as [url|]; [|done]. destruct Hpick as [Hin Hpick]. cbn [url_of].
  assert (Hready : cooling r now url = false).
  { destruct (cooling r now url) eqn:E; [|done]. rewrite (Hpick eq_refl u Hu) in Hcu. done. }
  rewrite run_bind. set (s1 := mkRpcState r1 _ _).
  destruct (run rpc_shell (call_on url method params) s1) as [[s2 t] m] eqn:Ec.
  destruct (run_call_on _ _ _ _ _ _ _ Ec) as (Hm & Hclk & Hro).
  destruct (definite m) eqn:Hd.
  { destruct m as [v|[]]; done. }
  assert (Hurl : url ≠ u).
  { intros ->. pose proof (Hans (rpc_net s1)) as Ha. unfold answers in Ha. by rewrite <-Hm, Hd in Ha. }
  assert (HurlF : url ∉ F).
  { intros Hx. eapply failing_cooling in Hx; [|done|lia]. fold r now in Hx. congruence. }
  set (s3 := with_roster (mark_failed url (rpc_clock s2)) s2).
  assert (Hreads : reads (rpc_roster s3) = reads r).
  { cbn. rewrite (Hro eq_refl). apply (Hurls Read). }
  assert (Hrc : read_cursor (rpc_roster s3) = cursor Read r1).
  { cbn. by rewrite (Hro eq_refl). }
  rewrite Hcur in Hrc. cbn [urls] in Hrc, Hpb.
  pose proof (post_time url method params (rpc_net s1)) as Hp0.
  pose proof (Htime url (rpc_net s1)) as Hp1.
  assert (Hgoal : definite (run rpc_shell (call_loop k method params) s3).2 = true).
  { apply (IH (url :: F)); rewrite ?Hreads.
    - simpl. lia.
    - simpl. lia.
    - done.
    - set_solver.
    - split; [by constructor; [|apply HF]|]. split; [rewrite Hreads; intros x [->|Hx]%elem_of_cons;
        [done|by apply HF]|].
      intros f Hf. cbn [s3 with_roster rpc_roster rpc_clock mark_failed set_failed failed].
      destruct (decide (f = url)) as [->|Hne'].
      + exists (rpc_clock s2). split; [apply lookup_insert_eq|]. unfold REQUEST_TIMEOUT_MS in *. lia.
      + apply elem_of_cons in Hf as [->|Hf]; [done|]. rewrite lookup_insert_ne by done.
        pose proof (failing_cooling _ _ _ HF ltac:(lia) Hf) as Hcf. fold r now in Hcf.
        destruct HF as (_ & _ & HF). destruct (HF f Hf) as (at_ & Hat & Hle).
        exists at_. rewrite (Hro eq_refl). split; [by rewrite <-Hat; apply Hfail|].
        rewrite Hclk. cbn [s1 rpc_clock]. fold now in Hle. simpl length. unfold REQUEST_TIMEOUT_MS in *. lia.
    - cbn [s3 with_roster rpc_roster rpc_clock]. rewrite mark_failed_cooling by done.
      rewrite (Hro eq_refl). cbn [s1 rpc_roster]. apply (cooling_later _ now); [rewrite Hclk; change (rpc_clock s1) with now; lia|].
      by rewrite Hcool.
    - lia.
    - lia. }
  destruct m as [v|[|text| | |text]]; try done; cbn [run rpc_shell]; fold s3;
    by destruct (run rpc_shell (call_loop k method params) s3) as [[s4 t4] m4].
Qed.

(** One live endpoint is enough: with at most three read endpoints, a
    read is answered whenever one of them is not cooling and answers it,
    however the others fail (each attempt bounded by the client's timeout)
    and wherever the round-robin cursor stands: a failed endpoint is not
    tried twice by one call. *)
Theorem rpc_call_survives method params u (s : RpcState N) :
  u ∈ reads (rpc_roster s) → (length (reads (rpc_roster s)) ≤ MAX_READ_ATTEMPTS)%nat →
  cooling (rpc_roster s) (rpc_clock s) u = false →
  0 ≤ read_cursor (rpc_roster s) → read_cursor (rpc_roster s) + 12 < 2 ^ 64 →
  (∀ n, answers u method params n = true) →
  (∀ url n, (post url method params n).1.2 ≤ REQUEST_TIMEOUT_MS) →
  definite (run rpc_shell (rpc_call method params) s).2 = true.
Proof.
  intros Hu Hl Hcu Hc0 Hcw Hans Ht. unfold rpc_call. cbn [run rpc_shell attempts_of].
  assert (read_attempts (rpc_roster s) = length (reads (rpc_roster s))) as ->
    by (unfold read_attempts; lia).
  unfold MAX_READ_ATTEMPTS in Hl.
  pose proof (call_loop_survives (length (reads (rpc_roster s))) method params u [] s) as H'.
  destruct (run rpc_shell (call_loop _ method params) s) as [[s1 t] m]. apply H'; try done.
  - set_solver.
  - split; [constructor|]. split; [set_solver|]. intros f Hf. by apply elem_of_nil in Hf.
  - lia.
Qed.
End rpc_runs.

(** ** Evaluation on examples *)
Section rpc_examples.
#[local] Instance concrete_json : JsonCrate := {| json_to_string _ := "{}" |}.

(** Two endpoints, of which only ["b"] is up. *)
Definition sample_post (url method : string) (params : Json) (n : nat) : HttpReply * Z * nat :=
  (if String.eqb url "b" then Answer (JObj [("result", JStr "0x2a")]) else NoAnswer, 40, S n).
#[local, refine] Instance sample_network : Network nat := {| post := sample_post |}.
Proof. intros. by vm_compute. Defined.

Definition sample_rpc_state : RpcState nat := mkRpcState (new ["a"; "b"] ["a"]) 0 O.

Lemma rpc_call_survives_witness :
  definite (run rpc_shell (rpc_call "eth_gasPrice" (JArr [])) sample_rpc_state).2 = true.
Proof.
  apply (rpc_call_survives "eth_gasPrice" (JArr []) "b" sample_rpc_state).
  - right. left.
  - by vm_compute; lia.
  - done.
  - done.
  - done.
  - intros n. by vm_compute.
  - intros url n. by vm_compute.
Defined.

Lemma rpc_call_spec_witness :
  call_outcome 2 "eth_gasPrice" (JArr [])
    [(Select Read, RUrl (Some "a")); (Post "a" "eth_gasPrice" (JArr []), RReply NoAnswer);
     (MarkFailed "a", RDone); (Select Read, RUrl (Some "b"));
     (Post "b" "eth_gasPrice" (JArr []), RReply (Answer (JObj [("result", JStr "0x2a")])));
     (MarkHealthy "b", RDone)] (Ok (JStr "0x2a")).
Proof.
  destruct (rpc_call_spec "eth_gasPrice" (JArr [])
    [(ReadAttempts, RAttempts 2); (Select Read, RUrl (Some "a"));
     (Post "a" "eth_gasPrice" (JArr []), RReply NoAnswer);
     (MarkFailed "a", RDone); (Select Read, RUrl (Some "b"));
     (Post "b" "eth_gasPrice" (JArr []), RReply (Answer (JObj [("result", JStr "0x2a")])));
     (MarkHealthy "b", RDone)] (Ok (JStr "0x2a"))) as (a & t' & [= <- <-] & H); [|exact H].
  eapply (run_exec rpc_shell _ sample_rpc_state). vm_compute. reflexivity.
Defined.
End rpc_examples.
