(* ===== verification/Chain.v ===== *)
(** * The chain client ([p256-index-server/src/chain.rs], [Chain])

    Reads decode [eth_call] answers over the failover lane; writes are
    estimated, priced, funded, signed and sent over one write endpoint.  Keys,
    signatures and 256-bit parsing are the Ethereum crates'. *)
From Stdlib Require Import Ascii String Strings.Byte.
From S2P Require Export Rpc ChainTypes Gas.
From stdpp Require Import options.
#[local] Set Warnings "-register-all".

(** ** The Ethereum crates *)

Record TxEip1559 := mkTxEip1559 {
  tx_chain_id : Z;
  tx_nonce : Z;
  tx_gas_limit : Z;
  tx_max_fee_per_gas : Z;
  tx_max_priority_fee_per_gas : Z;
  tx_to : bytes;
  tx_value : Z;
  tx_input : bytes;
}.

Class EthCrates := {
  SecretKey : Type;
  (** [SecretKey::from_slice(b).ok()] *)
  secret_key_from_slice : bytes → option SecretKey;
  (** [PrivateKeySigner::from(key).address()] *)
  signer_address : SecretKey → bytes;
  (** The EIP-55 [Display] of an [Address]. *)
  address_to_string : bytes → string;
  (** The signed EIP-2718 envelope; no access list. *)
  sign_transaction : SecretKey → TxEip1559 → option bytes;
  (** [U256::from_str_radix(s, 16).ok()] *)
  u256_from_hex : string → option Z;
  u256_from_hex_range s n : u256_from_hex s = Some n → in_u256 n;
}.

Record ChainConfig `{EthCrates} := mkChainConfig {
  cfg_registry_address : bytes;
  cfg_domain_registry_address : bytes;
  cfg_signer_key : option SecretKey;
  cfg_max_gas_price_wei : Z;
}.

Record Transaction := mkTransaction {
  to : bytes;
  data : bytes;
  value : Z;
  nonce : Z;
  gas_limit : Z;
  fees : FeePlan;
}.

Inductive WalletRole := RegisterWallet.

Definition FALLBACK_RPCS : list string :=
  ["https://rpc.gnosischain.com"; "https://gnosis-rpc.publicnode.com"].
Definition WRITE_RPCS : list string :=
  ["https://rpc.gnosischain.com"; "https://gnosis-rpc.publicnode.com"].

(** An Alchemy endpoint, when configured, heads the write lane. *)
Definition rpc_roster_of (alchemy_api_key : option string) : Roster :=
  Roster.new FALLBACK_RPCS
    match alchemy_api_key with
    | Some key => ("https://gnosis-mainnet.g.alchemy.com/v2/" +:+ key) :: WRITE_RPCS
    | None => WRITE_RPCS
    end.

Section chain.
Context `{C : Crates, J : JsonCrate, E : EthCrates}.

(** ** Values *)

Definition parse_secret_key (v : string) : option SecretKey :=
  b ← hex_decode (strip_0x v); secret_key_from_slice b.

(** [Chain::new]: [None] when the configuration is invalid. *)
Definition new_chain (private_key : option string) (contract_address domain_registry : string)
    (max_gas_price_wei : Z) : option ChainConfig :=
  key ← match private_key with Some k => Some <$> parse_secret_key k | None => Some None end;
  registry ← address_parse contract_address;
  domain ← address_parse domain_registry;
  Some (mkChainConfig _ registry domain key max_gas_price_wei).

Definition decode_rpc_bytes (v : string) : result bytes ChainError :=
  ok_or InvalidResponse (hex_decode (strip_0x v)).

Definition parse_u256_value (v : Json) : result Z ChainError :=
  try s := ok_or InvalidResponse (as_str v) in
  ok_or InvalidResponse (u256_from_hex (strip_0x s)).

Definition parse_quantity_value (v : Json) : result Z ChainError :=
  try n := parse_u256_value v in ok_or InvalidResponse (try_u64 n).

(** [u64::from_str_radix(s, 16)]: an optional plus sign, then hex digits. *)
Definition hex_digit_value (c : ascii) : option Z :=
  if in_range 48 57 c then Some (code c - 48)
  else if in_range 65 70 c then Some (code c - 55)
  else if in_range 97 102 c then Some (code c - 87)
  else None.

Fixpoint parse_hex_digits (acc : Z) (s : string) : option Z :=
  match s with
  | EmptyString => Some acc
  | String c s => d ← hex_digit_value c; parse_hex_digits (acc * 16 + d) s
  end.

Definition u64_from_hex (s : string) : option Z :=
  let digits := default s (strip_prefix "+" s) in
  match digits with
  | EmptyString => None
  | _ => n ← parse_hex_digits 0 digits; try_u64 n
  end.

Fixpoint trim_start_matches (c : ascii) (s : string) : string :=
  match s with
  | String d s' => if Ascii.eqb d c then trim_start_matches c s' else s
  | EmptyString => s
  end.

(** One turn of the loop over the logs: [None] is [continue], [Some r] is
    [return r] (a [?] returns [None]). *)
Definition log_id (log : Json) : option (option Z) :=
  match json_get "topics" log ≫= as_array with
  | None => Some None
  | Some topics =>
      match head topics ≫= as_str with
      | None => Some None
      | Some event =>
          if negb (bool_decide (event = GROUP_CREATED_TOPIC))
             && negb (bool_decide (event = REFERENCE_CREATED_TOPIC)) then None else
          Some match topics !! 1%nat ≫= as_str with
               | None => None
               | Some id =>
                   match u64_from_hex (trim_start_matches "0" (strip_0x id)) with
                   | Some n => Some n
                   | None => Some 0
                   end
               end
      end
  end.

Fixpoint logs_id (logs : list Json) : option Z :=
  match logs with
  | [] => None
  | log :: logs => match log_id log with Some r => r | None => logs_id logs end
  end.

Definition parse_on_chain_id (receipt : Json) : option Z :=
  logs ← json_get "logs" receipt ≫= as_array; logs_id logs.

Definition sign_eip1559 (key : SecretKey) (t : Transaction) : result bytes ChainError :=
  try max_fee := ok_or (Rejected "gas price exceeds u128")
    (try_u128 (max_fee_per_gas (fees t))) in
  try priority := ok_or (Rejected "priority fee exceeds u128")
    (try_u128 (max_priority_fee_per_gas (fees t))) in
  ok_or (Rejected "could not sign transaction")
    (sign_transaction key (mkTxEip1559 CHAIN_ID (nonce t) (gas_limit t) max_fee priority
      (to t) (value t) (data t))).

Definition hex_param (b : bytes) : Json := JStr ("0x" +:+ hex_encode b).
Definition address_param (a : bytes) : Json := JStr (address_to_string a).

(** [.map_err(|_| ChainError::InvalidResponse)?] on a decoder's answer. *)
Definition decoded {A E'} (m : result A E') : CFlow A := Ret (map_err (λ _, InvalidResponse) m).

(** ** Reads *)

Context (cfg : ChainConfig).

Definition registry_address : string := address_to_string (cfg_registry_address cfg).
Definition domain_registry_address : string := address_to_string (cfg_domain_registry_address cfg).
Definition has_signer : bool := bool_decide (is_Some (cfg_signer_key cfg)).

Definition rpc_circuit_state : CProg string :=
  pbind read_available (λ b, Ret (if b then "closed" else "open")).

Definition call_contract (a : bytes) (d : bytes) : CFlow bytes :=
  call result := rpc_call "eth_call"
    (JArr [JObj [("to", address_param a); ("data", hex_param d)]; JStr "latest"]) in
  call v := Ret (ok_or InvalidResponse (as_str result)) in
  Ret (decode_rpc_bytes v).

Definition read_registry (d : bytes) : CFlow bytes := call_contract (cfg_registry_address cfg) d.

(** A revert of a getter means the id does not exist. *)
Definition absent_on_revert {A} (m : CFlow bytes) (decode : bytes → result A string)
    : CFlow (option A) :=
  pbind m (λ r,
    match r with
    | Ok b => decoded (try v := decode b in Ok (Some v))
    | Err (Reverted _) => Ret (Ok None)
    | Err error => Ret (Err error)
    end).

Definition entry (entry_id : Z) : CFlow (option Entry) :=
  absent_on_revert (read_registry (get_entry_calldata entry_id)) (decode_entry entry_id).

Definition unit_ (unit_id : Z) : CFlow (option Unit) :=
  absent_on_revert (read_registry (get_unit_calldata unit_id)) (decode_unit unit_id).

(** [page.saturating_sub(1).saturating_mul(page_size)] *)
Definition offset_of (page page_size : Z) : Z := sat_mul U64_MAX (sat_sub page 1) page_size.

Definition key_profile (public_key : string) (page page_size : Z) (descending : bool)
    : CFlow (option KeyProfile) :=
  call key := Ret (ok_or InvalidResponse (hex_decode (strip_0x public_key))) in
  call b := read_registry (get_entry_by_key_calldata key) in
  call found := decoded (decode_entry_by_key b) in
  match found with
  | None => Ret (Ok None)
  | Some entry =>
      let offset := offset_of page page_size in
      call b := read_registry (groups_of_key_calldata key offset page_size descending) in
      call groups := decoded (decode_id_page b) in
      call b := read_registry (references_of_key_calldata key offset page_size descending) in
      call references := decoded (decode_id_page b) in
      Ret (Ok (Some (mkKeyProfile entry groups.1 groups.2 references.1 references.2)))
  end.

(** One [getUnit] per id, in order. *)
Fixpoint units_of (ids : list Z) : CFlow (list Unit) :=
  match ids with
  | [] => Ret (Ok [])
  | unit_id :: ids =>
      call b := read_registry (get_unit_calldata unit_id) in
      call u := decoded (decode_unit unit_id b) in
      call us := units_of ids in Ret (Ok (u :: us))
  end.

Definition groups_by_rp_id (rp_id : string) (page page_size : Z) (descending : bool)
    : CFlow (Page Unit) :=
  let offset := offset_of page page_size in
  call b := read_registry (groups_by_rp_id_calldata rp_id offset page_size descending) in
  call ids := decoded (decode_id_page b) in
  call items := units_of ids.2 in
  Ret (Ok (mkPage ids.1 page page_size items)).

Definition rp_ids (page page_size : Z) (descending : bool) : CFlow (Page SiteItem) :=
  call b := read_registry (rp_ids_calldata (offset_of page page_size) page_size descending) in
  call sites := decoded (decode_rp_ids b) in
  Ret (Ok (mkPage sites.1 page page_size ((λ s, mkSiteItem s.1.1 s.1.2 s.2) <$> sites.2))).

Definition unit_by_group_key (public_key : bytes) : CFlow (option Unit) :=
  call b := read_registry (get_unit_by_group_key_calldata public_key) in
  decoded (decode_unit_by_group_key b).

Definition group_detail_for (u : Unit) (group_key : bytes) (page page_size : Z)
    (descending : bool) : CFlow GroupDetail :=
  let offset := offset_of page page_size in
  call b := read_registry (get_group_members_calldata (u_unit_id u) offset page_size descending) in
  call members := decoded (decode_group_members b) in
  call b := read_registry (references_to_group_calldata group_key offset page_size descending) in
  call references := decoded (decode_id_page b) in
  Ret (Ok (mkGroupDetail u members.1 members.2 references.1 references.2)).

Definition group_detail_by_key (public_key : bytes) (page page_size : Z) (descending : bool)
    : CFlow (option GroupDetail) :=
  call found := unit_by_group_key public_key in
  match found with
  | None => Ret (Ok None)
  | Some u =>
      call d := group_detail_for u public_key page page_size descending in Ret (Ok (Some d))
  end.

Definition group_detail_by_id (unit_id page page_size : Z) (descending : bool)
    : CFlow (option GroupDetail) :=
  call found := unit_ unit_id in
  match found with
  | None => Ret (Ok None)
  | Some u =>
      call group_key := Ret (ok_or InvalidResponse (hex_decode (u_group_public_key u))) in
      call d := group_detail_for u group_key page page_size descending in Ret (Ok (Some d))
  end.

Definition is_referenced (group_public_key member_public_key : bytes) : CFlow bool :=
  call b := read_registry (is_referenced_calldata group_public_key member_public_key) in
  decoded (decode_bool b).

Definition read_total (calldata : bytes) : CFlow Z :=
  call b := read_registry calldata in decoded (decode_total b).

Definition totals : CFlow Totals :=
  call entries := read_total total_entries_calldata in
  call units := read_total total_units_calldata in
  call references := read_total total_references_calldata in
  call rps := read_total total_rp_ids_calldata in
  Ret (Ok (mkTotals entries units references rps)).

Definition is_content_registered (content_hash : bytes) : CFlow bool :=
  call b := read_registry (is_content_registered_calldata content_hash) in
  decoded (decode_bool b).

(** ** The node's own state *)

Definition gas_price : CFlow Z :=
  call v := rpc_call "eth_gasPrice" (JArr []) in Ret (parse_u256_value v).
Definition current_block : CFlow Z :=
  call v := rpc_call "eth_blockNumber" (JArr []) in Ret (parse_quantity_value v).

Definition wallet_key (role : WalletRole) : result SecretKey ChainError :=
  ok_or MissingSigner (cfg_signer_key cfg).
Definition wallet_address (role : WalletRole) : result bytes ChainError :=
  try key := wallet_key role in Ok (signer_address key).

Definition pending_nonce (role : WalletRole) : CFlow Z :=
  call address := Ret (wallet_address role) in
  call v := rpc_call "eth_getTransactionCount" (JArr [address_param address; JStr "pending"]) in
  Ret (parse_quantity_value v).
Definition confirmed_nonce (role : WalletRole) : CFlow Z :=
  call address := Ret (wallet_address role) in
  call v := rpc_call "eth_getTransactionCount" (JArr [address_param address; JStr "latest"]) in
  Ret (parse_quantity_value v).
Definition balance (role : WalletRole) : CFlow Z :=
  call address := Ret (wallet_address role) in
  call v := rpc_call "eth_getBalance" (JArr [address_param address; JStr "latest"]) in
  Ret (parse_u256_value v).

(** ** Writes *)

Definition fee_plan_from (base_fee : Z) : FeeVerdict :=
  plan_fees base_fee DEFAULT_TIP_WEI (cfg_max_gas_price_wei cfg).

Definition estimate_gas_on (url : string) (from to : bytes) (data : bytes) : CFlow Z :=
  call v := call_on url "eth_estimateGas"
    (JArr [JObj [("from", address_param from); ("to", address_param to);
                 ("data", hex_param data)]]) in
  Ret (parse_quantity_value v).

Definition gas_price_on (url : string) : CFlow Z :=
  call v := call_on url "eth_gasPrice" (JArr []) in Ret (parse_u256_value v).

Definition base_fee_on (url : string) : CFlow Z :=
  call v := call_on url "eth_getBlockByNumber" (JArr [JStr "latest"; JBool false]) in
  match json_get "baseFeePerGas" v with
  | Some base_fee => Ret (parse_u256_value base_fee)
  | None => gas_price_on url
  end.

(** The balance is read on the failover lane, whatever [url]. *)
Definition balance_on (url : string) (address : bytes) : CFlow Z :=
  call v := rpc_call "eth_getBalance" (JArr [address_param address; JStr "latest"]) in
  Ret (parse_u256_value v).

(** [self.rpc.select_write().ok_or(ChainError::Unavailable)] *)
Definition write_url : CFlow string :=
  pbind select_write (λ url, Ret (ok_or Unavailable url)).

Definition base_fee : CFlow Z := call url := write_url in base_fee_on url.
Definition fee_plan : CFlow FeeVerdict := call b := base_fee in Ret (Ok (fee_plan_from b)).

Definition send_transaction_on (url : string) (key : SecretKey) (t : Transaction)
    : CFlow string :=
  call signed := Ret (sign_eip1559 key t) in
  call result := call_on url "eth_sendRawTransaction" (JArr [hex_param signed]) in
  Ret (ok_or InvalidResponse (as_str result)).

Definition send_transaction (role : WalletRole) (t : Transaction) : CFlow string :=
  call key := Ret (wallet_key role) in
  call url := write_url in
  send_transaction_on url key t.

Definition send_contract_transaction (role : WalletRole) (to : bytes) (data : bytes) (nonce : Z)
    : CFlow Broadcast :=
  call key := Ret (wallet_key role) in
  let from := signer_address key in
  call url := write_url in
  call estimate := estimate_gas_on url from to data in
  let gas_limit := sat_mul U64_MAX estimate 120 / 100 in
  if negb (gas_limit_within_bounds gas_limit) then
    Ret (Err (Rejected ("gas limit " +:+ fmt gas_limit +:+ " exceeds the " +:+
      fmt MAX_GAS_LIMIT +:+ " cap"))) else
  call base_fee := base_fee_on url in
  match fee_plan_from base_fee with
  | TooExpensive required cap => Ret (Err (Rejected (too_expensive_reason required cap)))
  | Send fees =>
      let required := required_balance gas_limit (max_fee_per_gas fees) in
      call balance := balance_on url from in
      if balance <? required then
        Ret (Err (Rejected ("wallet " +:+ address_to_string from +:+ " holds " +:+ fmt balance
          +:+ " wei, below the " +:+ fmt required +:+ " wei this write may cost"))) else
      call hash := send_transaction_on url key (mkTransaction to data 0 nonce gas_limit fees) in
      Ret (Ok (mkBroadcast hash
        (f ← try_u128 (max_fee_per_gas fees); p ← try_u128 (max_priority_fee_per_gas fees);
         Some (f, p))))
  end.

Definition register (task : RegisterTask) (nonce : Z) : CFlow Broadcast :=
  call data := Ret (map_err (λ _, Rejected "could not encode a register call")
    (write_calldata task)) in
  send_contract_transaction RegisterWallet (cfg_registry_address cfg) data nonce.

Definition cancel_stuck_nonce (role : WalletRole) (nonce : Z) (fees : FeePlan) : CFlow string :=
  call address := Ret (wallet_address role) in
  send_transaction role (mkTransaction address [] 0 nonce 21_000 fees).

(** The definite verdict of a receipt. *)
Definition receipt_outcome (v : Json) : result ReceiptOutcome ChainError :=
  try status := ok_or InvalidResponse (json_get "status" v ≫= as_str) in
  if bool_decide (status = "0x1") || bool_decide (status = "0x01")
  then Ok (Success (parse_on_chain_id v)) else Ok RReverted.

(** [while started.elapsed() < timeout]; [None] when the fuel is out. *)
Fixpoint receipt_loop (fuel : nat) (hash : string) (started timeout : Z)
    : CProg (option (result ReceiptOutcome ChainError)) :=
  match fuel with
  | O => Ret None
  | S fuel =>
      await now_ := Elapsed in
      if negb (elapsed_of now_ - started <? timeout) then Ret (Some (Err Unavailable)) else
      pbind (rpc_call "eth_getTransactionReceipt" (JArr [JStr hash])) (λ r,
        match r with
        | Err error => Ret (Some (Err error))
        | Ok v =>
            if is_null v
            then await _u := Sleep 2_000 in receipt_loop fuel hash started timeout
            else Ret (Some (receipt_outcome v))
        end)
  end.

(** Enough turns for the timeout, at two seconds of sleep each. *)
Definition receipt_fuel (timeout : Z) : nat := Z.to_nat (timeout / 2_000 + 2).

Definition wait_for_receipt (hash : string) (timeout : Z)
    : CProg (option (result ReceiptOutcome ChainError)) :=
  await started := Elapsed in
  receipt_loop (receipt_fuel timeout) hash (elapsed_of started) timeout.
End chain.

(** ** What a write puts on the wire *)

Definition SEND : string := "eth_sendRawTransaction".
Definition sends (t : trace RpcOp RpcRes) : list (string * string * Json) :=
  filter (λ p, p.1.2 = SEND) (posts t).

Section writes.
Context `{C : Crates, J : JsonCrate, E : EthCrates} (cfg : ChainConfig).

(** The base fee a trace read over [url]: the latest block's, or the gas
    price of a node whose blocks have none. *)
Definition base_fee_read (t : trace RpcOp RpcRes) (url : string) (b : Z) : Prop :=
  ∃ block, answered_at t url "eth_getBlockByNumber" (JArr [JStr "latest"; JBool false]) (Ok block) ∧
    match json_get "baseFeePerGas" block with
    | Some x => parse_u256_value x = Ok b
    | None => ∃ v, answered_at t url "eth_gasPrice" (JArr []) (Ok v) ∧ parse_u256_value v = Ok b
    end.

(** What is known before a contract transaction is signed. *)
Record write_gate (t : trace RpcOp RpcRes) (url : string) (from to data : bytes) (gas : Z)
    (fees : FeePlan) : Prop := {
  wg_estimate : ∃ v estimate,
    answered_at t url "eth_estimateGas"
      (JArr [JObj [("from", address_param from); ("to", address_param to);
                   ("data", hex_param data)]]) (Ok v) ∧
    parse_quantity_value v = Ok estimate ∧ gas = sat_mul U64_MAX estimate 120 / 100;
  wg_gas : gas ≤ MAX_GAS_LIMIT;
  wg_fees : ∃ b, base_fee_read t url b ∧
    plan_fees b DEFAULT_TIP_WEI (cfg_max_gas_price_wei cfg) = Send fees;
  wg_cap : max_fee_per_gas fees ≤ cfg_max_gas_price_wei cfg;
  wg_funds : ∃ v balance,
    answered t "eth_getBalance" (JArr [address_param from; JStr "latest"]) (Ok v) ∧
    parse_u256_value v = Ok balance ∧ required_balance gas (max_fee_per_gas fees) ≤ balance;
}.

Lemma sends_app t1 t2 : sends (t1 ++ t2) = sends t1 ++ sends t2.
Proof. unfold sends. by rewrite posts_app, filter_app. Qed.

Lemma sends_none t method params :
  Forall (λ p, p.1.2 = method ∧ p.2 = params) (posts t) → method ≠ SEND → sends t = [].
Proof.
  intros HF Hm. unfold sends. induction HF as [|p l [<- _] _ IH]; [done|].
  by rewrite filter_cons_False.
Qed.

Lemma exec_on_quiet {A} url method params (f : Json → result A ChainError) t m :
  exec (fbind (call_on url method params) (λ v, Ret (f v))) t m → method ≠ SEND → sends t = [].
Proof.
  intros [Hp _]%exec_on Hm. apply (sends_none _ method params); [|done]. rewrite Hp. by constructor.
Qed.

Lemma exec_read_quiet {A} method params (f : Json → result A ChainError) t m :
  exec (fbind (rpc_call method params) (λ v, Ret (f v))) t m → method ≠ SEND → sends t = [].
Proof. intros [Hp _]%exec_read Hm. by eapply sends_none. Qed.

Lemma exec_write_url t m : exec write_url t m → posts t = [].
Proof.
  unfold write_url, select_write. intros (t1&t2&u&->&H1&[-> ->]%exec_ret_inv)%exec_bind.
  apply exec_req_inv in H1 as (r&t'&->&[-> ->]%exec_ret_inv). done.
Qed.

Lemma exec_base_fee_on url t m :
  exec (base_fee_on url) t m → sends t = [] ∧ ∀ b, m = Ok b → base_fee_read t url b.
Proof.
  unfold base_fee_on. intros [(e&H&->)|(t1&t2&block&->&H&Hk)]%exec_fbind;
    apply exec_call_on in H as (Ha & Hp & _).
  { split; [|done]. unfold sends. by rewrite Hp. }
  assert (Hs1 : sends t1 = []) by (unfold sends; by rewrite Hp).
  assert (Ha' : ∀ t2, answered_at (t1 ++ t2) url "eth_getBlockByNumber"
    (JArr [JStr "latest"; JBool false]) (Ok block)).
  { intros ?. eapply answered_at_mono, Ha. set_solver. }
  destruct (json_get "baseFeePerGas" block) as [x|] eqn:Hx.
  - apply exec_ret_inv in Hk as [-> ->]. rewrite app_nil_r in *. split; [done|].
    intros b Hb. exists block. split; [done|]. by rewrite Hx.
  - rewrite sends_app, Hs1. split; [by eapply exec_on_quiet|]. intros b Hb. exists block.
    split; [done|]. rewrite Hx. apply exec_on in Hk as [_ Hk]. destruct (Hk b Hb) as (v & Hv & ?).
    exists v. split; [|done]. eapply answered_at_mono, Hv. set_solver.
Qed.

Lemma plan_fees_cap b tip cap fees : plan_fees b tip cap = Send fees → max_fee_per_gas fees ≤ cap.
Proof. unfold plan_fees. case_match; [done|]. intros [= <-]. simpl. lia. Qed.

(** The sending of a signed transaction. *)
Definition sent (key : SecretKey) (tx : Transaction) (t : trace RpcOp RpcRes) (url : string)
    (m : result string ChainError) : Prop :=
  (∃ signed, sign_eip1559 key tx = Ok signed ∧ sends t = [(url, SEND, JArr [hex_param signed])] ∧
     posts t = [(url, SEND, JArr [hex_param signed])] ∧
     ∀ h, m = Ok h → answered_at t url SEND (JArr [hex_param signed]) (Ok (JStr h))) ∨
  posts t = [] ∧ is_ok m = false.

Lemma exec_send_on url key tx t m :
  exec (send_transaction_on url key tx) t m → sent key tx t url m.
Proof.
  unfold send_transaction_on.
  intros [(e&[-> _]%exec_ret_inv&->)|(t1&t2&signed&->&[-> Hs]%exec_ret_inv&H)]%exec_fbind; [by right|].
  simpl. left. exists signed. apply exec_on in H as [Hp Hv]. split; [done|].
  split; [unfold sends; by rewrite Hp|]. split; [done|].
  intros h Hh. destruct (Hv h Hh) as (v & Ha & Hok%ok_or_ok). by destruct v; simplify_eq/=.
Qed.

Lemma sign_eip1559_ok key tx signed :
  sign_eip1559 key tx = Ok signed ↔
    sign_transaction key (mkTxEip1559 CHAIN_ID (nonce tx) (gas_limit tx)
      (max_fee_per_gas (fees tx)) (max_priority_fee_per_gas (fees tx)) (to tx) (value tx) (data tx))
      = Some signed ∧
    try_u128 (max_fee_per_gas (fees tx)) = Some (max_fee_per_gas (fees tx)) ∧
    try_u128 (max_priority_fee_per_gas (fees tx)) = Some (max_priority_fee_per_gas (fees tx)).
Proof.
  unfold sign_eip1559. rewrite rbind_ok. setoid_rewrite rbind_ok. setoid_rewrite ok_or_ok.
  assert (∀ a b, try_u128 a = Some b → b = a) as Hu.
  { intros a b. unfold try_u128. case_decide; naive_solver. }
  split; [|naive_solver]. intros (f & Hf & p & Hp & Hs). pose proof (Hu _ _ Hf) as ->.
  pose proof (Hu _ _ Hp) as ->. done.
Qed.

(** A step that sends nothing: the flow stops unsent, or goes on. *)
Definition unsent {A} (t : trace RpcOp RpcRes) (m : result A ChainError) : Prop :=
  sends t = [] ∧ is_ok m = false.

Lemma quiet_step {A B} (p : CFlow A) (f : A → CFlow B) t m :
  exec (fbind p f) t m → (∀ t r, exec p t r → sends t = []) →
  unsent t m ∨ ∃ t1 t2 a, t = t1 ++ t2 ∧ sends t1 = [] ∧ exec p t1 (Ok a) ∧ exec (f a) t2 m.
Proof.
  intros [(e&H&->)|(t1&t2&a&->&H1&H)]%exec_fbind Hp; [left|right; eauto 8].
  split; [by eapply Hp|done].
Qed.

Lemma quiet_ret {A B} (r : result A ChainError) (f : A → CFlow B) t m :
  exec (fbind (Ret r) f) t m → unsent t m ∨ ∃ a, r = Ok a ∧ exec (f a) t m.
Proof.
  intros [(e&[-> _]%exec_ret_inv&->)|(t1&t2&a&->&[-> Ha]%exec_ret_inv&H)]%exec_fbind; [by left|].
  right. exists a. by split.
Qed.

Lemma unsent_app {A} t1 t2 (m : result A ChainError) :
  sends t1 = [] → unsent t2 m → unsent (t1 ++ t2) m.
Proof. unfold unsent. rewrite sends_app. by intros -> [-> ?]. Qed.

Lemma unsent_ret {A} (e : ChainError) t (m : result A ChainError) :
  exec (Ret (Err e)) t m → unsent t m.
Proof. by intros [-> ->]%exec_ret_inv. Qed.

Lemma base_fee_read_mono t t' url b : t ⊆ t' → base_fee_read t url b → base_fee_read t' url b.
Proof.
  intros Ht (block & Ha & Hb). exists block. split; [by eapply answered_at_mono|].
  case_match; [done|]. destruct Hb as (v & Hv & ?). exists v. split; [by eapply answered_at_mono|done].
Qed.

(** The last leg: sign and send. *)
Lemma exec_broadcast url key tx t m :
  exec (call hash := send_transaction_on url key tx in
        Ret (Ok (mkBroadcast hash
          (f ← try_u128 (max_fee_per_gas (fees tx)); p ← try_u128 (max_priority_fee_per_gas (fees tx));
           Some (f, p))))) t m →
  unsent t m ∨ ∃ signed, sign_eip1559 key tx = Ok signed ∧
    sends t = [(url, SEND, JArr [hex_param signed])] ∧
    ∀ b, m = Ok b → answered_at t url SEND (JArr [hex_param signed]) (Ok (JStr (bc_hash b))) ∧
      bc_fees_wei b = Some (max_fee_per_gas (fees tx), max_priority_fee_per_gas (fees tx)).
Proof.
  intros [(e&H&->)|(t1&t2&h&->&Hf&[-> ->]%exec_ret_inv)]%exec_fbind.
  - apply exec_send_on in H as [(signed & ? & ? & _)|[Hp _]]; [right|left].
    + exists signed. by split_and!.
    + split; [|done]. unfold sends. by rewrite Hp.
  - rewrite app_nil_r. apply exec_send_on in Hf as [(signed & Hsg & Hsd & _ & Ha)|[_ Hf]]; [|done].
    right. exists signed. split; [done|]. split; [done|]. intros b [= <-].
    apply sign_eip1559_ok in Hsg as (_ & Hu1 & Hu2). cbn [bc_hash bc_fees_wei].
    rewrite Hu1, Hu2. auto.
Qed.

(** Either nothing was sent, or one transaction was, through its gate. *)
Definition gated_send (to data : bytes) (n : Z) (t : trace RpcOp RpcRes)
    (m : result Broadcast ChainError) : Prop :=
  ∃ key url fees gas signed t1 t2,
    cfg_signer_key cfg = Some key ∧ t = t1 ++ t2 ∧ sends t1 = [] ∧
    write_gate t1 url (signer_address key) to data gas fees ∧
    sign_eip1559 key (mkTransaction to data 0 n gas fees) = Ok signed ∧
    sends t2 = [(url, SEND, JArr [hex_param signed])] ∧
    ∀ b, m = Ok b → answered_at t2 url SEND (JArr [hex_param signed]) (Ok (JStr (bc_hash b))) ∧
      bc_fees_wei b = Some (max_fee_per_gas fees, max_priority_fee_per_gas fees).

Lemma exec_send_contract role to data n t m :
  exec (send_contract_transaction cfg role to data n) t m →
  unsent t m ∨ gated_send to data n t m.
Proof.
  unfold send_contract_transaction. intros [?|(key & Hkey%ok_or_ok & H)]%quiet_ret; [by left|].
  apply quiet_step in H as [?|(t3&t4&url&->&Hs3&_&H)]; [by left| |].
  2: { intros ?? Hu%exec_write_url. unfold sends. by rewrite Hu. }
  apply quiet_step in H as [?|(t5&t7&estimate&->&Hs5&Hest&H)];
    [left; by apply unsent_app| |by intros ?? ?%exec_on_quiet].
  apply exec_on in Hest as [_ Hest]. destruct (Hest _ eq_refl) as (ve & Hve & Hpe). clear Hest.
  cbv zeta in H. set (gas := sat_mul U64_MAX estimate 120 / 100) in *.
  destruct (gas_limit_within_bounds gas) eqn:Hgas; cbn [negb] in H;
    [|left; apply unsent_app, unsent_app; [done..|by eapply unsent_ret]].
  apply quiet_step in H as [?|(tb&t6&bf&->&Hsb&Hb&H)];
    [left; by apply unsent_app, unsent_app| |by intros ?? [? _]%exec_base_fee_on].
  apply exec_base_fee_on in Hb as [_ Hb]. specialize (Hb bf eq_refl).
  destruct (fee_plan_from cfg bf) as [fees|required cap] eqn:Hplan;
    [|left; apply unsent_app, unsent_app, unsent_app; [done..|by eapply unsent_ret]].
  apply quiet_step in H as [?|(td&te&bal&->&Hsd&Hd&H)];
    [left; by apply unsent_app, unsent_app, unsent_app| |by intros ?? ?%exec_read_quiet].
  apply exec_read in Hd as [_ Hd]. destruct (Hd bal eq_refl) as (vb & Hvb & Hpb). clear Hd.
  destruct (Z.ltb_spec bal (required_balance gas (max_fee_per_gas fees))) as [|Hfund];
    [left; apply unsent_app, unsent_app, unsent_app, unsent_app; [done..|by eapply unsent_ret]|].
  apply exec_broadcast in H as [?|(signed & Hsg & Hse & Hm)];
    [left; by apply unsent_app, unsent_app, unsent_app, unsent_app|right].
  exists key, url, fees, gas, signed, (t3 ++ t5 ++ tb ++ td), te.
  split; [done|]. split; [by rewrite <-!app_assoc|]. split; [by rewrite !sends_app, Hs3, Hs5, Hsb, Hsd|].
  split; [|done]. split.
  - exists ve, estimate. split; [eapply answered_at_mono, Hve; set_solver|done].
  - by apply Z.leb_le.
  - exists bf. split; [eapply base_fee_read_mono, Hb; set_solver|done].
  - by eapply plan_fees_cap.
  - exists vb, bal. split; [eapply answered_mono, Hvb; set_solver|done].
Qed.

Lemma exec_register task n t m :
  exec (register cfg task n) t m →
  (sends t = [] ∧ is_ok m = false) ∨
  ∃ key data gas fees signed url t1 t2,
    cfg_signer_key cfg = Some key ∧ write_calldata task = Ok data ∧
    t = t1 ++ t2 ∧ sends t1 = [] ∧ sends t2 = [(url, SEND, JArr [hex_param signed])] ∧
    write_gate t1 url (signer_address key) (cfg_registry_address cfg) data gas fees ∧
    sign_transaction key (mkTxEip1559 100 n gas (max_fee_per_gas fees)
      (max_priority_fee_per_gas fees) (cfg_registry_address cfg) 0 data) = Some signed ∧
    ∀ b, m = Ok b → answered_at t2 url SEND (JArr [hex_param signed]) (Ok (JStr (bc_hash b))) ∧
      bc_fees_wei b = Some (max_fee_per_gas fees, max_priority_fee_per_gas fees).
Proof.
  unfold register. intros [?|(data & Hd%map_err_ok & H)]%quiet_ret; [by left|].
  apply exec_send_contract in H as [?|(key&url&fees&gas&signed&t1&t2&?&?&?&?&Hs&?&?)]; [by left|right].
  apply sign_eip1559_ok in Hs as [Hs _].
  exists key, data, gas, fees, signed, url, t1, t2. by split_and!.
Qed.

(** C17. A write is gated end to end.  Registering a task sends at most one
    raw transaction; when it sends one, that is the wallet's signature over
    the task's own calldata, to the registry, on chain 100, at the nonce it
    was given, with no value; and before signing, the same endpoint had
    estimated its gas (the limit is 120% of it and at most the cap) and
    quoted the base fee it is priced from ([plan_fees], never above the
    configured cap), and the wallet held the most it may cost.  A [Broadcast]
    carries the hash the endpoint answered and the fees as signed. *)
Theorem register_is_gated task n t m :
  exec (register cfg task n) t m →
  (sends t = [] ∧ is_ok m = false) ∨
  ∃ key data gas fees signed url t1 t2,
    cfg_signer_key cfg = Some key ∧ write_calldata task = Ok data ∧
    t = t1 ++ t2 ∧ sends t1 = [] ∧ sends t2 = [(url, SEND, JArr [hex_param signed])] ∧
    write_gate t1 url (signer_address key) (cfg_registry_address cfg) data gas fees ∧
    sign_transaction key (mkTxEip1559 100 n gas (max_fee_per_gas fees)
      (max_priority_fee_per_gas fees) (cfg_registry_address cfg) 0 data) = Some signed ∧
    ∀ b, m = Ok b → answered_at t2 url SEND (JArr [hex_param signed]) (Ok (JStr (bc_hash b))) ∧
      bc_fees_wei b = Some (max_fee_per_gas fees, max_priority_fee_per_gas fees).
Proof. apply exec_register. Qed.

(** A replacement is a bare self-transfer: nothing but the wallet's own
    address, the stuck nonce and the planned fees is signed. *)
Theorem cancel_is_self_transfer role n fees t m :
  exec (cancel_stuck_nonce cfg role n fees) t m →
  (sends t = [] ∧ is_ok m = false) ∨
  ∃ key url signed, cfg_signer_key cfg = Some key ∧
    sends t = [(url, SEND, JArr [hex_param signed])] ∧
    sign_transaction key (mkTxEip1559 100 n 21_000 (max_fee_per_gas fees)
      (max_priority_fee_per_gas fees) (signer_address key) 0 []) = Some signed.
Proof.
  unfold cancel_stuck_nonce, send_transaction.
  intros [?|(a & (key & Hk%ok_or_ok & [= <-])%rbind_ok & H)]%quiet_ret; [by left|].
  apply quiet_ret in H as [?|(key' & Hk'%ok_or_ok & H)]; [by left|].
  rewrite Hk in Hk'. injection Hk' as <-.
  apply quiet_step in H as [?|(t1&t2&url&->&Hs1&_&H)]; [by left| |].
  2: { intros ?? Hu%exec_write_url. unfold sends. by rewrite Hu. }
  apply exec_send_on in H as [(signed & [Hs _]%sign_eip1559_ok & Hsd & _)|[Hp Hm]]; [right|left].
  - exists key, url, signed. by rewrite sends_app, Hs1.
  - apply unsent_app; [done|]. split; [|done]. unfold sends. by rewrite Hp.
Qed.
End writes.

(** ** Waiting for a receipt *)

Section receipts.
Context `{J : JsonCrate}.

Lemma receipt_loop_answer fuel hash started timeout t outcome :
  exec (receipt_loop fuel hash started timeout) t (Some (Ok outcome)) →
  ∃ v, answered t "eth_getTransactionReceipt" (JArr [JStr hash]) (Ok v) ∧
    is_null v = false ∧ receipt_outcome v = Ok outcome.
Proof.
  revert t. induction fuel as [|fuel IH]; intros t; cbn [receipt_loop].
  - by intros [_ ?]%exec_ret_inv.
  - intros (r&t'&->&H)%exec_req_inv. destruct (negb _); [by apply exec_ret_inv in H as [_ ?]|].
    apply exec_bind in H as (t1&t2&m&->&H1&H).
    destruct m as [v|e]; [|by apply exec_ret_inv in H as [_ ?]]. destruct (is_null v) eqn:Hv.
    + apply exec_req_inv in H as (r'&t3&->&H). apply IH in H as (w & Hw & ? & ?). exists w.
      split; [|done]. eapply answered_mono, Hw. set_solver.
    + apply exec_ret_inv in H as [-> [= Ho]]. apply exec_rpc_call in H1 as [_ [?|[_ Ha]]]; [done|].
      exists v. split; [|done]. eapply answered_mono, Ha. set_solver.
Qed.

Lemma receipt_loop_ends {N} `{Network N} fuel hash started timeout (s : RpcState N) :
  timeout - (rpc_clock s - started) ≤ 2_000 * (Z.of_nat fuel - 1) → (0 < fuel)%nat →
  is_Some (run rpc_shell (receipt_loop fuel hash started timeout) s).2.
Proof.
  revert s. induction fuel as [|fuel IH]; intros s Hle Hf; [lia|]. cbn [receipt_loop run rpc_shell elapsed_of].
  destruct (Z.ltb_spec (rpc_clock s - started) timeout) as [Hlt|]; cbn [negb]; [|by eexists].
  rewrite run_bind. destruct (run rpc_shell (rpc_call _ _) s) as [[s1 t1] m] eqn:E1.
  assert (Hclk : rpc_clock s ≤ rpc_clock s1).
  { eapply run_clock; [done|]. intros ms Hin. exfalso. apply run_exec in E1.
    apply exec_req_inv in E1 as (r&t'&->&E1). apply call_loop_no_sleep with (ms := ms) in E1. set_solver. }
  destruct m as [v|e]; [|by eexists]. destruct (is_null v); [|by eexists].
  cbn [run rpc_shell]. set (s2 := mkRpcState _ _ _).
  specialize (IH s2). destruct (run rpc_shell (receipt_loop fuel _ _ _) s2) as [[s3 t3] o].
  apply IH; [cbn [s2 rpc_clock]; lia|lia].
Qed.

(** Waiting for a receipt ends: against any network whose clock does not
    run backwards, the poll loop reaches its timeout within the turns
    allotted, so it always returns; and it reports an outcome only from a
    receipt that an endpoint answered. *)
Theorem wait_for_receipt_returns {N} `{Network N} hash timeout (s : RpcState N) :
  0 ≤ timeout →
  ∃ r, (run rpc_shell (wait_for_receipt hash timeout) s).2 = Some r ∧
    ∀ outcome, r = Ok outcome →
      ∃ v, answered (run rpc_shell (wait_for_receipt hash timeout) s).1.2
          "eth_getTransactionReceipt" (JArr [JStr hash]) (Ok v) ∧
        is_null v = false ∧ receipt_outcome v = Ok outcome.
Proof.
  intros Ht. unfold wait_for_receipt. cbn [run rpc_shell elapsed_of].
  assert (Hdiv : timeout ≤ 2_000 * (timeout / 2_000 + 1)).
  { pose proof (Z.mod_pos_bound timeout 2_000 ltac:(lia)).
    pose proof (Z.div_mod timeout 2_000 ltac:(lia)). lia. }
  assert (0 ≤ timeout / 2_000) by (apply Z.div_pos; lia).
  destruct (receipt_loop_ends (receipt_fuel timeout) hash (rpc_clock s) timeout s) as [r Hr];
    [unfold receipt_fuel; lia|unfold receipt_fuel; lia|].
  destruct (run rpc_shell (receipt_loop _ _ _ _) s) as [[s1 t1] o] eqn:E. cbn [snd fst] in *.
  exists r. split; [done|]. intros outcome ->. subst o.
  apply run_exec, receipt_loop_answer in E as (v & Hv & ?). exists v.
  split; [|done]. eapply answered_mono, Hv. set_solver.
Qed.
End receipts.

(** ** Reading a confirmed id *)

Section ids.

Lemma hex_digit_value_range c d : hex_digit_value c = Some d → 0 ≤ d < 16.
Proof.
  unfold hex_digit_value, in_range.
  repeat case_match; intros; simplify_eq; rewrite ?andb_true_iff, ?Z.leb_le in *; lia.
Qed.

(** The value of a hex string, digit by digit. *)
Fixpoint hex_value (s : string) : option Z :=
  match s with
  | EmptyString => Some 0
  | String c s =>
      d ← hex_digit_value c; n ← hex_value s; Some (d * 16 ^ Z.of_nat (String.length s) + n)
  end.

Lemma parse_hex_digits_value acc s :
  parse_hex_digits acc s = n ← hex_value s; Some (acc * 16 ^ Z.of_nat (String.length s) + n).
Proof.
  revert acc. induction s as [|c s IH]; intros acc; cbn [parse_hex_digits hex_value String.length].
  - cbn. by rewrite Z.mul_1_r, Z.add_0_r.
  - destruct (hex_digit_value c) as [d|]; [|done]. cbn [mbind option_bind]. rewrite IH.
    destruct (hex_value s) as [n|]; [|done]. cbn [mbind option_bind]. f_equal.
    rewrite Nat2Z.inj_succ, Z.pow_succ_r by lia. nia.
Qed.

Lemma hex_value_range s n : hex_value s = Some n → 0 ≤ n < 16 ^ Z.of_nat (String.length s).
Proof.
  revert n. induction s as [|c s IH]; intros n; cbn [hex_value String.length].
  - intros [= <-]. cbn. lia.
  - destruct (hex_digit_value c) as [d|] eqn:Hd; [|done]. apply hex_digit_value_range in Hd.
    destruct (hex_value s) as [m|]; [|done]. intros [= <-]. specialize (IH m eq_refl).
    rewrite Nat2Z.inj_succ, Z.pow_succ_r by lia. nia.
Qed.

Lemma hex_value_trim s n :
  hex_value s = Some n →
  hex_value (trim_start_matches "0" s) = Some n ∧
  (trim_start_matches "0" s = EmptyString → n = 0).
Proof.
  revert n. induction s as [|c s IH]; intros n; cbn [hex_value trim_start_matches].
  - by intros [= <-].
  - destruct (Ascii.eqb_spec c "0"%char) as [->|Hne]; [|done].
    change (hex_digit_value "0") with (Some 0). cbn [mbind option_bind].
    destruct (hex_value s) as [m|]; [|done]. intros [= <-].
    rewrite Z.mul_0_l, Z.add_0_l. by apply IH.
Qed.

Lemma hex_value_no_plus s n : hex_value s = Some n → default s (strip_prefix "+" s) = s.
Proof.
  destruct s as [|c s]; [done|]. cbn [hex_value strip_prefix].
  destruct (Ascii.eqb_spec "+"%char c) as [<-|]; [|done]. by vm_compute.
Qed.

(** The topic's id, for every hex topic: exact below [2^64]. *)
Lemma topic_id_value s n :
  hex_value s = Some n →
  match u64_from_hex (trim_start_matches "0" s) with Some n => n | None => 0 end =
    if decide (n ≤ U64_MAX) then n else 0.
Proof.
  intros [Hv Hz]%hex_value_trim. unfold u64_from_hex. rewrite (hex_value_no_plus _ _ Hv).
  pose proof (hex_value_range _ _ Hv) as Hr.
  destruct (trim_start_matches "0" s) as [|c s'] eqn:E.
  - rewrite (Hz eq_refl). by rewrite decide_True by by vm_compute.
  - rewrite parse_hex_digits_value, Hv. cbn [mbind option_bind]. rewrite Z.mul_0_l, Z.add_0_l.
    unfold try_u64. repeat case_decide; tauto || lia.
Qed.

(** A log of the registry's write events with this id, and a log of anything
    else. *)
Definition write_log (id : string) (log : Json) : Prop :=
  ∃ event rest, json_get "topics" log = Some (JArr (JStr event :: JStr id :: rest)) ∧
    (event = GROUP_CREATED_TOPIC ∨ event = REFERENCE_CREATED_TOPIC).
Definition other_log (log : Json) : Prop :=
  ∃ event rest, json_get "topics" log = Some (JArr (JStr event :: rest)) ∧
    event ≠ GROUP_CREATED_TOPIC ∧ event ≠ REFERENCE_CREATED_TOPIC.

(** The confirmed id is the log's: of a receipt whose first write event
    follows other events, [parse_on_chain_id] reads the 256-bit id in that
    event's first indexed topic, leading zeros and prefix included, exactly
    when it fits a [u64]; a larger id is reported as 0. *)
Theorem confirmed_id_exact receipt before log after id n :
  json_get "logs" receipt = Some (JArr (before ++ log :: after)) →
  Forall other_log before → write_log ("0x" +:+ id) log → hex_value id = Some n →
  parse_on_chain_id receipt = Some (if decide (n ≤ U64_MAX) then n else 0).
Proof.
  intros Hl Hb (event & rest & Ht & Hev) Hn. unfold parse_on_chain_id. rewrite Hl.
  cbn [mbind option_bind as_array]. clear Hl. induction Hb as [|l before (ev&rs&Hlt&H1&H2) _ IH].
  - cbn [app logs_id]. unfold log_id. rewrite Ht. cbn [mbind option_bind as_array head as_str lookup].
    rewrite <-(topic_id_value _ _ Hn).
    assert (negb (bool_decide (event = GROUP_CREATED_TOPIC)) &&
            negb (bool_decide (event = REFERENCE_CREATED_TOPIC)) = false) as ->.
    { destruct Hev as [-> | ->]; by vm_compute. }
    change (list_lookup 1%nat _ ≫= as_str) with (Some ("0x" +:+ id)). cbv beta iota.
    change (strip_0x ("0x" +:+ id)) with id. by destruct (u64_from_hex _).
  - cbn [app logs_id]. unfold log_id at 1. rewrite Hlt. cbn [mbind option_bind as_array head as_str].
    by rewrite !bool_decide_eq_false_2.
Qed.
End ids.

(** ** Evaluation on examples *)
Section chain_examples.
#[local] Existing Instance concrete_crates.
#[local] Existing Instance concrete_json.

(** Keys are seeds; a signature carries the envelope's numbers and data. *)
#[local, refine] Instance concrete_eth : EthCrates := {|
  SecretKey := nat;
  secret_key_from_slice b := if (length b =? 32)%nat then Some (length b) else None;
  signer_address _ := replicate 20 x07;
  address_to_string a := "0x" +:+ hex_encode a;
  sign_transaction _ tx := Some (to_be_bytes 8 (tx_nonce tx) ++ tx_input tx);
  u256_from_hex s := n ← hex_value s; if decide (n ≤ U256_MAX) then Some n else None;
|}.
Proof.
  intros s n. destruct (hex_value s) as [m|] eqn:Hm; [|done]. cbn.
  apply hex_value_range in Hm. case_decide; [|done]. intros [= <-]. unfold in_u256. lia.
Defined.

Definition sample_cfg : ChainConfig :=
  mkChainConfig _ (replicate 20 x01) (replicate 20 x02) (Some 1%nat) 10_000_000.

Definition sample_receipt : Json :=
  JObj [("status", JStr "0x1"); ("logs", JArr
    [JObj [("topics", JArr [JStr "0xdead"])];
     JObj [("topics", JArr [JStr GROUP_CREATED_TOPIC;
       JStr "0x0000000000000000000000000000000000000000000000000000000000000c0f"])]])].

(** A node that answers everything a write asks; the second read endpoint is
    down. *)
Definition node_post (url method : string) (params : Json) (n : nat) : HttpReply * Z * nat :=
  let result (v : Json) := Answer (JObj [("result", v)]) in
  (if String.eqb url "down" then NoAnswer else
   if String.eqb method "eth_estimateGas" then result (JStr "0x5208") else
   if String.eqb method "eth_getBlockByNumber" then result (JObj [("baseFeePerGas", JStr "0x2427")]) else
   if String.eqb method "eth_getBalance" then result (JStr "0xffffffffffffff") else
   if String.eqb method "eth_getTransactionCount" then result (JStr "0x5") else
   if String.eqb method "eth_sendRawTransaction" then result (JStr "0xfeed") else
   if String.eqb method "eth_getTransactionReceipt" then result (if (n <? 10)%nat then JNull else sample_receipt) else
   if String.eqb method "eth_call" then
     result (JStr ("0x" +:+ hex_encode (abi_encode_params [VBool false]))) else
   BadBody, 40, S n).
#[local, refine] Instance node_network : Network nat := {| post := node_post |}.
Proof. intros. by vm_compute. Defined.

Definition node_state : RpcState nat := mkRpcState (new ["down"; "up"] ["up"]) 0 O.

Lemma confirmed_id_exact_witness : parse_on_chain_id sample_receipt = Some 3087.
Proof.
  rewrite (confirmed_id_exact sample_receipt [JObj [("topics", JArr [JStr "0xdead"])]]
    (JObj [("topics", JArr [JStr GROUP_CREATED_TOPIC;
       JStr "0x0000000000000000000000000000000000000000000000000000000000000c0f"])]) []
    "0000000000000000000000000000000000000000000000000000000000000c0f" 3087).
  - by vm_compute.
  - by vm_compute.
  - constructor; [|constructor]. exists "0xdead", []. by vm_compute.
  - exists GROUP_CREATED_TOPIC, []. split; [by vm_compute|by left].
  - by vm_compute.
Defined.

Lemma wait_for_receipt_returns_witness :
  (run rpc_shell (wait_for_receipt "0xfeed" 60_000) node_state).2 = Some (Ok (Success (Some 3087))).
Proof.
  destruct (wait_for_receipt_returns "0xfeed" 60_000 node_state ltac:(lia)) as (r & Hr & _).
  rewrite Hr. vm_compute in Hr. by injection Hr as <-.
Defined.

Definition write_run : RpcState nat * trace RpcOp RpcRes * result Broadcast ChainError :=
  run rpc_shell (register sample_cfg sample_task 5) node_state.

Lemma register_is_gated_witness :
  sends write_run.1.2 ≠ [] ∧ ∃ key data gas fees signed,
    sign_transaction key (mkTxEip1559 100 5 gas (max_fee_per_gas fees)
      (max_priority_fee_per_gas fees) (cfg_registry_address sample_cfg) 0 data) = Some signed.
Proof.
  assert (He : exec (register sample_cfg sample_task 5) write_run.1.2 write_run.2).
  { unfold write_run. destruct (run _ _ _) as [[s t] m] eqn:E. by eapply run_exec. }
  assert (Hok : is_ok write_run.2 = true) by (vm_compute; reflexivity).
  destruct (register_is_gated sample_cfg _ _ _ _ He)
    as [[_ Hm]|(key&data&gas&fees&signed&url&t1&t2&_&_&Ht&Hs1&Hs2&_&Hsig&_)]; [congruence|].
  split; [|by exists key, data, gas, fees, signed]. rewrite Ht, sends_app, Hs1, Hs2. done.
Defined.
End chain_examples.
