(* ===== verification/ContractReads.v ===== *)
(** * The chain client on the contract

    The client's reads against a registry at some state of its life: what
    each comes to is what that state holds, or that no endpoint answered. *)
From Stdlib Require Import Ascii String Strings.Byte.
From S2P Require Export RegistryViews Chain.
From stdpp Require Import options.
#[local] Set Warnings "-register-all".

(** ** What is decoded of an answer *)

Section decoders.
Context `{C : Crates, V : !Evm}.

(** A stored entry and a stored group as the service renders them. *)
Definition client_entry (id : Z) (e : Entry_) : Entry :=
  entry_from_sol id (mkEntrySol (en_publicKey e) (en_attestation e) (en_credentialId e)
    (en_authenticatorAttachment e) (en_transports e) (en_createdAt e)).
Definition client_unit (id : Z) (u : Unit_) : Unit :=
  unit_from_sol id (mkUnitSol (un_rpId u) (un_metadata u) (un_groupPublicKey u) (un_contentHash u)
    (un_memberCount u) (un_createdAt u)).

Lemma entry_value_typed e : in_u256 (en_createdAt e) → has_type ENTRY_T (entry_value e) = true.
Proof. unfold in_u256. intros H. cbn. rewrite andb_true_r. lia. Qed.
Lemma unit_value_typed u : readable_unit u → has_type UNIT_T (unit_value u) = true.
Proof.
  intros [_ Hh Hc Ht]. unfold in_u256 in Ht. cbn -[Nat.eqb]. rewrite Hh. cbn. rewrite andb_true_r. lia.
Qed.
Lemma unit_value_text u : readable_unit u → utf8_value (unit_value u) = true.
Proof. intros [Hu _ _ _]. cbn. by rewrite Hu. Qed.

Lemma uint_typed n : in_u64 n → has_type TUint256 (VUint n) = true.
Proof. intros Hn%u64_u256. unfold in_u256 in Hn. cbn. lia. Qed.
Lemma try_u64_in n : in_u64 n → try_u64 n = Some n.
Proof. intros Hn. by apply try_u64_ok. Qed.

Lemma decode_entry_value id e : in_u256 (en_createdAt e) →
  decode_entry id (abi_encode_params [entry_value e]) = Ok (client_entry id e).
Proof.
  intros He. unfold decode_entry. rewrite decode_as_encode; [done| |done].
  by rewrite has_types_cons, entry_value_typed.
Qed.

Lemma decode_unit_value id u : readable_unit u →
  decode_unit id (abi_encode_params [unit_value u]) = Ok (client_unit id u).
Proof.
  intros Hu. unfold decode_unit. rewrite decode_as_encode; [done| |].
  - by rewrite has_types_cons, unit_value_typed.
  - cbn [forallb]. by rewrite unit_value_text.
Qed.

Lemma decode_entry_by_key_value id e : in_u64 id → in_u256 (en_createdAt e) →
  decode_entry_by_key (abi_encode_params [VBool true; VUint id; entry_value e]) = Ok (Some (client_entry id e)).
Proof.
  intros Hid He. unfold decode_entry_by_key. rewrite decode_as_encode; [| |done].
  - cbn. by rewrite try_u64_in.
  - by rewrite !has_types_cons, entry_value_typed, uint_typed.
Qed.
Lemma decode_entry_by_key_none :
  decode_entry_by_key (abi_encode_params [VBool false; VUint 0; entry_value no_entry]) = Ok None.
Proof. unfold decode_entry_by_key. by rewrite decode_as_encode. Qed.

Lemma decode_unit_by_group_key_value id u : in_u64 id → readable_unit u →
  decode_unit_by_group_key (abi_encode_params [VBool true; VUint id; unit_value u]) = Ok (Some (client_unit id u)).
Proof.
  intros Hid Hu. unfold decode_unit_by_group_key. rewrite decode_as_encode.
  - cbn. by rewrite try_u64_in.
  - by rewrite !has_types_cons, unit_value_typed, uint_typed.
  - cbn [forallb]. by rewrite unit_value_text.
Qed.
Lemma decode_unit_by_group_key_none :
  decode_unit_by_group_key (abi_encode_params [VBool false; VUint 0; unit_value no_unit]) = Ok None.
Proof. unfold decode_unit_by_group_key. by rewrite decode_as_encode. Qed.

Lemma u64s_typed ids : Forall in_u64 ids → has_type (TArray TUint256) (VSeq (VUint <$> ids)) = true.
Proof. intros H. apply has_type_uints. eapply Forall_impl; [exact H|apply u64_u256]. Qed.

Lemma decode_ids total ids : in_u64 total → Forall in_u64 ids →
  decode_id_page (abi_encode_params [VUint total; VSeq (VUint <$> ids)]) = Ok (total, ids).
Proof.
  intros Ht Hids. unfold decode_id_page. rewrite decode_as_encode.
  - cbn [mbind option_bind]. rewrite collect_uint. cbn [mbind option_bind ok_or rbind].
    by rewrite (proj2 (rmap_try_u64 ids ids)), try_u64_in.
  - by rewrite !has_types_cons, u64s_typed, uint_typed.
  - cbn. by rewrite utf8_uints.
Qed.

Lemma collect_values {A B} (value : A → AbiValue) (f : AbiValue → option B) (g : A → B) l :
  (∀ x, f (value x) = Some (g x)) → collect f (value <$> l) = Some (g <$> l).
Proof. intros H. unfold collect. induction l as [|x l IH]; [done|]. cbn. by rewrite H, IH. Qed.

Lemma array_typed {A} t (value : A → AbiValue) l :
  Forall (λ x, has_type t (value x) = true) l → has_type (TArray t) (VSeq (value <$> l)) = true.
Proof. cbn. induction 1 as [|x l Hx _ IH]; [done|]. cbn. by rewrite Hx, IH. Qed.

Lemma array_text {A} (value : A → AbiValue) l :
  Forall (λ x, utf8_value (value x) = true) l → utf8_value (VSeq (value <$> l)) = true.
Proof. cbn. induction 1 as [|x l Hx _ IH]; [done|]. cbn. by rewrite Hx, IH. Qed.

(** Ids and their entries, side by side. *)
Lemma zip_entries ids (es : list Entry_) :
  Forall in_u64 ids →
  rmap (λ p : Z * EntrySol, try id := ok_or "entry id exceeds u64" (try_u64 p.1) in Ok (entry_from_sol id p.2))
    (zip ids ((λ e, mkEntrySol (en_publicKey e) (en_attestation e) (en_credentialId e)
      (en_authenticatorAttachment e) (en_transports e) (en_createdAt e)) <$> es)) =
  Ok (zip_with client_entry ids es).
Proof.
  intros H. revert es. induction H as [|id ids Hid _ IH]; intros [|e es]; try done.
  cbn. rewrite try_u64_in by done. cbn. by rewrite IH.
Qed.

Lemma decode_group_members_value total ids es :
  in_u64 total → Forall in_u64 ids → Forall (λ e, in_u256 (en_createdAt e)) es →
  decode_group_members (abi_encode_params [VUint total; VSeq (VUint <$> ids); VSeq (entry_value <$> es)]) =
    Ok (total, zip_with client_entry ids es).
Proof.
  intros Ht Hids Hes. unfold decode_group_members. rewrite decode_as_encode.
  - cbn [mbind option_bind]. rewrite collect_uint. cbn [mbind option_bind].
    erewrite collect_values by done. cbn [mbind option_bind ok_or rbind].
    rewrite zip_entries by done. cbn [rbind]. by rewrite try_u64_in.
  - rewrite !has_types_cons, uint_typed, u64s_typed, array_typed; [done| |done|done].
    eapply Forall_impl; [exact Hes|]. apply entry_value_typed.
  - cbn [forallb]. by rewrite (array_text VUint), (array_text entry_value) by by apply Forall_true.
Qed.

Lemma decode_total_value n : in_u64 n → decode_total (abi_encode_params [VUint n]) = Ok n.
Proof.
  intros Hn. unfold decode_total. rewrite decode_as_encode; [|by rewrite has_types_cons, uint_typed|done].
  cbn. by rewrite try_u64_in.
Qed.
Lemma decode_bool_value b : decode_bool (abi_encode_params [VBool b]) = Ok b.
Proof. unfold decode_bool. by rewrite decode_as_encode. Qed.
End decoders.

(** ** Reads of one state *)

Section reads.
Context `{C : Crates, V : !Evm, J : JsonCrate, E : EthCrates}.

Definition view_params (registry : bytes) (d : bytes) : Json :=
  JArr [JObj [("to", address_param registry); ("data", hex_param d)]; JStr "latest"].

(** Every endpoint that answers a view call of the registry answers from the
    state [s]: the encoded values, or a revert. *)
Definition serves (registry : bytes) (s : Registry) (t : trace RpcOp RpcRes) : Prop :=
  ∀ url d m, answered_at t url "eth_call" (view_params registry d) m →
    match m with
    | Ok v => ∃ out, eth_view s d = Some out ∧ v = hex_param out
    | Err (Reverted _) => eth_view s d = None
    | Err _ => True
    end.

Context (cfg : ChainConfig) (s : Registry).

(** Over endpoints that serve [s] a read comes to [a], or to no answer. *)
Definition comes_to {A} (p : CFlow A) (a : A) : Prop :=
  ∀ t m, exec p t m → serves (cfg_registry_address cfg) s t → m = Ok a ∨ m = Err Unavailable.

Lemma serves_sub registry t t' : t ⊆ t' → serves registry s t' → serves registry s t.
Proof. intros Ht Hs url d m Ha. apply (Hs url). by eapply answered_at_mono. Qed.

Lemma comes_to_ret {A} (a : A) : comes_to (Ret (Ok a)) a.
Proof. intros t m [_ ->]%exec_ret_inv _. by left. Qed.

Lemma comes_to_bind {A B} (p : CFlow A) (f : A → CFlow B) a b :
  comes_to p a → comes_to (f a) b → comes_to (fbind p f) b.
Proof.
  intros Hp Hf t m [(e&He&->)|(t1&t2&a'&->&H1&H2)]%exec_fbind Hs.
  - destruct (Hp _ _ He Hs) as [?|[= ->]]; [done|by right].
  - destruct (Hp _ _ H1) as [[= ->]|?]; [eapply serves_sub, Hs; set_solver| |done].
    apply (Hf _ _ H2). eapply serves_sub, Hs. set_solver.
Qed.

(** A value computed without a call. *)
Lemma comes_to_value {A B} (v : A) (f : A → CFlow B) b : comes_to (f v) b → comes_to (fbind (Ret (Ok v)) f) b.
Proof. apply comes_to_bind, comes_to_ret. Qed.

Lemma exec_call_contract d t m :
  exec (read_registry cfg d) t m → serves (cfg_registry_address cfg) s t →
  m = Err Unavailable ∨
  match eth_view s d with Some out => m = Ok out | None => ∃ e, m = Err (Reverted e) end.
Proof.
  unfold read_registry, call_contract.
  intros [(e&H&->)|(t1&t2&v&->&H&H2)]%exec_fbind Hs; apply exec_rpc_call in H as (_ & [Hu|[Hd (url&Ha)]]);
    try (by injection Hu as ->; left); try done.
  - right. apply Hs in Ha. destruct e as [|e| | |]; try done. rewrite Ha. eauto.
  - eapply answered_at_mono in Ha; [|by apply list_subseteq_app_l]. apply Hs in Ha as (out & Ho & ->).
    right. rewrite Ho. apply exec_fbind in H2 as [(e&H2&->)|(t3&t4&x&->&H2&H3)];
      apply exec_ret_inv in H2 as [-> Hx]; cbn in Hx; [done|]. injection Hx as ->.
    apply exec_ret_inv in H3 as [_ ->]. unfold decode_rpc_bytes, strip_0x. rewrite strip_prefix_app. cbn.
    by rewrite hex_decode_encode.
Qed.

Hypothesis Hsel : selectors_distinct.

Lemma comes_to_view v args outs :
  v ∈ views → has_types (vw_arguments v) args = true → vw_run v s args = Ok outs →
  comes_to (read_registry cfg (abi_encode_call (vw_signature v) args)) (abi_encode_params outs).
Proof using Hsel.
  intros Hv Ht Hr t m He Hs. apply exec_call_contract in He as [->|He]; [by right| |done]. left.
  by rewrite view_call, Hr in He.
Qed.

(** A read of a view followed by its decoder. *)
Lemma comes_to_read {A B} v args outs (decode : bytes → result A string) a (f : A → CFlow B) b :
  v ∈ views → has_types (vw_arguments v) args = true → vw_run v s args = Ok outs →
  decode (abi_encode_params outs) = Ok a → comes_to (f a) b →
  comes_to (call x := read_registry cfg (abi_encode_call (vw_signature v) args) in
            call y := decoded (decode x) in f y) b.
Proof using Hsel.
  intros Hv Ht Hr Hd Hf. eapply comes_to_bind; [by apply comes_to_view|]. cbn beta. unfold decoded.
  rewrite Hd. by apply comes_to_value.
Qed.

Lemma comes_to_last {A} v args outs (decode : bytes → result A string) a :
  v ∈ views → has_types (vw_arguments v) args = true → vw_run v s args = Ok outs →
  decode (abi_encode_params outs) = Ok a →
  comes_to (call x := read_registry cfg (abi_encode_call (vw_signature v) args) in decoded (decode x)) a.
Proof using Hsel.
  intros Hv Ht Hr Hd. eapply comes_to_bind; [by apply comes_to_view|]. unfold decoded. rewrite Hd.
  apply comes_to_ret.
Qed.

Lemma comes_to_absent {A} v args (decode : bytes → result A string) a :
  v ∈ views → has_types (vw_arguments v) args = true →
  match vw_run v s args with
  | Ok outs => ∃ x, decode (abi_encode_params outs) = Ok x ∧ a = Some x
  | Err _ => a = None
  end →
  comes_to (absent_on_revert (read_registry cfg (abi_encode_call (vw_signature v) args)) decode) a.
Proof using Hsel.
  intros Hv Ht Ha t m (t1&t2&r&->&H1&H2)%exec_bind Hs.
  apply exec_call_contract in H1; [|eapply serves_sub, Hs; by apply list_subseteq_app_l].
  rewrite view_call in H1 by done. destruct H1 as [->|H1]; [apply exec_ret_inv in H2 as [_ ->]; by right|].
  left. destruct (vw_run v s args) as [outs|e].
  - subst r. destruct Ha as (x & Hx & ->). unfold decoded in H2. rewrite Hx in H2.
    by apply exec_ret_inv in H2 as [_ ->].
  - destruct H1 as [e' ->]. subst a. by apply exec_ret_inv in H2 as [_ ->].
Qed.

Hypothesis Hlinked : linked s.
Hypothesis Hread : readable U64_MAX s.

Ltac known_view := unfold views; repeat (apply list_elem_of_here || apply list_elem_of_further).

Lemma offset_in page size : in_u64 page → in_u64 size → in_u64 (offset_of page size).
Proof. unfold in_u64, offset_of, sat_mul, sat_sub, U64_MAX. nia. Qed.

(** The page asked for: numbered from one, with no bound on its offset. *)
Definition page_of {A} (l : list A) (page size : Z) (desc : bool) : list A :=
  slice l (Z.max 0 (page - 1) * size) size desc.

(** Where the offset saturates, the page is past the end. *)
Lemma slice_offset {A} (l : list A) page size desc : in_u64 page → in_u64 size → short U64_MAX l →
  slice l (offset_of page size) size desc = page_of l page size desc.
Proof.
  unfold in_u64, short, id_of, offset_of, page_of, sat_mul, sat_sub. intros Hp Hs Hl.
  destruct (Z.le_gt_cases (Z.max 0 (page - 1) * size) U64_MAX) as [Hle|Hgt]; [by rewrite Z.min_r|].
  rewrite Z.min_l by lia. transitivity (@nil A); [|symmetry]; apply nil_length_inv; rewrite length_slice; lia.
Qed.

Lemma id_typed id : in_u64 id → has_types [TUint256] [VUint id] = true.
Proof. intros H. by rewrite has_types_cons, uint_typed. Qed.
Lemma page_typed a b desc : in_u64 a → in_u64 b →
  has_types [TUint256; TUint256; TBool] [VUint a; VUint b; VBool desc] = true.
Proof. intros Ha Hb. by rewrite !has_types_cons, !uint_typed. Qed.

Lemma id_page_typed id a b desc : in_u64 id → in_u64 a → in_u64 b →
  has_types [TUint256; TUint256; TUint256; TBool] [VUint id; VUint a; VUint b; VBool desc] = true.
Proof. intros Hi Ha Hb. by rewrite has_types_cons, uint_typed, page_typed. Qed.

Lemma short_in {A} (l : list A) : short U64_MAX l → in_u64 (id_of l).
Proof. unfold short, in_u64. pose proof (id_of_nonneg l). lia. Qed.

Lemma inside_in {A} (l : list A) ids : short U64_MAX l → inside (id_of l) ids → Forall in_u64 ids.
Proof. unfold short. intros Hl H. eapply Forall_impl; [exact H|]. unfold in_u64. intros id; cbn. lia. Qed.

Lemma entry_time id e : entry_at s id = Some e → in_u256 (en_createdAt e).
Proof using Hread.
  intros [_ He]%entry_at_Some. exact (proj1 (Forall_lookup _ _) (rd_entry _ _ Hread) _ _ He).
Qed.

Lemma unit_readable id u : unit_at s id = Some u → readable_unit u.
Proof using Hread. intros [_ Hu]%unit_at_Some. exact (proj1 (Forall_lookup _ _) (rd_unit _ _ Hread) _ _ Hu). Qed.

Lemma inside_unit id : 0 ≤ id < id_of (units_ s) → is_Some (unit_at s id).
Proof.
  unfold unit_at, id_of. intros H. destruct (Z.ltb_spec id 0); [lia|]. apply lookup_lt_is_Some. lia.
Qed.
Lemma inside_entry id : 0 ≤ id < id_of (entries_ s) → is_Some (entry_at s id).
Proof.
  unfold entry_at, id_of. intros H. destruct (Z.ltb_spec id 0); [lia|]. apply lookup_lt_is_Some. lia.
Qed.

(** *** Single records *)

Lemma entry_comes id : in_u64 id → comes_to (entry cfg id) (client_entry id <$> entry_at s id).
Proof using Hsel Hread.
  intros Hid. apply (comes_to_absent view_entry [VUint id]); [known_view|by apply id_typed|].
  cbn [vw_run view_entry id_view]. unfold getEntry, getTotalEntries. destruct (entry_at s id) as [e|] eqn:He.
  - pose proof He as [? Hl%lookup_lt_Some]%entry_at_Some. rewrite (proj2 (Z.leb_gt _ _)) by (unfold id_of; lia).
    cbn. eexists. split; [|done]. apply decode_entry_value. by eapply entry_time.
  - by destruct (_ <=? _).
Qed.

Lemma unit_comes id : in_u64 id → comes_to (unit_ cfg id) (client_unit id <$> unit_at s id).
Proof using Hsel Hread.
  intros Hid. apply (comes_to_absent view_unit [VUint id]); [known_view|by apply id_typed|].
  cbn [vw_run view_unit id_view]. unfold getUnit, getTotalUnits. destruct (unit_at s id) as [u|] eqn:Hu.
  - pose proof Hu as [? Hl%lookup_lt_Some]%unit_at_Some. rewrite (proj2 (Z.leb_gt _ _)) by (unfold id_of; lia).
    cbn. eexists. split; [|done]. apply decode_unit_value. by eapply unit_readable.
  - by destruct (_ <=? _).
Qed.

Lemma content_comes h : length h = 32%nat → comes_to (is_content_registered cfg h) (isContentRegistered s h).
Proof using Hsel.
  intros Hh. eapply (comes_to_last view_content [VBytes32 h]); [known_view| |done|apply decode_bool_value].
  cbn -[Nat.eqb]. by rewrite Hh.
Qed.

Lemma referenced_comes g k : comes_to (is_referenced cfg g k) (isReferenced s g k).
Proof using Hsel.
  by eapply (comes_to_last view_referenced [VBytes g; VBytes k]); [known_view| | |apply decode_bool_value].
Qed.

Lemma total_comes v calldata n :
  v ∈ views → vw_arguments v = [] → vw_run v s [] = Ok [VUint n] → calldata = abi_encode_call (vw_signature v) [] →
  in_u64 n → comes_to (read_total cfg calldata) n.
Proof using Hsel.
  intros Hv Ha Hr -> Hn. eapply comes_to_last; try done; [by rewrite Ha|by apply decode_total_value].
Qed.

Definition client_totals : Totals :=
  mkTotals (id_of (entries_ s)) (id_of (units_ s)) (id_of (references_ s)) (id_of (rpIds_ s)).

Lemma totals_comes : comes_to (totals cfg) client_totals.
Proof using Hsel Hread.
  eapply comes_to_bind; [apply (total_comes view_total_entries); try done; [known_view|apply short_in, Hread]|].
  eapply comes_to_bind; [apply (total_comes view_total_units); try done; [known_view|apply short_in, Hread]|].
  eapply comes_to_bind; [apply (total_comes view_total_references); try done; [known_view|apply short_in, Hread]|].
  eapply comes_to_bind; [apply (total_comes view_total_rp_ids); try done; [known_view|apply short_in, Hread]|].
  apply comes_to_ret.
Qed.

(** *** Pages *)

(** The list under an id that a key has. *)
Definition under (plusOne : Z) (ids : Z → list Z) : list Z := if plusOne =? 0 then [] else ids (plusOne - 1).
Definition groups_of (k : bytes) : list Z := under (entryIdPlusOneByKey s (keccak256 k)) (entryUnitIds s).
Definition references_of (k : bytes) : list Z := under (entryIdPlusOneByKey s (keccak256 k)) (referenceIdsByEntry s).
Definition references_to (g : bytes) : list Z := under (unitIdPlusOneByGroupKey s (keccak256 g)) (referenceIdsByUnit s).

Definition client_units (ids : list Z) : list Unit := omap (λ id, client_unit id <$> unit_at s id) ids.
Definition client_entries (ids : list Z) : list Entry := omap (λ id, client_entry id <$> entry_at s id) ids.

Lemma ids_under_spec plusOne ids offset limit desc : 0 ≤ offset → 0 ≤ limit →
  ids_under plusOne ids offset limit desc =
    Ok (id_of (under plusOne ids), slice (under plusOne ids) offset limit desc).
Proof.
  intros Ho Hl. unfold ids_under, under. destruct (plusOne =? 0); [|by apply paged_spec].
  f_equal. f_equal. symmetry. apply nil_length_inv. rewrite length_slice. cbn. lia.
Qed.

Lemma under_inside {A} (l : list A) plusOne ids : (∀ id, inside (id_of l) (ids id)) → inside (id_of l) (under plusOne ids).
Proof. intros H. unfold under. destruct (plusOne =? 0); [constructor|done]. Qed.
Lemma under_short plusOne (ids : Z → list Z) : (∀ id, short U64_MAX (ids id)) → short U64_MAX (under plusOne ids).
Proof. intros H. unfold under. by destruct (plusOne =? 0). Qed.

(** A read of a page of ids. *)
Lemma comes_to_ids {A B} (l : list A) v args ids offset size desc (f : Z * list Z → CFlow B) b :
  v ∈ views → has_types (vw_arguments v) args = true →
  vw_run v s args = ids_value (Ok (id_of ids, slice ids offset size desc)) →
  short U64_MAX l → inside (id_of l) ids → short U64_MAX ids →
  comes_to (f (id_of ids, slice ids offset size desc)) b →
  comes_to (call x := read_registry cfg (abi_encode_call (vw_signature v) args) in
            call y := decoded (decode_id_page x) in f y) b.
Proof using Hsel.
  intros Hv Ht Hr Hl Hi Hs Hf. eapply comes_to_read; [done|done|exact Hr| |exact Hf].
  apply decode_ids; [by apply short_in|]. eapply inside_in; [exact Hl|]. by apply inside_slice.
Qed.

Lemma units_come ids : inside (id_of (units_ s)) ids → comes_to (units_of cfg ids) (client_units ids).
Proof using Hsel Hread.
  induction 1 as [|id ids Hid _ IH]; [apply comes_to_ret|]. destruct (inside_unit _ Hid) as [u Hu].
  cbn. rewrite Hu. cbn. assert (in_u64 id) as Hid'.
  { pose proof (rd_units _ _ Hread) as Hs. unfold short in Hs. unfold in_u64. lia. }
  eapply (comes_to_read view_unit [VUint id] [unit_value u]); [known_view|by apply id_typed| | |].
  - cbn. unfold getUnit, getTotalUnits. rewrite (proj2 (Z.leb_gt _ _)) by lia. by rewrite Hu.
  - apply decode_unit_value. by eapply unit_readable.
  - eapply comes_to_bind; [exact IH|apply comes_to_ret].
Qed.

Lemma groups_come rp page size desc : in_u64 page → in_u64 size →
  comes_to (groups_by_rp_id cfg rp page size desc)
    (mkPage (id_of (unitIdsByRpId s rp)) page size
      (client_units (page_of (unitIdsByRpId s rp) page size desc))).
Proof using Hsel Hread Hlinked.
  intros Hp Hs. pose proof (offset_in _ _ Hp Hs) as Ho. rewrite <-slice_offset by first [done|apply Hread].
  eapply (comes_to_ids (units_ s) view_groups_by_rp_id
    [VString rp; VUint (offset_of page size); VUint size; VBool desc] (unitIdsByRpId s rp)).
  - known_view.
  - by apply page_typed.
  - cbn. unfold getGroupsByRpId, pageIds. by rewrite paged_spec by apply Ho || apply Hs.
  - apply Hread.
  - apply Hlinked.
  - apply Hread.
  - cbn [fst snd]. eapply comes_to_bind; [|apply comes_to_ret]. apply units_come, inside_slice, Hlinked.
Qed.

(** *** Sites *)

Definition client_site (rp : string) : SiteItem :=
  mkSiteItem rp (id_of (unitIdsByRpId s rp)) (sat_mul U64_MAX (rpCreatedAt s rp) 1000).

Lemma decode_sites total rps : in_u64 total → Forall (λ rp, valid_utf8 rp = true) rps →
  decode_rp_ids (abi_encode_params
    [VUint total; VSeq (VString <$> rps); VSeq ((λ rp, VUint (id_of (unitIdsByRpId s rp))) <$> rps);
     VSeq ((λ rp, VUint (rpCreatedAt s rp)) <$> rps)]) =
  Ok (total, (λ rp, (rp, id_of (unitIdsByRpId s rp), sat_mul U64_MAX (rpCreatedAt s rp) 1000)) <$> rps).
Proof using Hread.
  intros Ht Hrps. unfold decode_rp_ids. rewrite decode_as_encode.
  - cbn [mbind option_bind]. do 3 (erewrite collect_values by done; cbn [mbind option_bind]).
    cbn [ok_or rbind]. rewrite list_fmap_id.
    assert (Hr : rmap (λ p : string * Z * Z,
        try count := ok_or "count exceeds u64" (try_u64 p.1.2) in
        try t := ok_or "timestamp exceeds u64" (try_u64 p.2) in
        Ok (p.1.1, count, sat_mul U64_MAX t 1000))
      (zip (zip rps ((λ rp, id_of (unitIdsByRpId s rp)) <$> rps)) (rpCreatedAt s <$> rps)) =
      Ok ((λ rp, (rp, id_of (unitIdsByRpId s rp), sat_mul U64_MAX (rpCreatedAt s rp) 1000)) <$> rps)).
    { clear Hrps. induction rps as [|rp rps IH]; [done|]. cbn.
      rewrite !try_u64_in by first [apply Hread|apply short_in, Hread]. cbn.
      change (zip (zip _ _) _) with (zip (zip rps ((λ rp, id_of (unitIdsByRpId s rp)) <$> rps)) (rpCreatedAt s <$> rps)).
      by rewrite IH. }
    rewrite Hr. cbn [rbind]. by rewrite try_u64_in.
  - rewrite !has_types_cons, uint_typed by done. rewrite (array_typed TString), !(array_typed TUint256); [done|..];
      apply Forall_true; try done; intros rp; apply uint_typed; first [apply Hread|apply short_in, Hread].
  - cbn [forallb]. by rewrite !array_text by first [done|by apply Forall_true].
Qed.

Lemma sites_come page size desc : in_u64 page → in_u64 size →
  comes_to (rp_ids cfg page size desc)
    (mkPage (id_of (rpIds_ s)) page size (client_site <$> page_of (rpIds_ s) page size desc)).
Proof using Hsel Hread.
  intros Hp Hs. pose proof (offset_in _ _ Hp Hs) as Ho. rewrite <-slice_offset by first [done|apply Hread].
  eapply (comes_to_read view_rp_ids [VUint (offset_of page size); VUint size; VBool desc]).
  - known_view.
  - by apply page_typed.
  - cbn. unfold getRpIds. rewrite paged_spec by apply Ho || apply Hs. cbn. rewrite <-!list_fmap_compose. reflexivity.
  - apply decode_sites; [apply short_in, Hread|]. unfold slice. apply Forall_take, Forall_drop.
    destruct desc; [rewrite reverse_Permutation|]; apply Hread.
  - cbn [fst snd]. rewrite <-list_fmap_compose. apply comes_to_ret.
Qed.

(** *** Details *)

Lemma members_found ids : inside (id_of (entries_ s)) ids →
  ∃ es, rmap (λ id, ok_or Panic (entry_at s id)) ids = Ok es ∧
    zip_with client_entry ids es = client_entries ids ∧ Forall (λ e, in_u256 (en_createdAt e)) es.
Proof using Hread.
  induction 1 as [|id ids Hid _ (es & He & Hz & Ht)]; [by exists []|].
  destruct (inside_entry _ Hid) as [e Hat]. exists (e :: es). cbn. rewrite Hat, He. cbn.
  split_and!; [done|by rewrite Hz|]. constructor; [|done]. by eapply entry_time.
Qed.

Definition client_detail (id : Z) (u : Unit_) (g : bytes) (page size : Z) (desc : bool) : GroupDetail :=
  mkGroupDetail (client_unit id u) (id_of (groupEntryIds s id))
    (client_entries (page_of (groupEntryIds s id) page size desc))
    (id_of (references_to g)) (page_of (references_to g) page size desc).

Lemma detail_comes id u g page size desc : unit_at s id = Some u → in_u64 page → in_u64 size →
  comes_to (group_detail_for cfg (client_unit id u) g page size desc)
    (client_detail id u g page size desc).
Proof using Hsel Hread Hlinked.
  intros Hu Hp Hs. pose proof (offset_in _ _ Hp Hs) as Ho.
  pose proof Hu as [Hid0 Hl%lookup_lt_Some]%unit_at_Some.
  assert (0 ≤ id < id_of (units_ s)) as Hid by (unfold id_of; lia).
  assert (in_u64 id) as Hid'. { pose proof (rd_units _ _ Hread) as Hn. unfold short in Hn. unfold in_u64. lia. }
  destruct (members_found (slice (groupEntryIds s id) (offset_of page size) size desc)) as (es & He & Hz & Ht).
  { apply inside_slice, Hlinked. }
  eapply (comes_to_read view_group_members [VUint id; VUint (offset_of page size); VUint size; VBool desc]).
  - known_view.
  - by apply id_page_typed.
  - cbn. unfold getGroupMembers, getTotalUnits, pageIds. rewrite (proj2 (Z.leb_gt _ _)) by lia.
    rewrite paged_spec by apply Ho || apply Hs. cbn. rewrite He. reflexivity.
  - apply decode_group_members_value; [apply short_in, Hread| |done].
    eapply (inside_in (entries_ s)); [apply Hread|]. apply inside_slice, Hlinked.
  - eapply (comes_to_ids (references_ s) view_references_to_group
      [VBytes g; VUint (offset_of page size); VUint size; VBool desc] (references_to g)).
    + known_view.
    + by apply page_typed.
    + cbn. unfold getReferencesToGroup. by rewrite ids_under_spec by apply Ho || apply Hs.
    + apply Hread.
    + apply under_inside, Hlinked.
    + apply under_short, Hread.
    + cbn [fst snd]. rewrite Hz, !slice_offset by first [done|apply under_short, Hread|apply Hread]. apply comes_to_ret.
Qed.

(** A key's entry, and the group that has a key. *)
Definition entry_of (k : bytes) : option (Z * Entry_) :=
  let id := entryIdPlusOneByKey s (keccak256 k) - 1 in e ← entry_at s id; Some (id, e).
Definition group_of (g : bytes) : option (Z * Unit_) :=
  let id := unitIdPlusOneByGroupKey s (keccak256 g) - 1 in u ← unit_at s id; Some (id, u).

Lemma getEntryByKey_spec k : getEntryByKey s k = Ok (entry_of k).
Proof using Hlinked.
  unfold getEntryByKey, entry_of. pose proof (lk_key _ Hlinked (keccak256 k)) as Hk.
  destruct (Z.eqb_spec (entryIdPlusOneByKey s (keccak256 k)) 0) as [->|Hn]; [done|].
  destruct (inside_entry (entryIdPlusOneByKey s (keccak256 k) - 1)) as [e He]; [lia|]. by rewrite He.
Qed.

Lemma getUnitByGroupKey_spec g : getUnitByGroupKey s g = Ok (group_of g).
Proof using Hlinked.
  unfold getUnitByGroupKey, group_of. pose proof (lk_group _ Hlinked (keccak256 g)) as Hg.
  destruct (Z.eqb_spec (unitIdPlusOneByGroupKey s (keccak256 g)) 0) as [->|Hn]; [done|].
  destruct (inside_unit (unitIdPlusOneByGroupKey s (keccak256 g) - 1)) as [u Hu]; [lia|]. by rewrite Hu.
Qed.

Lemma entry_id_in id e : entry_at s id = Some e → in_u64 id.
Proof using Hread.
  intros [? Hl%lookup_lt_Some]%entry_at_Some. pose proof (rd_entries _ _ Hread) as Hs. unfold short, id_of in Hs.
  unfold in_u64. lia.
Qed.
Lemma unit_id_in id u : unit_at s id = Some u → in_u64 id.
Proof using Hread.
  intros [? Hl%lookup_lt_Some]%unit_at_Some. pose proof (rd_units _ _ Hread) as Hs. unfold short, id_of in Hs.
  unfold in_u64. lia.
Qed.

Lemma unit_by_group_key_comes g :
  comes_to (unit_by_group_key cfg g) ((λ p, client_unit p.1 p.2) <$> group_of g).
Proof using Hsel Hread Hlinked.
  destruct (group_of g) as [[id u]|] eqn:Hg.
  - assert (unit_at s id = Some u) as Hu.
    { unfold group_of in Hg. by apply bind_Some in Hg as (u' & Hu & [= <- <-]). }
    eapply (comes_to_last view_unit_by_group_key [VBytes g]); [known_view|done| |].
    + cbn. by rewrite getUnitByGroupKey_spec, Hg.
    + apply decode_unit_by_group_key_value; [by eapply unit_id_in|by eapply unit_readable].
  - eapply (comes_to_last view_unit_by_group_key [VBytes g]); [known_view|done| |].
    + cbn. by rewrite getUnitByGroupKey_spec, Hg.
    + apply decode_unit_by_group_key_none.
Qed.

Lemma detail_by_key_comes g page size desc : in_u64 page → in_u64 size →
  comes_to (group_detail_by_key cfg g page size desc)
    ((λ p, client_detail p.1 p.2 g page size desc) <$> group_of g).
Proof using Hsel Hread Hlinked.
  intros Hp Hs. eapply comes_to_bind; [apply unit_by_group_key_comes|].
  destruct (group_of g) as [[id u]|] eqn:Hg; [|apply comes_to_ret].
  unfold group_of in Hg. apply bind_Some in Hg as (u' & Hu & [= <- <-]).
  eapply comes_to_bind; [by apply detail_comes|apply comes_to_ret].
Qed.

Lemma detail_by_id_comes id page size desc : in_u64 id → in_u64 page → in_u64 size →
  comes_to (group_detail_by_id cfg id page size desc)
    ((λ u, client_detail id u (un_groupPublicKey u) page size desc) <$> unit_at s id).
Proof using Hsel Hread Hlinked.
  intros Hid Hp Hs. eapply comes_to_bind; [by apply unit_comes|].
  destruct (unit_at s id) as [u|] eqn:Hu; [|apply comes_to_ret].
  cbn [fmap option_fmap option_map]. change (u_group_public_key (client_unit id u)) with (hex_encode (un_groupPublicKey u)).
  rewrite hex_decode_encode. apply comes_to_value. eapply comes_to_bind; [by apply detail_comes|apply comes_to_ret].
Qed.

Definition client_profile (k : bytes) (page size : Z) (desc : bool) (p : Z * Entry_) : KeyProfile :=
  mkKeyProfile (client_entry p.1 p.2) (id_of (groups_of k)) (page_of (groups_of k) page size desc)
    (id_of (references_of k)) (page_of (references_of k) page size desc).

Lemma profile_comes text k page size desc :
  hex_decode (strip_0x text) = Some k → in_u64 page → in_u64 size →
  comes_to (key_profile cfg text page size desc) (client_profile k page size desc <$> entry_of k).
Proof using Hsel Hread Hlinked.
  intros Hk Hp Hs. pose proof (offset_in _ _ Hp Hs) as Ho. unfold key_profile. rewrite Hk. apply comes_to_value.
  destruct (entry_of k) as [[id e]|] eqn:He.
  - assert (entry_at s id = Some e) as Hat.
    { unfold entry_of in He. by apply bind_Some in He as (e' & Hat & [= <- <-]). }
    eapply (comes_to_read view_entry_by_key [VBytes k]); [known_view|done| | |].
    + cbn. rewrite getEntryByKey_spec, He. reflexivity.
    + apply decode_entry_by_key_value; [by eapply entry_id_in|by eapply entry_time].
    + eapply (comes_to_ids (units_ s) view_groups_of_key
        [VBytes k; VUint (offset_of page size); VUint size; VBool desc] (groups_of k));
        [known_view|by apply page_typed| |apply Hread|apply under_inside, Hlinked|apply under_short, Hread|].
      { cbn. unfold getGroupsOfKey. by rewrite ids_under_spec by apply Ho || apply Hs. }
      eapply (comes_to_ids (references_ s) view_references_of_key
        [VBytes k; VUint (offset_of page size); VUint size; VBool desc] (references_of k));
        [known_view|by apply page_typed| |apply Hread|apply under_inside, Hlinked|apply under_short, Hread|].
      { cbn. unfold getReferencesOfKey. by rewrite ids_under_spec by apply Ho || apply Hs. }
      rewrite !slice_offset by first [done|apply under_short, Hread]. apply comes_to_ret.
  - eapply (comes_to_read view_entry_by_key [VBytes k]); [known_view|done| | |].
    + cbn. rewrite getEntryByKey_spec, He. reflexivity.
    + apply decode_entry_by_key_none.
    + apply comes_to_ret.
Qed.

(** What the chain client promises of a registry in the state [s]. *)
Record reads_registry : Prop := {
  rr_entry id : in_u64 id → comes_to (entry cfg id) (client_entry id <$> entry_at s id);
  rr_unit id : in_u64 id → comes_to (unit_ cfg id) (client_unit id <$> unit_at s id);
  rr_totals : comes_to (totals cfg) client_totals;
  rr_content h : length h = 32%nat → comes_to (is_content_registered cfg h) (isContentRegistered s h);
  rr_referenced g k : comes_to (is_referenced cfg g k) (isReferenced s g k);
  rr_profile text k page size desc : hex_decode (strip_0x text) = Some k → in_u64 page → in_u64 size →
    comes_to (key_profile cfg text page size desc) (client_profile k page size desc <$> entry_of k);
  rr_groups rp page size desc : in_u64 page → in_u64 size →
    comes_to (groups_by_rp_id cfg rp page size desc)
      (mkPage (id_of (unitIdsByRpId s rp)) page size
        (client_units (page_of (unitIdsByRpId s rp) page size desc)));
  rr_sites page size desc : in_u64 page → in_u64 size →
    comes_to (rp_ids cfg page size desc)
      (mkPage (id_of (rpIds_ s)) page size (client_site <$> page_of (rpIds_ s) page size desc));
  rr_by_key g page size desc : in_u64 page → in_u64 size →
    comes_to (group_detail_by_key cfg g page size desc)
      ((λ p, client_detail p.1 p.2 g page size desc) <$> group_of g);
  rr_by_id id page size desc : in_u64 id → in_u64 page → in_u64 size →
    comes_to (group_detail_by_id cfg id page size desc)
      ((λ u, client_detail id u (un_groupPublicKey u) page size desc) <$> unit_at s id);
}.

Lemma reads_state : reads_registry.
Proof using Hsel Hread Hlinked.
  split; auto using entry_comes, unit_comes, totals_comes, content_comes, referenced_comes, profile_comes,
    groups_come, sites_come, detail_by_key_comes, detail_by_id_comes.
Qed.
End reads.

(** ** The property *)

Section theorems.
Context `{C : Crates, V : !Evm, J : JsonCrate, E : EthCrates}.

(** C22. At every state of the registry contract's life, over endpoints that
    answer from it, each lookup of the chain client comes to exactly what
    the contract holds there, or to the error that no endpoint answered: an
    absent record is told from an unanswered read, nothing is truncated, and
    a page is the page asked for, from the end or from the beginning, with
    its records in order and the list's full length. *)
Theorem client_reads_registry cfg bc this dc dr txs :
  selectors_distinct →
  Forall (λ tx, in_u64 tx.2 ∧ ∀ c, decode_call tx.1 = Some c → texts c) txs → 15 * id_of txs ≤ U64_MAX →
  reads_registry cfg (mined (new_registry bc this dc dr) txs).
Proof. intros Hsel Htx Hn. apply reads_state; [done|apply linked_life|by apply readable_life]. Qed.
End theorems.

(** ** Evaluation on examples *)
Section examples.
#[local] Existing Instances registry_crates registry_evm registry_mirrors concrete_json concrete_eth.

Definition registry_of_cfg : bytes := cfg_registry_address sample_cfg.

(** A node of the contract's chain; the endpoint ["down"] is not. *)
Definition contract_reply (s : Registry) (url method : string) (params : Json) : HttpReply :=
  if String.eqb url "down" then NoAnswer else
  if String.eqb method "eth_call" then
    match params with
    | JArr [JObj [("to", _); ("data", JStr text)]; _] =>
        match d ← hex_decode (strip_0x text); eth_view s d with
        | Some out => Answer (JObj [("result", hex_param out)])
        | None => Answer (JObj [("error", JObj [("message", JStr "execution reverted")])])
        end
    | _ => BadBody
    end
  else BadBody.

(** The network is the registry that its nodes read. *)
#[local, refine] Instance contract_network : Network Registry :=
  {| post url method params s := (contract_reply s url method params, 40, s) |}.
Proof. intros. by vm_compute. Defined.

Definition contract_node (s : Registry) : RpcState Registry := mkRpcState (new ["down"; "up"] ["up"]) 0 s.

Lemma contract_replies s url d m :
  read_reply (contract_reply s url "eth_call" (view_params registry_of_cfg d)) = m →
  match m with
  | Ok v => ∃ out, eth_view s d = Some out ∧ v = hex_param out
  | Err (Reverted _) => eth_view s d = None
  | Err _ => True
  end.
Proof.
  intros <-. unfold contract_reply. destruct (String.eqb url "down"); [done|].
  change (String.eqb "eth_call" "eth_call") with true. cbv iota. unfold view_params, address_param.
  unfold hex_param at 1. cbv beta iota. unfold strip_0x. rewrite strip_prefix_app. cbn [default id].
  unfold id. rewrite hex_decode_encode. cbn [mbind option_bind].
  destruct (eth_view s d) as [out|]; [by exists out|by vm_compute].
Qed.

Lemma shell_keeps_net op (st : RpcState Registry) : rpc_net (rpc_shell op st).2 = rpc_net st.
Proof. destruct op; cbn; try done; repeat case_match; done. Qed.

Lemma contract_serves {A} (p : CProg A) st :
  serves registry_of_cfg (rpc_net st) (run rpc_shell p st).1.2.
Proof.
  revert st. induction p as [a|op k IH]; intros st url d m (r & Hr & Hm); cbn [run] in Hr; [by apply elem_of_nil in Hr|].
  pose proof (shell_keeps_net op st) as Hn. destruct (rpc_shell op st) as [r1 st1] eqn:Hop. cbn [snd] in Hn.
  specialize (IH r1 st1 url d m). destruct (run rpc_shell (k r1) st1) as [[st2 t] a]. cbn [fst snd] in *.
  apply elem_of_cons in Hr as [[= <- <-]|Hr]; [|rewrite <-Hn; apply IH; by exists r].
  cbn [rpc_shell post contract_network] in Hop. injection Hop as <- _. by apply (contract_replies _ url).
Qed.

Definition textsb (tx : bytes * Z) : bool :=
  (0 <=? tx.2) && (tx.2 <=? U64_MAX) &&
  match decode_call tx.1 with Some (CallRegister rp _ _ _ _) => valid_utf8 rp | _ => true end.

Lemma textsb_spec txs : forallb textsb txs = true →
  Forall (λ tx, in_u64 tx.2 ∧ ∀ c, decode_call tx.1 = Some c → texts c) txs.
Proof.
  rewrite forallb_forall. intros H. apply Forall_forall. intros tx Hin%list_elem_of_In%H. unfold textsb in Hin.
  rewrite !andb_true_iff, !Z.leb_le in Hin. destruct Hin as [Hn Hc]. split; [exact Hn|]. intros c Hd.
  rewrite Hd in Hc. by destruct c.
Qed.

Lemma two_groups_texts : Forall (λ tx, in_u64 tx.2 ∧ ∀ c, decode_call tx.1 = Some c → texts c) two_groups.
Proof. apply textsb_spec. by vm_compute. Qed.

Lemma views_differ : selectors_distinct.
Proof. unfold selectors_distinct. apply (bool_decide_eq_true_1 _). by vm_compute. Qed.

(** The second page of a site's groups, the newest first, over a node whose
    first endpoint is down. *)
Definition second_page (s : Registry) :=
  run rpc_shell (groups_by_rp_id sample_cfg sample_rp 2 1 true) (contract_node s).

Lemma second_page_serves s : serves (cfg_registry_address sample_cfg) s (second_page s).1.2.
Proof. exact (contract_serves (groups_by_rp_id sample_cfg sample_rp 2 1 true) (contract_node s)). Qed.

Lemma second_page_exec s : exec (groups_by_rp_id sample_cfg sample_rp 2 1 true) (second_page s).1.2 (second_page s).2.
Proof. unfold second_page. destruct (run rpc_shell _ _) as [[st t] m] eqn:Hr. by apply run_exec in Hr. Qed.

Definition older_group (m : result (Page Unit) ChainError) : option (Z * list string) :=
  match m with Ok p => Some (Records.total _ p, u_group_public_key <$> Records.items _ p) | Err _ => None end.

Definition two_groups_state : Registry := mined (new_registry 100 sample_registry 0 (replicate 20 x00)) two_groups.

Lemma second_page_answer : older_group (second_page two_groups_state).2 = Some (2, [hex_encode key_5]).
Proof. by vm_compute. Qed.

Lemma second_page_ends s page :
  comes_to sample_cfg s (groups_by_rp_id sample_cfg sample_rp 2 1 true) page →
  older_group (second_page s).2 ≠ None → (second_page s).2 = Ok page.
Proof.
  intros Hc Ha. destruct (Hc _ _ (second_page_exec s) (second_page_serves s)) as [Hm|Hm]; [done|].
  destruct Ha. by rewrite Hm.
Qed.

Lemma client_reads_registry_witness :
  (second_page two_groups_state).2 =
    Ok (mkPage (id_of (unitIdsByRpId two_groups_state sample_rp)) 2 1
      (client_units two_groups_state (page_of (unitIdsByRpId two_groups_state sample_rp) 2 1 true))).
Proof.
  assert (reads_registry sample_cfg two_groups_state) as Hall.
  { unfold two_groups_state. apply client_reads_registry; [apply views_differ|apply two_groups_texts|by vm_compute]. }
  apply second_page_ends.
  - apply (rr_groups _ _ Hall); by vm_compute.
  - by rewrite second_page_answer.
Defined.
End examples.
