(* ===== verification/Replay.v ===== *)
(** * The replay tool ([p256-replay/src/main.rs])

    Export the calldata of every write to a registry, replay it verbatim into
    another deployment, verify that it is there.  The tool talks JSON-RPC to
    one endpoint: its programs are those of [Rpc], POSTs with arbitrary
    answers.  The archive's file and what is printed are values. *)
From Stdlib Require Import Ascii String Strings.Byte.
From S2P Require Export Chain.
From stdpp Require Import options.
#[local] Set Warnings "-register-all".

(** Milliseconds, and blocks. *)
Definition RECEIPT_TIMEOUT : Z := 120_000.
Definition RECEIPT_POLL : Z := 500.
Definition LOG_CHUNK : Z := 100_000.

Inductive Kind := KRegister | KRefer.
#[export] Instance kind_eq_decision : EqDecision Kind.
Proof. solve_decision. Defined.

Record Row := mkRow {
  row_tx_hash : string;
  row_block : Z;
  row_tx_index : Z;
  row_kind : Kind;
  row_input : string;
}.

Inductive CallOutcome :=
| CallOk
| CallReverted (error_selector : option bytes) (raw : string).

(** How a command fails; [OutOfFuel] is no outcome of the tool, and the
    theorems show that it does not happen. *)
Inductive Failure :=
| Bail (message : string)
| WritesFailed (failed : list string)
| VerifyFailed (missing anomalies : list string)
| OutOfFuel.

Definition RFlow (A : Type) : Type := CProg (result A Failure).

(** A value of the struct: [u64] numbers, [String] text. *)
Record row_typed (r : Row) : Prop := {
  rt_hash : valid_utf8 (row_tx_hash r) = true;
  rt_block : in_u64 (row_block r);
  rt_index : in_u64 (row_tx_index r);
  rt_input : valid_utf8 (row_input r) = true;
}.

(** One archived write per line. *)
Class RowCodec := {
  (** [serde_json::to_string(row)] and [from_str(line).ok()] *)
  row_to_json : Row → string;
  row_of_json : string → option Row;
  row_of_to_json r : row_typed r → row_of_json (row_to_json r) = Some r;
  (** An object on one line: control characters are escaped. *)
  row_json_line r : row_typed r → str_all (in_range 32 255) (row_to_json r) = true;
  row_json_object r : row_typed r → ∃ s, row_to_json r = String "{" s;
}.

Definition trim_0x (s : string) : string := trim_start_str "0x" s.

(** [format!("{n:x}")] of a [u64]. *)
Definition hex_char (d : Z) : ascii :=
  ascii_of_N (Z.to_N (if d <? 10 then 48 + d else 87 + d)).
Fixpoint hex_digits (fuel : nat) (n : Z) (acc : string) : string :=
  match fuel with
  | O => acc
  | S fuel =>
      let acc := String (hex_char (n mod 16)) acc in
      if n <? 16 then acc else hex_digits fuel (n / 16) acc
  end.
Definition fmt_hex (n : Z) : string := hex_digits 16 n EmptyString.

(** [iter.find_map(f)] *)
Definition find_map {A B} (f : A → option B) (l : list A) : option B := head (omap f l).

Section replay.
Context `{C : Crates, J : JsonCrate, E : EthCrates, W : RowCodec}.

Definition selector (signature : string) : bytes := take 4 (keccak256 (as_bytes signature)).

Definition register_selector : bytes := selector
  "register(string,bytes,bytes,(bytes,string,uint256,uint256,uint256,uint256),(bytes,bytes,bytes,bytes,bytes,(bytes,string,uint256,uint256,uint256,uint256))[])".
Definition refer_selector : bytes := selector
  "refer(bytes,bytes,(bytes,bytes,bytes,bytes,bytes,(bytes,string,uint256,uint256,uint256,uint256)))".
Definition already_used : bytes := selector "GroupKeyAlreadyUsed(bytes32)".
Definition already_referenced : bytes := selector "AlreadyReferenced(uint256)".
Definition group_not_found : bytes := selector "GroupNotFound(bytes32)".

(** ** JSON-RPC *)

Context (url : string).

Definition rp_request (method : string) (params : Json) : RFlow Json :=
  await r := Post url method params in
  Ret match reply_of r with
      | NoAnswer => Err (Bail (method +:+ " transport"))
      | BadBody => Err (Bail (method +:+ " body"))
      | Answer response =>
          match json_get "error" response with
          | Some error => Err (Bail (method +:+ " error: " +:+ json_to_string error))
          | None => ok_or (Bail (method +:+ ": no result")) (json_get "result" response)
          end
      end.

Definition parse_quantity (v : Json) : result Z Failure :=
  try text := ok_or (Bail ("quantity not a string: " +:+ json_to_string v)) (as_str v) in
  ok_or (Bail "quantity parse") (u64_from_hex (trim_0x text)).

Definition quantity (method : string) (params : Json) : RFlow Z :=
  call r := rp_request method params in Ret (parse_quantity r).

Definition selector_of_text (text : string) : option bytes :=
  b ← hex_decode (trim_0x text);
  if (4 <=? length b)%nat then Some (take 4 b) else None.

Definition revert_selector (error : Json) : option bytes :=
  data ← json_get "data" error;
  match as_str data with
  | Some text => selector_of_text text
  | None =>
      match json_get "data" data ≫= as_str with
      | Some text => selector_of_text text
      | None =>
          match data with
          | JObj fields =>
              find_map (λ inner,
                found ← match json_get "return" inner with
                        | Some v => Some v
                        | None => json_get "data" inner
                        end;
                text ← as_str found; selector_of_text text) fields.*2
          | _ => None
          end
      end
  end.

Definition read_call (r : HttpReply) : result CallOutcome Failure :=
  match r with
  | NoAnswer => Err (Bail "eth_call transport")
  | BadBody => Err (Bail "eth_call body")
  | Answer response =>
      if match json_get "result" response with Some r => negb (is_null r) | None => false end
      then Ok CallOk else
      try error := ok_or (Bail "eth_call: neither result nor error") (json_get "error" response) in
      Ok (CallReverted (revert_selector error) (json_to_string error))
  end.

Definition call_params (from : option bytes) (to : bytes) (data : string) : Json :=
  JArr [JObj ([("to", address_param to); ("data", JStr data)] ++
              match from with Some from => [("from", address_param from)] | None => [] end);
        JStr "latest"].

(** [Rpc::call] *)
Definition rp_call (from : option bytes) (to : bytes) (data : string) : RFlow CallOutcome :=
  await r := Post url "eth_call" (call_params from to data) in Ret (read_call (reply_of r)).

(** ** Export *)

Definition block_param (n : Z) : Json := JStr ("0x" +:+ fmt_hex n).

Definition code_present (code : Json) : bool :=
  match as_str code with Some c => 2 <? str_len c | None => false end.

Definition has_code (registry : bytes) (block : Z) : RFlow bool :=
  call code := rp_request "eth_getCode" (JArr [address_param registry; block_param block]) in
  Ret (Ok (code_present code)).

(** [while lo < hi]: a [u64] interval is halved at most 64 times. *)
Fixpoint search_deploy (fuel : nat) (registry : bytes) (lo hi : Z) : RFlow Z :=
  match fuel with
  | O => Ret (Err OutOfFuel)
  | S fuel =>
      if lo <? hi then
        let mid := lo + (hi - lo) / 2 in
        call present := has_code registry mid in
        if present : bool then search_deploy fuel registry lo mid
        else search_deploy fuel registry (mid + 1) hi
      else Ret (Ok lo)
  end.

Definition find_deploy_block (registry : bytes) (latest : Z) : RFlow Z :=
  call present := has_code registry latest in
  if negb present then
    Ret (Err (Bail ("registry " +:+ address_to_string registry +:+ " has no code at block " +:+
      fmt latest)))
  else search_deploy 65 registry 1 latest.

(** [BTreeMap<(u64, u64), String>]: sorted by key, one value per key. *)
Definition TxMap : Type := list ((Z * Z) * string).
Definition key_ltb (a b : Z * Z) : bool := (a.1 <? b.1) || ((a.1 =? b.1) && (a.2 <? b.2)).
Fixpoint tx_insert (k : Z * Z) (v : string) (m : TxMap) : TxMap :=
  match m with
  | [] => [(k, v)]
  | (k', v') :: m' =>
      if key_ltb k k' then (k, v) :: m
      else if key_ltb k' k then (k', v') :: tx_insert k v m'
      else (k, v) :: m'
  end.

Definition log_tx (log : Json) : result ((Z * Z) * string) Failure :=
  try block := parse_quantity (default JNull (json_get "blockNumber" log)) in
  try index := parse_quantity (default JNull (json_get "transactionIndex" log)) in
  try hash := ok_or (Bail "log without transactionHash")
    (json_get "transactionHash" log ≫= as_str) in
  Ok ((block, index), hash).

Fixpoint insert_logs (logs : list Json) (txs : TxMap) : result TxMap Failure :=
  match logs with
  | [] => Ok txs
  | log :: logs => try t := log_tx log in insert_logs logs (tx_insert t.1 t.2 txs)
  end.

Definition logs_params (registry : bytes) (start end_ : Z) : Json :=
  JArr [JObj [("address", address_param registry); ("fromBlock", block_param start);
              ("toBlock", block_param end_)]].

(** [while start <= to_block]: a failed range is asked again, half as long. *)
Fixpoint scan (fuel : nat) (registry : bytes) (start to_block chunk : Z) (txs : TxMap)
    : RFlow TxMap :=
  match fuel with
  | O => Ret (Err OutOfFuel)
  | S fuel =>
      if start <=? to_block then
        let end_ := Z.min to_block (wrap64 (start + chunk - 1)) in
        pbind (rp_request "eth_getLogs" (logs_params registry start end_)) (λ r,
          match r with
          | Ok (JArr logs) =>
              match insert_logs logs txs with
              | Ok txs => scan fuel registry (wrap64 (end_ + 1)) to_block chunk txs
              | Err e => Ret (Err e)
              end
          | Ok other => Ret (Err (Bail ("eth_getLogs: unexpected result " +:+ json_to_string other)))
          | Err error =>
              if 500 <? chunk then scan fuel registry start to_block (chunk / 2) txs
              else Ret (Err (Bail "eth_getLogs at minimum chunk"))
          end)
      else Ret (Ok txs)
  end.

(** Enough turns: no range asked is shorter than 390 blocks, and eight
    halvings reach it. *)
Definition scan_fuel (from_block to_block : Z) : nat :=
  Z.to_nat (Z.max 0 (to_block - from_block + 1) / 390 + 11).

(** [input.trim_start_matches("0x").get(..8)], decoded, or nothing. *)
Definition input_head (input : string) : bytes :=
  let text := trim_0x input in
  if 8 <=? str_len text then default [] (hex_decode (String.substring 0 8 text)) else [].

(** A call that is neither a register nor a refer is skipped. *)
Definition kind_of (input : string) : option Kind :=
  if bool_decide (input_head input = register_selector) then Some KRegister
  else if bool_decide (input_head input = refer_selector) then Some KRefer
  else None.

Fixpoint fetch_rows (txs : TxMap) : RFlow (list Row) :=
  match txs with
  | [] => Ret (Ok [])
  | ((block, tx_index), tx_hash) :: txs =>
      call tx := rp_request "eth_getTransactionByHash" (JArr [JStr tx_hash]) in
      call input := Ret (ok_or (Bail ("tx " +:+ tx_hash +:+ ": no input"))
        (json_get "input" tx ≫= as_str)) in
      call rows := fetch_rows txs in
      Ret (Ok match kind_of input with
              | Some kind => mkRow tx_hash block tx_index kind input :: rows
              | None => rows
              end)
  end.

(** The archive, and the range of blocks it covers. *)
Definition export (registry : bytes) (from_block to_block : option Z)
    : RFlow (Z * Z * list Row) :=
  call latest := quantity "eth_blockNumber" (JArr []) in
  let to_block := default latest to_block in
  call from_block := (match from_block with
                      | Some block => Ret (Ok block)
                      | None => find_deploy_block registry to_block
                      end) in
  call txs := scan (scan_fuel from_block to_block) registry from_block to_block LOG_CHUNK [] in
  call rows := fetch_rows txs in
  Ret (Ok (from_block, to_block, rows)).

(** The text of the archive file. *)
Definition newline : ascii := Ascii.ascii_of_N 10.
Definition archive_text (rows : list Row) : string :=
  foldr (λ row body, row_to_json row +:+ String newline body) EmptyString rows.

(** ** Reading an archive *)

(** [str::lines]: a line ends at a line feed, with the carriage return
    before it if there is one. *)
Definition starts_crlf (c : ascii) (s : string) : bool :=
  Ascii.eqb c (Ascii.ascii_of_N 13) &&
  match s with String d _ => Ascii.eqb d newline | EmptyString => false end.
Fixpoint lines (s : string) : list string :=
  match s with
  | EmptyString => []
  | String c s =>
      if Ascii.eqb c newline then EmptyString :: lines s
      else if starts_crlf c s then lines s
      else match lines s with
           | [] => [String c EmptyString]
           | line :: rest => String c line :: rest
           end
  end.

Definition read_archive (text : string) : result (list Row) Failure :=
  rmap (λ line, ok_or (Bail ("archive row: " +:+ line)) (row_of_json line))
    (filter (λ line, trim line ≠ EmptyString) (lines text)).

(** ** Replay *)

Inductive Sender := Key (signer : SecretKey) | Unlocked (address : bytes).

Definition sending_address (sender : Sender) : bytes :=
  match sender with Key signer => signer_address signer | Unlocked address => address end.

(** The transaction a key signs, at the quoted price. *)
Definition replay_tx (chain_id nonce gas gas_price : Z) (to data : bytes) : TxEip1559 :=
  let tip := Z.max (gas_price / 2) 1 in
  mkTxEip1559 chain_id nonce (wrap64 (gas + gas / 5)) (Z.max (gas_price * 2) (tip * 2)) tip
    to 0 data.

Definition hash_of (method : string) (v : Json) : result string Failure :=
  ok_or (Bail (method +:+ ": non-string hash")) (as_str v).

Definition broadcast (sender : Sender) (to : bytes) (input : string) : RFlow string :=
  match sender with
  | Unlocked from =>
      call v := rp_request "eth_sendTransaction"
        (JArr [JObj [("from", address_param from); ("to", address_param to);
                     ("data", JStr input)]]) in
      Ret (hash_of "eth_sendTransaction" v)
  | Key signer =>
      let from := signer_address signer in
      call chain_id := quantity "eth_chainId" (JArr []) in
      call nonce := quantity "eth_getTransactionCount" (JArr [address_param from; JStr "pending"]) in
      call gas := quantity "eth_estimateGas"
        (JArr [JObj [("from", address_param from); ("to", address_param to);
                     ("data", JStr input)]]) in
      call gas_price := quantity "eth_gasPrice" (JArr []) in
      call data := Ret (ok_or (Bail "invalid hex") (hex_decode (trim_0x input))) in
      call encoded := Ret (ok_or (Bail "could not sign")
        (sign_transaction signer (replay_tx chain_id nonce gas gas_price to data))) in
      call v := rp_request "eth_sendRawTransaction" (JArr [hex_param encoded]) in
      Ret (hash_of "eth_sendRawTransaction" v)
  end.

Fixpoint await_receipt (fuel : nat) (tx_hash : string) (deadline : Z) : RFlow string :=
  match fuel with
  | O => Ret (Err OutOfFuel)
  | S fuel =>
      call receipt := rp_request "eth_getTransactionReceipt" (JArr [JStr tx_hash]) in
      if negb (is_null receipt) then
        let status := default EmptyString (json_get "status" receipt ≫= as_str) in
        Ret (if bool_decide (status = "0x1") then Ok tx_hash
             else Err (Bail ("tx " +:+ tx_hash +:+ " reverted on-chain")))
      else
        await now := Elapsed in
        if deadline <? elapsed_of now
        then Ret (Err (Bail ("tx " +:+ tx_hash +:+ ": no receipt within 120s"))) else
        await _u := Sleep RECEIPT_POLL in await_receipt fuel tx_hash deadline
  end.

(** Enough turns for the timeout, half a second apart. *)
Definition receipt_turns : nat := 243.

Definition send_write (sender : Sender) (to : bytes) (input : string) : RFlow string :=
  call tx_hash := broadcast sender to input in
  await now := Elapsed in
  await_receipt receipt_turns tx_hash (elapsed_of now + RECEIPT_TIMEOUT).

(** Fisher-Yates over a xorshift stream. *)
Definition xorshift (state : Z) : Z :=
  let s := Z.lxor state (wrap64 (Z.shiftl state 13)) in
  let s := Z.lxor s (Z.shiftr s 7) in
  Z.lxor s (wrap64 (Z.shiftl s 17)).

(** [items.swap(i, j)] *)
Definition swap {A} (i j : nat) (l : list A) : list A :=
  match l !! i, l !! j with
  | Some x, Some y => <[i := y]> (<[j := x]> l)
  | _, _ => l
  end.

Fixpoint shuffle_from {A} (i : nat) (state : Z) (items : list A) : list A :=
  match i with
  | O => items
  | S i' =>
      let state := xorshift state in
      shuffle_from i' state (swap i (Z.to_nat (state mod (Z.of_nat i + 1))) items)
  end.
Definition shuffle {A} (items : list A) (seed : Z) : list A :=
  shuffle_from (pred (length items)) (Z.lor seed 1) items.

(** A write, and the selector that says it is already there. *)
Definition Item : Type := Row * bytes.

Record Report := mkReport {
  sent : nat;
  present : nat;
  failed : list string;
}.

Fixpoint round (sender : Sender) (registry : bytes) (queue : list Item) (report : Report)
    (retry : list Item) : RFlow (Report * list Item) :=
  match queue with
  | [] => Ret (Ok (report, retry))
  | (row, duplicate) :: queue =>
      call outcome := rp_call (Some (sending_address sender)) registry (row_input row) in
      match outcome with
      | CallOk =>
          call tx_hash := send_write sender registry (row_input row) in
          round sender registry queue
            (mkReport (S (sent report)) (present report) (failed report)) retry
      | CallReverted found raw =>
          if bool_decide (found = Some duplicate) then
            round sender registry queue
              (mkReport (sent report) (S (present report)) (failed report)) retry
          else if bool_decide (found = Some group_not_found) && bool_decide (row_kind row = KRefer)
          then round sender registry queue report (retry ++ [(row, duplicate)])
          else round sender registry queue
            (mkReport (sent report) (present report) (failed report ++ [row_tx_hash row])) retry
      end
  end.

(** [while !queue.is_empty()]: every round but the last shortens the queue. *)
Fixpoint rounds (fuel : nat) (sender : Sender) (registry : bytes) (queue : list Item)
    (report : Report) : RFlow Report :=
  match queue with
  | [] => Ret (Ok report)
  | _ =>
      match fuel with
      | O => Ret (Err OutOfFuel)
      | S fuel =>
          call p := round sender registry queue report [] in
          let '(report, retry) := p in
          if (length retry =? length queue)%nat
          then Ret (Ok (mkReport (sent report) (present report)
            (failed report ++ ((λ item : Item, row_tx_hash item.1) <$> retry))))
          else rounds fuel sender registry retry report
      end
  end.

Definition of_kind (kind : Kind) (rows : list Row) : list Row := filter (λ row, row_kind row = kind) rows.

Definition replay_queue (rows : list Row) (shuffle_seed : option Z) : list Item :=
  let registers := of_kind KRegister rows in
  let refers := of_kind KRefer rows in
  let '(registers, refers) :=
    match shuffle_seed with
    | Some seed => (shuffle registers seed, shuffle refers (wrap64 (seed + 1)))
    | None => (registers, refers)
    end in
  ((λ row, (row, already_used)) <$> registers) ++ ((λ row, (row, already_referenced)) <$> refers).

(** The report is printed; failed writes are the command's error. *)
Definition replay_exit (report : Report) : result () Failure :=
  match failed report with [] => Ok tt | failed => Err (WritesFailed failed) end.

Definition replay (registry : bytes) (rows : list Row) (sender : Sender) (shuffle_seed : option Z)
    : RFlow Report :=
  let queue := replay_queue rows shuffle_seed in
  rounds (length queue) sender registry queue (mkReport 0 0 []).

(** ** Verify *)

Definition duplicate_of (kind : Kind) : bytes :=
  match kind with KRegister => already_used | KRefer => already_referenced end.

Record Audit := mkAudit { ok_rows : nat; missing : list string; anomalies : list string }.

Fixpoint audit (registry : bytes) (rows : list Row) (a : Audit) : RFlow Audit :=
  match rows with
  | [] => Ret (Ok a)
  | row :: rows =>
      call outcome := rp_call None registry (row_input row) in
      audit registry rows
        match outcome with
        | CallOk => mkAudit (ok_rows a) (missing a ++ [row_tx_hash row]) (anomalies a)
        | CallReverted found raw =>
            if bool_decide (found = Some (duplicate_of (row_kind row)))
            then mkAudit (S (ok_rows a)) (missing a) (anomalies a)
            else mkAudit (ok_rows a) (missing a) (anomalies a ++ [row_tx_hash row])
        end
  end.

(** The printed totals; the call's parameters are literal. *)
Definition target_total (registry : bytes) (signature : string) : RFlow Json :=
  rp_request "eth_call"
    (JArr [JObj [("to", address_param registry); ("data", hex_param (selector signature))];
           JStr "latest"]).

Definition verify (registry : bytes) (rows : list Row) : RFlow Audit :=
  call a := audit registry rows (mkAudit 0 [] []) in
  call entries := target_total registry "getTotalEntries()" in
  call units := target_total registry "getTotalUnits()" in
  call references := target_total registry "getTotalReferences()" in
  Ret match missing a, anomalies a with
      | [], [] => Ok a
      | missing, anomalies => Err (VerifyFailed missing anomalies)
      end.
End replay.

(** ** The command line *)

(** A local node is reached without the ambient proxy. *)
Definition loopback (url : string) : bool :=
  existsb (λ host, str_contains host url) ["//127.0.0.1"; "//localhost"; "//[::1]"].

Definition Args : Type := gmap string string.

Fixpoint parse_args (map : Args) (raw : list string) : result Args Failure :=
  match raw with
  | [] => Ok map
  | flag :: pending =>
      try name := ok_or (Bail ("expected --flag, got " +:+ flag)) (strip_prefix "--" flag) in
      match pending with
      | [] => Err (Bail ("--" +:+ name +:+ " needs a value"))
      | value :: pending => parse_args (<[name := value]> map) pending
      end
  end.

Section cli.
Context `{C : Crates, J : JsonCrate, E : EthCrates, W : RowCodec}.
(** [PrivateKeySigner::from_str] and [std::fs::read_to_string] *)
Context (key_of_text : string → option SecretKey) (read_to_string : string → option string).

Definition required (args : Args) (name : string) : result string Failure :=
  ok_or (Bail ("--" +:+ name +:+ " is required")) (args !! name).
Definition address (args : Args) (name : string) : result bytes Failure :=
  try v := required args name in ok_or (Bail ("--" +:+ name)) (address_parse v).
Definition number (args : Args) (name : string) : result (option Z) Failure :=
  match args !! name with
  | None => Ok None
  | Some v => try n := ok_or (Bail ("--" +:+ name)) (parse_u64 v) in Ok (Some n)
  end.

Definition key_or_from (args : Args) : result (option Sender) Failure :=
  match args !! "private-key" with
  | Some key => try k := ok_or (Bail "--private-key") (key_of_text key) in Ok (Some (Key k))
  | None =>
      match args !! "from" with
      | Some _ => try a := address args "from" in Ok (Some (Unlocked a))
      | None => Ok None
      end
  end.

Definition open_archive (args : Args) : result (list Row) Failure :=
  try path := required args "archive" in
  try text := ok_or (Bail ("read " +:+ path)) (read_to_string path) in read_archive text.

(** What a command leaves: the archive written to a path, or a report. *)
Inductive Done :=
| Exported (path text : string)
| Replayed (report : Report)
| Verified (a : Audit).

Definition main (raw : list string) : RFlow Done :=
  match raw with
  | [] => Ret (Err (Bail "usage: p256-replay <export|replay|verify> --rpc URL --registry ADDR …"))
  | command :: rest =>
      call args := Ret (parse_args ∅ rest) in
      call url := Ret (required args "rpc") in
      call registry := Ret (address args "registry") in
      if bool_decide (command = "export") then
        call from_block := Ret (number args "from-block") in
        call to_block := Ret (number args "to-block") in
        call out := Ret (required args "out") in
        call e := export url registry from_block to_block in
        Ret (Ok (Exported out (archive_text e.2)))
      else if bool_decide (command = "replay") then
        call sender := Ret (key_or_from args) in
        match sender with
        | None => Ret (Err (Bail "replay needs --private-key HEX or --from ADDR (unlocked node)"))
        | Some sender =>
            call path := Ret (required args "archive") in
            call seed := Ret (number args "shuffle") in
            call rows := Ret (open_archive args) in
            call report := replay url registry rows sender seed in
            call u := Ret (replay_exit report) in Ret (Ok (Replayed report))
        end
      else if bool_decide (command = "verify") then
        call rows := Ret (open_archive args) in
        call a := verify url registry rows in Ret (Ok (Verified a))
      else Ret (Err (Bail ("unknown command " +:+ command +:+
        "; expected export, replay or verify")))
  end.
End cli.
