(* ===== verification/RowText.v ===== *)
(** * The text of an archived row

    A row's JSON as [serde_json] writes it (the struct's fields in order, no
    spaces, its escapes) and a reader of that text: the codec that the replay
    tool's theorems are evaluated with. *)
From Stdlib Require Import Ascii String Strings.Byte.
From S2P Require Export Replay.
From stdpp Require Import options.
#[local] Set Warnings "-register-all".

Definition quote : ascii := Ascii.ascii_of_N 34.
Definition backslash : ascii := Ascii.ascii_of_N 92.
Definition in_quotes (s : string) : string := String quote (s +:+ String quote EmptyString).

(** ** Text *)

(** The characters with an escape of their own, and its letter. *)
Definition short_escapes : list (Z * ascii) :=
  [(8, "b"%char); (9, "t"%char); (10, "n"%char); (12, "f"%char); (13, "r"%char); (34, quote); (92, backslash)].

Definition nibble (d : Z) : ascii := Ascii.ascii_of_N (Z.to_N (if d <? 10 then 48 + d else 87 + d)).

Definition escape_char (c : ascii) : string :=
  match list_find (λ p : Z * ascii, p.1 = code c) short_escapes with
  | Some (_, (_, letter)) => String backslash (String letter EmptyString)
  | None =>
      if code c <? 32 then String backslash ("u00" +:+ String (nibble (code c / 16)) (String (nibble (code c mod 16)) EmptyString))
      else String c EmptyString
  end.

Fixpoint escape (s : string) : string :=
  match s with EmptyString => EmptyString | String c s => escape_char c +:+ escape s end.

Definition unescape_letter (letter : ascii) : option ascii :=
  '(_, (n, _)) ← list_find (λ p : Z * ascii, p.2 = letter) short_escapes; Some (Ascii.ascii_of_N (Z.to_N n)).

Definition nibble_value (c : ascii) : option Z :=
  if in_range 48 57 c then Some (code c - 48) else if in_range 97 102 c then Some (code c - 87) else None.

Definition put_char (c : ascii) (r : option (string * string)) : option (string * string) :=
  p ← r; Some (String c p.1, p.2).

(** The text up to the closing quote, and what follows it. *)
Fixpoint read_text (s : string) : option (string * string) :=
  match s with
  | EmptyString => None
  | String c s1 =>
      if code c =? 34 then Some (EmptyString, s1)
      else if code c =? 92 then
        match s1 with
        | String d s2 =>
            if Ascii.eqb d "u" then
              match s2 with
              | String _ (String _ (String h (String l s3))) =>
                  x ← nibble_value h; y ← nibble_value l;
                  put_char (Ascii.ascii_of_N (Z.to_N (16 * x + y))) (read_text s3)
              | _ => None
              end
            else a ← unescape_letter d; put_char a (read_text s2)
        | EmptyString => None
        end
      else put_char c (read_text s1)
  end.

Lemma read_escaped_char c k : read_text (escape_char c +:+ k) = put_char c (read_text k).
Proof. by destruct c as [[] [] [] [] [] [] [] []]. Qed.

Lemma read_escaped s rest : read_text (escape s +:+ String quote rest) = Some (s, rest).
Proof.
  induction s as [|c s IH]; [done|]. cbn [escape].
  assert (Happ : (escape_char c +:+ escape s) +:+ String quote rest = escape_char c +:+ (escape s +:+ String quote rest)).
  { generalize (escape_char c). intros a. induction a as [|x a IHa]; [done|].
    change (String x ((a +:+ escape s) +:+ String quote rest) = String x (a +:+ (escape s +:+ String quote rest))).
    by f_equal. }
  by rewrite Happ, read_escaped_char, IH.
Qed.

(** ** Numbers *)

Fixpoint read_digits (acc : Z) (s : string) : Z * string :=
  match s with
  | String c s' => if in_range 48 57 c then read_digits (acc * 10 + (code c - 48)) s' else (acc, s)
  | EmptyString => (acc, EmptyString)
  end.

Lemma read_pretty_char (d : N) acc s : (d < 10)%N →
  read_digits acc (String (pretty_N_char d) s) = read_digits (acc * 10 + Z.of_N d) s.
Proof.
  intros Hd. assert (Hc : ∀ e, e < 10 → in_range 48 57 (pretty_N_char (Z.to_N e)) = true ∧
    (0 ≤ e → code (pretty_N_char (Z.to_N e)) - 48 = e)).
  { intros e He. destruct e as [|p|p]; [done| |done]. do 4 (destruct p as [p|p|]; try lia; try done). }
  destruct (Hc (Z.of_N d)) as [H1 H2]; [lia|]. rewrite N2Z.id in H1, H2. cbn [read_digits]. by rewrite H1, H2 by lia.
Qed.

Lemma read_pretty (x : N) s : read_digits 0 (pretty_N_go x s) = read_digits (Z.of_N x) s.
Proof.
  revert s. induction (N.lt_wf_0 x) as [x _ IH]. intros s.
  destruct (decide (x = 0)%N) as [->|Hx]; [by rewrite pretty_N_go_0|].
  rewrite pretty_N_go_step by lia. rewrite IH by (apply N.div_lt; lia).
  rewrite read_pretty_char by (apply N.mod_lt; lia). f_equal.
  pose proof (N.div_mod x 10 ltac:(lia)). lia.
Qed.

Lemma pretty_go_app x s k : pretty_N_go x s +:+ k = pretty_N_go x (s +:+ k).
Proof.
  revert s. induction (N.lt_wf_0 x) as [x _ IH]. intros s.
  destruct (decide (x = 0)%N) as [->|Hx]; [by rewrite !pretty_N_go_0|].
  rewrite !(pretty_N_go_step x) by lia. by rewrite IH by (apply N.div_lt; lia).
Qed.

Lemma read_number n c rest : 0 ≤ n → in_range 48 57 c = false →
  read_digits 0 (fmt n +:+ String c rest) = (n, String c rest).
Proof.
  intros Hn Hc. assert (Hend : ∀ m, read_digits m (String c rest) = (m, String c rest)) by (intros m; cbn [read_digits]; by rewrite Hc).
  destruct n as [|p|p]; [exact (Hend 0)| |lia].
  change (fmt (Z.pos p)) with (pretty_N_go (N.pos p) EmptyString). rewrite pretty_go_app, read_pretty. apply Hend.
Qed.

(** ** Rows *)

Definition field (name : string) : string := in_quotes name +:+ ":".
Definition kind_text (k : Kind) : string := match k with KRegister => "register" | KRefer => "refer" end.

Definition row_text (r : Row) : string :=
  "{" +:+ field "tx_hash" +:+ in_quotes (escape (row_tx_hash r)) +:+ "," +:+
  field "block" +:+ fmt (row_block r) +:+ "," +:+ field "tx_index" +:+ fmt (row_tx_index r) +:+ "," +:+
  field "kind" +:+ in_quotes (kind_text (row_kind r)) +:+ "," +:+
  field "input" +:+ in_quotes (escape (row_input r)) +:+ "}".

Definition read_string (s : string) : option (string * string) := strip_prefix (String quote EmptyString) s ≫= read_text.
Definition read_u64 (s : string) : option (Z * string) :=
  let '(n, rest) := read_digits 0 s in m ← try_u64 n; Some (m, rest).
Definition kind_of_name (s : string) : option Kind :=
  if String.eqb s "register" then Some KRegister else if String.eqb s "refer" then Some KRefer else None.

Definition read_row (s : string) : option Row :=
  s ← strip_prefix ("{" +:+ field "tx_hash") s; '(hash, s) ← read_string s;
  s ← strip_prefix ("," +:+ field "block") s; '(block, s) ← read_u64 s;
  s ← strip_prefix ("," +:+ field "tx_index") s; '(index, s) ← read_u64 s;
  s ← strip_prefix ("," +:+ field "kind") s; '(name, s) ← read_string s; kind ← kind_of_name name;
  s ← strip_prefix ("," +:+ field "input") s; '(input, s) ← read_string s;
  if String.eqb s "}" then Some (mkRow hash block index kind input) else None.

(** ** The round trip *)

Lemma app_assoc_str (a b c : string) : (a +:+ b) +:+ c = a +:+ (b +:+ c).
Proof.
  induction a as [|x a IH]; [done|].
  change (String x ((a +:+ b) +:+ c) = String x (a +:+ (b +:+ c))). by rewrite IH.
Qed.

Lemma read_quoted s rest : read_string (in_quotes (escape s) +:+ rest) = Some (s, rest).
Proof.
  unfold in_quotes, read_string. change (String quote (escape s +:+ String quote EmptyString) +:+ rest) with
    (String quote EmptyString +:+ ((escape s +:+ String quote EmptyString) +:+ rest)).
  rewrite strip_prefix_app. cbn [mbind option_bind]. rewrite app_assoc_str. apply read_escaped.
Qed.

Lemma read_name k rest : read_string (in_quotes (kind_text k) +:+ rest) = Some (kind_text k, rest).
Proof. by destruct k. Qed.

Lemma read_u64_number n rest : in_u64 n → read_u64 (fmt n +:+ ("," +:+ rest)) = Some (n, "," +:+ rest).
Proof.
  intros Hn. unfold read_u64. change ("," +:+ rest) with (String "," rest).
  rewrite read_number by (done || apply Hn). by rewrite (proj2 (try_u64_ok n n)).
Qed.

Lemma strip_fields a b rest : strip_prefix (a +:+ b) (a +:+ (b +:+ rest)) = Some rest.
Proof. rewrite <-app_assoc_str. apply strip_prefix_app. Qed.

Lemma read_row_text r : row_typed r → read_row (row_text r) = Some r.
Proof.
  intros [_ Hb Hi _]. destruct r as [hash block index kind input]. cbn [row_block row_tx_index] in *.
  unfold row_text, read_row. cbn [row_tx_hash row_block row_tx_index row_kind row_input].
  repeat (first [rewrite strip_fields|rewrite read_quoted|rewrite read_name|rewrite read_u64_number by done];
    cbn [mbind option_bind]). by destruct kind.
Qed.

Lemma str_all_app2 f s1 s2 : str_all f (s1 +:+ s2) = str_all f s1 && str_all f s2.
Proof. induction s1 as [|c s IH]; [done|]. simpl. by rewrite IH, andb_assoc. Qed.

Abbreviation one_line := (str_all (in_range 32 255)).

Lemma escape_one_line s : one_line (escape s) = true.
Proof.
  induction s as [|c s IH]; [done|]. cbn [escape]. rewrite str_all_app2, IH, andb_true_r.
  by destruct c as [[] [] [] [] [] [] [] []].
Qed.

Lemma digits_one_line x s : one_line s = true → one_line (pretty_N_go x s) = true.
Proof.
  revert s. induction (N.lt_wf_0 x) as [x _ IH]. intros s Hs.
  destruct (decide (x = 0)%N) as [->|Hx]; [by rewrite pretty_N_go_0|].
  rewrite pretty_N_go_step by lia. apply IH; [apply N.div_lt; lia|]. cbn [str_all]. rewrite Hs, andb_true_r.
  unfold pretty_N_char. by repeat case_match.
Qed.

Lemma number_one_line n : one_line (fmt n) = true.
Proof.
  destruct n as [|p|p]; [done|by apply digits_one_line|].
  change (fmt (Z.neg p)) with ("-" +:+ pretty_N_go (N.pos p) EmptyString).
  rewrite str_all_app2. by rewrite digits_one_line.
Qed.

Lemma row_one_line r : one_line (row_text r) = true.
Proof.
  unfold row_text, in_quotes, field. rewrite !str_all_app2.
  cbn [str_all]. rewrite !str_all_app2, !escape_one_line, !number_one_line. by destruct (row_kind r).
Qed.

Definition text_codec : RowCodec := {|
  row_to_json := row_text;
  row_of_json := read_row;
  row_of_to_json := read_row_text;
  row_json_line r _ := row_one_line r;
  row_json_object r _ := ex_intro _ _ eq_refl;
|}.
