(* ===== verification/ReplayFacts.v ===== *)
(** * What the replay tool guarantees *)
From Stdlib Require Import Ascii String Strings.Byte.
From S2P Require Export Replay.
From S2P Require Import RowText.
From stdpp Require Import options.
#[local] Set Warnings "-register-all".

(** ** Shuffling *)

Lemma swap_perm {A} i j (l : list A) : swap i j l ≡ₚ l.
Proof.
  unfold swap. destruct (l !! i) as [x|] eqn:Hi; [|done]. destruct (l !! j) as [y|] eqn:Hj; [|done].
  pose proof (lookup_lt_Some _ _ _ Hi). pose proof (lookup_lt_Some _ _ _ Hj).
  apply Permutation_inj. rewrite !length_insert. split; [done|].
  exists (λ k, if decide (k = i) then j else if decide (k = j) then i else k). split.
  - intros k1 k2. repeat case_decide; congruence.
  - intros k. repeat case_decide; subst.
    + by rewrite list_lookup_insert_eq by by rewrite length_insert.
    + by rewrite list_lookup_insert_ne, list_lookup_insert_eq by done.
    + by rewrite !list_lookup_insert_ne by done.
Qed.

Lemma shuffle_from_perm {A} i state (l : list A) : shuffle_from i state l ≡ₚ l.
Proof.
  revert state l. induction i as [|i IH]; intros state l; [done|]. cbn [shuffle_from].
  by rewrite IH, swap_perm.
Qed.

Lemma shuffle_perm {A} (l : list A) seed : shuffle l seed ≡ₚ l.
Proof. apply shuffle_from_perm. Qed.

Section queue.
Context `{C : Crates}.

(** Whatever the seed, the queue is the archive's writes, registers first,
    each with the selector of its own kind. *)
Lemma replay_queue_perm rows seed :
  ∃ registers refers, registers ≡ₚ of_kind KRegister rows ∧ refers ≡ₚ of_kind KRefer rows ∧
    replay_queue rows seed =
      ((λ row, (row, already_used)) <$> registers) ++ ((λ row, (row, already_referenced)) <$> refers).
Proof.
  destruct seed as [seed|]; [|by eexists _, _].
  exists (shuffle (of_kind KRegister rows) seed), (shuffle (of_kind KRefer rows) (wrap64 (seed + 1))).
  split_and!; [apply shuffle_perm..|done].
Qed.

Lemma replay_queue_rows rows seed : (replay_queue rows seed).*1 ≡ₚ rows.
Proof.
  destruct (replay_queue_perm rows seed) as (rs & fs & Hr & Hf & ->).
  assert (Hfst : ∀ (d : bytes) (l : list Row), ((λ row, (row, d)) <$> l).*1 = l).
  { intros d l. induction l as [|row l IH]; [done|]. cbn. by f_equal. }
  rewrite fmap_app, !Hfst, Hr, Hf.
  clear Hr Hf. unfold of_kind. induction rows as [|row rows IH]; [done|]. rewrite !filter_cons.
  destruct (row_kind row); repeat case_decide; try done; cbn; [by rewrite IH|].
  by rewrite <-Permutation_middle, IH.
Qed.

Lemma replay_queue_item rows seed row dup :
  (row, dup) ∈ replay_queue rows seed → row ∈ rows ∧ dup = duplicate_of (row_kind row).
Proof.
  destruct (replay_queue_perm rows seed) as (rs & fs & Hr & Hf & ->).
  rewrite elem_of_app, !list_elem_of_fmap.
  intros [(x & [= -> ->] & Hx)|(x & [= -> ->] & Hx)]; [rewrite Hr in Hx|rewrite Hf in Hx];
    apply list_elem_of_filter in Hx as [Hk Hx]; (split; [done|]); by rewrite Hk.
Qed.
End queue.

(** ** Block numbers *)

Lemma hex_char_value d : 0 ≤ d < 16 → hex_digit_value (hex_char d) = Some d.
Proof.
  intros Hd. assert (Hin : d ∈ seqZ 0 16) by by apply elem_of_seqZ.
  clear Hd. revert d Hin. apply Forall_forall. by repeat constructor.
Qed.

Lemma hex_digits_value fuel n acc :
  0 ≤ n < 16 ^ Z.of_nat fuel → (0 < fuel)%nat →
  parse_hex_digits 0 (hex_digits fuel n acc) = parse_hex_digits n acc.
Proof.
  revert n acc. induction fuel as [|fuel IH]; intros n acc Hn Hf; [lia|]. cbn [hex_digits].
  assert (Hd : hex_digit_value (hex_char (n mod 16)) = Some (n mod 16))
    by apply hex_char_value, Z.mod_pos_bound, eq_refl.
  destruct (Z.ltb_spec n 16) as [Hlt|Hge].
  - cbn [parse_hex_digits]. rewrite Hd. cbn [mbind option_bind]. by rewrite Z.mod_small by lia.
  - rewrite Nat2Z.inj_succ, Z.pow_succ_r in Hn by lia.
    destruct fuel as [|fuel]; [cbn in Hn; lia|].
    rewrite IH; [|split; [apply Z.div_pos; lia|apply Z.div_lt_upper_bound; lia]|lia].
    cbn [parse_hex_digits]. rewrite Hd. cbn [mbind option_bind]. f_equal.
    pose proof (Z.div_mod n 16 ltac:(lia)). lia.
Qed.

(** A block number reads back. *)
Lemma fmt_hex_value n : in_u64 n → parse_hex_digits 0 (fmt_hex n) = Some n.
Proof.
  intros [H0 H1]. unfold fmt_hex. rewrite hex_digits_value; [done| |lia].
  change (16 ^ Z.of_nat 16) with (2 ^ 64). unfold U64_MAX in H1. lia.
Qed.

Lemma block_param_inj n m : in_u64 n → in_u64 m → block_param n = block_param m → n = m.
Proof.
  intros Hn%fmt_hex_value Hm%fmt_hex_value H.
  assert (Hs : fmt_hex n = fmt_hex m) by by injection H.
  rewrite Hs, Hm in Hn. by injection Hn.
Qed.

(** Hex digits start neither a prefix nor a sign. *)
Lemma hex_digits_plain s n :
  parse_hex_digits 0 s = Some n → strip_prefix "0x" s = None ∧ strip_prefix "+" s = None.
Proof.
  destruct s as [|a s]; [done|]. intros H. cbn [parse_hex_digits] in H. cbn [strip_prefix]. split.
  - destruct (Ascii.eqb "0" a); [|done]. destruct s as [|b s]; [done|].
    destruct (Ascii.eqb_spec "x" b) as [<-|]; [|done]. by destruct (hex_digit_value a).
  - by destruct (Ascii.eqb_spec "+" a) as [<-|].
Qed.

Lemma trim_copies_none fuel p s : strip_prefix p s = None → trim_copies fuel p s = s.
Proof. intros H. destruct fuel; [done|]. cbn [trim_copies]. by rewrite H. Qed.

Lemma parse_block_param `{J : JsonCrate} n : in_u64 n → parse_quantity (block_param n) = Ok n.
Proof.
  intros Hn. pose proof (fmt_hex_value n Hn) as Hv. unfold parse_quantity, block_param. cbn [as_str ok_or rbind].
  apply hex_digits_plain in Hv as Hp. destruct Hp as [Hx Hplus].
  assert (Ht : trim_0x ("0x" +:+ fmt_hex n) = fmt_hex n).
  { change (trim_copies (S (String.length (fmt_hex n))) "0x" (fmt_hex n) = fmt_hex n).
    by apply trim_copies_none. }
  rewrite Ht. unfold u64_from_hex. rewrite Hplus. cbn [default from_option id].
  destruct (fmt_hex n) as [|a r] eqn:Hf.
  { cbn in Hv. injection Hv as <-. by vm_compute in Hf. }
  rewrite Hv. cbn. unfold try_u64. by rewrite decide_True.
Qed.

(** ** Requests *)

Lemma ok_or_bail {A} message (o : option A) : ok_or (Bail message) o ≠ Err OutOfFuel.
Proof. destruct o; discriminate. Qed.

Lemma rbind_fuel {A B} (m : result A Failure) (f : A → result B Failure) :
  m ≠ Err OutOfFuel → (∀ a, f a ≠ Err OutOfFuel) → rbind m f ≠ Err OutOfFuel.
Proof. destruct m; cbn; [auto|congruence]. Qed.

(** Every POST of a run was answered by the network. *)
Lemma run_posts {N} `{Network N} {A} (p : CProg A) s s' t a url method params r :
  run rpc_shell p s = (s', t, a) → (Post url method params, r) ∈ t →
  ∃ n, reply_of r = (post url method params n).1.1.
Proof.
  revert s s' t a. induction p as [a0|op k IH]; intros s s' t a; cbn [run].
  { intros [= <- <- <-]. by intros ?%elem_of_nil. }
  destruct (rpc_shell op s) as [r1 s1] eqn:E1. destruct (run rpc_shell (k r1) s1) as [[s2 t2] a2] eqn:E2.
  intros [= <- <- <-] [[= <- <-]|Hin]%elem_of_cons; [|by eapply IH].
  cbn in E1. destruct (post url method params (rpc_net s)) as [[r1' ms] n] eqn:Ep.
  injection E1 as <- <-. exists (rpc_net s). by rewrite Ep.
Qed.

Section requests.
Context `{J : JsonCrate} (url : string).

Lemma exec_request method params t m :
  exec (rp_request url method params) t m →
  length t = 1%nat ∧ m ≠ Err OutOfFuel ∧ ∀ v, m = Ok v → answered_at t url method params (Ok v).
Proof.
  intros (r&t'&->&[-> ->]%exec_ret_inv)%exec_req_inv. split; [done|].
  split.
  - destruct (reply_of r); [discriminate..|]. destruct (json_get "error" _); [discriminate|apply ok_or_bail].
  - intros v Hv. exists r. split; [by left|]. unfold read_reply. destruct (reply_of r); [done..|].
    destruct (json_get "error" _); [done|]. by apply ok_or_ok in Hv as ->.
Qed.

(** One request, then a reading of its answer. *)
Lemma exec_read_request {A} method params (f : Json → result A Failure) t m :
  (∀ v, f v ≠ Err OutOfFuel) →
  exec (call v := rp_request url method params in Ret (f v)) t m →
  length t = 1%nat ∧ m ≠ Err OutOfFuel ∧
  ∀ a, m = Ok a → ∃ v, answered_at t url method params (Ok v) ∧ f v = Ok a.
Proof.
  intros Hf [(e&He&->)|(t1&t2&v&->&H1&[-> ->]%exec_ret_inv)]%exec_fbind.
  - apply exec_request in He as (?&?&_). split_and!; [done|congruence|done].
  - apply exec_request in H1 as (?&_&Hv). rewrite app_nil_r. split_and!; [done|done|]. eauto.
Qed.

Lemma parse_quantity_fuel v : parse_quantity v ≠ Err OutOfFuel.
Proof. unfold parse_quantity. destruct (as_str v); [apply ok_or_bail|discriminate]. Qed.
End requests.

(** ** The deploy block *)

Section search.
Context `{C : Crates, J : JsonCrate, E : EthCrates} (url : string) (registry : bytes).

(** What an [eth_getCode] request for a block was answered in a trace. *)
Definition code_answer (t : trace RpcOp RpcRes) (block : Z) (present : bool) : Prop :=
  ∃ code, answered_at t url "eth_getCode" (JArr [address_param registry; block_param block]) (Ok code) ∧
    code_present code = present.

Lemma exec_has_code block t m :
  exec (has_code url registry block) t m → length t = 1%nat ∧ m ≠ Err OutOfFuel ∧
    ∀ b, m = Ok b → code_answer t block b.
Proof.
  intros (?&?&Hv)%exec_read_request; [|done]. split_and!; [done..|].
  intros b (v & ? & [= <-])%Hv. by exists v.
Qed.

Lemma code_answer_mono t t' block b : t ⊆ t' → code_answer t block b → code_answer t' block b.
Proof. intros Ht (code&?&?). exists code. split; [|done]. by eapply answered_at_mono. Qed.

Lemma search_spec (k fuel : nat) lo hi t m :
  fuel = S k → lo ≤ hi → hi - lo < 2 ^ Z.of_nat k →
  exec (search_deploy url fuel registry lo hi) t m →
  (length t ≤ k)%nat ∧ m ≠ Err OutOfFuel ∧ (∀ b, m = Ok b → lo ≤ b) ∧
  ∀ d b, (∀ n c, lo ≤ n ≤ hi → code_answer t n c → c = (d <=? n)) → lo ≤ d ≤ hi → m = Ok b → b = d.
Proof.
  revert fuel lo hi t m.
  induction k as [|k IH]; intros fuel lo hi t m -> Hle Hk Hex; cbn [search_deploy] in Hex.
  - change (2 ^ Z.of_nat 0) with 1 in Hk. destruct (Z.ltb_spec lo hi); [lia|].
    apply exec_ret_inv in Hex as [-> ->]. split_and!; [done|done|by intros b [= <-]|].
    intros d b _ Hd [= <-]. lia.
  - destruct (Z.ltb_spec lo hi) as [Hlt|]; cycle 1.
    { apply exec_ret_inv in Hex as [-> ->]. split_and!; [cbn; lia|done|by intros b [= <-]|].
      intros d b _ Hd [= <-]. lia. }
    set (mid := lo + (hi - lo) / 2) in Hex.
    assert (Hmid : lo ≤ mid < hi).
    { pose proof (Z.div_pos (hi - lo) 2 ltac:(lia) ltac:(lia)).
      pose proof (Z.div_lt (hi - lo) 2 ltac:(lia) ltac:(lia)). subst mid. lia. }
    assert (Hhalf : mid - lo < 2 ^ Z.of_nat k ∧ hi - (mid + 1) < 2 ^ Z.of_nat k).
    { rewrite Nat2Z.inj_succ, Z.pow_succ_r in Hk by lia.
      pose proof (Z.div_mod (hi - lo) 2 ltac:(lia)). pose proof (Z.mod_pos_bound (hi - lo) 2 ltac:(lia)).
      subst mid. lia. }
    apply exec_fbind in Hex as [(e&He&->)|(t1&t2&present&->&H1&Hex)].
    { apply exec_has_code in He as (Hl & Hf & _). split_and!; [rewrite Hl; lia|congruence|done..]. }
    apply exec_has_code in H1 as (Hl & _ & Hans). specialize (Hans present eq_refl).
    rewrite length_app, Hl.
    assert (Hsub : t1 ⊆ t1 ++ t2 ∧ t2 ⊆ t1 ++ t2) by (split; set_solver).
    destruct present;
      (eapply (IH (S k)) in Hex as (Hlen & Hf & Hlo & Hb); [|done|lia|apply Hhalf]);
      (split_and!; [lia|done|intros b Hm; specialize (Hlo b Hm); lia|]); intros d b Hall Hd Hm; apply (Hb d b); try done.
    + intros n c Hn Hc. apply Hall; [lia|]. exact (code_answer_mono _ _ _ _ (proj2 Hsub) Hc).
    + pose proof (Hall mid true ltac:(lia) (code_answer_mono _ _ _ _ (proj1 Hsub) Hans)) as Hm'.
      symmetry in Hm'. apply Z.leb_le in Hm'. lia.
    + intros n c Hn Hc. apply Hall; [lia|]. exact (code_answer_mono _ _ _ _ (proj2 Hsub) Hc).
    + pose proof (Hall mid false ltac:(lia) (code_answer_mono _ _ _ _ (proj1 Hsub) Hans)) as Hm'.
      symmetry in Hm'. apply Z.leb_gt in Hm'. lia.
Qed.

(** Stated for any fuel, so that nothing unfolds the numeral. *)
Lemma find_deploy_spec (k fuel : nat) latest t m :
  fuel = S k → latest - 1 < 2 ^ Z.of_nat k →
  exec (call present := has_code url registry latest in
        if negb present then
          Ret (Err (Bail ("registry " +:+ address_to_string registry +:+ " has no code at block " +:+
            fmt latest)))
        else search_deploy url fuel registry 1 latest) t m →
  (length t ≤ fuel)%nat ∧ m ≠ Err OutOfFuel ∧ (∀ b, m = Ok b → 1 ≤ b) ∧
  ∀ d b, (∀ n c, 1 ≤ n ≤ latest → code_answer t n c → c = (d <=? n)) → 1 ≤ d ≤ latest →
    m = Ok b → b = d.
Proof.
  intros Hk Hr Hex.
  apply exec_fbind in Hex as [(e&He&->)|(t1&t2&present&->&H1&Hex)].
  { apply exec_has_code in He as (Ht & Hf & _). split_and!; [lia|congruence|done..]. }
  apply exec_has_code in H1 as (Ht & _ & _). rewrite length_app, Ht.
  destruct present; cbn [negb] in Hex;
    [|apply exec_ret_inv in Hex as [-> ->]; split_and!; [cbn; lia|done..]].
  destruct (Z.lt_ge_cases latest 1) as [Hl|Hl].
  { subst fuel. cbn [search_deploy] in Hex. rewrite (proj2 (Z.ltb_ge 1 latest)) in Hex by lia.
    apply exec_ret_inv in Hex as [-> ->]. split_and!; [cbn; lia|done|by intros b [= <-]|]. lia. }
  apply (search_spec k) in Hex as (Hlen & Hf & Hlo & Hb); [|done..].
  split_and!; [lia|done|done|]. intros d b Hall Hd Hm. apply (Hb d b); [|done..].
  intros n c Hn Hc. apply Hall; [done|]. eapply code_answer_mono, Hc. set_solver.
Qed.

Lemma find_deploy_bounded latest t m :
  latest ≤ U64_MAX → exec (find_deploy_block url registry latest) t m →
  (length t ≤ 65)%nat ∧ m ≠ Err OutOfFuel ∧ (∀ b, m = Ok b → 1 ≤ b) ∧
  ∀ d b, (∀ n c, 1 ≤ n ≤ latest → code_answer t n c → c = (d <=? n)) → 1 ≤ d ≤ latest →
    m = Ok b → b = d.
Proof.
  intros Hu. apply (find_deploy_spec 64 65); [reflexivity|].
  change (2 ^ Z.of_nat 64) with (2 ^ 64). unfold U64_MAX in Hu. lia.
Qed.

(** The binary search finds the block the registry was deployed in: if
    every answer about a block of the searched range says that there is code
    from block [d] on, the block returned is [d]; at most 65 requests are
    made, whatever is answered, for any range of [u64] blocks. *)
Theorem find_deploy_block_exact latest t m :
  latest ≤ U64_MAX →
  exec (find_deploy_block url registry latest) t m →
  (length t ≤ 65)%nat ∧ m ≠ Err OutOfFuel ∧
  ∀ d b, (∀ n c, 1 ≤ n ≤ latest → code_answer t n c → c = (d <=? n)) → 1 ≤ d ≤ latest →
    m = Ok b → b = d.
Proof. intros Hu H%find_deploy_bounded; [|done]. tauto. Qed.
End search.

(** ** The scan of the logs *)

Definition tx_sorted (m : TxMap) : Prop := StronglySorted (λ a b, key_ltb a.1 b.1 = true) m.

Lemma key_ltb_spec a b : key_ltb a b = true ↔ a.1 < b.1 ∨ (a.1 = b.1 ∧ a.2 < b.2).
Proof. unfold key_ltb. rewrite orb_true_iff, andb_true_iff, !Z.ltb_lt, Z.eqb_eq. done. Qed.

Lemma key_ltb_total a b : key_ltb a b = false → key_ltb b a = false → a = b.
Proof.
  intros H1%not_true_iff_false H2%not_true_iff_false. rewrite key_ltb_spec in H1, H2.
  destruct a, b. cbn in *. f_equal; lia.
Qed.

Lemma key_ltb_trans a b c : key_ltb a b = true → key_ltb b c = true → key_ltb a c = true.
Proof. rewrite !key_ltb_spec. lia. Qed.

Lemma key_ltb_irrefl a : key_ltb a a = true → False.
Proof. rewrite key_ltb_spec. lia. Qed.

Lemma tx_insert_elem k v m k' v' :
  tx_sorted m →
  (k', v') ∈ tx_insert k v m ↔ (k' = k ∧ v' = v) ∨ (k' ≠ k ∧ (k', v') ∈ m).
Proof.
  induction 1 as [|[k0 v0] m Hm IH Hk]; cbn [tx_insert].
  - rewrite list_elem_of_singleton. set_solver.
  - rewrite Forall_forall in Hk. destruct (key_ltb k k0) eqn:E1; [|destruct (key_ltb k0 k) eqn:E2].
    + split; [|intros [[-> ->]|[_ Hin]]; apply elem_of_cons; [by left|by right]].
      intros [[= -> ->]|Hin]%elem_of_cons; [by left|right]. split; [|done]. intros ->.
      apply elem_of_cons in Hin as [[= -> ->]|Hin]; [by eapply key_ltb_irrefl|].
      apply Hk in Hin. eapply key_ltb_irrefl, key_ltb_trans; [exact E1|exact Hin].
    + rewrite !elem_of_cons, IH. split; [|naive_solver].
      intros [[= -> ->]|[?|?]]; [right|naive_solver..]. split; [|by left].
      intros ->. by eapply key_ltb_irrefl.
    + pose proof (key_ltb_total _ _ E1 E2) as ->. rewrite !elem_of_cons.
      split; [|naive_solver]. intros [[= -> ->]|Hin]; [by left|right]. split; [|by right].
      intros ->. apply Hk in Hin. by eapply key_ltb_irrefl.
Qed.

Lemma tx_insert_sorted k v m : tx_sorted m → tx_sorted (tx_insert k v m).
Proof.
  intros Hs. pose proof (λ k' v', tx_insert_elem k v m k' v' Hs) as Hin. revert Hin.
  unfold tx_sorted in *. induction Hs as [|[k0 v0] m Hm IH Hk]; intros Hin; cbn [tx_insert].
  - by repeat constructor.
  - pose proof Hk as Hk'. rewrite Forall_forall in Hk'.
    destruct (key_ltb k k0) eqn:E1; [|destruct (key_ltb k0 k) eqn:E2].
    + constructor; [by constructor|]. constructor; [done|]. eapply Forall_impl; [exact Hk|].
      intros [k1 v1]. cbn. by apply key_ltb_trans.
    + constructor; [apply IH; intros; by apply tx_insert_elem|]. apply Forall_forall.
      intros [k1 v1] [[-> ->]|[_ H]]%tx_insert_elem; [done| |done]. by apply Hk'.
    + pose proof (key_ltb_total _ _ E1 E2) as ->. by constructor.
Qed.

Section inputs.
Context `{C : Crates, J : JsonCrate, E : EthCrates} (url : string).

(** The rows of the archive: the input of each transaction, in order, when
    it is a direct write. *)
Context (input_at : string → string).

Definition answers_inputs (t : trace RpcOp RpcRes) : Prop :=
  ∀ h tx, answered_at t url "eth_getTransactionByHash" (JArr [JStr h]) (Ok tx) →
    json_get "input" tx = Some (JStr (input_at h)).

Definition archived (e : (Z * Z) * string) : option Row :=
  (λ kind, mkRow e.2 e.1.1 e.1.2 kind (input_at e.2)) <$> kind_of (input_at e.2).

Lemma fetch_rows_spec txs t m :
  exec (fetch_rows url txs) t m →
  m ≠ Err OutOfFuel ∧
  (answers_inputs t → ∀ rows, m = Ok rows → rows = omap archived txs).
Proof.
  revert t m. induction txs as [|[[b i] h] txs IH]; intros t m Hex; cbn [fetch_rows] in Hex.
  { apply exec_ret_inv in Hex as [-> ->]. split; [done|]. by intros _ rows [= <-]. }
  apply exec_fbind in Hex as [(e&He&->)|(t1&t2&tx&->&H1&Hex)].
  { apply exec_request in He as (_&Hf&_). split; [congruence|done]. }
  apply exec_request in H1 as (_&_&Htx). specialize (Htx tx eq_refl).
  cbn [fbind pbind] in Hex. pose proof (ok_or_bail ("tx " +:+ h +:+ ": no input") (json_get "input" tx ≫= as_str)) as Hb.
  destruct (ok_or _ _) as [input|e] eqn:Hi; [|apply exec_ret_inv in Hex as [-> ->]; split; [congruence|done]].
  apply ok_or_ok in Hi.
  apply exec_fbind in Hex as [(e&He&->)|(t3&t4&rows'&->&H3&[-> ->]%exec_ret_inv)].
  { apply IH in He as [Hf _]. split; [congruence|done]. }
  apply IH in H3 as [_ Hr]. split; [done|]. intros Ha rows [= <-].
  assert (Hin : input = input_at h).
  { rewrite (Ha h tx) in Hi; [by injection Hi|]. eapply answered_at_mono, Htx. set_solver. }
  assert (Hrows : rows' = omap archived txs).
  { apply Hr; [|done]. intros h' tx' Hx. apply Ha. eapply answered_at_mono, Hx. set_solver. }
  cbn. unfold archived at 1. cbn [fst snd]. rewrite Hin, Hrows. by destruct (kind_of _).
Qed.

End inputs.

Section scan.
Context `{C : Crates, J : JsonCrate, E : EthCrates} (url : string) (registry : bytes).

(** The logs the chain holds, block by block.  The logs of one transaction
    name one hash. *)
Context (logs_at : Z → list Json).

Definition logged (a b : Z) (k : Z * Z) (hash : string) : Prop :=
  ∃ n log, a ≤ n ≤ b ∧ log ∈ logs_at n ∧ log_tx log = Ok (k, hash).

Definition one_hash : Prop :=
  ∀ n log n' log' k h h', log ∈ logs_at n → log' ∈ logs_at n' →
    log_tx log = Ok (k, h) → log_tx log' = Ok (k, h') → h = h'.

(** An endpoint that answers a range answers all of its logs. *)
Definition range_logs (a b : Z) : list Json := mjoin (logs_at <$> seqZ a (b - a + 1)).
Definition answers_logs (t : trace RpcOp RpcRes) : Prop :=
  ∀ a b v, in_u64 a → in_u64 b →
    answered_at t url "eth_getLogs" (logs_params registry a b) (Ok v) → v = JArr (range_logs a b).

(** The map holds the transactions of the blocks [a] to [b], sorted. *)
Definition collects (txs : TxMap) (a b : Z) : Prop :=
  tx_sorted txs ∧ ∀ k h, (k, h) ∈ txs ↔ logged a b k h.

Lemma elem_range_logs log a b : log ∈ range_logs a b ↔ ∃ n, a ≤ n ≤ b ∧ log ∈ logs_at n.
Proof.
  unfold range_logs. rewrite list_elem_of_join. split.
  - intros (l & Hl & (n & -> & Hn%elem_of_seqZ)%list_elem_of_fmap). exists n. split; [lia|done].
  - intros (n & Hn & Hl). exists (logs_at n). split; [done|].
    apply list_elem_of_fmap. exists n. split; [done|]. apply elem_of_seqZ. lia.
Qed.

Lemma insert_logs_spec logs txs txs' :
  one_hash → tx_sorted txs → (∀ log, log ∈ logs → ∃ n, log ∈ logs_at n) →
  (∀ k h, (k, h) ∈ txs → ∃ n log, log ∈ logs_at n ∧ log_tx log = Ok (k, h)) →
  insert_logs logs txs = Ok txs' →
  tx_sorted txs' ∧
  ∀ k h, (k, h) ∈ txs' ↔ (k, h) ∈ txs ∨ ∃ log, log ∈ logs ∧ log_tx log = Ok (k, h).
Proof.
  intros Hone. revert txs. induction logs as [|log logs IH]; intros txs Hs Hlogs Htxs.
  { intros [= <-]. split; [done|]. set_solver. }
  cbn [insert_logs]. intros ([k0 h0] & Hlog & H)%rbind_ok. cbn [fst snd] in H.
  destruct (Hlogs log) as [n0 Hn0]; [by left|].
  pose proof (tx_insert_elem k0 h0 txs) as Hin.
  apply IH in H as [Hs' Hin']; [|by apply tx_insert_sorted|set_solver|].
  - split; [done|]. intros k h. rewrite Hin', Hin by done. split.
    + intros [[[-> ->]|[_ ?]]|(l&?&?)]; [right; exists log; split; [by left|done]|by left|].
      right. exists l. split; [by right|done].
    + intros [Hkh|(l&[->|Hl]%elem_of_cons&Hl')].
      * destruct (decide (k = k0)) as [->|Hne]; [left; left|by left; right].
        split; [done|]. destruct (Htxs _ _ Hkh) as (n&l&?&?). by apply (Hone n l n0 log k0).
      * left; left. rewrite Hlog in Hl'. by injection Hl' as -> ->.
      * right. by exists l.
  - intros k h [[-> ->]|[_ ?]]%Hin; [by exists n0, log|by apply Htxs|done].
Qed.

Lemma log_tx_fuel log : log_tx log ≠ Err OutOfFuel.
Proof.
  apply rbind_fuel; [apply parse_quantity_fuel|intros block].
  apply rbind_fuel; [apply parse_quantity_fuel|intros index].
  apply rbind_fuel; [apply ok_or_bail|done].
Qed.

Lemma insert_logs_fuel logs txs : insert_logs logs txs ≠ Err OutOfFuel.
Proof.
  revert txs. induction logs as [|log logs IH]; intros txs; [discriminate|]. cbn [insert_logs].
  pose proof (log_tx_fuel log) as Hl. destruct (log_tx log) as [a|e]; [apply IH|].
  intros [= ->]. by apply Hl.
Qed.

Lemma answers_logs_mono t t' : t ⊆ t' → answers_logs t' → answers_logs t.
Proof. intros Ht H a b v Ha Hb Hv. apply H; [done..|]. by eapply answered_at_mono. Qed.

(** The length asked after [k] failures. *)
Definition chunk_of (k : Z) : Z := LOG_CHUNK / 2 ^ k.

Lemma chunk_halves k : 0 ≤ k → chunk_of k / 2 = chunk_of (k + 1).
Proof.
  intros Hk. unfold chunk_of. rewrite Z.div_div by (try apply Z.pow_nonzero; lia).
  by rewrite Z.pow_add_r by lia.
Qed.

Lemma chunk_range k : 0 ≤ k ≤ 8 → 390 ≤ chunk_of k ≤ LOG_CHUNK ∧ (500 < chunk_of k ↔ k < 8).
Proof.
  intros Hk. assert (Hin : k ∈ seqZ 0 9) by (apply elem_of_seqZ; lia). clear Hk. revert k Hin.
  apply Forall_forall. repeat constructor; vm_compute; done.
Qed.

(** Turns that [scan] may still need. *)
Definition turns_left (start to_block k : Z) : Z :=
  (Z.max 0 (to_block - start + 1) + 389) / 390 + (8 - k) + 1.

Lemma turns_advance start to_block k chunk :
  start ≤ to_block → 390 ≤ chunk →
  turns_left (Z.min to_block (start + chunk - 1) + 1) to_block k + 1 ≤ turns_left start to_block k.
Proof.
  intros Hle Hc. unfold turns_left. set (n := to_block - start + 1).
  set (rest := to_block - (Z.min to_block (start + chunk - 1) + 1) + 1).
  assert (Z.max 0 rest + 389 + 1 * 390 ≤ Z.max 0 n + 389 ∨ rest = 0) as [H| ->] by lia.
  - apply (Z.div_le_mono _ _ 390) in H; [|lia]. rewrite Z.div_add in H by lia. lia.
  - change ((Z.max 0 0 + 389) / 390) with 0.
    assert (1 ≤ (Z.max 0 n + 389) / 390) by (apply Z.div_le_lower_bound; lia). lia.
Qed.

Lemma collects_extend txs txs' from start end_ :
  one_hash → from ≤ start → start ≤ end_ → collects txs from (start - 1) →
  insert_logs (range_logs start end_) txs = Ok txs' → collects txs' from end_.
Proof.
  intros Hone Hf Hse [Hs Hin] H. apply insert_logs_spec in H as [Hs' Hin']; [|done..| |].
  - split; [done|]. intros k h. rewrite Hin', Hin. unfold logged. split.
    + intros [(n&log&?&?)|(log&(n&?&?)%elem_range_logs&?)]; [exists n, log|exists n, log]; split; (lia || done).
    + intros (n&log&Hn&Hl&Ht). destruct (Z.lt_ge_cases n start).
      * left. exists n, log. split; [lia|done].
      * right. exists log. split; [|done]. apply elem_range_logs. exists n. split; [lia|done].
  - intros log (n&_&?)%elem_range_logs. by exists n.
  - intros k h (n&log&_&?&?)%Hin. by exists n, log.
Qed.

Lemma scan_spec fuel from start to_block k chunk txs t m :
  chunk = chunk_of k → 0 ≤ k ≤ 8 → 0 ≤ from ≤ start → to_block + LOG_CHUNK ≤ U64_MAX →
  exec (scan url fuel registry start to_block chunk txs) t m →
  (one_hash → answers_logs t → collects txs from (start - 1) → start ≤ to_block + 1 →
    ∀ txs', m = Ok txs' → collects txs' from to_block) ∧
  (turns_left start to_block k ≤ Z.of_nat fuel → m ≠ Err OutOfFuel).
Proof.
  revert start k chunk txs t. induction fuel as [|fuel IH];
    intros start k chunk txs t -> Hk Hfrom Hto Hex; cbn [scan] in Hex.
  { apply exec_ret_inv in Hex as [-> ->]. split; [done|]. unfold turns_left.
    assert (0 ≤ (Z.max 0 (to_block - start + 1) + 389) / 390) by (apply Z.div_pos; lia). lia. }
  destruct (Z.leb_spec start to_block) as [Hle|Hgt]; cycle 1.
  { apply exec_ret_inv in Hex as [-> ->]. split; [|done]. intros _ _ Hc Hb txs' [= <-].
    by replace to_block with (start - 1) by lia. }
  destruct (chunk_range k Hk) as [Hc Hlast].
  rewrite (wrap64_small (start + chunk_of k - 1)) in Hex by (unfold in_u64; lia).
  set (end_ := Z.min to_block (start + chunk_of k - 1)) in Hex.
  apply exec_bind in Hex as (t1&t2&r&->&Hr&Hex). apply exec_request in Hr as (_&_&Hans).
  assert (Hsub : t1 ⊆ t1 ++ t2 ∧ t2 ⊆ t1 ++ t2) by (split; set_solver).
  destruct r as [v|e].
  - assert (Hv : answers_logs (t1 ++ t2) → v = JArr (range_logs start end_)).
    { intros Ha. apply (answers_logs_mono t1) in Ha; [|apply Hsub]. apply Ha;
        [unfold in_u64, LOG_CHUNK in *; lia..|by apply Hans]. }
    destruct v as [| | | |logs|]; try (apply exec_ret_inv in Hex as [-> ->]; by split).
    pose proof (insert_logs_fuel logs txs) as Hfu.
    destruct (insert_logs logs txs) as [txs1|e1] eqn:Hins; cycle 1.
    { apply exec_ret_inv in Hex as [-> ->]. split; [done|congruence]. }
    rewrite (wrap64_small (end_ + 1)) in Hex by (unfold in_u64, LOG_CHUNK in *; lia).
    apply (IH _ k) in Hex as [Hcol Hend]; [|done|done|lia|done]. split.
    + intros Hone Ha Hcs _. specialize (Hv Ha). injection Hv as ->.
      apply Hcol; [done|exact (answers_logs_mono _ _ (proj2 Hsub) Ha)| |lia].
      replace (end_ + 1 - 1) with end_ by lia. eapply collects_extend; [done| | |done..]; lia.
    + intros Hn. apply Hend. pose proof (turns_advance start to_block k (chunk_of k) Hle ltac:(lia)) as Ht.
      fold end_ in Ht. lia.
  - destruct (Z.ltb_spec 500 (chunk_of k)); [|apply exec_ret_inv in Hex as [-> ->]; by split].
    rewrite chunk_halves in Hex by lia.
    apply (IH _ (k + 1)) in Hex as [Hcol Hend]; [|done|lia|lia|done]. split.
    + intros Hone Ha. apply Hcol; [done|exact (answers_logs_mono _ _ (proj2 Hsub) Ha)].
    + intros Hn. apply Hend. unfold turns_left in *. lia.
Qed.

Lemma collects_none a : collects [] a (a - 1).
Proof. split; [constructor|]. intros k h. split; [by intros ?%elem_of_nil|]. intros (n&log&?&_). lia. Qed.
Context (input_at : string → string).

(** The archive of the blocks [a] to [b], complete and in order. *)
Record archive_of (rows : list Row) (a b : Z) : Prop := {
  ar_exact row : row ∈ rows ↔ ∃ k h kind, logged a b k h ∧ kind_of (input_at h) = Some kind ∧
    row = mkRow h k.1 k.2 kind (input_at h);
  ar_sorted : StronglySorted (λ r r', key_ltb (row_block r, row_tx_index r)
    (row_block r', row_tx_index r') = true) rows;
}.

Lemma collected_archive txs a b : collects txs a b → archive_of (omap (archived input_at) txs) a b.
Proof.
  intros [Hs Hin]. split.
  - intros row. rewrite list_elem_of_omap. split.
    + intros ([k h] & Hk%Hin & Ha). unfold archived in Ha. cbn in Ha.
      destruct (kind_of (input_at h)) as [kind|] eqn:E1; [|done]. injection Ha as <-. eauto 6.
    + intros (k & h & kind & Hk%Hin & Hkind & ->). exists (k, h). split; [done|].
      unfold archived. cbn. by rewrite Hkind.
  - clear Hin. induction Hs as [|[k h] txs Hs IH Hk]; [constructor|]. cbn. unfold archived at 1. cbn.
    destruct (kind_of (input_at h)) as [kind|]; [|exact IH]. constructor; [exact IH|].
    apply Forall_forall. intros row ([k' h'] & Hk' & Ha)%list_elem_of_omap. unfold archived in Ha. cbn in Ha.
    destruct (kind_of (input_at h')); [|done]. injection Ha as <-. cbn.
    rewrite Forall_forall in Hk. apply Hk in Hk'. by destruct k, k'.
Qed.

Lemma u64_from_hex_range s n : u64_from_hex s = Some n → in_u64 n.
Proof.
  unfold u64_from_hex. destruct (default _ _) as [|c r]; [done|].
  destruct (parse_hex_digits _ _); [|done]. cbn. unfold try_u64, in_u64. case_decide; [|done]. congruence.
Qed.

Lemma parse_quantity_range v n : parse_quantity v = Ok n → in_u64 n.
Proof. unfold parse_quantity. intros H. res_inv. by eapply u64_from_hex_range. Qed.

Definition latest_answer (t : trace RpcOp RpcRes) (n : Z) : Prop :=
  ∃ v, answered_at t url "eth_blockNumber" (JArr []) (Ok v) ∧ parse_quantity v = Ok n.

(** C28. An export is complete.  Against an endpoint that answers a range of
    blocks with all the logs of that range (it may refuse ranges: they are
    asked again, shorter), the archive holds exactly the direct register and
    refer calls among the transactions that logged anything in the covered
    blocks, each with its original input, sorted by block and index and
    without repeats; and the command ends within the turns allotted. *)
Theorem export_complete from_block to_block t m :
  (∀ n, from_block = Some n → 0 ≤ n) →
  (∀ n, to_block = Some n ∨ latest_answer t n → n + LOG_CHUNK ≤ U64_MAX) →
  exec (export url registry from_block to_block) t m →
  m ≠ Err OutOfFuel ∧
  (one_hash → answers_logs t → answers_inputs url input_at t →
   ∀ a b rows, m = Ok (a, b, rows) → a ≤ b + 1 → archive_of rows a b).
Proof.
  intros Hfrom Hto Hex. unfold export in Hex.
  apply exec_fbind in Hex as [(e&He&->)|(t1&t2&latest&->&H1&Hex)].
  { apply exec_read_request in He as (_&Hf&_); [|apply parse_quantity_fuel]. split; [congruence|done]. }
  apply exec_read_request in H1 as (_&_&Hl); [|apply parse_quantity_fuel].
  destruct (Hl latest eq_refl) as (v & Hv & Hq).
  set (b := default latest to_block) in *.
  assert (Hb : b + LOG_CHUNK ≤ U64_MAX).
  { apply Hto. unfold b. destruct to_block; [by left|right]. exists v. split; [|done].
    eapply answered_at_mono, Hv. set_solver. }
  apply exec_fbind in Hex as [(e&He&->)|(t3&t4&a&->&H2&Hex)].
  { split; [|done]. destruct from_block; [apply exec_ret_inv in He as [_ He]; discriminate He|].
    apply find_deploy_bounded in He as (_&Hf&_); [congruence|unfold LOG_CHUNK in Hb; lia]. }
  assert (Ha : 0 ≤ a).
  { destruct from_block; [apply exec_ret_inv in H2 as [_ H2]; injection H2 as ->; by apply Hfrom|].
    apply find_deploy_bounded in H2 as (_&_&H2&_); [|unfold LOG_CHUNK in Hb; lia].
    specialize (H2 a eq_refl). lia. }
  assert (Hchunk : LOG_CHUNK = chunk_of 0) by done.
  assert (Hfuel : turns_left a b 0 ≤ Z.of_nat (scan_fuel a b)).
  { unfold turns_left, scan_fuel.
    assert (0 ≤ Z.max 0 (b - a + 1) / 390) by (apply Z.div_pos; lia).
    assert ((Z.max 0 (b - a + 1) + 389) / 390 ≤ Z.max 0 (b - a + 1) / 390 + 1).
    { rewrite <-Z.div_add by lia. apply Z.div_le_mono; lia. }
    lia. }
  apply exec_fbind in Hex as [(e&He&->)|(t5&t6&txs&->&H3&Hex)].
  { apply (scan_spec _ a _ _ 0) in He as [_ Hf]; [|done|lia|lia|done].
    specialize (Hf Hfuel). split; [congruence|done]. }
  apply (scan_spec _ a _ _ 0) in H3 as [Hc _]; [|done|lia|lia|done].
  apply exec_fbind in Hex as [(e&He&->)|(t7&t8&rows&->&H4&[-> ->]%exec_ret_inv)].
  { apply (fetch_rows_spec url input_at) in He as [Hf _]. split; [congruence|done]. }
  apply (fetch_rows_spec url input_at) in H4 as [_ Hr]. split; [done|]. intros Hone Hlogs Hins a' b' rows' [= <- <- <-] Hab.
  rewrite (λ H, Hr H rows eq_refl); [|intros h tx Hx; apply Hins; eapply answered_at_mono, Hx; set_solver].
  apply collected_archive. apply Hc; [done| |apply collects_none|lia|done].
  eapply answers_logs_mono, Hlogs. set_solver.
Qed.
End scan.

(** ** The archive file *)

Lemma drop_codes_last pat s c r :
  code c ∉ pat → drop_codes pat (s ++ [c]) = Some r → ∃ s', r = s' ++ [c].
Proof.
  revert s. induction pat as [|n pat IH]; intros s Hc; cbn [drop_codes].
  - intros [= <-]. by exists s.
  - apply not_elem_of_cons in Hc as [Hn Hc]. destruct s as [|a s]; cbn [app drop_codes]; case_match eqn:E; try done.
    + by apply Z.eqb_eq in E.
    + by apply IH.
Qed.

Lemma drop_one_last pats s c r :
  (∀ pat, pat ∈ pats → code c ∉ pat) → drop_one_of pats (s ++ [c]) = Some r → ∃ s', r = s' ++ [c].
Proof.
  intros Hc. unfold drop_one_of. induction pats as [|pat pats IH]; [done|]. cbn [foldr].
  destruct (drop_codes pat (s ++ [c])) as [r'|] eqn:E.
  - intros [= <-]. eapply drop_codes_last, E. apply Hc. by left.
  - apply IH. intros p Hp. apply Hc. by right.
Qed.

Lemma trim_start_last fuel pats s c :
  (∀ pat, pat ∈ pats → code c ∉ pat) → ∃ s', trim_start fuel pats (s ++ [c]) = s' ++ [c].
Proof.
  intros Hc. revert s. induction fuel as [|fuel IH]; intros s; cbn [trim_start]; [by exists s|].
  destruct (drop_one_of pats (s ++ [c])) as [r|] eqn:E; [|by exists s].
  apply drop_one_last in E as [s' ->]; [|done]. apply IH.
Qed.

(** A line that opens an object is not blank. *)
Lemma trim_object s : trim (String "{" s) ≠ EmptyString.
Proof.
  unfold trim. cbn [list_ascii_of_string].
  assert (Hs : ∀ fuel l, trim_start fuel whitespace ("{"%char :: l) = "{"%char :: l) by by intros [].
  rewrite Hs, reverse_cons.
  assert (Hc : Forall (λ pat, code "{" ∉ pat) (reverse <$> whitespace)).
  { apply Forall_fmap. repeat constructor; cbn; vm_compute (reverse _); set_solver by lia. }
  rewrite Forall_forall in Hc.
  destruct (trim_start_last (length ("{"%char :: list_ascii_of_string s)) (reverse <$> whitespace)
    (reverse (list_ascii_of_string s)) "{" Hc) as [s' ->].
  rewrite reverse_app. done.
Qed.

Definition printable (s : string) : Prop := str_all (in_range 32 255) s = true.

Lemma lines_line l rest :
  printable l → lines (l +:+ String newline rest) = l :: lines rest.
Proof.
  induction l as [|c l IH]; intros Hl; [done|].
  change (String c l +:+ String newline rest) with (String c (l +:+ String newline rest)).
  unfold printable in *. cbn [str_all] in Hl. apply andb_true_iff in Hl as [Hc Hl]. cbn [lines].
  destruct (Ascii.eqb_spec c newline) as [->|]; [by vm_compute in Hc|].
  unfold starts_crlf. destruct (Ascii.eqb_spec c (Ascii.ascii_of_N 13)) as [->|]; [by vm_compute in Hc|].
  cbn [andb]. by rewrite IH.
Qed.

(** C39. The archive file loses nothing: reading back what an export wrote
    gives the same rows in the same order, whatever characters their texts
    contain, by any codec that writes a row on one line and reads back what
    it wrote. *)
Theorem archive_reads_back `{W : RowCodec} rows :
  Forall row_typed rows → read_archive (archive_text rows) = Ok rows.
Proof.
  intros Hrows. assert (Hl : lines (archive_text rows) = row_to_json <$> rows).
  { induction Hrows as [|row rows Hr _ IH]; [done|]. cbn [archive_text foldr].
    rewrite lines_line by by apply row_json_line. cbn. f_equal. exact IH. }
  unfold read_archive. rewrite Hl. clear Hl. induction Hrows as [|row rows Hr _ IH]; [done|].
  cbn [fmap list_fmap]. rewrite filter_cons_True.
  - cbn [rmap]. rewrite row_of_to_json by done. cbn [ok_or rbind].
    change (list_fmap Row string row_to_json rows) with (row_to_json <$> rows). by rewrite IH.
  - destruct (row_json_object row Hr) as [s ->]. apply trim_object.
Qed.

(** Two rows in the text that [serde_json] writes, the second with a line
    break and a quote in its input. *)
Definition awkward_rows : list Row :=
  [mkRow "0xfeed" 31415926 7 KRegister "0x00ff"; mkRow "0xbeef" U64_MAX 0 KRefer (String newline (in_quotes "0x"))].

Lemma archive_reads_back_witness :
  read_archive (W := text_codec) (archive_text (W := text_codec) awkward_rows) = Ok awkward_rows ∧
  length (lines (archive_text (W := text_codec) awkward_rows)) = 2%nat.
Proof.
  split; [|by vm_compute]. apply (archive_reads_back (W := text_codec) awkward_rows).
  repeat constructor; by vm_compute.
Defined.

(** ** Evaluation on an example *)

Section replay_examples.
#[local] Existing Instance concrete_crates.
#[local] Existing Instance concrete_json.
#[local] Existing Instance concrete_eth.

Definition dev_registry : bytes := replicate 20 x0a.
Definition dev_input (selector : bytes) (group : string) : string := "0x" +:+ hex_encode selector +:+ group.

(** A development node that mines at once: the state is the inputs of the
    writes it holds.  Its registry was deployed in block 3; it holds two
    writes in its logs and refuses ranges longer than 1000 blocks. *)
Definition dev_log (block index hash : string) : Json :=
  JObj [("blockNumber", JStr block); ("transactionIndex", JStr index); ("transactionHash", JStr hash)].
Definition dev_logs (n : Z) : list Json :=
  if n =? 5 then [dev_log "0x5" "0x0" "0xa1"; dev_log "0x5" "0x0" "0xa1"]
  else if n =? 1200 then [dev_log "0x4b0" "0x1" "0xb2"] else [].
Definition dev_input_at (hash : string) : string :=
  if String.eqb hash "0xa1" then dev_input register_selector "aa" else dev_input refer_selector "aa".

Definition dev_quantity (v : option Json) : Z :=
  match parse_quantity (default JNull v) with Ok n => n | Err _ => 0 end.
Definition dev_result (v : Json) : HttpReply := Answer (JObj [("result", v)]).

(** The revert of a write the registry does not accept. *)
Definition dev_revert (held : list string) (input : string) : option bytes :=
  if bool_decide (input ∈ held)
  then Some (if bool_decide (kind_of input = Some KRegister) then already_used else already_referenced)
  else if bool_decide (kind_of input = Some KRefer) &&
    negb (bool_decide (dev_input register_selector (String.substring 10 2 input) ∈ held))
  then Some group_not_found else None.

Definition dev_answer (method : string) (params : Json) (held : list string) : HttpReply :=
  let first := default JNull (as_array params ≫= head) in
  let input := default EmptyString (json_get "data" first ≫= as_str) in
  if String.eqb method "eth_blockNumber" then dev_result (JStr "0x5dc") else
  if String.eqb method "eth_getCode" then
    dev_result (JStr (if 3 <=? dev_quantity (as_array params ≫= last) then "0x6001" else "0x")) else
  if String.eqb method "eth_getLogs" then
    let a := dev_quantity (json_get "fromBlock" first) in
    let b := dev_quantity (json_get "toBlock" first) in
    if 1000 <? b - a then NoAnswer else dev_result (JArr (range_logs dev_logs a b)) else
  if String.eqb method "eth_getTransactionByHash" then
    dev_result (JObj [("input", JStr (dev_input_at (default EmptyString (as_str first))))]) else
  if String.eqb method "eth_call" then
    match dev_revert held input with
    | Some error => Answer (JObj [("error", JObj [("data", JStr ("0x" +:+ hex_encode error))])])
    | None => dev_result (JStr "0x")
    end else
  if String.eqb method "eth_sendTransaction" then dev_result (JStr "0xfeed") else
  if String.eqb method "eth_getTransactionReceipt" then dev_result (JObj [("status", JStr "0x1")]) else
  BadBody.

Definition dev_held (method : string) (params : Json) (held : list string) : list string :=
  if String.eqb method "eth_sendTransaction" then
    default EmptyString (json_get "data" (default JNull (as_array params ≫= head)) ≫= as_str) :: held
  else held.

#[local, refine] Instance dev_network : Network (list string) := {|
  post _ method params held := (dev_answer method params held, 3, dev_held method params held);
|}.
Proof. done. Defined.

Definition dev_state (held : list string) : RpcState (list string) :=
  mkRpcState (new ["dev"] ["dev"]) 0 held.

Definition search_run := run rpc_shell (find_deploy_block "dev" dev_registry 1500) (dev_state []).
Definition export_run := run rpc_shell (export "dev" dev_registry None None) (dev_state []).

#[local] Strategy expand [search_run export_run].

Lemma dev_post {A} (p : CProg A) held r url method params v :
  r = run rpc_shell p (dev_state held) → answered_at r.1.2 url method params (Ok v) →
  ∃ held, read_reply (dev_answer method params held) = Ok v.
Proof.
  intros -> (r' & Hin & Hr). destruct (run rpc_shell p (dev_state held)) as [[s t] m] eqn:E.
  destruct (run_posts _ _ _ _ _ _ _ _ _ E Hin) as [n Hp]. exists n. by rewrite <-Hr, Hp.
Qed.

Lemma dev_result_read v : read_reply (dev_result v) = Ok v.
Proof. done. Qed.

Lemma dev_quantity_block n : in_u64 n → dev_quantity (Some (block_param n)) = n.
Proof. intros Hn. unfold dev_quantity. cbn [default from_option id]. by rewrite parse_block_param. Qed.

Lemma find_deploy_block_exact_witness : search_run.2 = Ok 3.
Proof.
  assert (Hok : is_ok search_run.2 = true) by by vm_compute.
  destruct search_run.2 as [b|e] eqn:Hm; [|done].
  assert (He : exec (find_deploy_block "dev" dev_registry 1500) search_run.1.2 (Ok b)).
  { rewrite <-Hm. unfold search_run. destruct (run _ _ _) as [[s t] m] eqn:E. by eapply run_exec. }
  destruct (find_deploy_block_exact "dev" dev_registry 1500 _ _ ltac:(by vm_compute) He) as (_&_&H).
  f_equal. apply (H 3); [|lia|done]. intros n c Hn (code & Hcode & <-).
  apply (dev_post _ [] search_run _ _ _ _ eq_refl) in Hcode as [held Hcode].
  change (dev_answer _ _ held) with
    (dev_result (JStr (if 3 <=? dev_quantity (Some (block_param n)) then "0x6001" else "0x"))) in Hcode.
  rewrite dev_result_read, dev_quantity_block in Hcode by (unfold in_u64, U64_MAX; lia).
  injection Hcode as <-. by destruct (3 <=? n).
Defined.

Lemma dev_logs_cases n log :
  log ∈ dev_logs n → log = dev_log "0x5" "0x0" "0xa1" ∨ log = dev_log "0x4b0" "0x1" "0xb2".
Proof. unfold dev_logs. repeat case_match; set_solver. Qed.

(** One registration and one reference, of blocks 5 and 1200; the first
    eight requests for logs are refused. *)
Lemma export_complete_witness :
  ∃ rows, export_run.2 = Ok (3, 1500, rows) ∧ length rows = 2%nat ∧
    archive_of dev_logs dev_input_at rows 3 1500.
Proof.
  assert (Hm : (λ r, (r.1, length r.2)) <$> (match export_run.2 with Ok r => Some r | Err _ => None end)
    = Some ((3, 1500), 2%nat)) by by vm_compute.
  destruct export_run.2 as [[[a b] rows]|e] eqn:Hr; [|done]. injection Hm as -> -> Hl.
  exists rows. split; [done|]. split; [done|].
  assert (He : exec (export "dev" dev_registry None None) export_run.1.2 (Ok (3, 1500, rows))).
  { rewrite <-Hr. unfold export_run. destruct (run _ _ _) as [[s t] m] eqn:E. by eapply run_exec. }
  eapply (export_complete "dev" dev_registry dev_logs dev_input_at None None _ _) in He as [_ He];
    [|done|].
  - apply He; [| | |done|lia].
    + intros n log n' log' k h h' [-> | ->]%dev_logs_cases [-> | ->]%dev_logs_cases H1 H2;
        vm_compute in H1, H2; congruence.
    + intros a b v Ha Hb Hv. apply (dev_post _ [] export_run _ _ _ _ eq_refl) in Hv as [held Hv].
      change (dev_answer _ _ held) with
        (if 1000 <? dev_quantity (Some (block_param b)) - dev_quantity (Some (block_param a)) then NoAnswer
         else dev_result (JArr (range_logs dev_logs (dev_quantity (Some (block_param a)))
           (dev_quantity (Some (block_param b)))))) in Hv.
      rewrite !dev_quantity_block in Hv by done. destruct (1000 <? b - a); [done|].
      by rewrite dev_result_read in Hv; injection Hv as <-.
    + intros h tx Hv. apply (dev_post _ [] export_run _ _ _ _ eq_refl) in Hv as [held Hv].
      change (dev_answer _ _ held) with (dev_result (JObj [("input", JStr (dev_input_at h))])) in Hv.
      rewrite dev_result_read in Hv. by injection Hv as <-.
  - intros n [?|(v & Hv & Hn)]; [done|]. apply (dev_post _ [] export_run _ _ _ _ eq_refl) in Hv as [held Hv].
    injection Hv as <-. vm_compute in Hn. injection Hn as <-. done.
Defined.
End replay_examples.
