(* ===== verification/RegistryReplay.v ===== *)
(** * Moving a registry ([p256-replay/src/main.rs] onto the contract)

    The replay tool's order of writes, run on the contract itself: a mirror
    of the same domain accepts every archived write, in any shuffle, and
    then gives the same answers to the reads that do not depend on the order
    of the writes. *)
From Stdlib Require Import Ascii String Strings.Byte.
From S2P Require Export RegistryTasks ReplayFacts.
From stdpp Require Import options.
#[local] Set Warnings "-register-all".

(** ** Histories *)

Section histories.
Context `{C : Crates, V : !Evm}.

Definition call_opens (c : Call) : list (bytes * string) :=
  match c with CallRegister rp _ g _ _ => [(keccak256 g, rp)] | CallRefer _ _ _ => [] end.
Definition call_members (c : Call) : list SolMember :=
  match c with CallRegister _ _ _ _ ms => ms | CallRefer _ _ m => [m] end.
Definition call_refers (c : Call) : list (bytes * bytes) :=
  match c with CallRegister _ _ _ _ _ => [] | CallRefer g _ m => [(keccak256 g, key_hash m)] end.
Definition call_contents (c : Call) : list bytes :=
  match c with CallRegister rp md g _ ms => [contentHashFor rp md g ms] | CallRefer _ _ _ => [] end.
Definition is_register (c : Call) : bool :=
  match c with CallRegister _ _ _ _ _ => true | CallRefer _ _ _ => false end.

Lemma ledger_parts h L :
  foldl record_call L h = mkLedger (opened L ++ (h ≫= call_opens)) (passkeys L ++ (h ≫= call_members))
    (referred L ++ (h ≫= call_refers)) (registered L ++ (h ≫= call_contents)).
Proof.
  revert L. induction h as [|c h IH]; intros L; cbn [foldl mbind list_bind].
  - rewrite !app_nil_r. by destruct L.
  - rewrite IH. destruct c; cbn; by rewrite <-?app_assoc.
Qed.

Lemma ledger_of_parts h :
  ledger_of h = mkLedger (h ≫= call_opens) (h ≫= call_members) (h ≫= call_refers) (h ≫= call_contents).
Proof. apply ledger_parts. Qed.

Lemma ledger_of_app h1 h2 : ledger_of (h1 ++ h2) = foldl record_call (ledger_of h1) h2.
Proof. apply foldl_app. Qed.

(** Every write of the history is accepted in its turn. *)
Fixpoint accepted_from (dc : Z) (dr : bytes) (L : Ledger) (h : list Call) : Prop :=
  match h with
  | [] => True
  | c :: h => accepts dc dr L c ∧ accepted_from dc dr (record_call L c) h
  end.

Lemma accepted_from_app dc dr L h1 h2 :
  accepted_from dc dr L (h1 ++ h2) ↔
    accepted_from dc dr L h1 ∧ accepted_from dc dr (foldl record_call L h1) h2.
Proof. revert L. induction h1 as [|c h1 IH]; intros L; cbn; [tauto|]. rewrite IH. tauto. Qed.

Lemma accepted_from_at dc dr h :
  accepted_from dc dr empty_ledger h ↔
    ∀ pre c post, h = pre ++ c :: post → accepts dc dr (ledger_of pre) c.
Proof.
  induction h as [|c h IH] using rev_ind.
  - split; [|done]. intros _ [|x pre] c post [=].
  - rewrite accepted_from_app, IH. cbn [accepted_from]. fold (ledger_of h). split.
    + intros [Hh [Hc _]] pre c' post Heq. destruct post as [|x post _] using rev_ind.
      * apply app_inj_2 in Heq as [-> [= ->]]; done.
      * rewrite app_comm_cons, app_assoc in Heq. apply app_inj_2 in Heq as [-> _]; [|done]. by eapply Hh.
    + intros Hall. split; [|by split; [eapply Hall|]]. intros pre c' post ->.
      apply (Hall pre c' (post ++ [c])). by rewrite <-app_assoc.
Qed.

(** ** What a whole history satisfies *)

Lemma history_groups dc dr h :
  accepted_from dc dr empty_ledger h → NoDup ((h ≫= call_opens).*1).
Proof.
  induction h as [|c h IH] using rev_ind; [constructor|]. rewrite accepted_from_app. intros [Hh [Hc _]].
  rewrite bind_app, fmap_app. fold (ledger_of h) in Hc. rewrite ledger_of_parts in Hc.
  destruct c as [rp md g p ms|g md m]; cbn; [|by rewrite app_nil_r; apply IH].
  apply NoDup_app. split_and!; [by apply IH| |apply NoDup_singleton].
  intros k Hk ->%list_elem_of_singleton. by apply Hc.
Qed.

Lemma history_refers dc dr h : accepted_from dc dr empty_ledger h → NoDup (h ≫= call_refers).
Proof.
  induction h as [|c h IH] using rev_ind; [constructor|]. rewrite accepted_from_app. intros [Hh [Hc _]].
  rewrite bind_app. fold (ledger_of h) in Hc. rewrite ledger_of_parts in Hc.
  destruct c as [rp md g p ms|g md m]; cbn; [by rewrite app_nil_r; apply IH|].
  apply NoDup_app. split_and!; [by apply IH| |apply NoDup_singleton].
  destruct Hc as (rp & _ & _ & _ & Hn). by intros k Hk ->%list_elem_of_singleton.
Qed.

(** The uses of a passkey agree. *)
Definition keys_agree (ms : list SolMember) : Prop :=
  ∀ m m', m ∈ ms → m' ∈ ms → key_hash m = key_hash m' → claim m = claim m'.

Lemma nodup_fmap_inj {A B} (f : A → B) l x y :
  NoDup (f <$> l) → x ∈ l → y ∈ l → f x = f y → x = y.
Proof.
  intros Hnd [i Hi]%list_elem_of_lookup_1 [j Hj]%list_elem_of_lookup_1 Heq.
  assert (i = j) as ->; [|congruence].
  apply (NoDup_lookup _ _ _ (f x) Hnd); [by rewrite list_lookup_fmap, Hi|by rewrite list_lookup_fmap, Hj, Heq].
Qed.

Lemma keys_agree_app L ms :
  keys_agree (passkeys L) → Forall (admits_key L) ms → NoDup (key_hash <$> ms) → keys_agree (passkeys L ++ ms).
Proof.
  intros Hk Ha Hnd m m' Hm Hm' Heq. rewrite Forall_forall in Ha.
  apply elem_of_app in Hm as [Hm|Hm], Hm' as [Hm'|Hm'].
  - by apply Hk.
  - by apply (Ha m').
  - symmetry. by apply (Ha m).
  - by rewrite (nodup_fmap_inj key_hash ms m m').
Qed.

Lemma history_keys dc dr h : accepted_from dc dr empty_ledger h → keys_agree (h ≫= call_members).
Proof.
  induction h as [|c h IH] using rev_ind; [by intros _ m m' []%elem_of_nil|].
  rewrite accepted_from_app. intros [Hh [Hc _]]. rewrite bind_app. fold (ledger_of h) in Hc.
  pose proof (keys_agree_app (ledger_of h) (call_members c)) as Hk. rewrite ledger_of_parts in Hk, Hc.
  cbn [passkeys] in Hk. change ([c] ≫= call_members) with (call_members c ++ []). rewrite app_nil_r.
  apply Hk; [by apply IH|..]; destruct c as [rp md g p ms|g md m]; cbn in *.
  - apply Hc.
  - destruct Hc as (rp & _ & _ & Hc & _). by apply Forall_singleton.
  - destruct Hc as [[_ _ _ _ Hd _] _]. by apply NoDup_cons in Hd as [_ ?].
  - apply NoDup_singleton.
Qed.

(** ** Reordering *)

(** Every reference comes after its group. *)
Definition groups_first (h : list Call) : Prop :=
  ∀ pre g md m post, h = pre ++ CallRefer g md m :: post → keccak256 g ∈ (pre ≫= call_opens).*1.

Lemma nodup_fst_fun {A B} (l : list (A * B)) x y y' :
  NoDup (l.*1) → (x, y) ∈ l → (x, y') ∈ l → y = y'.
Proof. intros Hnd H1 H2. assert ((x, y) = (x, y')) as [=]; [|done]. by apply (nodup_fmap_inj fst l). Qed.

Lemma reordered_accepts dc dr h h' :
  accepted_from dc dr empty_ledger h → h' ≡ₚ h → Forall within_limits (h ≫= call_members) → groups_first h' →
  accepted_from dc dr empty_ledger h'.
Proof.
  intros Hh Hp Hl Hg. apply accepted_from_at. intros pre c post ->.
  assert (Hc : c ∈ h) by (rewrite <-Hp; apply elem_of_app; right; left).
  apply list_elem_of_split in Hc as (hpre & hpost & ->).
  pose proof (proj1 (accepted_from_at _ _ _) Hh hpre c hpost eq_refl) as Hacc.
  pose proof (history_groups _ _ _ Hh) as Hgr. pose proof (history_refers _ _ _ Hh) as Hrf.
  pose proof (history_keys _ _ _ Hh) as Hk. rewrite <-Hp in Hgr, Hrf.
  rewrite ledger_of_parts in Hacc |- *.
  assert (Hsub : ∀ m, m ∈ (pre ≫= call_members) ∨ m ∈ call_members c → m ∈ ((hpre ++ c :: hpost) ≫= call_members)).
  { intros m Hm. rewrite <-Hp, bind_app, elem_of_app. cbn. rewrite elem_of_app. tauto. }
  assert (Had : ∀ m, m ∈ call_members c →
    admits_key (mkLedger (pre ≫= call_opens) (pre ≫= call_members) (pre ≫= call_refers) (pre ≫= call_contents)) m).
  { intros m Hm. rewrite Forall_forall in Hl. split; [|right; apply Hl, Hsub; by right].
    intros m' Hm' Heq. apply Hk; [apply Hsub; by left|apply Hsub; by right|done]. }
  rewrite bind_app, fmap_app in Hgr. rewrite bind_app in Hrf.
  destruct c as [rp md g p ms|g md m]; cbn [accepts opened passkeys referred registered] in Hacc |- *.
  - destruct Hacc as (Hs & _ & _). split_and!; [done| |by apply Forall_forall].
    intros Hin. apply NoDup_app in Hgr as (_ & Hn & _). apply (Hn _ Hin). by left.
  - destruct Hacc as (rp & Hin & Hs & _ & _). pose proof (Hg pre g md m post eq_refl) as Hg'.
    apply list_elem_of_fmap in Hg' as ([gh rp'] & Heq & Hin'). cbn in Heq. subst gh.
    assert (rp' = rp) as ->.
    { apply (nodup_fst_fun ((pre ++ CallRefer g md m :: post) ≫= call_opens) (keccak256 g)).
      - by rewrite bind_app, fmap_app.
      - rewrite bind_app. apply elem_of_app. by left.
      - rewrite Hp, bind_app. apply elem_of_app. by left. }
    exists rp. split_and!; [done..|by apply Had; left|].
    intros Hin2. apply NoDup_app in Hrf as (_ & Hn & _). apply (Hn _ Hin2). by left.
Qed.

Lemma history_groups_exist dc dr h g md m :
  accepted_from dc dr empty_ledger h → CallRefer g md m ∈ h → keccak256 g ∈ (h ≫= call_opens).*1.
Proof.
  intros Hh (hpre & hpost & ->)%list_elem_of_split.
  destruct (proj1 (accepted_from_at _ _ _) Hh hpre _ hpost eq_refl) as (rp & Hin & _).
  rewrite ledger_of_parts in Hin. rewrite bind_app, fmap_app. apply elem_of_app. left.
  apply list_elem_of_fmap. by exists (keccak256 g, rp).
Qed.

Lemma opens_of_refers b : Forall (λ c, is_register c = false) b → b ≫= call_opens = [].
Proof. induction 1 as [|c b Hc _ IH]; [done|]. destruct c; [done|]. cbn. exact IH. Qed.

Lemma registers_first dc dr h a b :
  accepted_from dc dr empty_ledger h → a ++ b ≡ₚ h →
  Forall (λ c, is_register c = true) a → Forall (λ c, is_register c = false) b → groups_first (a ++ b).
Proof.
  intros Hh Hp Ha Hb pre g md m post Heq.
  assert (Hin : keccak256 g ∈ ((a ++ b) ≫= call_opens).*1).
  { rewrite Hp. eapply (history_groups_exist _ _ _ g md m); [done|]. rewrite <-Hp, Heq. apply elem_of_app. right. left. }
  assert (Hab : (a ++ b) ≫= call_opens = a ≫= call_opens)
    by (rewrite bind_app, (opens_of_refers b Hb); apply app_nil_r).
  rewrite Hab in Hin. apply app_eq_inv in Heq as [(k & -> & Hk)|(k & -> & Hk)].
  - destruct k as [|c k]; [by rewrite app_nil_r in Hin|].
    injection Hk as <- ->. apply Forall_app in Ha as [_ [Hc _]%Forall_cons]. done.
  - rewrite bind_app, fmap_app. apply elem_of_app. by left.
Qed.
End histories.

(** ** The contract under a list of transactions *)

Section landing.
Context `{C : Crates, V : !Evm}.

(** Every transaction succeeds. *)
Fixpoint all_land (s : Registry) (txs : list (bytes * Z)) : bool :=
  match txs with
  | [] => true
  | (data, now) :: txs => match call_result data now s with Ok (_, s') => all_land s' txs | Err _ => false end
  end.

Definition calls_of (rows : list bytes) : list Call := omap decode_call rows.

Lemma all_land_spec dc dr txs : ∀ L s, holds dc dr L s →
  all_land s txs = true ↔
    Forall (λ data, is_Some (decode_call data)) (txs.*1) ∧ accepted_from dc dr L (calls_of (txs.*1)).
Proof.
  induction txs as [|[data now] txs IH]; intros L s H; cbn [all_land fmap list_fmap fst]; [by split_and!|].
  rewrite Forall_cons. unfold call_result, calls_of. cbn [omap list_omap].
  destruct (decode_call data) as [c|] eqn:Hd; cbn [ok_or rbind];
    [|split; [done|]; intros [[[? ?] _] _]; congruence].
  pose proof (run_call_spec dc dr L s c data now H) as Hc. cbn [accepted_from].
  destruct (run_call c data now s) as [[i s']|e].
  - rewrite (IH _ _ (proj2 Hc)). unfold calls_of. assert (is_Some (Some c)) by eauto. tauto.
  - split; [done|]. tauto.
Qed.

Lemma mined_accepted txs : ∀ s, all_land s txs = true → accepted_calls s txs = calls_of (txs.*1).
Proof.
  induction txs as [|[data now] txs IH]; intros s; [done|]. cbn [all_land accepted_calls fmap list_fmap fst].
  destruct (call_result data now s) as [[i s']|] eqn:Hr; [|done]. intros Hl.
  apply call_result_ok in Hr as (c & Hd & _). unfold calls_of. cbn [omap list_omap]. rewrite Hd.
  f_equal. by apply IH.
Qed.

(** Each registration adds one group, each refer one reference. *)
Definition of_register (b : bool) (h : list Call) : Z := id_of (filter (λ c, is_register c = b) h).

Lemma of_register_cons b c h :
  of_register b (c :: h) = (if bool_decide (is_register c = b) then 1 else 0) + of_register b h.
Proof. unfold of_register, id_of. rewrite filter_cons. case_decide as Hb; case_bool_decide; try done; rewrite ?length_cons; lia. Qed.

Lemma total_snoc {A} (l : list A) x : id_of (l ++ [x]) = id_of l + 1.
Proof. unfold id_of. rewrite length_app. cbn. lia. Qed.

Lemma landed_totals txs : ∀ s, all_land s txs = true →
  getTotalUnits (mined s txs) = getTotalUnits s + of_register true (calls_of (txs.*1)) ∧
  getTotalReferences (mined s txs) = getTotalReferences s + of_register false (calls_of (txs.*1)).
Proof.
  induction txs as [|[data now] txs IH]; intros s Hl; [unfold of_register, id_of; cbn; lia|].
  cbn [all_land] in Hl. destruct (call_result data now s) as [[i s']|] eqn:Hr; [|done].
  cbn [mined foldl fst snd fmap list_fmap]. fold (mined (transact data now s) txs).
  assert (transact data now s = s') as -> by (unfold transact; by rewrite Hr).
  apply call_result_ok in Hr as (c & Hd & Hr). destruct (IH s' Hl) as [-> ->].
  unfold calls_of. cbn [omap list_omap]. rewrite Hd, !of_register_cons. unfold getTotalUnits, getTotalReferences.
  destruct c; cbn [run_call] in Hr.
  - apply register_keeps in Hr as (_ & -> & _ & -> & _). rewrite total_snoc.
    rewrite bool_decide_true, bool_decide_false by done. unfold calls_of. split; lia.
  - apply refer_keeps in Hr as (_ & -> & _ & (e & u & ->) & _). rewrite total_snoc.
    rewrite bool_decide_false, bool_decide_true by done. unfold calls_of. split; lia.
Qed.
End landing.

(** ** Reads of the ledger *)

Section reads.
Context `{C : Crates, V : !Evm}.

(** The rpId of the group that has the key. *)
Definition group_site (s : Registry) (g : bytes) : option string :=
  match getUnitByGroupKey s g with Ok (Some (_, u)) => Some (un_rpId u) | _ => None end.

Lemma group_site_spec dc dr L s g rp : holds dc dr L s → group_site s g = Some rp ↔ (keccak256 g, rp) ∈ opened L.
Proof.
  intros H. unfold group_site, getUnitByGroupKey.
  destruct (ho_group _ _ _ _ H (keccak256 g)) as [[-> Hn]|(id & u & -> & Hu & _ & Hr)]; cbn.
  - split; [done|]. intros Hin. destruct Hn. apply list_elem_of_fmap. by exists (keccak256 g, rp).
  - apply unit_at_Some in Hu as Hu'. destruct (Z.eqb_spec (id + 1) 0); [lia|].
    replace (id + 1 - 1) with id by lia. rewrite Hu. cbn. rewrite Hr. naive_solver.
Qed.

Lemma hasEntry_spec dc dr L s k : holds dc dr L s → hasEntry s k = true ↔ keccak256 k ∈ (key_hash <$> passkeys L).
Proof.
  intros H. unfold hasEntry. rewrite negb_true_iff, Z.eqb_neq. pose proof (key_known _ _ _ _ (keccak256 k) H).
  destruct (decide (keccak256 k ∈ (key_hash <$> passkeys L))); tauto.
Qed.

(** The reads that do not depend on the order of the writes. *)
Record same_answers (s s' : Registry) : Prop := {
  sa_content ch : isContentRegistered s ch = isContentRegistered s' ch;
  sa_referenced g k : isReferenced s g k = isReferenced s' g k;
  sa_entry k : hasEntry s k = hasEntry s' k;
  sa_group g : group_site s g = group_site s' g;
  sa_units : getTotalUnits s = getTotalUnits s';
  sa_references : getTotalReferences s = getTotalReferences s';
}.

Lemma same_ledgers dc dr h h' s s' :
  h ≡ₚ h' → holds dc dr (ledger_of h) s → holds dc dr (ledger_of h') s' →
  getTotalUnits s = of_register true h → getTotalReferences s = of_register false h →
  getTotalUnits s' = of_register true h' → getTotalReferences s' = of_register false h' → same_answers s s'.
Proof.
  intros Hp H H' Hu Hr Hu' Hr'. rewrite ledger_of_parts in H, H'. split.
  - intros ch. apply Bool.eq_iff_eq_true. rewrite (isContentRegistered_spec _ _ _ _ _ H),
      (isContentRegistered_spec _ _ _ _ _ H'). cbn [registered]. by rewrite Hp.
  - intros g k. apply Bool.eq_iff_eq_true. rewrite (isReferenced_spec _ _ _ _ _ _ H),
      (isReferenced_spec _ _ _ _ _ _ H'). cbn [referred]. by rewrite Hp.
  - intros k. apply Bool.eq_iff_eq_true. rewrite (hasEntry_spec _ _ _ _ _ H), (hasEntry_spec _ _ _ _ _ H').
    cbn [passkeys]. by rewrite Hp.
  - intros g. apply option_eq. intros rp. rewrite (group_site_spec _ _ _ _ _ _ H), (group_site_spec _ _ _ _ _ _ H').
    cbn [opened]. by rewrite Hp.
  - rewrite Hu, Hu'. unfold of_register, id_of. by rewrite Hp.
  - rewrite Hr, Hr'. unfold of_register, id_of. by rewrite Hp.
Qed.
End reads.

(** ** The replay tool's queue on a mirror *)

Section mirror.
Context `{C : Crates, V : !Evm}.

(** The calldata that a row carries. *)
Definition payload (row : Row) : bytes :=
  match parse_hex_bytes (row_input row) with Ok b => b | Err _ => [] end.

(** The row is a write of the kind that it names. *)
Definition row_names_call (row : Row) : Prop :=
  ∃ c, decode_call (payload row) = Some c ∧
    row_kind row = if is_register c then KRegister else KRefer.

Lemma calls_of_kind rows :
  Forall row_names_call rows →
  ∃ h, calls_of (payload <$> rows) = h ∧
    (∀ k, Forall (λ row, row_kind row = k) rows → Forall (λ c, is_register c = bool_decide (k = KRegister)) h).
Proof.
  intros H. eexists. split; [done|]. intros k Hk. unfold calls_of.
  induction H as [|row rows (c & Hd & Hc) _ IH]; [constructor|]. apply Forall_cons in Hk as [Hr Hk].
  cbn. rewrite Hd. constructor; [|by apply IH]. rewrite Hc in Hr. subst k. by destruct (is_register c).
Qed.

Lemma calls_of_app r1 r2 : calls_of (r1 ++ r2) = calls_of r1 ++ calls_of r2.
Proof. apply omap_app. Qed.

(** The queue's writes: registrations, then references. *)
Lemma queue_calls rows seed :
  Forall row_names_call rows →
  ∃ a b, calls_of (payload <$> (replay_queue rows seed).*1) = a ++ b ∧
    Forall (λ c, is_register c = true) a ∧ Forall (λ c, is_register c = false) b.
Proof.
  intros H. destruct (replay_queue_perm rows seed) as (rs & fs & Hr & Hf & ->).
  assert (Hfst : ∀ (d : bytes) (l : list Row), ((λ row, (row, d)) <$> l).*1 = l).
  { intros d l. induction l as [|row l IH]; [done|]. cbn. by f_equal. }
  rewrite fmap_app, !Hfst, fmap_app, calls_of_app.
  assert (Hk : ∀ k l, l ≡ₚ of_kind k rows → Forall row_names_call l ∧ Forall (λ row, row_kind row = k) l).
  { intros k l Hl. rewrite Hl. unfold of_kind. rewrite Forall_forall in H. rewrite !Forall_forall.
    split; intros row [? ?]%list_elem_of_filter; [by apply H|done]. }
  destruct (Hk _ _ Hr) as [H1 H1'], (Hk _ _ Hf) as [H2 H2'].
  destruct (calls_of_kind rs H1) as (a & <- & Ha), (calls_of_kind fs H2) as (b & <- & Hb).
  eexists _, _. split; [done|]. split; [by apply (Ha KRegister)|by apply (Hb KRefer)].
Qed.

(** C23. A mirror accepts an archive: the writes that one deployment took, in the
    order in which the replay tool sends them (registrations first, both
    halves shuffled by any seed), at any times, all succeed on an empty
    deployment of the same domain, as long as every use of a passkey is
    within the sizes of a first use.  The mirror then agrees with the original
    on which content is registered, which passkey is referred to which group,
    which passkeys have a file, which groups exist and under which rpId, and
    how many groups and references there are.  (Ids, the order of pages,
    times, and the hints of a file that its first use leaves may differ.) *)
Theorem mirror_takes_archive bc this dc dr bc' this' dc' dr' txs rows seed time :
  let s0 := new_registry bc this dc dr in
  let s0' := new_registry bc' this' dc' dr' in
  let sent := (λ item : Item, (payload item.1, time item.1)) <$> replay_queue rows seed in
  domain_of bc this dc dr = domain_of bc' this' dc' dr' →
  all_land s0 txs = true →
  payload <$> rows ≡ₚ txs.*1 → Forall row_names_call rows →
  Forall within_limits (calls_of (txs.*1) ≫= call_members) →
  all_land s0' sent = true ∧ same_answers (mined s0' sent) (mined s0 txs).
Proof.
  intros s0 s0' sent HD Hall Hp Hrows Hlim.
  pose proof (holds_new bc this dc dr) as H0. pose proof (holds_new bc' this' dc' dr') as H0'.
  fold s0 in H0. fold s0' in H0'. injection HD as Hd1 Hd2. cbn in Hd1, Hd2. rewrite Hd1, Hd2 in H0.
  apply (all_land_spec _ _ txs _ _ H0) in Hall as Hacc. destruct Hacc as [Hdec Hacc].
  assert (Hsent : sent.*1 = payload <$> (replay_queue rows seed).*1) by (unfold sent; by rewrite <-!list_fmap_compose).
  assert (Hperm : sent.*1 ≡ₚ txs.*1) by by rewrite Hsent, replay_queue_rows.
  assert (Hcalls : calls_of (sent.*1) ≡ₚ calls_of (txs.*1)) by (unfold calls_of; by rewrite Hperm).
  destruct (queue_calls rows seed Hrows) as (a & b & Hab & Ha & Hb). rewrite <-Hsent in Hab.
  assert (Hland : all_land s0' sent = true).
  { apply (all_land_spec _ _ sent _ _ H0'). split; [by rewrite Hperm|].
    eapply reordered_accepts; [exact Hacc|done|done|]. rewrite Hab in Hcalls |- *.
    by eapply registers_first. }
  split; [done|].
  pose proof (holds_mined _ _ txs _ _ H0) as H1. pose proof (holds_mined _ _ sent _ _ H0') as H1'.
  rewrite (mined_accepted txs s0 Hall) in H1. rewrite (mined_accepted sent s0' Hland) in H1'.
  destruct (landed_totals txs s0 Hall) as [Hu Hr], (landed_totals sent s0' Hland) as [Hu' Hr'].
  exact (same_ledgers _ _ _ _ _ _ Hcalls H1' H1 Hu' Hr' Hu Hr).
Qed.
End mirror.

(** ** Evaluation on examples *)
Section examples.
#[local] Existing Instances registry_crates registry_evm registry_mirrors.

Definition within_limitsb (m : SolMember) : bool :=
  is_ok (validateAttestation (sm_attestation m)) &&
  (byte_len (sm_credentialId m) <=? MAX_CREDENTIAL_ID_LENGTH) &&
  (byte_len (sm_authenticatorAttachment m) <=? MAX_AUTHENTICATOR_ATTACHMENT_LENGTH) &&
  (byte_len (sm_transports m) <=? MAX_TRANSPORTS_LENGTH).

Lemma within_limitsb_spec l : forallb within_limitsb l = true → Forall within_limits l.
Proof.
  rewrite forallb_forall, Forall_forall. intros H m Hin. specialize (H m). unfold within_limitsb in H.
  rewrite !andb_true_iff, !Z.leb_le in H. destruct H as [[[Ha ?] ?] ?]; [by apply list_elem_of_In|].
  split; try done. destruct (validateAttestation (sm_attestation m)) as [[]|]; done.
Qed.

Definition row_names_callb (row : Row) : bool :=
  match decode_call (payload row) with
  | Some c => bool_decide (row_kind row = if is_register c then KRegister else KRefer)
  | None => false
  end.

Lemma row_names_callb_spec l : forallb row_names_callb l = true → Forall row_names_call l.
Proof.
  rewrite forallb_forall, Forall_forall. intros H row Hin. specialize (H row). unfold row_names_callb in H.
  unfold row_names_call. destruct (decode_call (payload row)) as [c|]; [|by discriminate H; apply list_elem_of_In].
  exists c. split; [done|]. eapply bool_decide_eq_true_1, H. by apply list_elem_of_In.
Qed.

Definition row_of (kind : Kind) (data : bytes) : Row := mkRow "tx" 1 0 kind ("0x" +:+ hex_encode data).

(** A life: a group, a reference to it, another group. *)
Definition sample_life : list (bytes * Z) :=
  [(calldata (register_task key_5 [key_6]), 10); (calldata (refer_task key_5 key_9), 20);
   (calldata (register_task key_8 [key_6; key_9]), 30)].
Definition sample_rows : list Row :=
  zip_with row_of [KRegister; KRefer; KRegister] (sample_life.*1).

Lemma mirror_takes_archive_witness :
  let sent := (λ item : Item, (payload item.1, 99)) <$> replay_queue sample_rows (Some 7) in
  all_land mirror sent = true ∧ same_answers (mined mirror sent) (mined original sample_life).
Proof.
  apply (mirror_takes_archive 100 sample_registry 0 (replicate 20 x00) 1 (replicate 20 x07) 100 sample_registry
    sample_life sample_rows (Some 7) (λ _, 99)).
  - by vm_compute.
  - by vm_compute.
  - by vm_compute.
  - apply row_names_callb_spec. by vm_compute.
  - apply within_limitsb_spec. by vm_compute.
Defined.

(** The sizes matter: a later use of a passkey may carry transports that a
    first use may not, and the replay tool sends registrations first. *)
Definition with_transports (text : string) (t : RegisterTask) : RegisterTask :=
  mkTask (task_id t) (status t) (kind t) (rp_id t) (metadata t) (content_hash t) (group_public_key t)
    (group_proof t) ((λ m, mkMember (public_key m) (attestation m) (credential_id m)
      (authenticator_attachment m) text (proof m)) <$> members t)
    (tx_hash t) (on_chain_id t) (task_error t) (retries t) (created_at t) (admitted t).

Definition long_transports : string := string_of_list_ascii (replicate 256 "a"%char).

Definition long_life : list (bytes * Z) :=
  [(calldata (register_task key_5 [key_6]), 10); (calldata (refer_task key_5 key_9), 20);
   (calldata (with_transports long_transports (register_task key_8 [key_9])), 30)].
Definition long_rows : list Row := zip_with row_of [KRegister; KRefer; KRegister] (long_life.*1).

Lemma first_use_is_measured :
  all_land original long_life = true ∧
  call_result (long_life.*1 !!! 2%nat) 99 (mined mirror (take 1 long_life)) = Err (TransportsTooLong 256) ∧
  ((payload ∘ fst) <$> replay_queue long_rows None) = [long_life.*1 !!! 0%nat; long_life.*1 !!! 2%nat; long_life.*1 !!! 1%nat].
Proof. split_and!; by vm_compute. Qed.
End examples.
