(* ===== verification/ReplayRuns.v ===== *)
(** * What a replay and a verification guarantee

    Over the traces of [Replay]'s programs: every row of the archive is
    accounted for, exactly once, by what the endpoint answered; and the
    commands end, against any endpoint, because clocks advance. *)
From Stdlib Require Import Ascii String Strings.Byte.
From S2P Require Export ReplayFacts.
From stdpp Require Import options.
#[local] Set Warnings "-register-all".

(** ** Clocks *)

(** The clock reads no less than before, and a sleep takes its time. *)
Fixpoint timed (now : Z) (t : trace RpcOp RpcRes) : Prop :=
  match t with
  | [] => True
  | (op, r) :: t => ∃ now',
      match op with
      | Elapsed => now ≤ elapsed_of r ≤ now'
      | Sleep ms => now + ms ≤ now'
      | _ => now ≤ now'
      end ∧ timed now' t
  end.
Definition paced (t : trace RpcOp RpcRes) : Prop := ∃ now, timed now t.

Lemma paced_nil : paced [].
Proof. by exists 0. Qed.
Lemma paced_cons e t : paced (e :: t) → paced t.
Proof. destruct e. intros (now & now' & _ & H). by exists now'. Qed.
Lemma paced_app_r t1 t2 : paced (t1 ++ t2) → paced t2.
Proof. induction t1 as [|e t1 IH]; [done|]. intros H%paced_cons. by apply IH. Qed.
Lemma paced_app_l t1 t2 : paced (t1 ++ t2) → paced t1.
Proof.
  intros [now H]. exists now. revert now H. induction t1 as [|[op r] t1 IH]; intros now; [done|].
  intros (now' & ? & H). exists now'. split; [done|by apply IH].
Qed.

(** Every run of the process's shell is paced. *)
Lemma run_paced {N} `{Network N} {A} (p : CProg A) s s' t a :
  run rpc_shell p s = (s', t, a) → paced t.
Proof.
  intros Hr. exists (rpc_clock s). revert s s' t a Hr.
  induction p as [a0|op k IH]; intros s s' t a; cbn [run].
  { by intros [= <- <- <-]. }
  destruct (rpc_shell op s) as [r s1] eqn:E1. destruct (run rpc_shell (k r) s1) as [[s2 t2] a2] eqn:E2.
  intros [= <- <- <-]. apply IH in E2. exists (rpc_clock s1). split; [|done].
  pose proof (shell_clock op s) as Hc. rewrite E1 in Hc. cbn [snd] in Hc.
  destruct op; try (apply Hc; discriminate); cbn in E1; injection E1 as <- <-; cbn; lia.
Qed.

(** A command's result when its clock advances. *)
Definition ends {A} (t : trace RpcOp RpcRes) (m : result A Failure) : Prop :=
  paced t → m ≠ Err OutOfFuel.

Lemma ends_always {A} t (m : result A Failure) : m ≠ Err OutOfFuel → ends t m.
Proof. by intros ? _. Qed.
#[export] Hint Resolve ends_always : core.

(** ** One write *)

Section writes.
Context `{C : Crates, J : JsonCrate, E : EthCrates} (url : string) (sender : Sender) (registry : bytes).

(** The dry run of an input answered this. *)
Definition called (from : option bytes) (t : trace RpcOp RpcRes) (input : string) (o : CallOutcome) : Prop :=
  ∃ r, (Post url "eth_call" (call_params from registry input), r) ∈ t ∧ read_call (reply_of r) = Ok o.

(** The endpoint took the write, verbatim, under this hash. *)
Definition taken (t : trace RpcOp RpcRes) (input hash : string) : Prop :=
  match sender with
  | Unlocked from =>
      answered_at t url "eth_sendTransaction"
        (JArr [JObj [("from", address_param from); ("to", address_param registry);
                     ("data", JStr input)]]) (Ok (JStr hash))
  | Key signer => ∃ chain_id nonce gas gas_price data encoded,
      hex_decode (trim_0x input) = Some data ∧
      sign_transaction signer (replay_tx chain_id nonce gas gas_price registry data) = Some encoded ∧
      answered_at t url "eth_sendRawTransaction" (JArr [hex_param encoded]) (Ok (JStr hash))
  end.

Definition mined (t : trace RpcOp RpcRes) (hash : string) : Prop :=
  ∃ receipt, answered_at t url "eth_getTransactionReceipt" (JArr [JStr hash]) (Ok receipt) ∧
    json_get "status" receipt = Some (JStr "0x1").

(** Written by this run: tried first, then sent and mined. *)
Definition wrote (t : trace RpcOp RpcRes) (input : string) : Prop :=
  called (Some (sending_address sender)) t input CallOk ∧ ∃ hash, taken t input hash ∧ mined t hash.

Lemma called_mono from t t' input o : t ⊆ t' → called from t input o → called from t' input o.
Proof. intros Ht (r & ? & ?). exists r. split; [by apply Ht|done]. Qed.
Lemma taken_mono t t' input hash : t ⊆ t' → taken t input hash → taken t' input hash.
Proof.
  intros Ht. unfold taken. destruct sender.
  - intros (c&n&g&p&d&e&?&?&?). exists c, n, g, p, d, e. split_and!; [done..|]. by eapply answered_at_mono.
  - intros H. by eapply answered_at_mono.
Qed.
Lemma mined_mono t t' hash : t ⊆ t' → mined t hash → mined t' hash.
Proof. intros Ht (v & ? & ?). exists v. split; [by eapply answered_at_mono|done]. Qed.
Lemma wrote_mono t t' input : t ⊆ t' → wrote t input → wrote t' input.
Proof.
  intros Ht (Hc & h & Hh & Hm). split; [by eapply called_mono|]. exists h.
  split; [by eapply taken_mono|by eapply mined_mono].
Qed.

Lemma read_call_fuel r : read_call r ≠ Err OutOfFuel.
Proof.
  unfold read_call. destruct r as [| |v]; [done..|]. case_match; [done|].
  apply rbind_fuel; [apply ok_or_bail|done].
Qed.

Lemma exec_rp_call from input t m :
  exec (rp_call url from registry input) t m →
  m ≠ Err OutOfFuel ∧ ∀ o, m = Ok o → called from t input o.
Proof.
  intros (r & t' & -> & [-> ->]%exec_ret_inv)%exec_req_inv. split; [apply read_call_fuel|].
  intros o Ho. exists r. split; [by left|done].
Qed.

Lemma hash_of_ok method v h : hash_of method v = Ok h → v = JStr h.
Proof. unfold hash_of. intros H%ok_or_ok. destruct v; try done. by injection H as ->. Qed.

Lemma exec_quantity method params t m : exec (quantity url method params) t m → m ≠ Err OutOfFuel.
Proof. intros H%exec_read_request; [tauto|apply parse_quantity_fuel]. Qed.

(** A step that is no request: the program stops at its error. *)
Lemma exec_lift {A B} (m : result A Failure) (f : A → RFlow B) t r :
  exec (fbind (Ret m) f) t r → (∃ e, m = Err e ∧ r = Err e) ∨ ∃ a, m = Ok a ∧ exec (f a) t r.
Proof. destruct m as [a|e]; cbn; [by eauto|]. intros [-> ->]%exec_ret_inv. eauto. Qed.

Lemma ran_broadcast input t m :
  exec (broadcast url sender registry input) t m →
  m ≠ Err OutOfFuel ∧ ∀ h, m = Ok h → taken t input h.
Proof.
  unfold broadcast, taken. destruct sender as [signer|from]; intros Hex.
  - apply exec_fbind in Hex as [(e&He%exec_quantity&->)|(?&?&chain_id&->&_&Hex)]; [split; congruence|].
    apply exec_fbind in Hex as [(e&He%exec_quantity&->)|(?&?&nonce&->&_&Hex)]; [split; congruence|].
    apply exec_fbind in Hex as [(e&He%exec_quantity&->)|(?&?&gas&->&_&Hex)]; [split; congruence|].
    apply exec_fbind in Hex as [(e&He%exec_quantity&->)|(?&?&gas_price&->&_&Hex)]; [split; congruence|].
    pose proof (ok_or_bail "invalid hex" (hex_decode (trim_0x input))) as Hf1.
    apply exec_lift in Hex as [(e&He&->)|(data&Hd%ok_or_ok&Hex)]; [split; congruence|].
    set (tx := replay_tx _ _ _ _ _ _) in *.
    pose proof (ok_or_bail "could not sign" (sign_transaction signer tx)) as Hf2.
    apply exec_lift in Hex as [(e&He&->)|(encoded&Hs%ok_or_ok&Hex)]; [split; congruence|].
    apply exec_read_request in Hex as (_&Hf&Hv); [|intros; apply ok_or_bail]. split; [done|].
    intros h (v & Ha & ->%hash_of_ok)%Hv. exists chain_id, nonce, gas, gas_price, data, encoded.
    split_and!; [done..|]. eapply answered_at_mono, Ha. set_solver.
  - apply exec_read_request in Hex as (_&Hf&Hv); [|intros; apply ok_or_bail]. split; [done|].
    by intros h (v & Ha & ->%hash_of_ok)%Hv.
Qed.

(** The wait for a receipt ends at its deadline. *)
Lemma exec_await fuel hash deadline t m :
  exec (await_receipt url fuel hash deadline) t m →
  (∀ h, m = Ok h → mined t hash) ∧
  ∀ now, timed now t → deadline < now + RECEIPT_POLL * (Z.of_nat fuel - 1) → (0 < fuel)%nat →
    m ≠ Err OutOfFuel.
Proof.
  revert t m. induction fuel as [|fuel IH]; intros t m Hex; cbn [await_receipt] in Hex.
  { apply exec_ret_inv in Hex as [-> ->]. split; [done|lia]. }
  apply exec_fbind in Hex as [(e&He&->)|(t1&t2&receipt&->&H1&Hex)].
  { apply exec_request in He as (_&Hf&_). split; [done|]. intros; congruence. }
  apply exec_request in H1 as (Hl&_&Hr). specialize (Hr receipt eq_refl).
  destruct (negb (is_null receipt)) eqn:Hn.
  - apply exec_ret_inv in Hex as [-> ->]. rewrite app_nil_r. split; [|by intros; case_bool_decide].
    intros h Hh. case_bool_decide as Hs; [|done]. exists receipt. split; [done|].
    destruct (json_get "status" receipt) as [[]|]; cbn in Hs; try done. by subst.
  - destruct t1 as [|[op r] [|? ?]]; [done| |done]. clear Hl.
    apply exec_req_inv in Hex as (re & t3 & -> & Hex).
    destruct (deadline <? elapsed_of re) eqn:Hd.
    { apply exec_ret_inv in Hex as [-> ->]. done. }
    apply Z.ltb_ge in Hd. apply exec_req_inv in Hex as (rs & t4 & -> & Hex). apply IH in Hex as [Hm Hf]. split.
    { intros h Hh%Hm. eapply mined_mono, Hh. set_solver. }
    cbn [app timed]. intros now (now1 & Hn1 & now2 & Hn2 & now3 & Hn3 & Ht) Hlt _.
    assert (now ≤ now1).
    { destruct op; try done; [lia|]. exfalso. destruct Hr as (? & Hin & _). set_solver. }
    apply Hf with now3; [done| |]; unfold RECEIPT_POLL in *; [lia|].
    destruct fuel; [|lia]. exfalso. lia.
Qed.

Lemma exec_send_write input t m :
  exec (send_write url sender registry input) t m →
  ends t m ∧ ∀ h, m = Ok h → ∃ hash, taken t input hash ∧ mined t hash.
Proof.
  unfold send_write. intros Hex.
  apply exec_fbind in Hex as [(e&He&->)|(t1&t2&hash&->&H1&Hex)].
  { apply ran_broadcast in He as [Hf _]. split; [apply ends_always; congruence|done]. }
  apply ran_broadcast in H1 as [_ Ht]. specialize (Ht hash eq_refl).
  apply exec_req_inv in Hex as (r & t3 & -> & Hex). apply exec_await in Hex as [Hm Hf]. split.
  - intros (now & now' & Hn & H)%paced_app_r. apply (Hf now'); [done|unfold RECEIPT_POLL, RECEIPT_TIMEOUT, receipt_turns; lia|].
    unfold receipt_turns. lia.
  - intros h Hh%Hm. exists hash. split; [eapply taken_mono, Ht|eapply mined_mono, Hh]; set_solver.
Qed.
End writes.

(** ** The replay *)

Section replays.
Context `{C : Crates, J : JsonCrate, E : EthCrates} (url : string) (sender : Sender) (registry : bytes).

(** The target said that it holds this write already. *)
Definition known (from : option bytes) (t : trace RpcOp RpcRes) (item : Item) : Prop :=
  ∃ raw, called url registry from t (row_input item.1) (CallReverted (Some item.2) raw).
(** The target refused it, for another reason. *)
Definition refused (from : option bytes) (t : trace RpcOp RpcRes) (item : Item) : Prop :=
  ∃ found raw, called url registry from t (row_input item.1) (CallReverted found raw) ∧
    found ≠ Some item.2.

Definition sent_item (t : trace RpcOp RpcRes) (item : Item) : Prop :=
  wrote url sender registry t (row_input item.1).
Definition payer : option bytes := Some (sending_address sender).

(** The items, each in one place: written, already there, or refused. *)
Record accounts (t : trace RpcOp RpcRes) (items written there bad : list Item) : Prop := {
  ac_items : items ≡ₚ written ++ there ++ bad;
  ac_written : Forall (sent_item t) written;
  ac_there : Forall (known payer t) there;
  ac_bad : Forall (refused payer t) bad;
}.

Definition hashes (items : list Item) : list string := (λ item : Item, row_tx_hash item.1) <$> items.
Record adds (report report' : Report) (written there bad : list Item) : Prop := {
  ad_sent : sent report' = (sent report + length written)%nat;
  ad_present : present report' = (present report + length there)%nat;
  ad_failed : failed report' = failed report ++ hashes bad;
}.

Lemma known_mono from t t' item : t ⊆ t' → known from t item → known from t' item.
Proof. intros Ht (raw & H). exists raw. by eapply called_mono. Qed.
Lemma refused_mono from t t' item : t ⊆ t' → refused from t item → refused from t' item.
Proof. intros Ht (f & raw & H & ?). exists f, raw. split; [by eapply called_mono|done]. Qed.

Lemma accounts_mono t t' items w p b : t ⊆ t' → accounts t items w p b → accounts t' items w p b.
Proof.
  intros Ht []. constructor; [done|..]; (eapply Forall_impl; [eassumption|]); cbn; intros.
  - by eapply wrote_mono.
  - by eapply known_mono.
  - by eapply refused_mono.
Qed.

Lemma accounts_app t i1 i2 w1 w2 p1 p2 b1 b2 :
  accounts t i1 w1 p1 b1 → accounts t i2 w2 p2 b2 →
  accounts t (i1 ++ i2) (w1 ++ w2) (p1 ++ p2) (b1 ++ b2).
Proof.
  intros [] []. constructor; [|by apply Forall_app..].
  rewrite ac_items0, ac_items1. solve_Permutation.
Qed.

Lemma accounts_nil t : accounts t [] [] [] [].
Proof. by constructor. Qed.

Lemma adds_nil report : adds report report [] [] [].
Proof. constructor; cbn; [lia..|by rewrite app_nil_r]. Qed.

Lemma adds_trans r1 r2 r3 w1 w2 p1 p2 b1 b2 :
  adds r1 r2 w1 p1 b1 → adds r2 r3 w2 p2 b2 → adds r1 r3 (w1 ++ w2) (p1 ++ p2) (b1 ++ b2).
Proof.
  intros [?? Hf1] [?? Hf2]. constructor; unfold hashes in *; rewrite ?length_app, ?fmap_app; [lia..|]. by rewrite Hf2, Hf1, <-app_assoc.
Qed.

(** What a round leaves: the queue is accounted for, but what it defers. *)
Definition rounded (t : trace RpcOp RpcRes) (queue : list Item) (report : Report) (retry : list Item)
    (m : result (Report * list Item) Failure) : Prop :=
  ∀ report' retry', m = Ok (report', retry') → ∃ handled deferred w p b,
    queue ≡ₚ handled ++ deferred ∧ retry' = retry ++ deferred ∧
    accounts t handled w p b ∧ adds report report' w p b ∧ Forall (refused payer t) deferred.

Lemma rounded_mono t t' queue report retry m :
  t ⊆ t' → rounded t queue report retry m → rounded t' queue report retry m.
Proof.
  intros Ht H report' retry' Hm. destruct (H _ _ Hm) as (hd&df&w&p&b&?&?&?&?&?).
  exists hd, df, w, p, b. split_and!; [done..|by eapply accounts_mono|done|].
  eapply Forall_impl; [done|]. intros. by eapply refused_mono.
Qed.

Lemma rounded_nil report retry : rounded [] [] report retry (Ok (report, retry)).
Proof.
  intros ?? [= <- <-]. exists [], [], [], [], [].
  split_and!; [done|by rewrite app_nil_r|apply accounts_nil|apply adds_nil|constructor].
Qed.

Lemma rounded_handled t item queue report report1 retry m w p b :
  accounts t [item] w p b → adds report report1 w p b →
  rounded t queue report1 retry m → rounded t (item :: queue) report retry m.
Proof.
  intros Hac Ha H report' retry' Hm. destruct (H _ _ Hm) as (hd&df&w'&p'&b'&Hq&?&?&?&?).
  exists ([item] ++ hd), df, (w ++ w'), (p ++ p'), (b ++ b').
  split_and!; [by rewrite Hq|done|by apply accounts_app|by eapply adds_trans|done].
Qed.

Lemma rounded_deferred t item queue report retry m :
  refused payer t item → rounded t queue report (retry ++ [item]) m →
  rounded t (item :: queue) report retry m.
Proof.
  intros Hr H report' retry' Hm. destruct (H _ _ Hm) as (hd&df&w&p&b&Hq&->&?&?&?).
  exists hd, (item :: df), w, p, b.
  split_and!; [by rewrite Hq, Permutation_middle|by rewrite <-app_assoc|done|done|by constructor].
Qed.

Lemma accounts_written t item : sent_item t item → accounts t [item] [item] [] [].
Proof. intros ?. constructor; rewrite ?Forall_singleton; done. Qed.
Lemma accounts_there t item : known payer t item → accounts t [item] [] [item] [].
Proof. intros ?. constructor; rewrite ?Forall_singleton; done. Qed.
Lemma accounts_bad t item : refused payer t item → accounts t [item] [] [] [item].
Proof. intros ?. constructor; rewrite ?Forall_singleton; done. Qed.

Lemma adds_written report item :
  adds report (mkReport (S (sent report)) (present report) (failed report)) [item] [] [].
Proof. constructor; cbn; [lia..|by rewrite app_nil_r]. Qed.
Lemma adds_there report item :
  adds report (mkReport (sent report) (S (present report)) (failed report)) [] [item] [].
Proof. constructor; cbn; [lia..|by rewrite app_nil_r]. Qed.
Lemma adds_bad report item :
  adds report (mkReport (sent report) (present report) (failed report ++ [row_tx_hash item.1])) [] [] [item].
Proof. constructor; cbn; [lia..|done]. Qed.

Lemma exec_round queue report retry t m :
  exec (round url sender registry queue report retry) t m →
  ends t m ∧ rounded t queue report retry m.
Proof.
  revert report retry t m. induction queue as [|[row dup] queue IH]; intros report retry t m Hex; cbn [round] in Hex.
  { apply exec_ret_inv in Hex as [-> ->]. split; [by apply ends_always|apply rounded_nil]. }
  apply exec_fbind in Hex as [(e&He&->)|(t1&t2&outcome&->&H1&Hex)].
  { apply exec_rp_call in He as [Hf _]. split; [apply ends_always; congruence|by intros ?]. }
  apply exec_rp_call in H1 as [_ Hc]. specialize (Hc outcome eq_refl).
  assert (Hc' : called url registry payer (t1 ++ t2) row.(row_input) outcome)
    by (eapply called_mono, Hc; set_solver).
  destruct outcome as [|found raw].
  - apply exec_fbind in Hex as [(e&He&->)|(t3&t4&hash&->&H3&Hex)].
    { apply exec_send_write in He as [Hf _]. split; [|by intros ?].
      intros Ht%paced_app_r. specialize (Hf Ht). congruence. }
    apply exec_send_write in H3 as [_ Hw]. destruct (Hw hash eq_refl) as (h & Hh & Hm).
    apply IH in Hex as [Hf Hr]. split; [intros Ht; by do 2 apply paced_app_r in Ht; apply Hf|].
    apply (rounded_mono _ (t1 ++ t3 ++ t4)) in Hr; [|set_solver].
    eapply rounded_handled, Hr; [apply accounts_written|apply (adds_written _ (row, dup))].
    split; [done|]. exists h. split; [eapply taken_mono, Hh|eapply mined_mono, Hm]; set_solver.
  - assert (Hbad : found ≠ Some dup → refused payer (t1 ++ t2) (row, dup)) by (by exists found, raw).
    case_bool_decide as Hdup; [|destruct (_ && _)]; apply IH in Hex as [Hf Hr];
      (split; [by intros Ht%paced_app_r; apply Hf|]); apply (rounded_mono _ (t1 ++ t2)) in Hr; try set_solver.
    + eapply rounded_handled, Hr; [apply accounts_there|apply (adds_there _ (row, dup))].
      subst found. by exists raw.
    + apply rounded_deferred, Hr. by apply Hbad.
    + eapply rounded_handled, Hr; [apply accounts_bad|apply (adds_bad _ (row, dup))]. by apply Hbad.
Qed.

Lemma exec_rounds fuel queue report t m :
  exec (rounds url fuel sender registry queue report) t m → (length queue ≤ fuel)%nat →
  ends t m ∧ ∀ report', m = Ok report' → ∃ w p b,
    accounts t queue w p b ∧ adds report report' w p b.
Proof.
  revert queue report t m. induction fuel as [|fuel IH]; intros queue report t m Hex Hl.
  { destruct queue; [|cbn in Hl; lia]. cbn in Hex. apply exec_ret_inv in Hex as [-> ->].
    split; [by apply ends_always|]. intros ? [= <-]. exists [], [], []. split; [apply accounts_nil|apply adds_nil]. }
  destruct queue as [|item queue].
  { cbn in Hex. apply exec_ret_inv in Hex as [-> ->].
    split; [by apply ends_always|]. intros ? [= <-]. exists [], [], []. split; [apply accounts_nil|apply adds_nil]. }
  cbn [rounds] in Hex. set (q := item :: queue) in *.
  apply exec_fbind in Hex as [(e&He&->)|(t1&t2&[report1 retry]&->&H1&Hex)].
  { apply exec_round in He as [Hf _]. split; [|done]. intros Ht. specialize (Hf Ht). congruence. }
  apply exec_round in H1 as [_ H1]. destruct (H1 _ _ eq_refl) as (hd&df&w&p&b&Hq&Hr&Hac&Ha&Hdf).
  cbn in Hr. subst retry. apply Permutation_length in Hq as Hlen. rewrite length_app in Hlen.
  destruct (length df =? length q)%nat eqn:Hlq.
  - apply Nat.eqb_eq in Hlq. apply exec_ret_inv in Hex as [-> ->]. split; [by apply ends_always|].
    intros ? [= <-]. destruct hd; [|cbn in *; lia]. cbn [app] in Hq. exists w, p, (b ++ df). rewrite app_nil_r.
    split.
    + destruct Hac as [Hi]. constructor; [|done..|by apply Forall_app].
      rewrite Hq. symmetry in Hi. apply Permutation_nil_r in Hi. 
      apply app_eq_nil in Hi as [-> Hi]. apply app_eq_nil in Hi as [-> ->]. done.
    + destruct Ha as [?? Hfa]. constructor; [done..|]. cbn. unfold hashes. by rewrite Hfa, fmap_app, <-app_assoc.
  - apply Nat.eqb_neq in Hlq. apply IH in Hex as [Hf H2]; [|lia]. split; [by intros Ht%paced_app_r; apply Hf|].
    intros report' Hm. destruct (H2 _ Hm) as (w'&p'&b'&Hac'&Ha').
    exists (w ++ w'), (p ++ p'), (b ++ b'). split; [|by eapply adds_trans].
    destruct (accounts_app (t1 ++ t2) hd df w w' p p' b b') as [Hi]; [eapply accounts_mono, Hac; set_solver|
      eapply accounts_mono, Hac'; set_solver|]. constructor; [by rewrite Hq|done..].
Qed.

(** The same, row by row of the archive. *)
Record accounted (t : trace RpcOp RpcRes) (rows : list Row) (report : Report)
    (written there bad : list Row) : Prop := {
  rw_rows : rows ≡ₚ written ++ there ++ bad;
  rw_sent : sent report = length written;
  rw_present : present report = length there;
  rw_failed : failed report = row_tx_hash <$> bad;
  rw_written row : row ∈ written → wrote url sender registry t (row_input row);
  rw_there row : row ∈ there → known payer t (row, duplicate_of (row_kind row));
  rw_bad row : row ∈ bad → refused payer t (row, duplicate_of (row_kind row));
}.

Lemma exec_replay rows seed t m :
  exec (replay url registry rows sender seed) t m →
  ends t m ∧ ∀ report, m = Ok report → ∃ w p b, accounted t rows report w p b.
Proof.
  intros Hex. apply exec_rounds in Hex as [Hf H]; [|done]. split; [done|].
  intros report Hm. destruct (H _ Hm) as (w&p&b&[Hi Hw Hp Hb]&[Hs Hpr Hfa]).
  assert (Hdup : ∀ row dup, (row, dup) ∈ w ++ p ++ b → dup = duplicate_of (row_kind row)).
  { intros row dup Hin. rewrite <-Hi in Hin. by apply replay_queue_item in Hin as [_ ?]. }
  rewrite Forall_forall in Hw, Hp, Hb. exists w.*1, p.*1, b.*1. constructor.
  - by rewrite <-(replay_queue_rows rows seed), Hi, !fmap_app.
  - by rewrite length_fmap.
  - by rewrite length_fmap.
  - rewrite Hfa. unfold hashes. by rewrite <-list_fmap_compose.
  - intros row ([? dup] & -> & Hin)%list_elem_of_fmap. by apply (Hw (_, dup)).
  - intros row ([row' dup] & -> & Hin)%list_elem_of_fmap. cbn. rewrite <-(Hdup row' dup); [by apply Hp|set_solver].
  - intros row ([row' dup] & -> & Hin)%list_elem_of_fmap. cbn. rewrite <-(Hdup row' dup); [by apply Hb|set_solver].
Qed.

(** C29. A replay accounts for every row of the archive, exactly once,
    whatever the order it is shuffled into: a row is written (a dry run of its
    own input passed, then that input was sent verbatim to the registry and
    its transaction was mined with success), or the target said that it
    already holds it, or it is listed as failed and the target refused it for
    another reason.  The counts of the report are those of the three. *)
Theorem replay_accounts rows seed t report :
  exec (replay url registry rows sender seed) t (Ok report) →
  ∃ written there bad, accounted t rows report written there bad.
Proof. intros [_ H]%exec_replay. by apply H. Qed.

(** C31. A replay ends: no queue, no refusal and no missing receipt keeps it
    going, against any endpoint whose answers take time. *)
Theorem replay_ends {N} `{Network N} rows seed (s : RpcState N) :
  (run rpc_shell (replay url registry rows sender seed) s).2 ≠ Err OutOfFuel.
Proof.
  destruct (run _ _ _) as [[s' t] m] eqn:Hr. apply run_paced in Hr as Hp. apply run_exec, exec_replay in Hr as [Hf _].
  by apply Hf.
Qed.

(** ** Verification *)

Lemma exec_audit rows a t m :
  exec (audit url registry rows a) t m →
  m ≠ Err OutOfFuel ∧ ∀ a', m = Ok a' → ∃ there absent odd,
    rows ≡ₚ there ++ absent ++ odd ∧
    ok_rows a' = (ok_rows a + length there)%nat ∧
    missing a' = missing a ++ (row_tx_hash <$> absent) ∧
    anomalies a' = anomalies a ++ (row_tx_hash <$> odd) ∧
    (∀ row, row ∈ there → known None t (row, duplicate_of (row_kind row))) ∧
    (∀ row, row ∈ absent → called url registry None t (row_input row) CallOk) ∧
    (∀ row, row ∈ odd → refused None t (row, duplicate_of (row_kind row))).
Proof.
  revert a t m. induction rows as [|row rows IH]; intros a t m Hex; cbn [audit] in Hex.
  { apply exec_ret_inv in Hex as [-> ->]. split; [done|]. intros ? [= <-]. exists [], [], [].
    cbn. rewrite Nat.add_0_r, !app_nil_r. split_and!; [done..|set_solver|set_solver|set_solver]. }
  apply exec_fbind in Hex as [(e&He&->)|(t1&t2&o&->&H1&Hex)].
  { apply exec_rp_call in He as [Hf _]. split; [congruence|done]. }
  apply exec_rp_call in H1 as [_ Hc]. specialize (Hc o eq_refl).
  apply IH in Hex as [Hf H]. split; [done|]. intros a' Hm.
  destruct (H a' Hm) as (th&ab&od&Hi&Hok&Hmi&Han&Hth&Hab&Hod). clear H.
  assert (H1 : called url registry None (t1 ++ t2) (row_input row) o) by (eapply called_mono, Hc; set_solver).
  assert (Hth' : ∀ row, row ∈ th → known None (t1 ++ t2) (row, duplicate_of (row_kind row)))
    by (intros r Hr%Hth; eapply known_mono, Hr; set_solver).
  assert (Hab' : ∀ row, row ∈ ab → called url registry None (t1 ++ t2) (row_input row) CallOk)
    by (intros r Hr%Hab; eapply called_mono, Hr; set_solver).
  assert (Hod' : ∀ row, row ∈ od → refused None (t1 ++ t2) (row, duplicate_of (row_kind row)))
    by (intros r Hr%Hod; eapply refused_mono, Hr; set_solver).
  destruct o as [|found raw]; [|case_bool_decide as Hd]; cbn in Hok, Hmi, Han.
  - exists th, (row :: ab), od. rewrite Hi, Hmi, Han, <-app_assoc.
    split_and!; [by rewrite Permutation_middle|lia|done..|set_solver|done].
  - exists (row :: th), ab, od. rewrite Hi, Hmi, Han. subst found.
    split_and!; [done|cbn; lia|done|done| |done|done].
    intros r [->|Hr]%elem_of_cons; [by exists raw|by apply Hth'].
  - exists th, ab, (row :: od). rewrite Hi, Hmi, Han, <-app_assoc.
    split_and!; [solve_Permutation|lia|done..| ].
    intros r [->|Hr]%elem_of_cons; [by exists found, raw|by apply Hod'].
Qed.

(** A verification that passes has asked the target about every row of
    the archive, and the target said of each, by the duplicate error of the
    row's own kind, that it holds it; no row is skipped or counted twice. *)
Theorem verify_exact rows t m :
  exec (verify url registry rows) t m →
  m ≠ Err OutOfFuel ∧
  ∀ a, m = Ok a → ok_rows a = length rows ∧
    ∀ row, row ∈ rows → known None t (row, duplicate_of (row_kind row)).
Proof.
  unfold verify, target_total. intros Hex.
  apply exec_fbind in Hex as [(e&He&->)|(t1&t2&a&->&H1&Hex)].
  { apply exec_audit in He as [Hf _]. split; [congruence|done]. }
  apply exec_audit in H1 as [_ H1].
  do 3 (apply exec_fbind in Hex as [(?&[_ [? _]]%exec_request&->)|(?&?&?&->&_&Hex)]; [split; congruence|]).
  apply exec_ret_inv in Hex as [-> ->]. split; [by repeat case_match|].
  intros a' Hm. destruct (H1 a eq_refl) as (th&ab&od&Hi&Hok&Hmi&Han&Hth&_). cbn in Hok, Hmi, Han.
  destruct (missing a) eqn:Ea; [|done]. destruct (anomalies a) eqn:Eb; [|done]. injection Hm as <-.
  symmetry in Hmi, Han. apply fmap_nil_inv in Hmi as ->, Han as ->. rewrite !app_nil_r in Hi. split.
  - by rewrite Hok, Hi.
  - intros row Hr. rewrite Hi in Hr. eapply known_mono, Hth, Hr. set_solver.
Qed.
End replays.

(** ** Evaluation on an example *)
Section replay_run_examples.
#[local] Existing Instance concrete_crates.
#[local] Existing Instance concrete_json.
#[local] Existing Instance concrete_eth.
#[local] Existing Instance dev_network.

(** The reference comes first in the archive; the registration it needs is
    already held. *)
Definition dev_rows : list Row :=
  [mkRow "0xb2" 1200 1 KRefer (dev_input refer_selector "aa");
   mkRow "0xa1" 5 0 KRegister (dev_input register_selector "aa");
   mkRow "0xc3" 1300 0 KRefer (dev_input refer_selector "bb")].
Definition dev_sender : Sender := Unlocked (replicate 20 x07).
Definition dev_start : RpcState (list string) := dev_state [dev_input register_selector "aa"].
Definition replay_run := run rpc_shell (replay "dev" dev_registry dev_rows dev_sender (Some 7)) dev_start.
Definition verify_run := run rpc_shell (verify "dev" dev_registry (take 2 dev_rows)) replay_run.1.1.
#[local] Strategy expand [replay_run verify_run].

(** One row written, one already there, one refused for want of its group. *)
Lemma replay_accounts_witness :
  replay_run.2 = Ok (mkReport 1 1 ["0xc3"]) ∧
  ∃ written there bad, accounted "dev" dev_sender dev_registry replay_run.1.2 dev_rows
    (mkReport 1 1 ["0xc3"]) written there bad.
Proof.
  assert (Hm : replay_run.2 = Ok (mkReport 1 1 ["0xc3"])) by (vm_compute; reflexivity).
  split; [done|]. eapply (replay_accounts "dev" dev_sender dev_registry dev_rows (Some 7)).
  rewrite <-Hm. unfold replay_run. destruct (run _ _ _) as [[s t] m] eqn:Er. by eapply run_exec.
Defined.

Lemma verify_exact_witness :
  ∃ a, verify_run.2 = Ok a ∧ ok_rows a = 2%nat.
Proof.
  assert (Hok : is_ok verify_run.2 = true) by (vm_compute; reflexivity).
  destruct verify_run.2 as [a|e] eqn:Hm; [|done]. exists a. split; [done|].
  eapply (verify_exact "dev" dev_registry (take 2 dev_rows) verify_run.1.2 (Ok a)); [|done].
  rewrite <-Hm. unfold verify_run. destruct (run _ _ _) as [[s t] m] eqn:Er. by eapply run_exec.
Defined.
End replay_run_examples.
