(* ===== verification/Rescue.v ===== *)
(** * Stuck-transaction rescue ([p256-registrar/src/rescue.rs])

    The pure plan of one unstick sweep over the broadcast ledger. *)
From S2P Require Export Prelude.
From stdpp Require Import options.

Definition STUCK_TX_AGE_MS : Z := 2 * 60 * 1_000.
Definition MAX_UNSTICK_PER_CYCLE : nat := 5.
Definition UNSTICK_ALERT_ATTEMPTS : Z := 5.
Definition UNSTICK_ALERT_AGE_MS : Z := 10 * 60 * 1_000.

Record LedgerRow := mkLedgerRow {
  role : string;
  nonce : Z;
  hash : string;
  sent_at_ms : Z;
  attempts : Z;
  fees_wei : option (Z * Z);
}.

Inductive RescueAction :=
| DropConsumedRow (nonce : Z)
| Escalate (message : string)
| Replace (nonce attempts_after : Z) (previous_fees_wei : option (Z * Z)).

Definition stuck_alert (role : string) (nonce attempts age_ms : Z) : string :=
  "🛑 [webauthnp256-publickey-index] stuck " +:+ role +:+ " nonce " +:+ fmt nonce
    +:+ " not clearing (attempts " +:+ fmt attempts +:+ ", stuck ~" +:+ fmt (age_ms / 60_000)
    +:+ " min). Manual intervention may be required.".

(** [stuck.sort_by_key(|row| row.nonce)]: a stable sort. *)
Fixpoint insert_by_nonce (x : LedgerRow) (l : list LedgerRow) : list LedgerRow :=
  match l with
  | [] => [x]
  | y :: l => if nonce x <=? nonce y then x :: y :: l else y :: insert_by_nonce x l
  end.

Definition sort_by_nonce (l : list LedgerRow) : list LedgerRow := foldr insert_by_nonce [] l.

(** The loop over the sorted rows; [replaced] counts the replacements. *)
Fixpoint sweep_rows (confirmed_nonce now_ms : Z) (replaced : nat) (rows : list LedgerRow)
    : list RescueAction :=
  match rows with
  | [] => []
  | row :: rows =>
      if nonce row <? confirmed_nonce then
        DropConsumedRow (nonce row) :: sweep_rows confirmed_nonce now_ms replaced rows
      else
        let age_ms := sat_sub now_ms (sent_at_ms row) in
        let escalation :=
          if (UNSTICK_ALERT_ATTEMPTS <=? attempts row) || (UNSTICK_ALERT_AGE_MS <=? age_ms)
          then [Escalate (stuck_alert (role row) (nonce row) (attempts row) age_ms)]
          else [] in
        escalation ++
        if (MAX_UNSTICK_PER_CYCLE <=? replaced)%nat then
          sweep_rows confirmed_nonce now_ms replaced rows
        else
          Replace (nonce row) (wrap32 (attempts row + 1)) (fees_wei row)
            :: sweep_rows confirmed_nonce now_ms (S replaced) rows
  end.

Definition plan_role_sweep (role_ : string) (confirmed_nonce : Z) (ledger : list LedgerRow)
    (now_ms : Z) : list RescueAction :=
  let stuck := sort_by_nonce (filter (λ row, role row = role_) ledger) in
  sweep_rows confirmed_nonce now_ms 0 stuck.

(** ** Specification vocabulary *)

Definition needs_escalation (now_ms : Z) (row : LedgerRow) : Prop :=
  UNSTICK_ALERT_ATTEMPTS ≤ attempts row ∨
  UNSTICK_ALERT_AGE_MS ≤ sat_sub now_ms (sent_at_ms row).
#[export] Instance needs_escalation_dec now row : Decision (needs_escalation now row).
Proof. unfold needs_escalation. apply _. Defined.

Definition drops (acts : list RescueAction) : list Z :=
  omap (λ a, match a with DropConsumedRow n => Some n | _ => None end) acts.
Definition escalations (acts : list RescueAction) : list string :=
  omap (λ a, match a with Escalate m => Some m | _ => None end) acts.
Definition replacements (acts : list RescueAction) : list (Z * Z * option (Z * Z)) :=
  omap (λ a, match a with Replace n k f => Some (n, k, f) | _ => None end) acts.

Definition row_alert (now_ms : Z) (row : LedgerRow) : string :=
  stuck_alert (role row) (nonce row) (attempts row) (sat_sub now_ms (sent_at_ms row)).
Definition row_replacement (row : LedgerRow) : Z * Z * option (Z * Z) :=
  (nonce row, wrap32 (attempts row + 1), fees_wei row).

Definition by_nonce (x y : LedgerRow) : Prop := nonce x ≤ nonce y.
#[export] Instance by_nonce_dec : RelDecision by_nonce.
Proof. intros x y. unfold by_nonce. apply _. Defined.

(** ** Lemmas *)

Lemma insert_by_nonce_perm x l : insert_by_nonce x l ≡ₚ x :: l.
Proof.
  induction l as [|y l IH]; simpl; [done|]. zsplit; [done|].
  rewrite IH. apply Permutation_swap.
Qed.

Lemma sort_by_nonce_perm l : sort_by_nonce l ≡ₚ l.
Proof. induction l as [|x l IH]; simpl; [done|]. by rewrite insert_by_nonce_perm, IH. Qed.

Lemma insert_by_nonce_sorted x l :
  StronglySorted by_nonce l → StronglySorted by_nonce (insert_by_nonce x l).
Proof.
  induction 1 as [|y l Hs IH Hy]; simpl; [repeat constructor|].
  zsplit; unfold by_nonce in *.
  - repeat constructor; try done. eapply Forall_impl; [done|]. simpl. lia.
  - constructor; [done|]. rewrite insert_by_nonce_perm. constructor; [lia|done].
Qed.

Lemma sort_by_nonce_sorted l : StronglySorted by_nonce (sort_by_nonce l).
Proof. induction l as [|x l IH]; simpl; [constructor|]. by apply insert_by_nonce_sorted. Qed.

(** Rows with one nonce keep their ledger order. *)
Lemma insert_by_nonce_stable x l n :
  filter (λ r, nonce r = n) (insert_by_nonce x l) = filter (λ r, nonce r = n) (x :: l).
Proof.
  induction l as [|y l IH]; [done|]. cbn [insert_by_nonce]. zsplit; [done|].
  rewrite filter_cons, IH, !filter_cons. repeat case_decide; congruence || lia.
Qed.

Lemma sort_by_nonce_stable l n :
  filter (λ r, nonce r = n) (sort_by_nonce l) = filter (λ r, nonce r = n) l.
Proof.
  induction l as [|x l IH]; [done|]. cbn [sort_by_nonce foldr].
  rewrite insert_by_nonce_stable, !filter_cons. fold (sort_by_nonce l). by rewrite IH.
Qed.

Lemma sweep_rows_drops c now k rows :
  drops (sweep_rows c now k rows) = nonce <$> filter (λ r, nonce r < c) rows.
Proof.
  revert k. induction rows as [|r rows IH]; intros k; [done|].
  cbn [sweep_rows]. rewrite filter_cons.
  destruct (Z.ltb_spec (nonce r) c); case_decide; try lia; simpl.
  - unfold drops in *. simpl. by rewrite IH.
  - unfold drops in *. rewrite omap_app. repeat case_match; simpl; apply IH.
Qed.

Lemma sweep_rows_escalations c now k rows :
  escalations (sweep_rows c now k rows) =
    row_alert now <$> filter (λ r, ¬ nonce r < c ∧ needs_escalation now r) rows.
Proof.
  revert k. induction rows as [|r rows IH]; intros k; [done|].
  cbn [sweep_rows]. rewrite filter_cons. unfold escalations in *.
  destruct (Z.ltb_spec (nonce r) c); [case_decide; [lia|]; simpl; apply IH|].
  rewrite omap_app. destruct (MAX_UNSTICK_PER_CYCLE <=? k)%nat;
  destruct (Z.leb_spec UNSTICK_ALERT_ATTEMPTS (attempts r)), (Z.leb_spec UNSTICK_ALERT_AGE_MS
    (sat_sub now (sent_at_ms r))); simpl; case_decide as Hd; unfold needs_escalation in Hd;
    try lia; simpl; try (by f_equal; apply IH); apply IH.
Qed.

Lemma sweep_rows_replacements c now k rows :
  replacements (sweep_rows c now k rows) =
    take (MAX_UNSTICK_PER_CYCLE - k) (row_replacement <$> filter (λ r, ¬ nonce r < c) rows).
Proof.
  revert k. induction rows as [|r rows IH]; intros k; [by destruct (MAX_UNSTICK_PER_CYCLE - k)%nat|].
  cbn [sweep_rows]. rewrite filter_cons. unfold replacements in *.
  destruct (Z.ltb_spec (nonce r) c); case_decide; try lia; [apply IH|].
  rewrite omap_app.
  assert (He : ∀ b : bool, omap (λ a, match a with Replace n k f => Some (n, k, f) | _ => None end)
    (if b then [Escalate (stuck_alert (role r) (nonce r) (attempts r) (sat_sub now (sent_at_ms r)))]
     else []) = []) by by intros [].
  rewrite He. unfold MAX_UNSTICK_PER_CYCLE in *. destruct (Nat.leb_spec 5 k); simpl app.
  - etransitivity; [apply (IH k)|].
    replace (5 - k)%nat with 0%nat by lia. by rewrite !take_0.
  - replace (5 - k)%nat with (S (5 - S k)) by lia.
    cbn. f_equal. apply (IH (S k)).
Qed.

(** ** Properties *)

(** One sweep, completely: with [rows] the role's ledger rows in ascending
    nonce order (stable for equal nonces), the plan drops exactly the rows
    below the confirmed nonce, pages for exactly the remaining rows past the
    attempt or age threshold, and replaces exactly the first five remaining
    rows, each with its own recorded fees and one more attempt.  The row the
    wallet waits on (nonce = confirmed nonce) is replaced first, never
    dropped. *)
Theorem plan_role_sweep_spec role_ c ledger now :
  let rows := sort_by_nonce (filter (λ row, role row = role_) ledger) in
  let acts := plan_role_sweep role_ c ledger now in
  rows ≡ₚ filter (λ row, role row = role_) ledger ∧
  StronglySorted by_nonce rows ∧
  (∀ n, filter (λ r, nonce r = n) rows =
        filter (λ r, nonce r = n) (filter (λ row, role row = role_) ledger)) ∧
  drops acts = nonce <$> filter (λ r, nonce r < c) rows ∧
  escalations acts = row_alert now <$> filter (λ r, ¬ nonce r < c ∧ needs_escalation now r) rows ∧
  replacements acts = take 5 (row_replacement <$> filter (λ r, ¬ nonce r < c) rows).
Proof.
  intros rows acts. split_and!.
  - apply sort_by_nonce_perm.
  - apply sort_by_nonce_sorted.
  - intros n. apply sort_by_nonce_stable.
  - apply sweep_rows_drops.
  - apply sweep_rows_escalations.
  - apply sweep_rows_replacements.
Qed.
