(* ===== verification/Sentinel.v ===== *)
(** * Ops sentinel ([p256-registrar/src/sentinel.rs])

    Backoff, health verdict, alert policy, the funding runway and the
    heartbeat.  Durations are whole seconds (or milliseconds where the code
    converts); amounts are binary64 as in the code ([Float64]). *)
From S2P Require Export Float64.
From stdpp Require Import options.

Definition BACKOFF_BASE : Z := 5.
Definition BACKOFF_MAX : Z := 12 * 60 * 60.

(** [u64::saturating_pow]. *)
Definition sat_pow (mx a n : Z) : Z := Z.min mx (a ^ n).

Definition backoff_delay (retries : Z) : Z :=
  let exponent := Z.min (sat_sub retries 1) 32 in
  let scaled := sat_mul U64_MAX BACKOFF_BASE (sat_pow U64_MAX 3 exponent) in
  Z.min scaled BACKOFF_MAX.

Record QueueHealth := mkQueueHealth {
  depth : Z;
  dlq_count : Z;
  oldest_active_age_ms : Z;
}.

Definition HEALTH_QUEUE_DEPTH : Z := 2_000.
Definition HEALTH_DLQ_COUNT : Z := 25.
Definition HEALTH_OLDEST_JOB_MS : Z := 30 * 60_000.

Definition health_reasons (queue : QueueHealth) : list string :=
  (if HEALTH_QUEUE_DEPTH <=? depth queue then ["queue-depth"] else []) ++
  (if HEALTH_DLQ_COUNT <=? dlq_count queue then ["dlq"] else []) ++
  (if HEALTH_OLDEST_JOB_MS <=? oldest_active_age_ms queue then ["oldest-job"] else []).

Definition ALERT_THROTTLE : Z := 6 * 60 * 60.
Definition DLQ_ALERT_THRESHOLD : Z := 10.
Definition HEARTBEAT_INTERVAL : Z := 24 * 60 * 60.

Definition alert_due (last_fired_ms : option Z) (now_ms : Z) : bool :=
  match last_fired_ms with
  | Some at_ => ALERT_THROTTLE * 1_000 <=? sat_sub now_ms at_
  | None => true
  end.

Definition rpc_circuit_alert : string :=
  "⚠️ [webauthnp256-publickey-index] all chain RPC read endpoints are in cooldown (circuit open) — queries may be served stale.".

Definition dlq_alert (dlq_count : Z) : string :=
  "⚠️ [webauthnp256-publickey-index] DLQ has " +:+ fmt dlq_count
    +:+ " quarantined create(s) — inspect.".

(** ** The funding runway and the heartbeat *)

Definition EST_GAS_PER_CREATE : Z := 1_100_000.
Definition LOW_RUNWAY_CREATES : f64 := f64_of_Z 200.

Definition wei_to_xdai (wei : Z) : f64 := f64_div (f64_of_Z wei) (f64_of_Z (10 ^ 18)).
Definition wei_to_gwei (wei : Z) : f64 := f64_div (f64_of_Z wei) (f64_of_Z (10 ^ 9)).

Definition estimate_create_runway (balance_xdai gas_price_gwei : f64) : f64 :=
  if SpecFloat.SFleb gas_price_gwei (f64_of_Z 0) then f64_infinity else
  f64_floor (f64_div (f64_mul balance_xdai (f64_of_Z (10 ^ 9)))
    (f64_mul (f64_of_Z EST_GAS_PER_CREATE) gas_price_gwei)).

Definition low_runway_alert (runway balance_xdai gas_price_gwei : f64) : string :=
  "🪫 [webauthnp256-publickey-index] create wallet funding low: ~" +:+ fmt (f64_as_i64 runway)
    +:+ " creates left (" +:+ fmt_fixed 6 balance_xdai +:+ " xDAI @ " +:+ fmt_fixed 3 gas_price_gwei
    +:+ " gwei). Top up soon.".

Record HeartbeatInput := mkHeartbeatInput {
  hb_runtime : string;
  hb_queue_depth : Z;
  hb_dlq_count : Z;
  hb_wallet_address : string;
  hb_wallet_balance_xdai : f64;
  hb_gas_price_gwei : f64;
  hb_uptime_secs : Z;
  hb_release : option string;
}.

Definition newline : string := String (Ascii.ascii_of_nat 10) EmptyString.

Definition build_heartbeat_message (input : HeartbeatInput) : string :=
  let runway := estimate_create_runway (hb_wallet_balance_xdai input) (hb_gas_price_gwei input) in
  let runway_text := if f64_is_infinite runway then "∞" else "~" +:+ fmt (f64_as_i64 runway) in
  let up_hours := hb_uptime_secs input / 3_600 in
  let up_text := if 48 <=? up_hours then fmt (up_hours / 24) +:+ "d" else fmt up_hours +:+ "h" in
  let attention :=
    if 0 <? hb_dlq_count input
    then "⚠️ DLQ has " +:+ fmt (hb_dlq_count input) +:+ " item(s) — inspect when convenient" +:+ newline
    else "" in
  let release := match hb_release input with Some r => ", release " +:+ r | None => "" end in
  "💓 [webauthnp256-publickey-registry] [" +:+ hb_runtime input +:+ "] [Gnosis] daily heartbeat" +:+ newline
    +:+ attention
    +:+ "queue: " +:+ fmt (hb_queue_depth input) +:+ " active, " +:+ fmt (hb_dlq_count input) +:+ " DLQ" +:+ newline
    +:+ "wallet " +:+ hb_wallet_address input +:+ ": " +:+ fmt_fixed 6 (hb_wallet_balance_xdai input)
    +:+ " xDAI (" +:+ runway_text +:+ " registrations @ " +:+ fmt_fixed 3 (hb_gas_price_gwei input) +:+ " gwei)" +:+ newline
    +:+ "up " +:+ up_text +:+ release.

(** ** Lemmas *)

Lemma pow3_ge_clamp n : 32 ≤ n → BACKOFF_MAX ≤ 5 * 3 ^ n.
Proof.
  intros Hn. transitivity (5 * 3 ^ 32); [by vm_compute|].
  apply Z.mul_le_mono_nonneg_l; [lia|]. by apply Z.pow_le_mono_r.
Qed.

Lemma pow3_u64 n : n ≤ 32 → 5 * 3 ^ n ≤ U64_MAX.
Proof.
  intros Hn. transitivity (5 * 3 ^ 32); [|by vm_compute].
  apply Z.mul_le_mono_nonneg_l; [lia|]. by apply Z.pow_le_mono_r.
Qed.

Lemma backoff_delay_closed retries :
  0 ≤ retries → backoff_delay retries = Z.min (5 * 3 ^ Z.max 0 (retries - 1)) BACKOFF_MAX.
Proof.
  intros Hr. unfold backoff_delay, sat_mul, sat_pow, sat_sub, BACKOFF_BASE.
  set (e := Z.max 0 (retries - 1)).
  assert (Hc : 5 * 3 ^ Z.min e 32 ≤ U64_MAX) by (apply pow3_u64; lia).
  assert (0 < 3 ^ Z.min e 32) by (apply Z.pow_pos_nonneg; lia).
  rewrite (Z.min_r U64_MAX (3 ^ _)), (Z.min_r U64_MAX) by lia.
  destruct (Z.le_gt_cases e 32); [by rewrite (Z.min_l e 32) by lia|].
  rewrite (Z.min_r e 32) by lia.
  rewrite !Z.min_r; [done|apply pow3_ge_clamp; lia|apply pow3_ge_clamp; lia].
Qed.

(** ** Properties *)

(** The backoff schedule is [min(5 s * 3^(retries-1), 12 h)] for every
    retry counter: neither the exponent clamp nor the saturating arithmetic
    ever shows.  It starts at 5 s, never exceeds 12 h, never decreases, and
    has reached the cap from the tenth retry on. *)
Theorem backoff_delay_spec retries :
  0 ≤ retries →
  backoff_delay retries = Z.min (5 * 3 ^ Z.max 0 (retries - 1)) 43_200 ∧
  5 ≤ backoff_delay retries ≤ 43_200 ∧
  (∀ later, retries ≤ later → backoff_delay retries ≤ backoff_delay later) ∧
  (10 ≤ retries → backoff_delay retries = 43_200).
Proof.
  intros Hr. change 43_200 with BACKOFF_MAX.
  assert (Hmono : ∀ a b, 0 ≤ a ≤ b → 5 * 3 ^ a ≤ 5 * 3 ^ b).
  { intros a b ?. apply Z.mul_le_mono_nonneg_l; [lia|]. apply Z.pow_le_mono_r; lia. }
  split_and!.
  - by apply backoff_delay_closed.
  - rewrite backoff_delay_closed by done. apply Z.min_glb; [|by vm_compute].
    apply (Hmono 0). lia.
  - rewrite backoff_delay_closed by done. apply Z.le_min_r.
  - intros later ?. rewrite !backoff_delay_closed by lia.
    apply Z.min_le_compat_r, Hmono. lia.
  - intros ?. rewrite backoff_delay_closed by done. apply Z.min_r.
    transitivity (5 * 3 ^ 9); [by vm_compute|]. apply Hmono. lia.
Qed.

Lemma backoff_delay_spec_witness :
  backoff_delay 3 = 45 ∧ (10 ≤ 40 → backoff_delay 40 = 43_200).
Proof.
  split; [by vm_compute|]. apply (backoff_delay_spec 40). lia.
Defined.

(** The figures of the module's own tests. *)
Definition tenths (n : Z) : f64 := f64_div (f64_of_Z n) (f64_of_Z 10).

Example runway_multiplies_before_dividing :
  f64_as_i64 (estimate_create_runway (tenths 11) (f64_of_Z 1)) = 1000 ∧
  f64_as_i64 (estimate_create_runway (tenths 11) (f64_of_Z 10)) = 100 ∧
  f64_is_infinite (estimate_create_runway (tenths 11) (f64_of_Z 0)) = true.
Proof. vm_compute. done. Qed.

Example heartbeat_line :
  build_heartbeat_message (mkHeartbeatInput "Rust" 2 0 "0xAAA" (tenths 7) (f64_of_Z 1) (3 * 3_600)
    (Some "20260710-004026")) =
  "💓 [webauthnp256-publickey-registry] [Rust] [Gnosis] daily heartbeat" +:+ newline +:+
  "queue: 2 active, 0 DLQ" +:+ newline +:+
  "wallet 0xAAA: 0.700000 xDAI (~636 registrations @ 1.000 gwei)" +:+ newline +:+
  "up 3h, release 20260710-004026".
Proof. vm_compute. reflexivity. Qed.
