(* ===== verification/Submission.v ===== *)
(** * Submission ([p256-registrar/src/submission.rs])

    The decision half of the queue worker: one polled batch from envelope
    ids to a verdict.  An [unreachable!] of the source is an [Unreachable]
    stop here, so that its absence is a theorem. *)
From S2P Require Export Program Protocol.
From stdpp Require Import options.

Inductive FailureKind := PoisonFailure.

Definition as_store_class (k : FailureKind) : string :=
  match k with PoisonFailure => "POISON" end.

Inductive SubmissionOperation :=
| LoadTasks (ids : list string)
| CheckContentRegistered (content_hash : string)
| CheckReferenced (group_public_key member_public_key : string)
| SubmitRegister (task : RegisterTask)
| MarkDone (task_id : string) (tx_hash : option string) (on_chain_id : option Z)
| MarkFailed (task_id : string) (kind : FailureKind) (message : string)
| RecordTransientFailure (task_id message : string).

Inductive TxOutcome :=
| Confirmed (tx_hash : string) (on_chain_id : option Z)
| TxReverted (tx_hash : string)
| ReceiptUncertain (error : ChainError)
| SendFailed (error : ChainError)
| NoncePoolUnavailable.

Inductive SubmissionResult :=
| TasksLoaded (tasks : list (option RegisterTask))
| ContentChecked (registered : bool)
| Tx (o : TxOutcome)
| Persisted
| StoreUnavailable
| ChainReadFailed.

Inductive BatchVerdict :=
| Advance
| Retry (reason : string).

Inductive SubmissionEvent :=
| Start (envelope_ids : list string)
| Settled (verdict : BatchVerdict).

(** How a flow stops early: with a verdict, or in an [unreachable!]. *)
Inductive Stop :=
| StopWith (v : BatchVerdict)
| Unreachable (message : string).

Definition SProg : Type → Type := Prog SubmissionOperation SubmissionResult.
Definition SFlow (A : Type) : Type := SProg (result A Stop).

Definition retry (reason : string) : Stop := StopWith (Retry reason).

Inductive ContentState := Registered | Absent | Unencodable.

Section submission.
Context `{C : Crates}.

Definition persist (op : SubmissionOperation) (fail_reason : string) : SFlow unit :=
  await r := op in
  match r with
  | Persisted => Ret (Ok ())
  | StoreUnavailable => Ret (Err (retry fail_reason))
  | _ => Ret (Err (retry "unexpected shell result for a persistence operation"))
  end.

(** The task's own "is my write on-chain?" operation, when it has one. *)
Definition check_op (task : RegisterTask) : option SubmissionOperation :=
  match kind task with
  | Register =>
      match content_hash_for task with
      | Ok content_hash => Some (CheckContentRegistered (fmt_b256 content_hash))
      | Err _ => None
      end
  | Refer =>
      match members task with
      | member :: _ => Some (CheckReferenced (group_public_key task) (public_key member))
      | [] => None
      end
  end.

Definition check_content (task : RegisterTask) : SFlow ContentState :=
  match check_op task with
  | None => Ret (Ok Unencodable)
  | Some operation =>
      await r := operation in
      match r with
      | ContentChecked true => Ret (Ok Registered)
      | ContentChecked false => Ret (Ok Absent)
      | ChainReadFailed =>
          call u := persist (RecordTransientFailure (task_id task)
            "chain reconciliation RPC temporarily unavailable") "could not persist task retry" in
          Ret (Err (retry "chain reconciliation failed"))
      | _ => Ret (Err (retry "unexpected shell result for a reconciliation check"))
      end
  end.

Definition mark_done (task : RegisterTask) (tx_hash : option string) (on_chain_id : option Z)
    : SFlow unit :=
  persist (MarkDone (task_id task) tx_hash on_chain_id) "could not persist done task".

Definition mark_poison (task : RegisterTask) (message fail_reason : string) : SFlow unit :=
  persist (MarkFailed (task_id task) PoisonFailure message) fail_reason.

Definition submit (task : RegisterTask) : SFlow TxOutcome :=
  await r := SubmitRegister task in
  match r with
  | Tx NoncePoolUnavailable => Ret (Err (retry "could not acquire pending chain nonce"))
  | Tx other => Ret (Ok other)
  | _ => Ret (Err (retry "unexpected shell result for a chain write"))
  end.

Definition classify_task (task : RegisterTask) (error : ChainError) : SFlow unit :=
  let message := "register: " +:+ chain_error_display error in
  match classify_chain_error error with
  | AlreadyExists =>
      call st := check_content task in
      match st with
      | Registered => mark_done task (tx_hash task) None
      | Absent | Unencodable => mark_poison task message "could not persist poison task"
      end
  | Transient =>
      persist (RecordTransientFailure (task_id task) message) "could not persist task retry"
  | Poison => mark_poison task message "could not persist poison task"
  end.

(** The two arms [submit_stage] and [register_reverted] share. *)
Definition receipt_uncertain (task : RegisterTask) (error : ChainError) : SFlow unit :=
  call u := classify_task task error in
  Ret (Err (retry "register receipt wait failed")).

Definition send_failed (task : RegisterTask) (error : ChainError) : SFlow unit :=
  call u := classify_task task error in
  match classify_chain_error error with
  | Transient => Ret (Err (retry "register temporarily failed"))
  | _ => Ret (Ok ())
  end.

Definition register_reverted (task : RegisterTask) : SFlow unit :=
  call st := check_content task in
  match st with
  | Registered => mark_done task (tx_hash task) None
  | Unencodable => Ret (Err (Unreachable "encodability was checked before submitting"))
  | Absent =>
      call o := submit task in
      match o with
      | Confirmed tx_hash on_chain_id => mark_done task (Some tx_hash) on_chain_id
      | TxReverted _ =>
          mark_poison task "register transaction reverted" "could not persist failed task"
      | ReceiptUncertain error => receipt_uncertain task error
      | SendFailed error => send_failed task error
      | NoncePoolUnavailable => Ret (Err (Unreachable "filtered by submit"))
      end
  end.

Definition submit_stage (task : RegisterTask) : SFlow unit :=
  call o := submit task in
  match o with
  | Confirmed tx_hash on_chain_id => mark_done task (Some tx_hash) on_chain_id
  | TxReverted _ => register_reverted task
  | ReceiptUncertain error => receipt_uncertain task error
  | SendFailed error => send_failed task error
  | NoncePoolUnavailable => Ret (Err (Unreachable "filtered by submit"))
  end.

(** [loaded.into_iter().flatten()], keeping the first live record per id. *)
Fixpoint canonical_tasks (seen : list string) (loaded : list (option RegisterTask))
    : list RegisterTask :=
  match loaded with
  | [] => []
  | None :: loaded => canonical_tasks seen loaded
  | Some task :: loaded =>
      if negb (is_terminal (status task)) && bool_decide (task_id task ∉ seen)
      then task :: canonical_tasks (task_id task :: seen) loaded
      else canonical_tasks seen loaded
  end.

Definition process_task (task : RegisterTask) : SFlow unit :=
  call st := check_content task in
  match st with
  | Registered => mark_done task (tx_hash task) None
  | Absent => submit_stage task
  | Unencodable =>
      mark_poison task "stored register task cannot be encoded" "could not persist poison task"
  end.

Fixpoint process_tasks (tasks : list RegisterTask) : SFlow unit :=
  match tasks with
  | [] => Ret (Ok ())
  | task :: tasks => call u := process_task task in process_tasks tasks
  end.

Definition drive_batch (envelope_ids : list string) : SFlow BatchVerdict :=
  match envelope_ids with
  | [] => Ret (Ok Advance)
  | _ =>
      await r := LoadTasks envelope_ids in
      match r with
      | TasksLoaded loaded =>
          call u := process_tasks (canonical_tasks [] loaded) in Ret (Ok Advance)
      | StoreUnavailable => Ret (Err (retry "could not load Redis register task"))
      | _ => Ret (Err (retry "unexpected shell result for LoadTasks"))
      end
  end.

(** [update]: a [Start] runs the batch and settles on its verdict. *)
Definition settle_batch (m : result BatchVerdict Stop) : option BatchVerdict :=
  match m with Ok v => Some v | Err (StopWith v) => Some v | Err (Unreachable _) => None end.

(** ** The monitor of a batch *)

Abbreviation strace := (trace SubmissionOperation SubmissionResult).

(** The tasks a trace settled (durably), in order. *)
Definition settled1 (e : SubmissionOperation * SubmissionResult) : option string :=
  match e with
  | (MarkDone id _ _, Persisted) => Some id
  | (MarkFailed id _ _, Persisted) => Some id
  | _ => None
  end.
Definition settled (t : strace) : list string := omap settled1 t.

Definition transients (t : strace) : list string :=
  omap (λ e, match e.1 with RecordTransientFailure id _ => Some id | _ => None end) t.

Definition broadcasts (t : strace) : list RegisterTask :=
  omap (λ e, match e.1 with SubmitRegister x => Some x | _ => None end) t.

(** The last event was [x]'s own on-chain check with this answer. *)
Definition just_checked (x : RegisterTask) (registered : bool) (pre : strace) : Prop :=
  ∃ pre' op, check_op x = Some op ∧ pre = pre' ++ [(op, ContentChecked registered)].

Definition just_sent (x : RegisterTask) (o : TxOutcome) (pre : strace) : Prop :=
  ∃ pre', pre = pre' ++ [(SubmitRegister x, Tx o)].

(** A send of [x] reverted, the chain then denied its content, and the one
    resend, the last event, reverted too. *)
Definition just_resent (x : RegisterTask) (pre : strace) : Prop :=
  ∃ pre' op h h', check_op x = Some op ∧
    pre = pre' ++ [(SubmitRegister x, Tx (TxReverted h)); (op, ContentChecked false);
                   (SubmitRegister x, Tx (TxReverted h'))].

Definition write_error (o : TxOutcome) (e : ChainError) : Prop :=
  o = SendFailed e ∨ o = ReceiptUncertain e.

Definition why_failed (x : RegisterTask) (pre : strace) : Prop :=
  check_op x = None ∨
  just_resent x pre ∨
  (∃ o e, write_error o e ∧ just_sent x o pre ∧ classify_chain_error e = Poison) ∨
  (∃ o e pre' op, write_error o e ∧ just_sent x o pre' ∧ classify_chain_error e = AlreadyExists ∧
     check_op x = Some op ∧ pre = pre' ++ [(op, ContentChecked false)]).

Definition s_allowed (tasks : list RegisterTask) (pre : strace)
    (e : SubmissionOperation * SubmissionResult) : Prop :=
  match e.1 with
  | SubmitRegister x => x ∈ tasks ∧ just_checked x false pre
  | MarkDone id h n => ∃ x, x ∈ tasks ∧ id = task_id x ∧
      (just_checked x true pre ∧ h = tx_hash x ∧ n = None ∨
       ∃ h', just_sent x (Confirmed h' n) pre ∧ h = Some h')
  | MarkFailed id _ _ => ∃ x, x ∈ tasks ∧ id = task_id x ∧ why_failed x pre
  | _ => True
  end.
End submission.

Section batch.
Context `{C : Crates} (tasks : list RegisterTask).

Abbreviation strace := (trace SubmissionOperation SubmissionResult).
Abbreviation Q := (s_allowed tasks).

(** What handling the task [x] adds to a trace: at most [n] operations, at
    most [k] broadcasts, all of [x]; a success settles exactly [x] and
    records no transient failure; a stop is a [Retry] that settles at most
    [x]. *)
Definition handled (x : RegisterTask) (n k : nat) (pre t : strace) (m : result unit Stop) : Prop :=
  ∃ ext, t = pre ++ ext ∧ (length ext ≤ n)%nat ∧
    (length (broadcasts ext) ≤ k)%nat ∧ Forall (λ y, y = x) (broadcasts ext) ∧
    match m with
    | Ok _ => settled ext = [task_id x] ∧ transients ext = []
    | Err (StopWith (Retry _)) => settled ext = [] ∨ settled ext = [task_id x]
    | Err _ => False
    end.

Lemma settled_app (t1 t2 : strace) : settled (t1 ++ t2) = settled t1 ++ settled t2.
Proof. apply omap_app. Qed.
Lemma transients_app (t1 t2 : strace) : transients (t1 ++ t2) = transients t1 ++ transients t2.
Proof. apply omap_app. Qed.
Lemma broadcasts_app (t1 t2 : strace) : broadcasts (t1 ++ t2) = broadcasts t1 ++ broadcasts t2.
Proof. apply omap_app. Qed.

(** A stretch of the trace that settles and records nothing. *)
Definition silent (x : RegisterTask) (n k : nat) (ext : strace) : Prop :=
  (length ext ≤ n)%nat ∧ (length (broadcasts ext) ≤ k)%nat ∧
  Forall (λ y, y = x) (broadcasts ext) ∧ settled ext = [] ∧ transients ext = [].

Lemma handled_after x n k n' k' pre ext t m :
  silent x n' k' ext → handled x n k (pre ++ ext) t m → handled x (n' + n) (k' + k) pre t m.
Proof.
  intros (Hn & Hk & Hb & Hs & Htr) (ext' & -> & ? & ? & ? & Hm).
  exists (ext ++ ext'). rewrite <-app_assoc. split; [done|].
  rewrite length_app, broadcasts_app, length_app. split; [lia|]. split; [lia|].
  split; [by apply Forall_app|]. by rewrite settled_app, transients_app, Hs, Htr.
Qed.

Lemma wpm_after x n k n' k' pre ext p :
  silent x n' k' ext → wpm Q (handled x n k (pre ++ ext)) (pre ++ ext) p →
  wpm Q (handled x (n' + n) (k' + k) pre) (pre ++ ext) p.
Proof. intros Hs. apply wpm_mono. intros t m. by apply handled_after. Qed.

Lemma handled_retry x n k pre ext reason :
  (length ext ≤ n)%nat → broadcasts ext = [] → settled ext = [] →
  handled x n k pre (pre ++ ext) (Err (retry reason)).
Proof.
  intros Hn Hb Hs. exists ext. split; [done|]. rewrite Hb. split_and!; [done|simpl; lia|by constructor|].
  by left.
Qed.

Lemma wpm_settle x pre op reason :
  (∀ r, Q pre (op, r)) → (∀ r, settled1 (op, r) = match r with Persisted => Some (task_id x) | _ => None end) →
  (∀ r, broadcasts [(op, r)] = [] ∧ transients [(op, r)] = []) →
  wpm Q (handled x 1 0 pre) pre (persist op reason).
Proof.
  intros HQ Hs Hb. unfold persist. apply wpm_req; [done|intros r].
  assert (Hset : settled [(op, r)] = match r with Persisted => [task_id x] | _ => [] end).
  { change (settled [(op, r)]) with
      (match settled1 (op, r) with Some y => [y] | None => [] end).
    rewrite Hs. by destruct r. }
  destruct (Hb r) as [Hb1 Hb2].
  destruct r; apply wpm_ret; try (apply handled_retry; done).
  eexists. split; [done|]. rewrite Hb1. split_and!; [simpl; lia..|by constructor|done|done].
Qed.

Lemma wpm_mark_done x pre h n :
  x ∈ tasks →
  (just_checked x true pre ∧ h = tx_hash x ∧ n = None ∨
   ∃ h', just_sent x (Confirmed h' n) pre ∧ h = Some h') →
  wpm Q (handled x 1 0 pre) pre (mark_done x h n).
Proof. intros Hx Hw. apply wpm_settle; [by exists x|intros []; done|done]. Qed.

Lemma wpm_mark_poison x pre msg reason :
  x ∈ tasks → why_failed x pre → wpm Q (handled x 1 0 pre) pre (mark_poison x msg reason).
Proof. intros Hx Hw. apply wpm_settle; [by exists x|intros []; done|done]. Qed.

(** A check either answers (one event) or stops with a retry. *)
Lemma wpm_check x pre n k :
  (2 ≤ n)%nat →
  wpm Q (λ t m, match m with
    | Ok Unencodable => t = pre ∧ check_op x = None
    | Ok Registered => ∃ op, check_op x = Some op ∧ t = pre ++ [(op, ContentChecked true)]
    | Ok Absent => ∃ op, check_op x = Some op ∧ t = pre ++ [(op, ContentChecked false)]
    | Err e => handled x n k pre t (Err e)
    end) pre (check_content x).
Proof.
  intros Hn. unfold check_content. destruct (check_op x) as [op|] eqn:Hop; [|by apply wpm_ret].
  assert (Hshape : (∃ h, op = CheckContentRegistered h) ∨ (∃ g m, op = CheckReferenced g m)).
  { unfold check_op in Hop. destruct (kind x); repeat case_match; simplify_eq; eauto. }
  assert (HQ : ∀ r, Q pre (op, r)) by (destruct Hshape as [[? ->]|[? [? ->]]]; done).
  assert (Hq : ∀ r, broadcasts [(op, r)] = [] ∧ settled [(op, r)] = [])
    by (destruct Hshape as [[? ->]|[? [? ->]]]; done).
  apply wpm_req; [done|intros r]. destruct (Hq r) as [Hb Hs].
  destruct r as [|[]| | | |]; try (apply wpm_ret, handled_retry; [simpl; lia|done|done]);
    try (apply wpm_ret; by exists op).
  unfold fbind, persist. cbn [pbind]. apply wpm_req; [done|intros r]. rewrite <-app_assoc.
  destruct r; cbn [pbind]; apply wpm_ret; apply handled_retry; simpl; try lia;
    unfold broadcasts, settled in *; simpl in *; destruct Hshape as [[? ->]|[? [? ->]]]; done.
Qed.

Lemma check_silent x op b : check_op x = Some op → silent x 1 0 [(op, ContentChecked b)].
Proof.
  unfold check_op. intros Hop. destruct (kind x); repeat case_match; simplify_eq;
    (split_and!; [simpl; lia..|constructor|done|done]).
Qed.

Lemma sent_silent x o : silent x 1 1 [(SubmitRegister x, Tx o)].
Proof. split_and!; [simpl; lia..|by repeat constructor|done|done]. Qed.

(** Classifying a failed write: a transient error is recorded and leaves
    the task open, any other settles it. *)
Lemma wpm_classify x pre o e :
  x ∈ tasks → write_error o e → just_sent x o pre →
  wpm Q (λ t m, match m with
    | Ok _ => match classify_chain_error e with
        | Transient => ∃ msg, t = pre ++ [(RecordTransientFailure (task_id x) msg, Persisted)]
        | _ => handled x 2 0 pre t (Ok ()) end
    | Err s => handled x 2 0 pre t (Err s)
    end) pre (classify_task x e).
Proof.
  intros Hx Ho Hsent. unfold classify_task. destruct (classify_chain_error e) eqn:Hc.
  - unfold fbind. eapply wpm_bind; [apply (wpm_check x pre 2 0); lia|].
    assert (Hwk : ∀ pre' p, wpm Q (handled x 2 0 pre) pre' p →
      wpm Q (λ t m, match m with Ok _ => handled x 2 0 pre t (Ok ())
                    | Err s => handled x 2 0 pre t (Err s) end) pre' p).
    { intros pre' p. apply wpm_mono. intros t [[]|]; done. }
    intros pre' [[]|s] H; simpl in H.
    + destruct H as (op & Hop & ->). apply Hwk, (wpm_after x 1 0 1 0); [by apply check_silent|].
      apply wpm_mark_done; [done|]. left. split; [|done]. by exists pre, op.
    + destruct H as (op & Hop & ->). apply Hwk, (wpm_after x 1 0 1 0); [by apply check_silent|].
      apply wpm_mark_poison; [done|]. right; right; right. by exists o, e, pre, op.
    + destruct H as [-> Hop]. apply Hwk. rewrite <-(app_nil_r pre) at 2.
      apply (wpm_after x 1 0 1 0); [by split_and!; simpl; try lia|]. rewrite app_nil_r.
      apply wpm_mark_poison; [done|]. by left.
    + by apply wpm_ret.
  - unfold persist. apply wpm_req; [done|intros r].
    destruct r; apply wpm_ret; try (apply handled_retry; [simpl; lia|done|done]). by eexists.
  - eapply wpm_mono; [|apply wpm_mark_poison; [done|]].
    + intros t [[]|s] (ext & ? & ? & ?); exists ext; destruct_and?; split_and!; try done; lia.
    + right; right; left. eauto.
Qed.

Lemma handled_transient x pre msg reason :
  handled x 2 0 pre (pre ++ [(RecordTransientFailure (task_id x) msg, Persisted)])
    (Err (retry reason)).
Proof. apply handled_retry; [simpl; lia|done|done]. Qed.

Lemma handled_ok_retry x n k pre t reason :
  handled x n k pre t (Ok ()) → handled x n k pre t (Err (retry reason)).
Proof. intros (ext & ? & ? & ? & ? & ? & _). exists ext. split_and!; try done. by right. Qed.

Lemma wpm_receipt_uncertain x pre e :
  x ∈ tasks → just_sent x (ReceiptUncertain e) pre →
  wpm Q (handled x 2 0 pre) pre (receipt_uncertain x e).
Proof.
  intros Hx Hs. unfold receipt_uncertain, fbind.
  eapply wpm_bind; [by eapply wpm_classify; [|right|]|]. intros pre' [[]|s] H; simpl in H.
  - apply wpm_ret. destruct (classify_chain_error e); try by apply handled_ok_retry.
    destruct H as [msg ->]. apply handled_transient.
  - by apply wpm_ret.
Qed.

Lemma wpm_send_failed x pre e :
  x ∈ tasks → just_sent x (SendFailed e) pre → wpm Q (handled x 2 0 pre) pre (send_failed x e).
Proof.
  intros Hx Hs. unfold send_failed, fbind.
  eapply wpm_bind; [by eapply wpm_classify; [|left|]|]. intros pre' [[]|s] H; simpl in H.
  - destruct (classify_chain_error e); apply wpm_ret; try done.
    destruct H as [msg ->]. apply handled_transient.
  - by apply wpm_ret.
Qed.

(** Submitting: one broadcast, then its outcome's handler. *)
Lemma wpm_submit x pre n k (f : TxOutcome → SFlow unit) :
  x ∈ tasks → just_checked x false pre →
  (∀ o, o ≠ NoncePoolUnavailable →
    wpm Q (handled x n k (pre ++ [(SubmitRegister x, Tx o)]))
      (pre ++ [(SubmitRegister x, Tx o)]) (f o)) →
  wpm Q (handled x (1 + n) (1 + k) pre) pre (call o := submit x in f o).
Proof.
  intros Hx Hck Hf. unfold submit, fbind. cbn [pbind]. apply wpm_req; [done|intros r].
  assert (Hstop : ∀ reason, handled x (1 + n) (1 + k) pre (pre ++ [(SubmitRegister x, r)])
    (Err (retry reason))).
  { intros reason. eexists. split; [done|]. split_and!; [simpl; lia|simpl; lia|by repeat constructor|].
    left. done. }
  destruct r as [| |o| | |]; try (apply wpm_ret; apply Hstop).
  destruct o; cbn [pbind]; try (apply wpm_ret; apply Hstop);
    (apply wpm_after; [apply sent_silent|by apply Hf]).
Qed.

Lemma wpm_widen x n k n' k' pre pre' p :
  (n ≤ n')%nat → (k ≤ k')%nat → wpm Q (handled x n k pre) pre' p → wpm Q (handled x n' k' pre) pre' p.
Proof.
  intros Hn Hk. apply wpm_mono. intros t m (ext & ? & ? & ? & ? & ?).
  exists ext. split_and!; try done; lia.
Qed.

Lemma wpm_reverted x pre h :
  x ∈ tasks → just_sent x (TxReverted h) pre → check_op x ≠ None →
  wpm Q (handled x 4 1 pre) pre (register_reverted x).
Proof.
  intros Hx Hs Hop. unfold register_reverted, fbind at 1.
  eapply wpm_bind; [apply (wpm_check x pre 4 1); lia|]. intros pre' [[]|s] H; simpl in H.
  - destruct H as (op & Hc & ->). apply (wpm_after x 3 1 1 0); [by apply check_silent|].
    eapply (wpm_widen _ 1 0); [lia..|]. apply wpm_mark_done; [done|]. left. split; [|done].
    by exists pre, op.
  - destruct H as (op & Hc & ->). apply (wpm_after x 3 1 1 0); [by apply check_silent|].
    apply (wpm_submit _ _ 2 0); [done|by exists pre, op|]. intros o Ho.
    destruct o as [h' i|h'|e|e|]; [| | | |done].
    + eapply (wpm_widen _ 1 0); [lia..|]. apply wpm_mark_done; [done|]. right. exists h'.
      split; [by eexists|done].
    + eapply (wpm_widen _ 1 0); [lia..|]. apply wpm_mark_poison; [done|]. right; left.
      destruct Hs as [pre0 ->]. exists pre0, op, h, h'. by rewrite <-!app_assoc.
    + apply wpm_receipt_uncertain; [done|by eexists].
    + apply wpm_send_failed; [done|by eexists].
  - by destruct H.
  - by apply wpm_ret.
Qed.

Lemma wpm_submit_stage x pre :
  x ∈ tasks → just_checked x false pre → wpm Q (handled x 5 2 pre) pre (submit_stage x).
Proof.
  intros Hx Hck. apply (wpm_submit _ _ 4 1); [done..|]. intros o Ho.
  destruct o as [h' i|h'|e|e|]; [| | | |done].
  - eapply (wpm_widen _ 1 0); [lia..|]. apply wpm_mark_done; [done|]. right. exists h'.
    split; [by eexists|done].
  - eapply wpm_reverted; [done|by eexists|]. destruct Hck as (? & op & Hop & _). by rewrite Hop.
  - eapply (wpm_widen _ 2 0); [lia..|]. apply wpm_receipt_uncertain; [done|by eexists].
  - eapply (wpm_widen _ 2 0); [lia..|]. apply wpm_send_failed; [done|by eexists].
Qed.

Lemma wpm_process_task x pre :
  x ∈ tasks → wpm Q (handled x 6 2 pre) pre (process_task x).
Proof.
  intros Hx. unfold process_task, fbind at 1.
  eapply wpm_bind; [apply (wpm_check x pre 6 2); lia|]. intros pre' [[]|s] H; simpl in H.
  - destruct H as (op & Hc & ->). apply (wpm_after x 5 2 1 0); [by apply check_silent|].
    eapply (wpm_widen _ 1 0); [lia..|]. apply wpm_mark_done; [done|]. left. split; [|done].
    by exists pre, op.
  - destruct H as (op & Hc & ->). apply (wpm_after x 5 2 1 0); [by apply check_silent|].
    apply wpm_submit_stage; [done|]. by exists pre, op.
  - destruct H as [-> Hc]. eapply (wpm_widen _ 1 0); [lia..|].
    apply wpm_mark_poison; [done|]. by left.
  - by apply wpm_ret.
Qed.

(** Handling the tasks [xs] in order. *)
Definition batch_handled (xs : list RegisterTask) (pre t : strace) (m : result unit Stop) : Prop :=
  ∃ ext, t = pre ++ ext ∧ (length ext ≤ 6 * length xs)%nat ∧
    (∀ id, (length (filter (λ y, task_id y = id) (broadcasts ext)) ≤
            2 * length (filter (λ y, task_id y = id) xs))%nat) ∧
    match m with
    | Ok _ => settled ext = task_id <$> xs ∧ transients ext = []
    | Err (StopWith (Retry _)) => settled ext `prefix_of` (task_id <$> xs)
    | Err _ => False
    end.

Lemma broadcasts_of x id n ext :
  (length (broadcasts ext) ≤ n)%nat → Forall (λ y, y = x) (broadcasts ext) →
  (length (filter (λ y, task_id y = id) (broadcasts ext)) ≤
     n * length (filter (λ y, task_id y = id) [x]))%nat.
Proof.
  intros Hn Hx. rewrite filter_cons, filter_nil. case_decide as Hd; simpl.
  - pose proof (length_filter (λ y, task_id y = id) (broadcasts ext)). lia.
  - enough (filter (λ y, task_id y = id) (broadcasts ext) = []) as -> by (simpl; lia).
    clear Hn. induction Hx as [|y l -> _ IH]; [done|]. rewrite filter_cons. by case_decide.
Qed.

Lemma wpm_process_tasks xs pre :
  (∀ x, x ∈ xs → x ∈ tasks) → wpm Q (batch_handled xs pre) pre (process_tasks xs).
Proof.
  revert pre. induction xs as [|x xs IH]; intros pre Hin; simpl.
  { apply wpm_ret. exists []. rewrite app_nil_r. split_and!; [done|simpl; lia|simpl; lia|done|done]. }
  unfold fbind. eapply wpm_bind; [apply wpm_process_task; set_solver|].
  intros pre' [[]|s] (ext & -> & Hn & Hk & Hb & Hm).
  - eapply wpm_mono; [|apply IH; set_solver].
    intros t m (ext' & -> & Hn' & Hb' & Hm'). destruct Hm as [Hs Ht].
    exists (ext ++ ext'). rewrite app_assoc, length_app. split_and!; [done|simpl; lia| |].
    + intros id. specialize (Hb' id). pose proof (broadcasts_of x id 2 ext Hk Hb).
      change (x :: xs) with ([x] ++ xs).
      rewrite broadcasts_app, !filter_app, !length_app. lia.
    + rewrite settled_app, transients_app, Hs, Ht. destruct m as [[]|[[]|]]; try done.
      * destruct Hm' as [-> ->]. done.
      * by apply prefix_cons.
  - apply wpm_ret. exists ext. split_and!; [done|simpl; lia| |].
    + intros id. pose proof (broadcasts_of x id 2 ext Hk Hb). change (x :: xs) with ([x] ++ xs).
      rewrite filter_app, length_app. lia.
    + destruct s as [[]|]; try done. destruct Hm as [->| ->]; [apply prefix_nil|].
      apply prefix_cons, prefix_nil.
Qed.
End batch.

Section properties.
Context `{C : Crates}.

Lemma canonical_tasks_spec seen loaded :
  (∀ x, x ∈ canonical_tasks seen loaded → Some x ∈ loaded ∧ status x = Pending ∧ task_id x ∉ seen) ∧
  NoDup (task_id <$> canonical_tasks seen loaded) ∧
  (∀ x, Some x ∈ loaded → status x = Pending →
    task_id x ∈ seen ∨ task_id x ∈ task_id <$> canonical_tasks seen loaded).
Proof.
  revert seen. induction loaded as [|[y|] loaded IH]; intros seen; simpl.
  - split_and!; [set_solver|constructor|set_solver].
  - assert (Ht : is_terminal (status y) = false ↔ status y = Pending) by (by destruct (status y)).
    destruct (is_terminal (status y)); simpl.
    { destruct (IH seen) as (H1 & H2 & H3). split_and!; [|done|].
      - intros x Hx. specialize (H1 x Hx). set_solver.
      - intros x [[= ->]|Hx]%elem_of_cons Hp; [|auto]. by apply Ht in Hp. }
    pose proof (proj1 Ht eq_refl) as Hy.
    case_bool_decide as Hs.
    + destruct (IH (task_id y :: seen)) as (H1 & H2 & H3). split_and!.
      * intros x [->|Hx]%elem_of_cons; [set_solver|]. specialize (H1 x Hx). set_solver.
      * rewrite fmap_cons. apply NoDup_cons. split; [|done].
        intros (x & He & Hx)%list_elem_of_fmap. apply H1 in Hx. set_solver.
      * intros x [[= ->]|Hx]%elem_of_cons Hp; [set_solver|]. specialize (H3 x Hx Hp). set_solver.
    + destruct (IH seen) as (H1 & H2 & H3). split_and!; [|done|].
      * intros x Hx. specialize (H1 x Hx). set_solver.
      * intros x [[= ->]|Hx]%elem_of_cons Hp; [|auto]. destruct (decide (task_id y ∈ seen)); tauto.
  - destruct (IH seen) as (H1 & H2 & H3). split_and!; [|done|].
    + intros x Hx. specialize (H1 x Hx). set_solver.
    + intros x [?|Hx]%elem_of_cons Hp; [done|auto].
Qed.

(** An execution of a batch loads the records, then handles the live ones
    in order. *)
Lemma drive_batch_exec ids t m :
  exec (drive_batch ids) t m →
  (t = [] ∧ m = Ok Advance ∧ ids = []) ∨
  (∃ r reason, t = [(LoadTasks ids, r)] ∧ m = Err (retry reason)) ∨
  (∃ loaded t' m', t = (LoadTasks ids, TasksLoaded loaded) :: t' ∧
    exec (process_tasks (canonical_tasks [] loaded)) t' m' ∧
    m = match m' with Ok _ => Ok Advance | Err s => Err s end).
Proof.
  unfold drive_batch. destruct ids as [|i ids]; intros He; [left; by inversion He|right].
  inversion He as [|op k r t' m' He' ]; subst; clear He.
  destruct r; try (left; inversion He'; subst; by eexists _, _).
  right. unfold fbind in He'. apply exec_bind in He' as (t1 & t2 & m' & -> & H1 & H2).
  exists tasks, t1, m'. destruct m'; inversion H2; subst; by rewrite app_nil_r.
Qed.

Lemma process_exec loaded t m :
  exec (process_tasks (canonical_tasks [] loaded)) t m →
  (∀ pre e post, t = pre ++ e :: post → s_allowed (canonical_tasks [] loaded) pre e) ∧
  batch_handled (canonical_tasks [] loaded) [] t m.
Proof.
  intros He. apply (wpm_exec _ _ _ _ _ (wpm_process_tasks (canonical_tasks [] loaded)
    (canonical_tasks [] loaded) [] (λ x H, H)) He).
Qed.

(** A batch never stops early with [Advance]. *)
Lemma stop_is_retry ids t : ¬ exec (drive_batch ids) t (Err (StopWith Advance)).
Proof.
  intros [(_&?&_)|[(r&reason&_&?)|(loaded&t'&m'&_&He&Hm)]]%drive_batch_exec; [done..|].
  apply process_exec in He as [_ (ext & _ & _ & _ & H)]. by destruct m' as [|[[]|]]; simplify_eq.
Qed.

Lemma NoDup_filter_id (xs : list RegisterTask) id :
  NoDup (task_id <$> xs) → (length (filter (λ y, task_id y = id) xs) ≤ 1)%nat.
Proof.
  induction xs as [|x xs IH]; [simpl; lia|]. rewrite fmap_cons, filter_cons. intros [Hx Hnd]%NoDup_cons.
  case_decide as Hd; [|by apply IH]. simpl.
  enough (filter (λ y, task_id y = id) xs = []) as -> by (simpl; lia).
  apply elem_of_nil_inv. intros y [Hy Hin]%list_elem_of_filter. apply Hx.
  rewrite Hd, <-Hy. by apply list_elem_of_fmap_2.
Qed.

(** C13. A transaction is broadcast only for a live task that is not
    on-chain: in every execution, whatever the shell answers, each
    [SubmitRegister] is for a loaded, pending task and directly follows
    that task's own on-chain check answering "absent"; and no task is
    broadcast more than twice in a batch. *)
Theorem submit_only_after_check ids t m :
  exec (drive_batch ids) t m →
  (∀ pre x r post, t = pre ++ (SubmitRegister x, r) :: post →
     status x = Pending ∧ just_checked x false pre ∧
     ∃ loaded, (LoadTasks ids, TasksLoaded loaded) ∈ pre ∧ Some x ∈ loaded) ∧
  (∀ id, (length (filter (λ y, task_id y = id) (broadcasts t)) ≤ 2)%nat).
Proof.
  intros [(->&_)|[(r&reason&->&_)|(loaded&t'&m'&->&He&_)]]%drive_batch_exec.
  - split; [by intros []|simpl; lia].
  - split; [by intros [|?[]]|simpl; lia].
  - apply process_exec in He as [HQ (ext & -> & _ & Hb & _)]. simpl in HQ, Hb.
    destruct (canonical_tasks_spec [] loaded) as (Hin & Hnd & _). split.
    + intros [|e pre] x r post [= <- Ht].
      destruct (HQ pre _ post Ht) as [Hx Hck]. apply Hin in Hx as (Hx & Hp & _).
      split_and!; [done| |exists loaded; set_solver].
      destruct Hck as (pre' & op & Hop & ->). by eexists (_ :: pre'), op.
    + intros id. specialize (Hb id). pose proof (NoDup_filter_id _ id Hnd).
      change (broadcasts ((LoadTasks ids, TasksLoaded loaded) :: [] ++ ext)) with (broadcasts ext). lia.
Qed.

(** [Advance] means done: when the verdict lets the consumer move past
    the batch, every live record loaded for it has been settled (marked
    done or failed, durably) exactly once, and no transient failure was
    recorded. *)
Theorem advance_settles_all ids t :
  exec (drive_batch ids) t (Ok Advance) → ids ≠ [] →
  ∃ loaded t', t = (LoadTasks ids, TasksLoaded loaded) :: t' ∧
    (∀ x, Some x ∈ loaded → status x = Pending → task_id x ∈ settled t') ∧
    NoDup (settled t') ∧ settled t' = task_id <$> canonical_tasks [] loaded ∧
    transients t' = [].
Proof.
  intros [(_&_&?)|[(r&reason&_&?)|(loaded&t'&m'&->&He&Hm)]]%drive_batch_exec Hne; [done..|].
  destruct m'; [|done]. exists loaded, t'. split; [done|].
  apply process_exec in He as [_ (ext & -> & _ & _ & Hs & Ht)]. simpl.
  destruct (canonical_tasks_spec [] loaded) as (_ & Hnd & Hall). rewrite Hs. split_and!; try done.
  intros x Hx Hp. specialize (Hall x Hx Hp). set_solver.
Qed.

(** Every batch ends, within one operation plus six per live record,
    with [Advance] or [Retry] (no [unreachable!] is reached); it settles
    records in load order, each at most once, and never one that is not a
    live loaded record. *)
Theorem batch_settles_at_most_once ids t m :
  exec (drive_batch ids) t m →
  is_Some (settle_batch m) ∧ NoDup (settled t) ∧
  (∀ loaded t', t = (LoadTasks ids, TasksLoaded loaded) :: t' →
    settled t `prefix_of` (task_id <$> canonical_tasks [] loaded) ∧
    (length t ≤ 1 + 6 * length (canonical_tasks [] loaded))%nat).
Proof.
  intros [(->&->&_)|[(r&reason&->&->)|(loaded&t'&m'&->&He&->)]]%drive_batch_exec.
  - split_and!; [by eexists|constructor|done].
  - split_and!; [by eexists|constructor|]. intros loaded t' _. split; [apply prefix_nil|simpl; lia].
  - apply process_exec in He as [HQ (ext & -> & Hl & _ & Hm)]. simpl in HQ.
    destruct (canonical_tasks_spec [] loaded) as (_ & Hnd & _).
    change (settled ((LoadTasks ids, TasksLoaded loaded) :: [] ++ ext)) with (settled ext).
    assert (Hpre : settled ext `prefix_of` (task_id <$> canonical_tasks [] loaded)).
    { destruct m' as [[]|[[]|]]; try done. destruct Hm as [-> _]. done. }
    split_and!.
    + destruct m' as [[]|[[]|]]; try done; by eexists.
    + destruct Hpre as [k Hk]. rewrite Hk in Hnd. by apply NoDup_app in Hnd as [? _].
    + intros loaded' t'' [= <- <-]. simpl. split; [done|lia].
Qed.

(** C14. Outcomes are justified: a task is marked done only when its own
    on-chain check just answered "registered" (keeping its known hash) or
    its own transaction was just confirmed (recording that hash and id);
    it is marked failed only when it cannot be encoded, its transaction
    reverted, the chain denied its content and the transaction sent once more
    reverted too, its write failed with a poison error, or the slot is taken
    and the chain says the content is not this task's. *)
Theorem marks_are_justified ids t m :
  exec (drive_batch ids) t m →
  (∀ pre id h n r post, t = pre ++ (MarkDone id h n, r) :: post → ∃ x,
     id = task_id x ∧ status x = Pending ∧
     (just_checked x true pre ∧ h = tx_hash x ∧ n = None ∨
      ∃ h', just_sent x (Confirmed h' n) pre ∧ h = Some h')) ∧
  (∀ pre id k msg r post, t = pre ++ (MarkFailed id k msg, r) :: post → ∃ x,
     id = task_id x ∧ status x = Pending ∧ why_failed x pre).
Proof.
  intros [(->&_)|[(r&reason&->&_)|(loaded&t'&m'&->&He&_)]]%drive_batch_exec.
  - split; by intros [].
  - split; by intros [|?[]].
  - apply process_exec in He as [HQ _].
    destruct (canonical_tasks_spec [] loaded) as (Hin & _ & _).
    set (e0 := (LoadTasks ids, TasksLoaded loaded)).
    assert (Hck : ∀ x b pre, just_checked x b pre → just_checked x b (e0 :: pre)).
    { intros x b pre (pre' & op & ? & ->). by exists (e0 :: pre'), op. }
    assert (Hst : ∀ x o pre, just_sent x o pre → just_sent x o (e0 :: pre)).
    { intros x o pre (pre' & ->). by exists (e0 :: pre'). }
    split.
    + intros [|e pre] id h n r post [= <- Ht].
      destruct (HQ pre _ post Ht) as (x & Hx & -> & Hw). exists x.
      apply Hin in Hx as (_ & Hp & _). split_and!; [done..|]. naive_solver.
    + intros [|e pre] id k msg r post [= <- Ht].
      destruct (HQ pre _ post Ht) as (x & Hx & -> & Hw). exists x.
      apply Hin in Hx as (_ & Hp & _). split_and!; [done..|].
      destruct Hw as [Hw|[(pre'&op&h&h'&?&->)|[(o&e&?&?&?)|(o&e&pre'&op&?&?&?&?&->)]]];
        [by left|right; left; by exists (e0 :: pre'), op, h, h'|right; right; left; by exists o, e; auto|].
      right; right; right. exists o, e, (e0 :: pre'), op. auto.
Qed.
End properties.

(** ** Evaluation on examples *)
Section examples.
#[local] Existing Instance concrete_crates.

Definition live_task (id : string) : RegisterTask := sample_register id.

(** A chain that confirms every write; task "b" is already on-chain when
    the second check is made. *)
Definition confirming (op : SubmissionOperation) (n : Z) : SubmissionResult * Z :=
  match op with
  | LoadTasks ids => (TasksLoaded ((λ i, Some (live_task i)) <$> ids), n)
  | CheckContentRegistered _ | CheckReferenced _ _ => (ContentChecked (2 <=? n), n + 1)
  | SubmitRegister _ => (Tx (Confirmed "0xabc" (Some 7)), n + 1)
  | _ => (Persisted, n)
  end.

Definition sample_batch : list string := ["a"; "a"; "b"].
Definition batch_run := run confirming (drive_batch sample_batch) 0.

Lemma batch_run_exec : exec (drive_batch sample_batch) batch_run.1.2 batch_run.2.
Proof.
  unfold batch_run. destruct (run confirming _ _) as [[z t] m] eqn:E. by apply run_exec in E.
Qed.

Lemma batch_run_verdict : batch_run.2 = Ok Advance.
Proof. by vm_compute. Qed.

Lemma submit_only_after_check_witness :
  status (live_task "a") = Pending ∧ just_checked (live_task "a") false (take 2 batch_run.1.2) ∧
  ∃ loaded, (LoadTasks sample_batch, TasksLoaded loaded) ∈ take 2 batch_run.1.2 ∧
    Some (live_task "a") ∈ loaded.
Proof.
  apply (proj1 (submit_only_after_check sample_batch batch_run.1.2 batch_run.2 batch_run_exec)
    (take 2 batch_run.1.2) (live_task "a") (Tx (Confirmed "0xabc" (Some 7)))
    (drop 3 batch_run.1.2)).
  by vm_compute.
Defined.

Lemma advance_settles_all_witness :
  ∃ loaded t', batch_run.1.2 = (LoadTasks sample_batch, TasksLoaded loaded) :: t' ∧
    (∀ x, Some x ∈ loaded → status x = Pending → task_id x ∈ settled t') ∧
    NoDup (settled t') ∧ settled t' = task_id <$> canonical_tasks [] loaded ∧
    transients t' = [].
Proof.
  apply (advance_settles_all sample_batch batch_run.1.2); [|done].
  rewrite <-batch_run_verdict. apply batch_run_exec.
Defined.

Lemma batch_settles_at_most_once_witness :
  is_Some (settle_batch batch_run.2) ∧ NoDup (settled batch_run.1.2).
Proof.
  destruct (batch_settles_at_most_once sample_batch batch_run.1.2 batch_run.2 batch_run_exec)
    as (H1 & H2 & _). by split.
Defined.

(** A chain that reverts every write and holds nothing. *)
Definition reverting (op : SubmissionOperation) (n : Z) : SubmissionResult * Z :=
  match op with
  | LoadTasks ids => (TasksLoaded ((λ i, Some (live_task i)) <$> ids), n)
  | CheckContentRegistered _ | CheckReferenced _ _ => (ContentChecked false, n)
  | SubmitRegister _ => (Tx (TxReverted (fmt n)), n + 1)
  | _ => (Persisted, n)
  end.

Definition reverted_run := run reverting (drive_batch ["a"]) 0.

Lemma reverted_run_exec : exec (drive_batch ["a"]) reverted_run.1.2 reverted_run.2.
Proof. unfold reverted_run. destruct (run reverting _ _) as [[z t] m] eqn:E. by apply run_exec in E. Qed.

Lemma marks_are_justified_witness :
  (∃ x, "a" = task_id x ∧ status x = Pending ∧
    (just_checked x true (take 3 batch_run.1.2) ∧ Some "0xabc" = tx_hash x ∧ Some 7 = None ∨
     ∃ h', just_sent x (Confirmed h' (Some 7)) (take 3 batch_run.1.2) ∧ Some "0xabc" = Some h')) ∧
  (∃ x, "a" = task_id x ∧ status x = Pending ∧ why_failed x (take 5 reverted_run.1.2)).
Proof.
  split.
  - apply (proj1 (marks_are_justified sample_batch batch_run.1.2 batch_run.2 batch_run_exec)
      (take 3 batch_run.1.2) "a" (Some "0xabc") (Some 7) Persisted (drop 4 batch_run.1.2)).
    by vm_compute.
  - apply (proj2 (marks_are_justified ["a"] reverted_run.1.2 reverted_run.2 reverted_run_exec)
      (take 5 reverted_run.1.2) "a" PoisonFailure "register transaction reverted" Persisted []).
    by vm_compute.
Defined.
End examples.
