(* ===== verification/ContractRun.v ===== *)
(** * The worker's batch on the contract

    The submission core run while the registry contract lives: answers about
    the chain are true of the contract at that moment, and transactions of
    anyone may be mined during every operation. *)
From Stdlib Require Import Ascii String Strings.Byte.
From S2P Require Export RegistryTasks Submission.
From stdpp Require Import options.
#[local] Set Warnings "-register-all".

Section contract_run.
Context `{C : Crates, V : !Evm}.

(** The task's write is in the registry. *)
Definition on_contract (s : Registry) (x : RegisterTask) : Prop :=
  match kind x with
  | Register => ∃ h, content_hash_for x = Ok h ∧ isContentRegistered s h = true
  | Refer => ∃ g k, refer_content x = Ok (g, k) ∧ isReferenced s g k = true
  end.

(** What the answer to an operation says of the contract, which goes from
    [s] to [s'] by some transactions meanwhile: a positive check holds, and
    a confirmed write is a transaction of the task's calldata that
    succeeded.  The worker reads the texts of a check as [Worker.execute]
    does. *)
Definition truthful (s : Registry) (e : SubmissionOperation * SubmissionResult) (s' : Registry) : Prop :=
  ∃ txs, s' = mined s txs ∧
    match e with
    | (CheckContentRegistered text, ContentChecked true) =>
        ∃ h, parse_b256 text = Ok h ∧ isContentRegistered s' h = true
    | (CheckReferenced group member, ContentChecked true) =>
        ∃ g k, parse_hex_bytes group = Ok g ∧ parse_hex_bytes member = Ok k ∧ isReferenced s' g k = true
    | (SubmitRegister x, Tx (Confirmed _ _)) =>
        ∃ data now txs1 txs2, write_calldata x = Ok data ∧ txs = txs1 ++ (data, now) :: txs2 ∧
          is_ok (call_result data now (mined s txs1)) = true
    | _ => True
    end.

Fixpoint contract_run (s : Registry) (t : trace SubmissionOperation SubmissionResult) (s' : Registry) : Prop :=
  match t with
  | [] => s' = s
  | e :: t => ∃ s1, truthful s e s1 ∧ contract_run s1 t s'
  end.

Lemma contract_run_app s t1 t2 s' :
  contract_run s (t1 ++ t2) s' ↔ ∃ s1, contract_run s t1 s1 ∧ contract_run s1 t2 s'.
Proof.
  revert s. induction t1 as [|e t1 IH]; intros s; cbn.
  - split; [by eauto|]. by intros (s1 & -> & ?).
  - setoid_rewrite IH. naive_solver.
Qed.

Lemma mined_app s txs1 txs2 : mined s (txs1 ++ txs2) = mined (mined s txs1) txs2.
Proof. apply foldl_app. Qed.

Lemma contract_run_mined s t s' : contract_run s t s' → ∃ txs, s' = mined s txs.
Proof.
  revert s. induction t as [|e t IH]; intros s; cbn; [intros ->; by exists []|].
  intros (s1 & (txs1 & -> & _) & (txs2 & ->)%IH). exists (txs1 ++ txs2). by rewrite mined_app.
Qed.

(** ** What is written stays *)

Lemma foldl_ledger_grows h L :
  registered L ⊆ registered (foldl record_call L h) ∧ referred L ⊆ referred (foldl record_call L h).
Proof.
  revert L. induction h as [|c h IH]; intros L; [done|]. destruct (IH (record_call L c)) as [H1 H2].
  cbn [foldl]. split; (etransitivity; [|eassumption]); destruct c; cbn; set_solver.
Qed.

Lemma on_contract_stays dc dr L s x txs :
  holds dc dr L s → on_contract s x → on_contract (mined s txs) x.
Proof.
  intros H Hx. pose proof (holds_mined dc dr txs _ _ H) as H'.
  destruct (foldl_ledger_grows (accepted_calls s txs) L) as [H1 H2]. unfold on_contract in *.
  destruct (kind x).
  - destruct Hx as (h & Hh & Hr). exists h. split; [done|].
    rewrite (isContentRegistered_spec _ _ _ _ _ H) in Hr. rewrite (isContentRegistered_spec _ _ _ _ _ H'). by apply H1.
  - destruct Hx as (g & k & Hh & Hr). exists g, k. split; [done|].
    rewrite (isReferenced_spec _ _ _ _ _ _ H) in Hr. rewrite (isReferenced_spec _ _ _ _ _ _ H'). by apply H2.
Qed.

(** ** A write that succeeded *)

Lemma run_call_ok dc dr L s c data now i s' :
  holds dc dr L s → run_call c data now s = Ok (i, s') → holds dc dr (record_call L c) s'.
Proof. intros H Hr. pose proof (run_call_spec dc dr L s c data now H) as Hs. rewrite Hr in Hs. apply Hs. Qed.

Lemma written_register dc dr L s x data now i s' :
  holds dc dr L s → kind x = Register → task_sized x → write_calldata x = Ok data →
  call_result data now s = Ok (i, s') → on_contract s' x.
Proof.
  intros H Hk Hz Hw Hr. destruct (register_decodes x data Hk Hz Hw) as (md & g & p & sp & sms & Hd & Hmd & Hg & _ & _ & Hf).
  apply call_result_ok in Hr as (c & Hd' & Hr). rewrite Hd in Hd'. injection Hd' as <-.
  apply (run_call_ok dc dr L) in Hr as Hs; [|done].
  unfold on_contract. rewrite Hk. eexists. split; [by eapply image_content_hash|].
  apply (isContentRegistered_spec _ _ _ _ _ Hs). cbn. set_solver.
Qed.

Lemma written_refer dc dr L s x data now i s' :
  REGISTER_SELECTOR ≠ REFER_SELECTOR →
  holds dc dr L s → kind x = Refer → task_sized x → write_calldata x = Ok data →
  call_result data now s = Ok (i, s') → on_contract s' x.
Proof.
  intros Hsel H Hk Hz Hw Hr.
  assert (Hm : ∃ m, head (members x) = Some m).
  { unfold write_calldata, refer_calldata, refer_args in Hw. rewrite Hk in Hw.
    destruct (head (members x)) as [m|]; [by exists m|done]. }
  destruct Hm as [m Hm].
  destruct (refer_decodes x m data Hsel Hk Hm Hz Hw) as (md & g & sm & Hd & Hmd & Hg & Hi).
  apply call_result_ok in Hr as (c & Hd' & Hr). rewrite Hd in Hd'. injection Hd' as <-.
  apply (run_call_ok dc dr L) in Hr as Hs; [|done].
  unfold on_contract. rewrite Hk. exists g, (sm_publicKey sm). split.
  - unfold refer_content. rewrite Hg, Hm. cbn [rbind ok_or head]. by rewrite (mi_key _ _ Hi).
  - apply (isReferenced_spec _ _ _ _ _ _ Hs). cbn. set_solver.
Qed.

Lemma written dc dr L s x data now i s' :
  REGISTER_SELECTOR ≠ REFER_SELECTOR →
  holds dc dr L s → task_sized x → write_calldata x = Ok data →
  call_result data now s = Ok (i, s') → on_contract s' x.
Proof.
  intros ? H Hz Hw Hr. destruct (kind x) eqn:Hk; [by eapply written_register|by eapply written_refer].
Qed.

Lemma parse_fmt_b256 h : length h = 32%nat → parse_b256 (fmt_b256 h) = Ok h.
Proof. intros Hl. apply parse_b256_ok. split; [apply parse_hex_bytes_encode|done]. Qed.

(** One operation after which the task is marked done. *)
Lemma truthful_done dc dr L s x e s' :
  REGISTER_SELECTOR ≠ REFER_SELECTOR → holds dc dr L s → task_sized x → truthful s e s' →
  (∃ op, check_op x = Some op ∧ e = (op, ContentChecked true)) ∨
    (∃ h n, e = (SubmitRegister x, Tx (Confirmed h n))) →
  on_contract s' x.
Proof.
  intros Hsel H Hz (txs & -> & He) [(op & Hop & ->)|(h & n & ->)].
  - unfold check_op in Hop. unfold on_contract. destruct (kind x) eqn:Hk.
    + destruct (content_hash_for x) as [h|] eqn:Hh; [|done]. injection Hop as <-.
      destruct He as (h' & Hp & Hr). rewrite parse_fmt_b256 in Hp by by eapply content_hash_length.
      injection Hp as ->. by exists h'.
    + destruct (members x) as [|m ms] eqn:Hm; [done|]. injection Hop as <-.
      destruct He as (g & k & Hg & Hkk & Hr). exists g, k. split; [|done].
      unfold refer_content. rewrite Hg, Hm. cbn [rbind ok_or head]. by rewrite Hkk.
  - destruct He as (data & now & txs1 & txs2 & Hw & -> & Hok).
    pose proof (holds_mined dc dr txs1 _ _ H) as H1. rewrite mined_app.
    destruct (call_result data now (mined s txs1)) as [[i s1]|] eqn:Hr; [|done].
    assert (Hmid : on_contract s1 x) by by eapply written.
    assert (Hs1 : holds dc dr (foldl record_call L (accepted_calls s (txs1 ++ [(data, now)]))) s1).
    { pose proof (holds_mined dc dr (txs1 ++ [(data, now)]) _ _ H) as H2. rewrite mined_app in H2. cbn in H2.
      unfold transact in H2. by rewrite Hr in H2. }
    change (mined (mined s txs1) ((data, now) :: txs2)) with (mined (transact data now (mined s txs1)) txs2).
    unfold transact. rewrite Hr. by eapply on_contract_stays.
Qed.

(** ** A batch *)

(** The records that a batch works on. *)
Definition batch_sized (ids : list string) (t : trace SubmissionOperation SubmissionResult) : Prop :=
  ∀ loaded x, (LoadTasks ids, TasksLoaded loaded) ∈ t → Some x ∈ loaded → task_sized x.

Lemma done_on_contract dc dr L s s' xs t pre id h n r post :
  REGISTER_SELECTOR ≠ REFER_SELECTOR → holds dc dr L s → contract_run s t s' →
  Forall task_sized xs →
  (∀ pre e post, t = pre ++ e :: post → s_allowed xs pre e) →
  t = pre ++ (MarkDone id h n, r) :: post → ∃ x, x ∈ xs ∧ id = task_id x ∧ on_contract s' x.
Proof.
  intros Hsel H Hrun Hz HQ ->. destruct (HQ pre _ post eq_refl) as (x & Hx & -> & Hw).
  exists x. split; [done|]. split; [done|]. rewrite Forall_forall in Hz.
  assert (He : ∃ pre' e, pre = pre' ++ [e] ∧
    ((∃ op, check_op x = Some op ∧ e = (op, ContentChecked true)) ∨ ∃ h n, e = (SubmitRegister x, Tx (Confirmed h n)))).
  { destruct Hw as [((pre' & op & Hop & ->) & _)|(h' & (pre' & ->) & _)]; eexists _, _; (split; [done|]); eauto. }
  destruct He as (pre' & e & -> & He).
  apply contract_run_app in Hrun as (s2 & Hrun & Hrest). apply contract_run_app in Hrun as (s1 & Hrun & (s2' & Htr & ->)).
  apply contract_run_mined in Hrun as (txs1 & ->), Hrest as (txs2 & ->).
  pose proof (holds_mined dc dr txs1 _ _ H) as H1.
  assert (Hon : on_contract s2' x) by (eapply truthful_done; eauto).
  destruct Htr as (txs & -> & _). eapply on_contract_stays; [by apply holds_mined|done].
Qed.

Lemma settled_event (t : trace SubmissionOperation SubmissionResult) id :
  id ∈ settled t →
  (∃ h n, (MarkDone id h n, Persisted) ∈ t) ∨ ∃ k msg, (MarkFailed id k msg, Persisted) ∈ t.
Proof.
  unfold settled. rewrite list_elem_of_omap. intros ([op r] & Hin & He).
  destruct op; try done; destruct r; try done; cbn in He; injection He as ->; eauto.
Qed.

(** C21. What the worker calls done is in the registry.  However its operations
    are answered, and whatever else is mined meanwhile: if positive checks
    are true of the contract and confirmed writes were transactions that
    succeeded there, then every task that a batch marks done is one of the
    loaded records, and its write is on the contract at the end; so when the
    verdict lets the consumer move on, every live record's id is on the
    contract or was durably marked failed. *)
Theorem done_is_on_contract ids t m bc this dc dr before s' :
  REGISTER_SELECTOR ≠ REFER_SELECTOR →
  exec (drive_batch ids) t m → batch_sized ids t →
  contract_run (mined (new_registry bc this dc dr) before) t s' →
  (∀ id h n r, (MarkDone id h n, r) ∈ t → ∃ loaded x, (LoadTasks ids, TasksLoaded loaded) ∈ t ∧
     Some x ∈ loaded ∧ id = task_id x ∧ on_contract s' x) ∧
  (m = Ok Advance → ∀ loaded x, head t = Some (LoadTasks ids, TasksLoaded loaded) → Some x ∈ loaded → status x = Pending →
     (∃ x', Some x' ∈ loaded ∧ task_id x' = task_id x ∧ on_contract s' x') ∨
     ∃ k msg, (MarkFailed (task_id x) k msg, Persisted) ∈ t).
Proof.
  intros Hsel Hex Hz Hrun. pose proof (holds_life bc this dc dr before) as H.
  cbn zeta in H. set (s := mined _ before) in *. set (L := ledger_of _) in H.
  apply drive_batch_exec in Hex as [(->&_)|[(r&reason&->&->)|(loaded&t'&m'&->&He&->)]].
  { split; [by intros ? ? ? ? ?%elem_of_nil|done]. }
  { split; [|done]. intros ? ? ? ? Hin%list_elem_of_singleton. done. }
  pose proof (process_exec _ _ _ He) as [HQ (ext & Hext & _ & _ & Hm)]. cbn [app] in Hext. subst ext.
  destruct (canonical_tasks_spec [] loaded) as (Hcan & _ & Hlive).
  cbn [contract_run] in Hrun. destruct Hrun as (s1 & (txs & -> & _) & Hrun).
  apply holds_mined with (txs := txs) in H.
  assert (Hin0 : (LoadTasks ids, TasksLoaded loaded) ∈ (LoadTasks ids, TasksLoaded loaded) :: t') by by left.
  assert (Hxs : Forall task_sized (canonical_tasks [] loaded)).
  { apply Forall_forall. intros x Hx. apply (Hz loaded); [done|]. by apply Hcan. }
  assert (Hdone : ∀ id h n r, (MarkDone id h n, r) ∈ t' → ∃ x, x ∈ canonical_tasks [] loaded ∧
    id = task_id x ∧ on_contract s' x).
  { intros id h n r (pre & post & Ht)%list_elem_of_split. by eapply done_on_contract. }
  split.
  - intros id h n r Hin. apply elem_of_cons in Hin as [[=]|Hin]. destruct (Hdone _ _ _ _ Hin) as (x & Hx & -> & Hon).
    exists loaded, x. split_and!; try done. by apply Hcan.
  - intros Hadv loaded' x [= <-] Hx Hp. destruct m' as [[]|]; [|done]. destruct Hm as [Hs _].
    destruct (Hlive x Hx Hp) as [Hn|Hin]; [by apply elem_of_nil in Hn|]. rewrite <-Hs in Hin.
    apply settled_event in Hin as [(h & n & Hin)|(k & msg & Hin)]; [left|right; exists k, msg; by right].
    destruct (Hdone _ _ _ _ Hin) as (x' & Hx' & Hid & Hon). exists x'. split_and!; [by apply Hcan|done|done].
Qed.
End contract_run.

(** ** Evaluation on examples *)
Section examples.
#[local] Existing Instances registry_crates registry_evm registry_mirrors.

Definition renamed (id : string) (t : RegisterTask) : RegisterTask :=
  mkTask id (status t) (kind t) (rp_id t) (metadata t) (content_hash t) (group_public_key t)
    (group_proof t) (members t) (tx_hash t) (on_chain_id t) (task_error t) (retries t) (created_at t) (admitted t).

Definition stored (ids : list string) : list (option RegisterTask) :=
  (λ id, if bool_decide (id = "a") then Some (renamed "a" (register_task key_5 [key_6]))
         else if bool_decide (id = "b") then Some (renamed "b" (register_task key_8 [key_6; key_9])) else None) <$> ids.

(** A shell whose chain is the contract: checks read it, a write is mined at
    once, and somebody else registers the second group before the batch's
    own check of it. *)
Definition chain_shell (op : SubmissionOperation) (s : Registry) : SubmissionResult * Registry :=
  match op with
  | LoadTasks ids => (TasksLoaded (stored ids), mined s (drop 1 two_groups))
  | CheckContentRegistered text =>
      (match parse_b256 text with Ok h => ContentChecked (isContentRegistered s h) | Err _ => ChainReadFailed end, s)
  | CheckReferenced gt kt =>
      (match parse_hex_bytes gt, parse_hex_bytes kt with
       | Ok g, Ok k => ContentChecked (isReferenced s g k)
       | _, _ => ChainReadFailed
       end, s)
  | SubmitRegister x =>
      match write_calldata x with
      | Ok data =>
          match call_result data 50 s with
          | Ok (i, s') => (Tx (Confirmed "0xabc" (Some i)), mined s [(data, 50)])
          | Err _ => (Tx (TxReverted "0xabc"), s)
          end
      | Err _ => (Tx (SendFailed Unavailable), s)
      end
  | _ => (Persisted, s)
  end.

Lemma chain_shell_truthful op s : truthful s (op, (chain_shell op s).1) (chain_shell op s).2.
Proof.
  destruct op as [ids|text|gt kt|x|id h n|id k msg|id msg]; cbn [chain_shell fst snd].
  5-7: exists []; split; [reflexivity|exact I].
  - exists (drop 1 two_groups). split; [reflexivity|exact I].
  - exists []. destruct (parse_b256 text) as [h|]; cbn [fst snd]; [|done].
    destruct (isContentRegistered s h) eqn:Hc; [|done]. split; [done|]. by exists h.
  - exists []. destruct (parse_hex_bytes gt) as [g|], (parse_hex_bytes kt) as [k|]; cbn [fst snd]; try done.
    destruct (isReferenced s g k) eqn:Hc; [|done]. split; [done|]. by exists g, k.
  - destruct (write_calldata x) as [data|] eqn:Hw; [|by exists []].
    destruct (call_result data 50 s) as [[i s']|] eqn:Hr; [|by exists []]. cbn [fst snd].
    exists [(data, 50)]. split; [done|]. exists data, 50, [], []. split_and!; [done|done|]. cbn. by rewrite Hr.
Qed.

Lemma run_contract {A} (p : Prog SubmissionOperation SubmissionResult A) s :
  contract_run s (run chain_shell p s).1.2 (run chain_shell p s).1.1.
Proof.
  revert s. induction p as [a|op k IH]; intros s; [done|]. cbn [run].
  pose proof (chain_shell_truthful op s) as Ht. destruct (chain_shell op s) as [r s1]. cbn [fst snd] in Ht.
  specialize (IH r s1). destruct (run chain_shell (k r) s1) as [[s2 t] a]. cbn [fst snd contract_run] in *. eauto.
Qed.

Definition contract_batch := run chain_shell (drive_batch ["a"; "b"]) original.
#[local] Strategy expand [contract_batch].

Definition event_sizedb (e : SubmissionOperation * SubmissionResult) : bool :=
  match e.2 with
  | TasksLoaded loaded => forallb (λ o, match o with Some x => task_sizedb x | None => true end) loaded
  | _ => true
  end.

Lemma event_sizedb_spec ids t : forallb event_sizedb t = true → batch_sized ids t.
Proof.
  rewrite forallb_forall. intros H loaded x Ht%list_elem_of_In Hx%list_elem_of_In. apply H in Ht.
  cbn in Ht. rewrite forallb_forall in Ht. apply task_sizedb_spec, (Ht _ Hx).
Qed.

Lemma selectors_differ : REGISTER_SELECTOR ≠ REFER_SELECTOR.
Proof. by vm_compute. Qed.

Lemma contract_batch_sized : forallb event_sizedb contract_batch.1.2 = true.
Proof. by vm_compute. Qed.

Lemma contract_batch_exec : exec (drive_batch ["a"; "b"]) contract_batch.1.2 contract_batch.2.
Proof.
  unfold contract_batch. destruct (run chain_shell _ _) as [[s t] m] eqn:E. by apply run_exec in E.
Qed.

(** Task [a] is written by the batch, task [b] was written by another. *)
Lemma done_is_on_contract_witness :
  contract_batch.2 = Ok Advance ∧
  ∃ loaded x, (LoadTasks ["a"; "b"], TasksLoaded loaded) ∈ contract_batch.1.2 ∧ Some x ∈ loaded ∧
    "b" = task_id x ∧ on_contract contract_batch.1.1 x.
Proof.
  split; [by vm_compute|].
  apply (proj1 (done_is_on_contract ["a"; "b"] contract_batch.1.2 contract_batch.2
    100 sample_registry 0 (replicate 20 x00) [] contract_batch.1.1 selectors_differ contract_batch_exec
    (event_sizedb_spec _ _ contract_batch_sized) (run_contract _ original)) "b" None None Persisted).
  apply (list_elem_of_lookup_2 _ 5%nat). by vm_compute.
Defined.

End examples.
