(* ===== verification/Shell.v ===== *)
(** * The service over any shell: requests, queue and worker together

    A shell executes the operations of the admission and submission cores on
    its own store and queue; the repository has two, the Docker shell
    ([System]: Redis and Iggy) and the Cloudflare shell ([Submitter]: one
    Durable Object's SQLite).  This file states what a shell must promise
    ([Shell]) and proves of any such shell what the whole service promises:
    any number of requests and the worker run against it, their operations
    interleaved one at a time in any order; requests and the worker may die
    at any point. *)
From Stdlib Require Import Ascii String Strings.Byte.
From S2P Require Export Admission Submission.
From stdpp Require Import options.

Abbreviation atrace := (trace AdmissionOperation AdmissionResult).
Abbreviation strace := (trace SubmissionOperation SubmissionResult).

(** ** What can be seen of a shell's state *)

(** The record a read of an id returns, the ids that were ever admitted, and
    the ids of the envelopes not consumed yet, oldest first. *)
Class TaskView (X : Type) := {
  v_get : X → string → option RegisterTask;
  v_present : X → string → Prop;
  v_waiting : X → list string;
}.

(** Admitted, and still to be written. *)
Definition awaiting (t : RegisterTask) : Prop := admitted t = true ∧ status t = Pending.

Section view.
Context `{V : TaskView X}.

(** No live task is stored under [id]. *)
Definition finished (x : X) (id : string) : Prop :=
  ∀ t, v_get x id = Some t → status t ≠ Pending.

(** [id] was admitted, and is finished or has an envelope waiting. *)
Definition accounted (x : X) (id : string) : Prop :=
  v_present x id ∧ (finished x id ∨ id ∈ v_waiting x).

(** Records are never lost, only one's own admission ([own]) creates one,
    finished tasks stay finished, a live task's [admitted] flag is raised
    only by [mark]ing it, and envelopes are only added. *)
Record moves (own mark : option string) (x x' : X) : Prop := {
  mv_present id : v_present x id → v_present x' id;
  mv_absent id : own ≠ Some id → v_present x' id → v_present x id;
  mv_finished id : own ≠ Some id → finished x id → finished x' id;
  mv_awaiting id t : v_get x' id = Some t → awaiting t →
    mark = Some id ∨ ∃ t0, v_get x id = Some t0 ∧ awaiting t0;
  mv_waiting : v_waiting x `prefix_of` v_waiting x';
}.

Lemma moves_refl own mark x : moves own mark x x.
Proof. split; try done. intros id t Hg Ha. right. by exists t. Qed.

Lemma moves_trans own mark x1 x2 x3 :
  moves own mark x1 x2 → moves own mark x2 x3 → moves own mark x1 x3.
Proof.
  intros [A1 A2 A3 A4 A5] [B1 B2 B3 B4 B5]. split; [auto..| |by etrans].
  intros id t Hg Ha. destruct (B4 id t Hg Ha) as [?|(t0 & Hg0 & Ha0)]; [by left|by eapply A4].
Qed.

(** A state that shows the same. *)
Lemma moves_same own mark x x' :
  (∀ id, v_get x' id = v_get x id) → (∀ id, v_present x' id ↔ v_present x id) →
  v_waiting x `prefix_of` v_waiting x' → moves own mark x x'.
Proof.
  intros Hg Hp Hw. split; [intros; by apply Hp|intros; by apply Hp| | |done].
  - intros id _ Hf t. rewrite Hg. apply Hf.
  - intros id t. rewrite Hg. intros. right. by exists t.
Qed.

Definition own_of (op : AdmissionOperation) : option string :=
  match op with Admit task => Some (task_id task) | _ => None end.
Definition mark_of (op : AdmissionOperation) : option string :=
  match op with MarkAdmitted id => Some id | _ => None end.

(** What an operation of a request does, and what its answer says. *)
Record admission_law (op : AdmissionOperation) (r : AdmissionResult) (x x' : X) : Prop := {
  al_moves : moves (own_of op) (mark_of op) x x';
  al_queue : ∃ ext, v_waiting x' = v_waiting x ++ ext ∧
    ∀ i, i ∈ ext → ∃ task, op = Enqueue task ∧ i = task_id task;
  al_enqueued task : op = Enqueue task → r = Enqueued → task_id task ∈ v_waiting x';
  al_found t : r = TaskFound (Some t) → v_get x' (task_id t) = Some t ∧
    ∀ i, op = MarkAdmitted i → task_id t = i;
  al_new task : op = Admit task → r = AdmittedAs New → v_present x' (task_id task);
}.

(** The same of an operation of the worker. *)
Record submission_law (op : SubmissionOperation) (r : SubmissionResult) (x x' : X) : Prop := {
  sl_moves : moves None None x x';
  sl_queue : v_waiting x' = v_waiting x;
  sl_settled id : settled1 (op, r) = Some id → finished x' id;
  sl_loaded ids loaded id : op = LoadTasks ids → r = TasksLoaded loaded → id ∈ ids →
    finished x' id ∨ ∃ t, Some t ∈ loaded ∧ task_id t = id ∧ status t = Pending;
}.
End view.

(** ** Shells *)

Class Shell (X : Type) `{C : Crates, V : TaskView X} := {
  sh_chain_id : Z;
  sh_registry : string;
  sh_now : X → Z;
  (** One operation of a request of this client (its address hash). *)
  sh_admission : string → AdmissionOperation → X → AdmissionResult * X;
  (** One operation of the worker. *)
  sh_submission : SubmissionOperation → X → SubmissionResult * X;
  (** The worker consumes the [n] oldest envelopes. *)
  sh_consume : nat → X → X;
  (** Whatever else happens: time, expiry, other traffic, the chain. *)
  sh_other : X → X → Prop;
  sh_initial : X → Prop;
  sh_inv : X → Prop;
  sh_inv_initial x : sh_initial x → sh_inv x ∧ v_waiting x = [] ∧ ∀ id, v_get x id = None;
  sh_get_present x id t : sh_inv x → v_get x id = Some t → v_present x id;
  sh_admission_ok ip op x r x' :
    sh_inv x →
    (∀ task, op = Admit task →
       wf_task task ∧ ¬ v_present x (task_id task)) →
    sh_admission ip op x = (r, x') → sh_inv x' ∧ admission_law op r x x';
  sh_submission_ok op x r x' :
    sh_inv x → sh_submission op x = (r, x') → sh_inv x' ∧ submission_law op r x x';
  sh_consume_ok n x : sh_inv x → (n ≤ length (v_waiting x))%nat →
    sh_inv (sh_consume n x) ∧ (∀ id, v_get (sh_consume n x) id = v_get x id) ∧
    (∀ id, v_present (sh_consume n x) id ↔ v_present x id) ∧
    v_waiting (sh_consume n x) = drop n (v_waiting x);
  sh_other_ok x x' : sh_inv x → sh_other x x' →
    sh_inv x' ∧ moves None None x x' ∧ v_waiting x' = v_waiting x;
}.

Section service.
Context `{SH : Shell X}.

(** ** States *)

(** A running request: what it was given, what it did, where it stands. *)
Record Request := mkRequest {
  rq_id : string;
  rq_ip_hash : string;
  rq_submitted : AdmissionRequest;
  rq_now : Z;
  rq_trace : atrace;
  rq_prog : AFlow AdmissionOutcome;
}.

Definition rq_start (q : Request) : AFlow AdmissionOutcome :=
  drive_admission (rq_submitted q) (rq_id q) (rq_now q) sh_chain_id sh_registry.
Definition new_request (id ip_hash : string) (sub : AdmissionRequest) (now_ms : Z) : Request :=
  mkRequest id ip_hash sub now_ms [] (drive_admission sub id now_ms sh_chain_id sh_registry).
Definition rq_next (q : Request) (op : AdmissionOperation) (r : AdmissionResult)
    (p : AFlow AdmissionOutcome) : Request :=
  mkRequest (rq_id q) (rq_ip_hash q) (rq_submitted q) (rq_now q) (rq_trace q ++ [(op, r)]) p.

(** A batch in the worker's hands: the oldest envelopes, as polled. *)
Record Batch := mkBatch {
  b_ids : list string;
  b_trace : strace;
  b_prog : SFlow BatchVerdict;
}.

Definition new_batch (ids : list string) : Batch := mkBatch ids [] (drive_batch ids).
Definition b_next (b : Batch) (op : SubmissionOperation) (r : SubmissionResult)
    (p : SFlow BatchVerdict) : Batch :=
  mkBatch (b_ids b) (b_trace b ++ [(op, r)]) p.

Record Sys := mkSys {
  y_shell : X;
  y_requests : list Request;
  y_batch : option Batch;
}.

(** ** Steps *)

Inductive sys_step (s : Sys) : Sys → Prop :=
(** A request arrives, with a uuid nobody has. *)
| sys_request id ip_hash sub :
    ¬ v_present (y_shell s) id → id ∉ rq_id <$> y_requests s →
    sys_step s (mkSys (y_shell s)
      (y_requests s ++ [new_request id ip_hash sub (sh_now (y_shell s))]) (y_batch s))
(** One operation of one request. *)
| sys_admission i q op k r x :
    y_requests s !! i = Some q → rq_prog q = Req op k →
    sh_admission (rq_ip_hash q) op (y_shell s) = (r, x) →
    sys_step s (mkSys x (<[i := rq_next q op r (k r)]> (y_requests s)) (y_batch s))
(** A request is answered, or dies. *)
| sys_drop i : sys_step s (mkSys (y_shell s) (delete i (y_requests s)) (y_batch s))
(** The worker polls up to [n] envelopes. *)
| sys_poll n :
    y_batch s = None →
    sys_step s (mkSys (y_shell s) (y_requests s) (Some (new_batch (take n (v_waiting (y_shell s))))))
(** One operation of the worker. *)
| sys_work b op k r x :
    y_batch s = Some b → b_prog b = Req op k → sh_submission op (y_shell s) = (r, x) →
    sys_step s (mkSys x (y_requests s) (Some (b_next b op r (k r))))
(** [Advance]: the batch's envelopes are consumed; a shell that fails half
    way consumed only the oldest. *)
| sys_advance b m n :
    y_batch s = Some b → b_prog b = Ret m → settle_batch m = Some Advance →
    (n ≤ length (b_ids b))%nat →
    sys_step s (mkSys (sh_consume n (y_shell s)) (y_requests s) None)
(** Anything else ends the batch in place; the worker may also die. *)
| sys_abandon : sys_step s (mkSys (y_shell s) (y_requests s) None)
| sys_environment x :
    sh_other (y_shell s) x → sys_step s (mkSys x (y_requests s) (y_batch s)).

Definition sys_initial (s : Sys) : Prop :=
  sh_initial (y_shell s) ∧ y_requests s = [] ∧ y_batch s = None.
Definition sys_reachable (s : Sys) : Prop := ∃ s0, sys_initial s0 ∧ rtc sys_step s0 s.

(** ** The invariant *)

Record request_ok (x : X) (q : Request) : Prop := {
  ro_steps : steps (rq_start q) (rq_trace q) (rq_prog q);
  ro_enqueued t : (Enqueue t, Enqueued) ∈ rq_trace q → accounted x (task_id t);
  ro_found op t : (op, TaskFound (Some t)) ∈ rq_trace q →
    v_present x (task_id t) ∧
    (admitted t = true ∨ status t ≠ Pending → accounted x (task_id t));
  ro_marked i t : (MarkAdmitted i, TaskFound (Some t)) ∈ rq_trace q → task_id t = i;
  ro_admitted t : (Admit t, AdmittedAs New) ∈ rq_trace q → v_present x (task_id t);
  ro_fresh : (∀ t r, (Admit t, r) ∉ rq_trace q) → ¬ v_present x (rq_id q);
}.

Record batch_ok (x : X) (b : Batch) : Prop := {
  bo_steps : steps (drive_batch (b_ids b)) (b_trace b) (b_prog b);
  bo_ids : b_ids b `prefix_of` v_waiting x;
  bo_settled id : id ∈ b_ids b → id ∈ settled (b_trace b) → finished x id;
  bo_loaded loaded id : (LoadTasks (b_ids b), TasksLoaded loaded) ∈ b_trace b → id ∈ b_ids b →
    finished x id ∨ ∃ t, Some t ∈ loaded ∧ task_id t = id ∧ status t = Pending;
}.

Record shell_ok (x : X) : Prop := {
  so_inv : sh_inv x;
  so_awaiting id t : v_get x id = Some t → awaiting t → id ∈ v_waiting x;
  so_present id : id ∈ v_waiting x → v_present x id;
}.

Record sys_inv (s : Sys) : Prop := {
  si_shell : shell_ok (y_shell s);
  si_ids : NoDup (rq_id <$> y_requests s);
  si_requests q : q ∈ y_requests s → request_ok (y_shell s) q;
  si_batch b : y_batch s = Some b → batch_ok (y_shell s) b;
}.

(** ** What a request may do, at any point of its run *)

Lemma request_monitor q t op k :
  steps (rq_start q) t (Req op k) →
  ∃ task ch, validate (rq_submitted q) (rq_id q) (rq_now q) sh_chain_id sh_registry = Ok (task, ch) ∧
    task_id task = rq_id q ∧ wf_task task ∧ ∀ r, allowed_event task ch t (op, r).
Proof.
  unfold rq_start, drive_admission. destruct (validate _ _ _ _ _) as [[task ch]|[msg|msg]] eqn:Hv;
    intros Hs; [|by inversion Hs..].
  exists task, ch. split; [done|].
  assert (Hw : task_id task = rq_id q ∧ wf_task task).
  { unfold validate in Hv. destruct (rq_submitted q).
    - by apply validate_register_ok in Hv as (ra & _ & _ & ? & ? & _).
    - by apply validate_refer_ok in Hv as (ra & m & _ & _ & ? & ? & _). }
  split_and!; [apply Hw..|]. intros r.
  eapply steps_always; [apply (wpm_admit_valid task ch)|done].
Qed.

(** No gate is an [Admit]. *)
Lemma gates_no_admit task ch pre t r : gates_passed task ch pre → (Admit t, r) ∉ pre.
Proof.
  intros (pre' & d & (pre0 & pc & gg & (dg & -> & Hdg) & -> & _ & Hgg) & _ & ->) Hin.
  assert (Hdg' : (Admit t, r) ∉ dg).
  { destruct (kind task); [|subst dg; set_solver]. destruct Hdg as (e & -> & _). set_solver. }
  assert (Hgg' : (Admit t, r) ∉ gg).
  { destruct (kind task); [by subst gg; set_solver|].
    destruct Hgg as [-> |[-> |(p & -> & _)]]; set_solver. }
  unfold precheck_op in Hin. destruct (kind task); set_solver.
Qed.

(** What is enqueued was admitted. *)
Lemma may_enqueue_present x q task ch t :
  request_ok x q → may_enqueue task ch t (rq_trace q) → v_present x (task_id t).
Proof.
  intros Hq Hm. destruct Hm as [(-> & pre' & rd & _ & Ht & _)|(_ & pre' & op & Ht & _)].
  - apply (ro_admitted _ _ Hq). rewrite Ht. set_solver.
  - apply (proj1 (ro_found _ _ Hq op t ltac:(rewrite Ht; set_solver))).
Qed.

(** ** Stability *)

Lemma moves_fresh own mark x x' id :
  moves own mark x x' → (∀ i, own = Some i → ¬ v_present x i) → v_present x id → finished x id →
  finished x' id.
Proof. intros Hm Ho Hp. apply (mv_finished _ _ _ _ Hm). intros ->. by destruct (Ho id). Qed.

Lemma moves_waiting own mark x x' id :
  moves own mark x x' → id ∈ v_waiting x → id ∈ v_waiting x'.
Proof. intros Hm. destruct (mv_waiting _ _ _ _ Hm) as [ext ->]. set_solver. Qed.

Lemma moves_accounted own mark x x' id :
  moves own mark x x' → (∀ i, own = Some i → ¬ v_present x i) → accounted x id → accounted x' id.
Proof.
  intros Hm Ho [Hp Ha]. split; [by eapply mv_present|].
  destruct Ha; [left; by eapply moves_fresh|right; by eapply moves_waiting].
Qed.

Lemma request_stable own mark x x' q :
  moves own mark x x' → (∀ i, own = Some i → ¬ v_present x i ∧ i ≠ rq_id q) →
  request_ok x q → request_ok x' q.
Proof.
  intros Hm Ho [H1 H2 H3 H4 H5 H6].
  assert (Ha : ∀ id, accounted x id → accounted x' id)
    by (intros id; eapply moves_accounted; [done|]; intros i Hi; by apply Ho).
  split; auto.
  - intros op t Ht. destruct (H3 op t Ht) as [Hp Hacc]. split; [by eapply mv_present|auto].
  - intros t Ht. eapply mv_present; eauto.
  - intros Hno Hp. apply (H6 Hno). eapply mv_absent; [done| |done]. intros Hi. by apply Ho in Hi as [_ ?].
Qed.

Lemma batch_stable own mark x x' b :
  moves own mark x x' → (∀ i, own = Some i → ¬ v_present x i) → shell_ok x →
  batch_ok x b → batch_ok x' b.
Proof.
  intros Hm Ho Hs [H1 H2 H3 H4].
  assert (Hf : ∀ id, id ∈ b_ids b → finished x id → finished x' id).
  { intros id Hid Hf. eapply moves_fresh; [done|done| |done]. apply (so_present _ Hs).
    destruct H2 as [rest ->]. set_solver. }
  split.
  - done.
  - etrans; [done|]. apply Hm.
  - intros id Hid Hset. by apply Hf, H3.
  - intros loaded id Hl Hid. destruct (H4 loaded id Hl Hid); [left; auto|by right].
Qed.

Lemma shell_stable own mark x x' :
  moves own mark x x' → sh_inv x' → (∀ i, own = Some i → ¬ v_present x i) →
  (∀ i, mark = Some i → accounted x i) →
  (∀ i, i ∈ v_waiting x' → i ∈ v_waiting x ∨ v_present x i) →
  shell_ok x → shell_ok x'.
Proof.
  intros Hm Hi Ho Hmark Hnew [H1 H2 H3]. split; [done| |].
  - intros id t Hg Ha. destruct (mv_awaiting _ _ _ _ Hm id t Hg Ha) as [Hmk|(t0 & Hg0 & Ha0)].
    + pose proof (moves_accounted _ _ _ _ id Hm Ho (Hmark id Hmk)) as [_ [Hf|?]]; [|done].
      by destruct (Hf t Hg), Ha.
    + eapply moves_waiting; eauto.
  - intros id Hid. eapply mv_present; [done|]. destruct (Hnew id Hid); auto.
Qed.

(** Waiting is accounted for. *)
Lemma waiting_accounted x id : shell_ok x → id ∈ v_waiting x → accounted x id.
Proof. intros Hs Hid. split; [by apply (so_present _ Hs)|by right]. Qed.

(** The request that acted. *)
Lemma request_acted x x' q op k r :
  request_ok x q → rq_prog q = Req op k → admission_law op r x x' → shell_ok x' →
  (∀ i, own_of op = Some i → ¬ v_present x i) → request_ok x' (rq_next q op r (k r)).
Proof.
  intros [H1 H2 H3 H4 H5 H6] Hp Hl Hs' Ho. pose proof Hl as [E1 E2 E3 E4 E5].
  assert (Hin : ∀ P, P ∈ rq_trace q ++ [(op, r)] ↔ P ∈ rq_trace q ∨ P = (op, r)) by set_solver.
  assert (Ha : ∀ id, accounted x id → accounted x' id) by (intros id; by eapply moves_accounted).
  split; cbn [rq_next rq_start rq_submitted rq_id rq_now rq_trace rq_prog].
  - apply steps_snoc. by rewrite <-Hp.
  - intros t [Ht|[= <- <-]]%Hin; [by apply Ha, H2|]. apply waiting_accounted; [done|by apply E3].
  - intros op' t [Ht|[= <- <-]]%Hin.
    + destruct (H3 op' t Ht) as [Hpr Hacc]. split; [by eapply mv_present|auto].
    + destruct (E4 t eq_refl) as [Hg _]. pose proof (sh_get_present _ _ _ (so_inv _ Hs') Hg) as Hpr.
      split; [done|]. intros Hst. destruct (decide (status t = Pending)) as [Hpd|Hpd].
      * apply waiting_accounted; [done|]. apply (so_awaiting _ Hs' _ t); [done|].
        split; [by destruct Hst|done].
      * split; [done|left]. intros t'. rewrite Hg. by intros [= <-].
  - intros i t [Ht|[= <- <-]]%Hin; [by apply H4|]. by apply (E4 t).
  - intros t [Ht|[= <- <-]]%Hin; [eapply mv_present; eauto|by apply E5].
  - intros Hno Hpr. apply H6.
    + intros t r' Ht. apply (Hno t r'), Hin. by left.
    + eapply mv_absent; [done| |done]. destruct op; try done. cbn [own_of]. intros [= He].
      by apply (Hno task r), Hin; right.
Qed.

(** ** Every step keeps the invariant *)

(** What is known when a request's operation is executed. *)
Lemma admission_runs s i q op k r x :
  sys_inv s → y_requests s !! i = Some q → rq_prog q = Req op k →
  sh_admission (rq_ip_hash q) op (y_shell s) = (r, x) →
  sh_inv x ∧ admission_law op r (y_shell s) x ∧
  (∀ j, own_of op = Some j → j = rq_id q ∧ ¬ v_present (y_shell s) j) ∧
  (∀ j, mark_of op = Some j → accounted (y_shell s) j) ∧
  (∀ t, op = Enqueue t → v_present (y_shell s) (task_id t)).
Proof.
  intros [Hs Hnd Hreq Hb] Hi Hp He.
  pose proof (Hreq q (list_elem_of_lookup_2 _ _ _ Hi)) as Hok.
  pose proof (ro_steps _ _ Hok) as Hsteps. rewrite Hp in Hsteps.
  destruct (request_monitor q _ op k Hsteps) as (task & ch & _ & Hid & Hwf & Hal).
  assert (Hown : ∀ j, own_of op = Some j → j = rq_id q ∧ ¬ v_present (y_shell s) j).
  { intros j Ho. destruct op; try done. injection Ho as <-. destruct (Hal r) as [-> Hg].
    rewrite Hid. split; [done|]. apply (ro_fresh _ _ Hok). intros t r'. by eapply gates_no_admit. }
  assert (Hadmit : ∀ t, op = Admit t → wf_task t ∧ ¬ v_present (y_shell s) (task_id t)).
  { intros t ->. destruct (Hal r) as [-> _]. split; [exact Hwf|by apply Hown]. }
  destruct (sh_admission_ok _ _ _ _ _ (so_inv _ Hs) Hadmit He) as [Hi' Hl].
  split_and!; try done.
  - intros j Hj. destruct op; try done. injection Hj as <-.
    destruct (Hal r) as (pre' & t & _ & -> & Ht).
    apply (ro_enqueued _ _ Hok). rewrite Ht. set_solver.
  - intros t ->. eapply may_enqueue_present; [done|]. exact (Hal r).
Qed.

Lemma inv_admission s i q op k r x :
  sys_inv s → y_requests s !! i = Some q → rq_prog q = Req op k →
  sh_admission (rq_ip_hash q) op (y_shell s) = (r, x) →
  sys_inv (mkSys x (<[i := rq_next q op r (k r)]> (y_requests s)) (y_batch s)).
Proof.
  intros Hinv Hi Hp He.
  destruct (admission_runs s i q op k r x Hinv Hi Hp He) as (Hi' & Hl & Hown & Hmark & Henq).
  destruct Hinv as [Hs Hnd Hreq Hb]. pose proof (al_moves _ _ _ _ Hl) as Hm.
  assert (Ho : ∀ j, own_of op = Some j → ¬ v_present (y_shell s) j) by (intros j Hj; by apply Hown).
  assert (Hs' : shell_ok x).
  { eapply shell_stable; [exact Hm|done..| |done].
    intros j. destruct (al_queue _ _ _ _ Hl) as (ext & -> & Hext).
    intros [?|Hj]%elem_of_app; [by left|right]. destruct (Hext j Hj) as (t & -> & ->). by apply Henq. }
  split; cbn [y_shell y_requests y_batch].
  - done.
  - rewrite list_fmap_insert, list_insert_id; [done|]. cbn [rq_next rq_id].
    by rewrite list_lookup_fmap, Hi.
  - intros q' (j & Hj)%list_elem_of_lookup.
    apply list_lookup_insert_Some in Hj as [(<- & <- & _)|[Hne Hj]].
    + eapply request_acted; try done. by apply Hreq; eapply list_elem_of_lookup_2.
    + eapply request_stable; [exact Hm| |apply Hreq; by eapply list_elem_of_lookup_2].
      intros j' Hj'. destruct (Hown j' Hj') as [-> Hfresh]. split; [done|].
      intros Heq. apply Hne. eapply (NoDup_lookup _ _ _ _ Hnd).
      * by rewrite list_lookup_fmap, Hi.
      * rewrite list_lookup_fmap, Hj. cbn. by f_equal.
  - intros b Hb'. eapply batch_stable; [exact Hm|done|done|by apply Hb].
Qed.

Lemma settled_snoc (t : strace) op r :
  settled (t ++ [(op, r)]) = settled t ++ option_list (settled1 (op, r)).
Proof. unfold settled. rewrite omap_app. cbn. by destruct (settled1 (op, r)). Qed.

Lemma inv_work s b op k r x :
  sys_inv s → y_batch s = Some b → b_prog b = Req op k → sh_submission op (y_shell s) = (r, x) →
  sys_inv (mkSys x (y_requests s) (Some (b_next b op r (k r)))).
Proof.
  intros [Hs Hnd Hreq Hb] Hi Hp He.
  destruct (sh_submission_ok _ _ _ _ (so_inv _ Hs) He) as [Hi' [Hm Hw Hset Hload]].
  assert (Hno : ∀ i, None = Some i → ¬ v_present (y_shell s) i) by done.
  split; cbn [y_shell y_requests y_batch].
  - eapply shell_stable; [exact Hm|done..| |done]. intros i. rewrite Hw. by left.
  - done.
  - intros q Hin. eapply request_stable; [exact Hm|done|by apply Hreq].
  - intros b' [= <-]. specialize (Hb b Hi).
    destruct (batch_stable _ _ _ _ _ Hm Hno Hs Hb) as [H1 H2 H3 H4].
    split; cbn [b_next b_ids b_trace b_prog].
    + apply steps_snoc. by rewrite <-Hp.
    + done.
    + intros id Hid. rewrite settled_snoc, elem_of_app. intros [?|Hx]; [by apply H3|].
      apply Hset. by destruct (settled1 (op, r)) as [j|]; cbn in Hx; [f_equal; set_solver|set_solver].
    + intros loaded id [Hl|[= <- <-]%list_elem_of_singleton]%elem_of_app Hid; [by apply H4|].
      by apply (Hload (b_ids b)).
Qed.

(** What an advancing run of the core has settled is its whole batch. *)
Lemma advance_settles ids t m (fin : string → Prop) :
  exec (drive_batch ids) t m → settle_batch m = Some Advance →
  (∀ id, id ∈ ids → id ∈ settled t → fin id) →
  (∀ loaded id, (LoadTasks ids, TasksLoaded loaded) ∈ t → id ∈ ids →
     fin id ∨ ∃ x, Some x ∈ loaded ∧ task_id x = id ∧ status x = Pending) →
  ∀ id, id ∈ ids → fin id.
Proof.
  intros H1 Hm H3 H4 id Hid.
  destruct (drive_batch_exec _ _ _ H1) as
    [(_ & _ & He)|[(r & reason & _ & ->)|(loaded & t' & m' & Ht & He & ->)]];
    [rewrite He in Hid; set_solver|done|].
  rewrite Ht in H3, H4. destruct (H4 loaded id) as [?|(x & Hx & <- & Hpd)]; [set_solver|done|done|].
  apply process_exec in He as [_ (ext & -> & _ & _ & Hs)].
  destruct m' as [[]|[v|]]; [|simpl in Hm; injection Hm as ->; done|done].
  apply H3; [done|].
  change (settled ((LoadTasks ids, TasksLoaded loaded) :: [] ++ ext)) with (settled ext).
  rewrite (proj1 Hs).
  destruct (canonical_tasks_spec [] loaded) as (_ & _ & Hall).
  destruct (Hall x Hx Hpd); [set_solver|done].
Qed.

(** A batch that advances has finished every envelope it took. *)
Lemma batch_advanced x b m :
  batch_ok x b → b_prog b = Ret m → settle_batch m = Some Advance →
  ∀ id, id ∈ b_ids b → finished x id.
Proof.
  intros [H1 H2 H3 H4] Hp Hm. rewrite Hp in H1. apply steps_done in H1.
  by eapply advance_settles.
Qed.

(** The worker's program run without interruption. *)
Lemma run_law {A} (p : SFlow A) x x' t a :
  sh_inv x → run sh_submission p x = (x', t, a) →
  sh_inv x' ∧ moves None None x x' ∧ v_waiting x' = v_waiting x ∧
  (∀ id, id ∈ settled t → finished x' id) ∧
  (∀ ids loaded id, (LoadTasks ids, TasksLoaded loaded) ∈ t → id ∈ ids →
     finished x' id ∨ ∃ y, Some y ∈ loaded ∧ task_id y = id ∧ status y = Pending).
Proof.
  revert x t. induction p as [a0|op k IH]; intros x t Hi; cbn [run].
  - intros [= <- <- _]. split_and!; [done|apply moves_refl|done|set_solver..].
  - destruct (sh_submission op x) as [r x1] eqn:Eo.
    destruct (run sh_submission (k r) x1) as [[x2 t2] a2] eqn:E. intros [= <- <- <-].
    destruct (sh_submission_ok _ _ _ _ Hi Eo) as [Hi1 [Hm Hw Hset Hload]].
    destruct (IH r x1 t2 Hi1 E) as (Hi2 & Hm2 & Hw2 & Hset2 & Hload2).
    assert (Hf : ∀ id, finished x1 id → finished x2 id) by (intros id; by apply Hm2).
    split_and!; [done|by eapply moves_trans|congruence| |].
    + intros id Hid. change ((op, r) :: t2) with ([(op, r)] ++ t2) in Hid.
      rewrite settled_app, elem_of_app in Hid.
      destruct Hid as [Hid|Hid]; [|by apply Hset2]. apply Hf, Hset. unfold settled in Hid. cbn [omap list_omap] in Hid.
      destruct (settled1 (op, r)) as [j|]; [|by apply elem_of_nil in Hid].
      by apply list_elem_of_singleton in Hid as ->.
    + intros ids loaded id [[= <- <-]|Hin]%elem_of_cons Hid; [|by eapply Hload2].
      destruct (Hload ids loaded id eq_refl eq_refl Hid) as [?|?]; [left; by apply Hf|by right].
Qed.

(** A whole batch: an [Advance] verdict leaves every envelope finished. *)
Lemma batch_run ids x x' t m :
  sh_inv x → run sh_submission (drive_batch ids) x = (x', t, m) →
  sh_inv x' ∧ moves None None x x' ∧ v_waiting x' = v_waiting x ∧
  (settle_batch m = Some Advance → ∀ id, id ∈ ids → finished x' id).
Proof.
  intros Hi Hr. destruct (run_law _ _ _ _ _ Hi Hr) as (H1 & H2 & H3 & H4 & H5).
  split_and!; try done. intros Hm. apply (advance_settles ids t m); try done.
  - by eapply run_exec.
  - intros id _. apply H4.
  - intros loaded id. apply H5.
Qed.

(** Consuming finished envelopes leaves everything accounted for. *)
Lemma consume_ok b x :
  shell_ok x → b `prefix_of` v_waiting x → (∀ id, id ∈ b → finished x id) →
  let x' := sh_consume (length b) x in
  shell_ok x' ∧ (∀ id, v_present x' id ↔ v_present x id) ∧ (∀ id, finished x id → finished x' id) ∧
  ∀ id, accounted x id → accounted x' id.
Proof.
  intros [H1 H2 H3] Hpre Hf x'.
  destruct (sh_consume_ok (length b) x H1 (prefix_length _ _ Hpre)) as (E1 & E2 & E3 & E4).
  destruct Hpre as [rest Hw].
  fold x' in E1, E2, E3, E4. rewrite Hw, drop_app_length in E4.
  assert (Hfin : ∀ id, finished x' id ↔ finished x id)
    by (intros id; unfold finished; by rewrite E2).
  split; [|split_and!; [done|intros id; apply Hfin|]].
  - split; [done| |].
    + intros id t. rewrite E2, E4. intros Hg Ha. pose proof (H2 id t Hg Ha) as Hin.
      rewrite Hw in Hin. apply elem_of_app in Hin as [Hin|?]; [|done].
      by destruct (Hf id Hin t Hg), Ha.
    + intros id. rewrite E4, E3. intros Hin. apply H3. rewrite Hw. set_solver.
  - intros id [Hp Ha]. split; [by apply E3|]. rewrite E4, Hfin. rewrite Hw in Ha.
    destruct Ha as [?|[Hin|?]%elem_of_app]; [by left|left; by apply Hf|by right].
Qed.

(** The oldest [n] envelopes of an advanced batch. *)
Lemma advance_ok x b m n :
  shell_ok x → batch_ok x b → b_prog b = Ret m → settle_batch m = Some Advance →
  (n ≤ length (b_ids b))%nat →
  let x' := sh_consume n x in
  shell_ok x' ∧ (∀ id, v_present x' id ↔ v_present x id) ∧ (∀ id, finished x id → finished x' id) ∧
  ∀ id, accounted x id → accounted x' id.
Proof.
  intros Hs Hb Hp Hm Hn. rewrite <-(length_take_le (b_ids b) n) by done. apply consume_ok; [done| |].
  - etrans; [|apply (bo_ids _ _ Hb)]. exists (drop n (b_ids b)). by rewrite take_drop.
  - intros id Hid. eapply batch_advanced; [done..|]. rewrite <-(take_drop n). set_solver.
Qed.

Lemma inv_advance s b m n :
  sys_inv s → y_batch s = Some b → b_prog b = Ret m → settle_batch m = Some Advance →
  (n ≤ length (b_ids b))%nat →
  sys_inv (mkSys (sh_consume n (y_shell s)) (y_requests s) None).
Proof.
  intros [Hs Hnd Hreq Hb] Hi Hp Hm Hn. specialize (Hb b Hi).
  destruct (advance_ok (y_shell s) b m n Hs Hb Hp Hm Hn) as (Hs' & Hpr & _ & Hac).
  split; cbn [y_shell y_requests y_batch]; try done.
  intros q Hin. destruct (Hreq q Hin) as [H1 H2 H3 H4 H5 H6]. split; try done.
  - auto.
  - intros op t Ht. destruct (H3 op t Ht). rewrite Hpr. auto.
  - intros t Ht. apply Hpr. eauto.
  - rewrite Hpr. done.
Qed.

Lemma inv_poll s n :
  sys_inv s → sys_inv (mkSys (y_shell s) (y_requests s)
    (Some (new_batch (take n (v_waiting (y_shell s)))))).
Proof.
  intros [Hs Hnd Hreq Hb]. split; cbn [y_shell y_requests y_batch]; try done.
  intros b [= <-]. split; cbn [new_batch b_ids b_trace b_prog]; try set_solver; [constructor|].
  exists (drop n (v_waiting (y_shell s))). by rewrite take_drop.
Qed.

Lemma step_inv_sys s s' : sys_inv s → sys_step s s' → sys_inv s'.
Proof.
  intros Hi Hs. destruct Hs as [id ip sub Hid Hnew|i q op k r x H1 H2 H3|i|n Hb|b op k r x H1 H2 H3
    |b m n H1 H2 H3 H4| |x Ho].
  - destruct Hi as [Hs Hnd Hreq Hb]. split; cbn [y_shell y_requests y_batch]; try done.
    + rewrite fmap_app. apply NoDup_app. split_and!; [done| |by apply NoDup_singleton].
      intros x Hx ->%list_elem_of_singleton. done.
    + intros q [Hin| ->%list_elem_of_singleton]%elem_of_app; [by apply Hreq|].
      split; cbn [new_request rq_start rq_trace rq_prog rq_id]; try set_solver. constructor.
  - by eapply inv_admission.
  - destruct Hi as [Hs Hnd Hreq Hb]. split; cbn [y_shell y_requests y_batch]; try done.
    + eapply sublist_NoDup; [exact Hnd|]. apply fmap_sublist, sublist_delete.
    + intros q Hin. apply Hreq. eapply elem_of_submseteq; [done|]. apply sublist_submseteq, sublist_delete.
  - by apply inv_poll.
  - by eapply inv_work.
  - by eapply inv_advance.
  - by destruct Hi.
  - destruct Hi as [Hs Hnd Hreq Hb]. destruct (sh_other_ok _ _ (so_inv _ Hs) Ho) as (Hi' & Hm & Hw).
    assert (Hno : ∀ i, None = Some i → ¬ v_present (y_shell s) i) by done.
    split; cbn [y_shell y_requests y_batch].
    + eapply shell_stable; [exact Hm|done..| |done]. intros i. rewrite Hw. by left.
    + done.
    + intros q Hin. eapply request_stable; [exact Hm|done|by apply Hreq].
    + intros b Hb'. eapply batch_stable; [exact Hm|done|done|by apply Hb].
Qed.

Lemma inv_sys s : sys_reachable s → sys_inv s.
Proof.
  intros (s0 & (Hx & Hr & Hb) & Hs).
  assert (H0 : sys_inv s0).
  { destruct (sh_inv_initial _ Hx) as (Hi & Hw & Hg). split.
    - split; [done| |rewrite Hw; set_solver]. intros id t. by rewrite Hg.
    - rewrite Hr. constructor.
    - rewrite Hr. set_solver.
    - by rewrite Hb. }
  clear Hx Hr Hb. induction Hs as [|s1 s2 s3 H _ IH]; [done|]. by eapply IH, step_inv_sys.
Qed.

(** ** What any shell promises *)

Lemma accounted_step s s' id : sys_inv s → sys_step s s' → accounted (y_shell s) id →
  accounted (y_shell s') id.
Proof.
  intros Hi Hs Ha. destruct Hs as [id' ip sub Hid Hnew|i q op k r x H1 H2 H3|i|n Hb|b op k r x H1 H2 H3
    |b m n H1 H2 H3 H4| |x Ho]; try done; cbn [y_shell].
  - destruct (admission_runs s i q op k r x Hi H1 H2 H3) as (_ & Hl & Hown & _).
    eapply moves_accounted; [apply (al_moves _ _ _ _ Hl)| |done]. intros j Hj. by apply Hown.
  - destruct (sh_submission_ok _ _ _ _ (so_inv _ (si_shell _ Hi)) H3) as [_ [Hm _ _ _]].
    eapply moves_accounted; [exact Hm|done|done].
  - pose proof (si_batch _ Hi b H1) as Hb.
    by apply (advance_ok (y_shell s) b m n (si_shell _ Hi) Hb H2 H3 H4).
  - destruct (sh_other_ok _ _ (so_inv _ (si_shell _ Hi)) Ho) as (_ & Hm & _).
    eapply moves_accounted; [exact Hm|done|done].
Qed.

(** What a request that answered [Queued] knew. *)
Lemma queued_accounted s q m id st :
  sys_inv s → q ∈ y_requests s → rq_prog q = Ret m → settle m = Queued id st →
  accounted (y_shell s) id.
Proof.
  intros Hi Hq Hp Hm. pose proof (si_requests _ Hi q Hq) as Hok.
  pose proof (ro_steps _ _ Hok) as Hs. rewrite Hp in Hs. apply steps_done in Hs.
  unfold rq_start, drive_admission in Hs.
  destruct (validate _ _ _ _ _) as [[task ch]|[msg|msg]]; [|by inversion Hs; subst..].
  apply (wpm_exec _ _ _ _ _ (wpm_admit_valid task ch)) in Hs as [_ [He _]].
  unfold explained in He. rewrite Hm in He.
  destruct He as (t & -> & -> & pre & op & r & Ht & -> & Hwhy).
  assert (Hin : (op, TaskFound (Some t)) ∈ rq_trace q) by (rewrite Ht; set_solver).
  destruct (ro_found _ _ Hok op t Hin) as [Hpr Hacc].
  destruct Hwhy as [Ha|[Ha|(y & pre' & -> & Ht')]].
  - apply Hacc. by left.
  - apply Hacc. right. by destruct (status t).
  - rewrite (ro_marked _ _ Hok (task_id y) t Hin). apply (ro_enqueued _ _ Hok). rewrite Ht'. set_solver.
Qed.

(** An admitted, pending task has an envelope waiting. *)
Lemma awaiting_waits s id t :
  sys_reachable s → v_get (y_shell s) id = Some t → awaiting t → id ∈ v_waiting (y_shell s).
Proof. intros Hs%inv_sys. apply (so_awaiting _ (si_shell _ Hs)). Qed.

(** A client's answer is kept. *)
Lemma queued_stays s q m id st s' :
  sys_reachable s → q ∈ y_requests s → rq_prog q = Ret m → settle m = Queued id st →
  rtc sys_step s s' → accounted (y_shell s') id.
Proof.
  intros Hs%inv_sys Hq Hp Hm Hrtc.
  pose proof (queued_accounted s q m id st Hs Hq Hp Hm) as Ha. clear Hq Hp Hm.
  induction Hrtc as [|s1 s2 s3 H _ IH]; [done|].
  apply IH; [by eapply step_inv_sys|by eapply accounted_step].
Qed.

(** One request run without interruption. *)
Lemma run_request {l0} q x x' t m :
  sys_inv (mkSys x (q :: l0) None) → run (sh_admission (rq_ip_hash q)) (rq_prog q) x = (x', t, m) →
  sys_inv (mkSys x' (mkRequest (rq_id q) (rq_ip_hash q) (rq_submitted q) (rq_now q) (rq_trace q ++ t) (Ret m)
    :: l0) None).
Proof.
  destruct q as [id ip sub now_ms tr p]. cbn [rq_id rq_ip_hash rq_submitted rq_now rq_trace rq_prog].
  revert tr x t. induction p as [m0|op k IH]; intros tr x t Hi; cbn [run].
  - intros [= <- <- <-]. by rewrite app_nil_r.
  - destruct (sh_admission ip op x) as [r x1] eqn:Ho.
    destruct (run (sh_admission ip) (k r) x1) as [[x2 t2] m2] eqn:E. intros [= <- <- <-].
    pose proof (inv_admission _ O _ op k r x1 Hi eq_refl eq_refl Ho) as Hi1.
    specialize (IH r (tr ++ [(op, r)]) x1 t2 Hi1 E). by rewrite <-app_assoc in IH.
Qed.

(** ** Runs, to evaluate examples *)

(** The next [n] operations of the first request. *)
Fixpoint turns (n : nat) (s : Sys) : Sys :=
  match n, y_requests s with
  | S n, q :: _ =>
      match rq_prog q with
      | Req op k =>
          let '(r, x) := sh_admission (rq_ip_hash q) op (y_shell s) in
          turns n (mkSys x (<[O := rq_next q op r (k r)]> (y_requests s)) (y_batch s))
      | Ret _ => s
      end
  | _, _ => s
  end.

Lemma turns_steps n s : rtc sys_step s (turns n s).
Proof.
  revert s. induction n as [|n IH]; intros s; [apply rtc_refl|]. cbn [turns].
  destruct (y_requests s) as [|q l] eqn:Hl; [apply rtc_refl|].
  destruct (rq_prog q) as [m|op k] eqn:Hp; [apply rtc_refl|].
  destruct (sh_admission (rq_ip_hash q) op (y_shell s)) as [r x] eqn:He.
  eapply rtc_l; [|apply IH]. rewrite <-Hl. by eapply sys_admission; [rewrite Hl| |].
Qed.

Definition answer_of (q : Request) : option AdmissionOutcome :=
  match rq_prog q with Ret m => Some (settle m) | Req _ _ => None end.
End service.
Arguments Sys X : clear implicits.
Arguments mkSys {X} _ _ _.
