(* ===== verification/Store.v ===== *)
(** * The Redis store ([p256-index-server/src/store.rs])

    Redis is a key space with per-key expiry and a millisecond clock; a
    command that is sent may be lost before it runs, or run and lose its
    reply ([Fault]), and the service sees the same error in both cases.  A
    Lua script is one atomic command.  JSON coding of the stored records is
    [serde_json]'s, a parameter with its round-trip law. *)
From Stdlib Require Import Ascii String Strings.Byte.
From S2P Require Export Lookup.
From stdpp Require Import options.

(** ** Redis *)

Record Redis := mkRedis {
  strings : gmap string (string * option Z);
  sets : gmap string (gset string);
  zsets : gmap string (gmap string Z);
  hashes : gmap string (gmap string string);
  now : Z;
}.

Definition with_strings (f : gmap string (string * option Z) → gmap string (string * option Z))
    (db : Redis) : Redis := mkRedis (f (strings db)) (sets db) (zsets db) (hashes db) (now db).
Definition with_set (k : string) (f : gset string → gset string) (db : Redis) : Redis :=
  mkRedis (strings db) (<[k := f (default ∅ (sets db !! k))]> (sets db)) (zsets db) (hashes db) (now db).
Definition with_zset (k : string) (f : gmap string Z → gmap string Z) (db : Redis) : Redis :=
  mkRedis (strings db) (sets db) (<[k := f (default ∅ (zsets db !! k))]> (zsets db)) (hashes db) (now db).
Definition with_hash (k : string) (f : gmap string string → gmap string string) (db : Redis) : Redis :=
  mkRedis (strings db) (sets db) (zsets db) (<[k := f (default ∅ (hashes db !! k))]> (hashes db)) (now db).

(** A key past its expiry reads as absent. *)
Definition expired (at_ : Z) (e : option Z) : bool :=
  match e with Some t => t <=? at_ | None => false end.

Definition redis_get (k : string) (db : Redis) : option string :=
  match strings db !! k with
  | Some (v, e) => if expired (now db) e then None else Some v
  | None => None
  end.

Definition redis_set (k v : string) (ttl : option Z) (db : Redis) : Redis :=
  with_strings (<[k := (v, (λ t, now db + t) <$> ttl)]>) db.

(** [SET k v KEEPTTL] *)
Definition redis_set_keep (k v : string) (db : Redis) : Redis :=
  let e := match strings db !! k with
           | Some (_, e) => if expired (now db) e then None else e
           | None => None
           end in
  with_strings (<[k := (v, e)]>) db.

Definition redis_del (k : string) (db : Redis) : Redis := with_strings (delete k) db.

Definition redis_pexpire (k : string) (ttl : Z) (db : Redis) : Redis :=
  match redis_get k db with
  | Some v => with_strings (<[k := (v, Some (now db + ttl))]>) db
  | None => db
  end.

Definition redis_sadd (k m : string) (db : Redis) : Redis := with_set k (λ s, {[m]} ∪ s) db.
Definition redis_srem (k m : string) (db : Redis) : Redis := with_set k (λ s, s ∖ {[m]}) db.
Definition redis_scard (k : string) (db : Redis) : Z :=
  Z.of_nat (size (default ∅ (sets db !! k))).
Definition redis_zadd (k m : string) (score : Z) (db : Redis) : Redis := with_zset k (<[m := score]>) db.
Definition redis_zrem (k m : string) (db : Redis) : Redis := with_zset k (delete m) db.

(** The lowest score of [ZRANGE k 0 0 WITHSCORES]. *)
Definition redis_zmin (k : string) (db : Redis) : option Z :=
  map_fold (λ _ s acc, Some (match acc with Some a => Z.min a s | None => s end)) None
    (default ∅ (zsets db !! k)).

Definition redis_hset (k f v : string) (db : Redis) : Redis := with_hash k (<[f := v]>) db.
Definition redis_hdel (k f : string) (db : Redis) : Redis := with_hash k (delete f) db.

(** [INCR]: a missing or expired counter starts over, without an expiry. *)
Definition redis_incr (k : string) (db : Redis) : Z * Redis :=
  let n := match redis_get k db with Some v => default 0 (parse_u64 v) | None => 0 end + 1 in
  (n, redis_set_keep k (fmt n) (match redis_get k db with None => redis_del k db | Some _ => db end)).

Definition tick (ms : Z) (db : Redis) : Redis :=
  mkRedis (strings db) (sets db) (zsets db) (hashes db) (now db + ms).

(** ** The connection *)

Inductive Fault := Fine | LostBefore | LostAfter.

Record World := mkWorld { db : Redis; faults : list Fault }.

Definition St (A : Type) : Type := World → result A string * World.

Definition st_ret {A} (a : A) : St A := λ w, (Ok a, w).
Definition st_err {A} (e : string) : St A := λ w, (Err e, w).
Definition st_bind {A B} (m : St A) (f : A → St B) : St B :=
  λ w, match m w with (Ok a, w') => f a w' | (Err e, w') => (Err e, w') end.
Definition st_now : St Z := λ w, (Ok (now (db w)), w).
Definition st_lift {A} (r : result A string) : St A :=
  match r with Ok a => st_ret a | Err e => st_err e end.

Notation "'do' x := m 'in' k" := (st_bind m (λ x, k))
  (at level 10, x name, m at level 100, k at level 200) : rust_scope.
Notation "'do' ' p := m 'in' k" := (st_bind m (λ p, k))
  (at level 10, p strict pattern, m at level 100, k at level 200) : rust_scope.

(** [self.query(command)] and [self.run_script(..)]. *)
Definition query {A} (command : Redis → A * Redis) : St A :=
  λ w, match faults w with
       | LostBefore :: fs => (Err "Redis command failed", mkWorld (db w) fs)
       | LostAfter :: fs => (Err "Redis command timed out", mkWorld (command (db w)).2 fs)
       | Fine :: fs => let '(a, d) := command (db w) in (Ok a, mkWorld d fs)
       | [] => let '(a, d) := command (db w) in (Ok a, mkWorld d [])
       end.

(** ** Key names *)

Definition task_key (id : string) : string := "p256-index:task:" +:+ id.
Definition content_active_key (content_hash : string) : string :=
  "p256-index:task-content:" +:+ to_ascii_lowercase content_hash.
Definition key_active_key (public_key : string) : string :=
  "p256-index:task-key:" +:+ to_ascii_lowercase public_key.
Definition retry_digest_key (digest : string) : string :=
  "p256-index:task-retry:" +:+ to_ascii_lowercase digest.
Definition member_key_placeholders (task : RegisterTask) : list string :=
  (key_active_key ∘ public_key <$> members task) ++ [key_active_key (group_public_key task)].
Definition active_set_key : string := "p256-index:active-tasks".
Definition active_age_key : string := "p256-index:active-created-at".
Definition dlq_set_key : string := "p256-index:dlq-tasks".
Definition broadcast_ledger_key : string := "p256-index:broadcast-ledger".
Definition ledger_field (role : string) (nonce : Z) : string := role +:+ ":" +:+ fmt nonce.

(** ** Constants and records *)

Definition TASK_DONE_TTL : Z := 7 * 24 * 60 * 60 * 1000.
Definition TASK_FAILED_TTL : Z := 30 * 24 * 60 * 60 * 1000.
Definition CACHE_FRESH_TTL : Z := 5 * 60 * 1000.
Definition CACHE_NEGATIVE_TTL : Z := 60 * 1000.
Definition CACHE_RECORD_STALE_TTL : Z := 24 * 60 * 60 * 1000.
Definition CACHE_STATS_STALE_TTL : Z := 60 * 60 * 1000.

Inductive StoreAdmission := ANew (id : string) | AExisting (id : string).

Record QueueStats := mkQueueStats {
  q_depth : Z;
  q_dlq_count : Z;
  q_oldest_active_age_ms : Z;
}.

Inductive CacheRead :=
| CFresh (value : Json)
| CNegative
| CStale (value : Json) (age_ms : Z)
| CMiss.

Record CacheEntry := mkCacheEntry {
  ce_value : option Json;
  ce_stored_at_ms : Z;
  ce_fresh_until_ms : Z;
}.

Record PendingTxEntry := mkPendingTxEntry {
  pe_hash : string;
  pe_sent_at_ms : Z;
  pe_attempts : Z;
  pe_max_fee_wei : option string;
  pe_max_priority_fee_wei : option string;
}.

Record PendingTx := mkPendingTx {
  p_role : string;
  p_nonce : Z;
  p_hash : string;
  p_sent_at_ms : Z;
  p_attempts : Z;
  p_max_fee_wei : option Z;
  p_max_priority_fee_wei : option Z;
}.

(** [serde_json] on the stored records.  A cached [null] is read back as an
    absent value, so its law excludes it. *)
Class StoreCodec := {
  task_to_json : RegisterTask → string;
  task_of_json : string → option RegisterTask;
  task_json_roundtrip t : task_of_json (task_to_json t) = Some t;
  cache_to_json : CacheEntry → string;
  cache_of_json : string → option CacheEntry;
  cache_json_roundtrip c : ce_value c ≠ Some JNull → cache_of_json (cache_to_json c) = Some c;
  pending_to_json : PendingTxEntry → string;
  pending_of_json : string → option PendingTxEntry;
  pending_json_roundtrip p : pending_of_json (pending_to_json p) = Some p;
}.

(** [value.chars().take(n)]: a continuation byte belongs to the character
    before it. *)
Definition is_continuation (c : ascii) : bool := in_range 0x80 0xBF c.
Fixpoint take_chars (n : nat) (s : string) : string :=
  match s with
  | EmptyString => EmptyString
  | String c s =>
      if is_continuation c then String c (take_chars n s)
      else match n with O => EmptyString | S n => String c (take_chars n s) end
  end.
Definition redact_error (value : string) : string := take_chars 200 value.

(** [s.split_once(c)] *)
Fixpoint split_once (c : ascii) (s : string) : option (string * string) :=
  match s with
  | EmptyString => None
  | String a s =>
      if Ascii.eqb a c then Some (EmptyString, s)
      else '(l, r) ← split_once c s; Some (String a l, r)
  end.

Section store.
Context `{C : Crates, K : StoreCodec}.

Definition escaped_hash (input : string) : string := hex_encode (sha256 (as_bytes input)).
Definition cache_key (key : string) : string := "p256-index:cache:" +:+ escaped_hash key.

Definition hash_ip (salt ip : string) : string :=
  String.substring 0 16
    (hex_encode (sha256 (as_bytes (salt +:+ String (ascii_of_nat 0) EmptyString +:+ ip)))).

(** ** Scripts *)

Definition set_if_absent (id k : string) (d : Redis) : Redis :=
  match redis_get k d with None => redis_set k id None d | Some _ => d end.

Definition admit_script (task : RegisterTask) (d : Redis) : string * Redis :=
  let id := task_id task in
  match redis_get (content_active_key (content_hash task)) d with
  | Some existing => ("existing|" +:+ existing, d)
  | None =>
      let d := redis_set (task_key id) (task_to_json task) None d in
      let d := redis_sadd active_set_key id d in
      let d := redis_zadd active_age_key id (created_at task) d in
      let d := redis_set (content_active_key (content_hash task)) id None d in
      let d := foldl (λ d k, set_if_absent id k d) d (member_key_placeholders task) in
      ("new|" +:+ id, d)
  end.

Definition expire_if_mine (id : string) (ttl : Z) (k : string) (d : Redis) : Redis :=
  if bool_decide (redis_get k d = Some id) then redis_pexpire k ttl d else d.

Definition del_if_mine (id k : string) (d : Redis) : Redis :=
  if bool_decide (redis_get k d = Some id) then redis_del k d else d.

Definition done_script (task : RegisterTask) (d : Redis) : unit * Redis :=
  let id := task_id task in
  let d := redis_set (task_key id) (task_to_json task) (Some TASK_DONE_TTL) d in
  let d := redis_srem active_set_key id d in
  let d := redis_zrem active_age_key id d in
  (tt, foldl (λ d k, expire_if_mine id TASK_DONE_TTL k d) d
         (content_active_key (content_hash task) :: member_key_placeholders task)).

Definition failed_script (task : RegisterTask) (d : Redis) : unit * Redis :=
  let id := task_id task in
  let d := redis_set (task_key id) (task_to_json task) (Some TASK_FAILED_TTL) d in
  let d := redis_srem active_set_key id d in
  let d := redis_zrem active_age_key id d in
  let d := redis_sadd dlq_set_key id d in
  (tt, foldl (λ d k, del_if_mine id k d) d
         (content_active_key (content_hash task) :: member_key_placeholders task)).

Definition cas_script (k previous updated : string) (d : Redis) : bool * Redis :=
  if bool_decide (redis_get k d = Some previous) then (true, redis_set_keep k updated d)
  else (false, d).

(** ** Operations *)

Definition admit_task (task : RegisterTask) : St StoreAdmission :=
  do response := query (admit_script task) in
  match split_once "|" response with
  | Some ("new", id) => st_ret (ANew id)
  | Some ("existing", id) => st_ret (AExisting id)
  | _ => st_err "invalid Redis admission response"
  end.

Definition get_task (id : string) : St (option RegisterTask) :=
  do payload := query (λ d, (redis_get (task_key id) d, d)) in
  st_ret (payload ≫= task_of_json).

Definition find_by_index (key : string) : St (option RegisterTask) :=
  do id := query (λ d, (redis_get key d, d)) in
  match id with Some id => get_task id | None => st_ret None end.

Definition find_by_content (content_hash : string) : St (option RegisterTask) :=
  find_by_index (content_active_key content_hash).
Definition find_by_public_key (public_key : string) : St (option RegisterTask) :=
  find_by_index (key_active_key public_key).
Definition find_by_retry_digest (digest : string) : St (option RegisterTask) :=
  find_by_index (retry_digest_key digest).

Definition record_retry_digest (digest task_id : string) (ttl_secs : Z) : St unit :=
  query (λ d, (tt, redis_set (retry_digest_key digest) task_id (Some (ttl_secs * 1000)) d)).

Definition mark_admitted (id : string) : St (option RegisterTask) :=
  do before := get_task id in
  match before with
  | None => st_ret None
  | Some before =>
      if is_terminal (status before) then st_ret (Some before) else
      let task := set_admitted true before in
      do swapped := query (cas_script (task_key id) (task_to_json before) (task_to_json task)) in
      if (swapped : bool) then st_ret (Some task) else get_task id
  end.

Definition transition_done (task : RegisterTask) : St unit := query (done_script task).
Definition transition_failed (task : RegisterTask) : St unit := query (failed_script task).

Definition set_task (task : RegisterTask) (ttl : option Z) : St unit :=
  query (λ d, (tt, redis_set (task_key (task_id task)) (task_to_json task) ttl d)).
Definition write_active_task (task : RegisterTask) : St unit := set_task task None.

(** [a.or(b)] *)
Definition opt_or {A} (a b : option A) : option A := match a with Some x => Some x | None => b end.

Definition done_task (tx : option string) (on_chain : option Z) (task : RegisterTask) : RegisterTask :=
  set_admitted true (set_error None (set_on_chain_id (opt_or on_chain (on_chain_id task))
    (set_tx_hash (opt_or tx (tx_hash task)) (set_status Done task)))).

Definition mark_done (id : string) (tx : option string) (on_chain : option Z)
    : St (option RegisterTask) :=
  do found := get_task id in
  match found with
  | None => st_ret None
  | Some task =>
      let task := done_task tx on_chain task in
      do u := transition_done task in st_ret (Some task)
  end.

(** The record a transient failure leaves: one more retry, and [Failed] at
    the tenth. *)
Definition retried_task (message : string) (task : RegisterTask) : RegisterTask :=
  let task := set_retries (sat_add U32_MAX (retries task) 1) task in
  let task := set_error (Some (redact_error message)) task in
  if 10 <=? retries task then
    set_error (Some ("EXHAUSTED: " +:+ default "transient chain failure" (task_error task)))
      (set_status Failed task)
  else task.

Definition record_transient_failure (id message : string) : St (option RegisterTask) :=
  do found := get_task id in
  match found with
  | None => st_ret None
  | Some task =>
      if is_terminal (status task) then st_ret (Some task) else
      let task := retried_task message task in
      if 10 <=? retries task then do u := transition_failed task in st_ret (Some task)
      else do u := write_active_task task in st_ret (Some task)
  end.

Definition failed_task (prefix message : string) (task : RegisterTask) : RegisterTask :=
  set_error (Some (prefix +:+ ": " +:+ redact_error message))
    (set_retries (sat_add U32_MAX (retries task) 1) (set_status Failed task)).

Definition mark_failed (id prefix message : string) : St (option RegisterTask) :=
  do found := get_task id in
  match found with
  | None => st_ret None
  | Some task =>
      let task := failed_task prefix message task in
      do u := transition_failed task in st_ret (Some task)
  end.

Definition queue_stats : St QueueStats :=
  do depth := query (λ d, (redis_scard active_set_key d, d)) in
  do dlq := query (λ d, (redis_scard dlq_set_key d, d)) in
  do oldest := query (λ d, (redis_zmin active_age_key d, d)) in
  do now_ms := st_now in
  st_ret (mkQueueStats depth dlq
    (default 0 ((λ created_at, sat_sub now_ms created_at) <$> (oldest ≫= try_u64)))).

(** ** Broadcast ledger *)

Definition record_pending_tx (role : string) (nonce : Z) (hash : string) (sent_at_ms attempts : Z)
    (fees : option (Z * Z)) : St unit :=
  let payload := pending_to_json (mkPendingTxEntry hash sent_at_ms attempts
    ((λ f : Z * Z, fmt f.1) <$> fees) ((λ f : Z * Z, fmt f.2) <$> fees)) in
  query (λ d, (tt, redis_hset broadcast_ledger_key (ledger_field role nonce) payload d)).

Definition delete_pending_tx (role : string) (nonce : Z) : St unit :=
  query (λ d, (tt, redis_hdel broadcast_ledger_key (ledger_field role nonce) d)).

(** [s.parse::<u128>().ok()] *)
Definition parse_u128 (s : string) : option Z :=
  let digits := default s (strip_prefix "+" s) in
  match digits with
  | EmptyString => None
  | _ => n ← parse_digits 0 digits; try_u128 n
  end.

Definition ledger_row (sent_before_ms : Z) (row : string * string) : option PendingTx :=
  '(role, nonce) ← split_once ":" row.1;
  nonce ← parse_u64 nonce;
  entry ← pending_of_json row.2;
  if pe_sent_at_ms entry <? sent_before_ms then
    Some (mkPendingTx role nonce (pe_hash entry) (pe_sent_at_ms entry) (pe_attempts entry)
      (pe_max_fee_wei entry ≫= parse_u128) (pe_max_priority_fee_wei entry ≫= parse_u128))
  else None.

Definition list_pending_txs (sent_before_ms : Z) : St (list PendingTx) :=
  do entries := query (λ d, (default ∅ (hashes d !! broadcast_ledger_key), d)) in
  st_ret (omap (ledger_row sent_before_ms) (map_to_list entries)).

(** ** Rate limits *)

Definition increment_minute (key : string) : St Z :=
  do count := query (redis_incr key) in
  if count =? 1 then
    do u := query (λ d, (tt, redis_pexpire key 60_000 d)) in st_ret count
  else st_ret count.

Definition allow_ip_create (ip_hash : string) : St bool :=
  do n := increment_minute ("p256-index:rate:create:" +:+ ip_hash) in st_ret (n <=? 5).
Definition allow_global_create (global_limit : Z) : St bool :=
  do n := increment_minute "p256-index:rate:create:global" in st_ret (n <=? global_limit).
Definition allow_read_ (ip_hash : string) : St bool :=
  do n := increment_minute ("p256-index:rate:read:" +:+ ip_hash) in st_ret (n <=? 120).

(** ** Cache *)

Definition cache_get (key : string) (stale_limit : Z) : St CacheRead :=
  do payload := query (λ d, (redis_get (cache_key key) d, d)) in
  match payload with
  | None => st_ret CMiss
  | Some payload =>
      do entry := st_lift (ok_or "stored cache entry is invalid" (cache_of_json payload)) in
      do now_ms := st_now in
      match ce_value entry with
      | None => st_ret (if now_ms <=? ce_fresh_until_ms entry then CNegative else CMiss)
      | Some value =>
          if now_ms <=? ce_fresh_until_ms entry then st_ret (CFresh value) else
          let age := sat_sub now_ms (ce_stored_at_ms entry) in
          st_ret (if age <=? stale_limit then CStale value age else CMiss)
      end
  end.

Definition write_cache (key : string) (value : option Json) (fresh_ttl retention : Z) : St unit :=
  do stored_at_ms := st_now in
  let payload := cache_to_json (mkCacheEntry value stored_at_ms
    (sat_add U64_MAX stored_at_ms fresh_ttl)) in
  query (λ d, (tt, redis_set (cache_key key) payload (Some retention) d)).

Definition cache_set (key : string) (value : Json) (stats : bool) : St unit :=
  write_cache key (Some value) CACHE_FRESH_TTL
    (if stats then CACHE_STATS_STALE_TTL else CACHE_RECORD_STALE_TTL).

Definition cache_set_negative (key : string) : St unit :=
  write_cache key None CACHE_NEGATIVE_TTL CACHE_NEGATIVE_TTL.
End store.
