(* ===== verification/StoreInv.v ===== *)
(** * The store's invariant

    Reachability of the store under every operation, at the granularity of
    single Redis commands: handlers and the worker interleave between
    commands, any command may be lost or lose its reply, and the clock moves.
    The invariant is proved by induction on the steps. *)
From Stdlib Require Import Ascii String Strings.Byte.
From S2P Require Export Store.
From stdpp Require Import options.

(** ** Key spaces *)

Lemma task_key_inj a b : task_key a = task_key b → a = b.
Proof. by intros [=]. Qed.
Lemma task_content_ne a h : task_key a ≠ content_active_key h.
Proof. by intros [=]. Qed.
Lemma task_member_ne a k : task_key a ≠ key_active_key k.
Proof. by intros [=]. Qed.
Lemma content_member_ne h k : content_active_key h ≠ key_active_key k.
Proof. by intros [=]. Qed.
Lemma task_retry_ne a k : task_key a ≠ retry_digest_key k.
Proof. by intros [=]. Qed.
Lemma content_retry_ne h k : content_active_key h ≠ retry_digest_key k.
Proof. by intros [=]. Qed.

Lemma placeholders_elem t k : k ∈ member_key_placeholders t → ∃ p, k = key_active_key p.
Proof.
  unfold member_key_placeholders. intros [H|H]%elem_of_app.
  - apply list_elem_of_fmap in H as (m & -> & _). by eexists.
  - apply list_elem_of_singleton in H as ->. by eexists.
Qed.

Definition active (d : Redis) : gset string := default ∅ (sets d !! active_set_key).

(** ** Frames *)

Lemma strings_redis_set k v ttl d :
  strings (redis_set k v ttl d) = <[k := (v, (λ t, now d + t) <$> ttl)]> (strings d).
Proof. done. Qed.

Lemma fold_strings (f : string → Redis → Redis) ks k0 d :
  (∀ k d, k ≠ k0 → strings (f k d) !! k0 = strings d !! k0) →
  k0 ∉ ks → strings (foldl (λ d k, f k d) d ks) !! k0 = strings d !! k0.
Proof.
  intros Hf. revert d. induction ks as [|k ks IH]; intros d Hk; simpl; [done|].
  rewrite IH by set_solver. apply Hf. set_solver.
Qed.
Lemma fold_sets (f : string → Redis → Redis) ks d :
  (∀ k d, sets (f k d) = sets d) → sets (foldl (λ d k, f k d) d ks) = sets d.
Proof. intros Hf. revert d. induction ks as [|k ks IH]; intros d; simpl; [done|]. by rewrite IH. Qed.
Lemma fold_now (f : string → Redis → Redis) ks d :
  (∀ k d, now (f k d) = now d) → now (foldl (λ d k, f k d) d ks) = now d.
Proof. intros Hf. revert d. induction ks as [|k ks IH]; intros d; simpl; [done|]. by rewrite IH. Qed.

Lemma set_if_absent_frame id k k0 d :
  k ≠ k0 → strings (set_if_absent id k d) !! k0 = strings d !! k0.
Proof. intros. unfold set_if_absent. case_match; [done|]. simpl. by rewrite lookup_insert_ne. Qed.
Lemma expire_frame id ttl k k0 d :
  k ≠ k0 → strings (expire_if_mine id ttl k d) !! k0 = strings d !! k0.
Proof.
  intros. unfold expire_if_mine, redis_pexpire. repeat case_match; try done.
  simpl. by rewrite lookup_insert_ne.
Qed.
Lemma del_frame id k k0 d :
  k ≠ k0 → strings (del_if_mine id k d) !! k0 = strings d !! k0.
Proof. intros. unfold del_if_mine. case_match; [|done]. simpl. by rewrite lookup_delete_ne. Qed.

Lemma set_if_absent_rest id k d :
  sets (set_if_absent id k d) = sets d ∧ now (set_if_absent id k d) = now d.
Proof. unfold set_if_absent. by case_match. Qed.
Lemma expire_rest id ttl k d :
  sets (expire_if_mine id ttl k d) = sets d ∧ now (expire_if_mine id ttl k d) = now d.
Proof. unfold expire_if_mine, redis_pexpire. by repeat case_match. Qed.
Lemma del_rest id k d :
  sets (del_if_mine id k d) = sets d ∧ now (del_if_mine id k d) = now d.
Proof. unfold del_if_mine. by case_match. Qed.

Lemma redis_get_some k d v :
  redis_get k d = Some v ↔ ∃ e, strings d !! k = Some (v, e) ∧ expired (now d) e = false.
Proof.
  unfold redis_get. destruct (strings d !! k) as [[v' e]|].
  - destruct (expired (now d) e) eqn:He; split.
    + done.
    + intros (e' & [= <- <-] & ?). congruence.
    + intros [= <-]. eauto.
    + by intros (e' & [= <- <-] & ?).
  - split; [done|]. by intros (e' & ? & ?).
Qed.

Lemma redis_get_none k d :
  redis_get k d = None ↔ ∀ v e, strings d !! k = Some (v, e) → expired (now d) e = true.
Proof.
  unfold redis_get. destruct (strings d !! k) as [[v' e]|]; [|done].
  destruct (expired (now d) e) eqn:He; split; try done.
  - by intros _ v e' [= <- <-].
  - intros H. specialize (H v' e eq_refl). congruence.
Qed.

Section invariant.
Context `{C : Crates, K : StoreCodec}.

Lemma task_to_json_inj t1 t2 : task_to_json t1 = task_to_json t2 → t1 = t2.
Proof.
  intros H. pose proof (task_json_roundtrip t1) as E. rewrite H, task_json_roundtrip in E.
  by simplify_eq.
Qed.

(** ** The invariant *)

(** A task in the active set has a pending record that never expires, and
    owns its content key. *)
Definition active_ok (d : Redis) (id : string) : Prop :=
  ∃ t, strings d !! task_key id = Some (task_to_json t, None) ∧ task_id t = id ∧
    status t = Pending ∧ strings d !! content_active_key (content_hash t) = Some (id, None).

(** A content key points at the record of that content: an active one, or a
    finished one that expires together with the key. *)
Definition content_ok (d : Redis) (k id : string) (e : option Z) : Prop :=
  ∃ t e', strings d !! task_key id = Some (task_to_json t, e') ∧ task_id t = id ∧
    content_active_key (content_hash t) = k ∧
    (status t = Pending ∧ e = None ∧ e' = None ∧ id ∈ active d ∨
     status t = Done ∧ e' = e ∧ is_Some e).

Record store_inv (d : Redis) : Prop := {
  inv_active : ∀ id, id ∈ active d → active_ok d id;
  inv_content : ∀ h id e, strings d !! content_active_key h = Some (id, e) →
    content_ok d (content_active_key h) id e;
  inv_records : ∀ id v e, strings d !! task_key id = Some (v, e) →
    ∃ t, v = task_to_json t ∧ task_id t = id ∧ (status t = Pending → e = None ∧ id ∈ active d);
}.

(** ** Steps *)

(** What the worker read, up to a concurrent [mark_admitted]. *)
Definition worker_read (d : Redis) (t : RegisterTask) : Prop :=
  ∃ t0 e, strings d !! task_key (task_id t) = Some (task_to_json t0, e) ∧
    expired (now d) e = false ∧ (t0 = t ∨ t0 = set_admitted true t).

(** Commands that leave the task and content keys and the active set alone:
    cache, rate limits, retry digests, ledger; and the clock. *)
Definition frame (d d' : Redis) : Prop :=
  (∀ id, strings d' !! task_key id = strings d !! task_key id) ∧
  (∀ h, strings d' !! content_active_key h = strings d !! content_active_key h) ∧
  active d' = active d ∧ now d ≤ now d'.

Inductive store_step (d : Redis) : Redis → Prop :=
| step_admit task :
    status task = Pending → strings d !! task_key (task_id task) = None →
    store_step d (admit_script task d).2
| step_cas t :
    status t = Pending →
    store_step d (cas_script (task_key (task_id t)) (task_to_json t)
      (task_to_json (set_admitted true t)) d).2
| step_done t tx n :
    worker_read d t → store_step d (done_script (done_task tx n t) d).2
| step_retry t message :
    worker_read d t → status t = Pending → retries (retried_task message t) < 10 →
    store_step d (redis_set (task_key (task_id t)) (task_to_json (retried_task message t)) None d)
| step_exhausted t message :
    worker_read d t → status t = Pending → 10 ≤ retries (retried_task message t) →
    store_step d (failed_script (retried_task message t) d).2
| step_failed t prefix message :
    worker_read d t → store_step d (failed_script (failed_task prefix message t) d).2
| step_frame d' : frame d d' → store_step d d'.

(** ** Preservation *)

Lemma inv_frame d d' : store_inv d → frame d d' → store_inv d'.
Proof.
  intros [Ha Hc Hr] (Ft & Fc & Fa & _). split.
  - intros id. rewrite Fa. intros (t & ? & ? & ? & ?)%Ha. exists t. by rewrite Ft, Fc.
  - intros h id e. rewrite Fc. intros (t & e' & ? & ? & ? & ?)%Hc. exists t, e'. by rewrite Ft, Fa.
  - intros id v e. rewrite Ft, Fa. apply Hr.
Qed.

Lemma admit_script_new task d :
  redis_get (content_active_key (content_hash task)) d = None →
  let d' := (admit_script task d).2 in
  strings d' !! task_key (task_id task) = Some (task_to_json task, None) ∧
  strings d' !! content_active_key (content_hash task) = Some (task_id task, None) ∧
  (∀ id, id ≠ task_id task → strings d' !! task_key id = strings d !! task_key id) ∧
  (∀ h, content_active_key h ≠ content_active_key (content_hash task) →
     strings d' !! content_active_key h = strings d !! content_active_key h) ∧
  active d' = {[task_id task]} ∪ active d ∧ now d' = now d.
Proof.
  intros Hget. unfold admit_script. rewrite Hget. simpl.
  set (d1 := redis_set _ _ _ _).
  assert (Hk : ∀ k0, (∀ p, k0 ≠ key_active_key p) →
    strings (foldl (λ d k, set_if_absent (task_id task) k d) d1 (member_key_placeholders task)) !! k0 =
    strings d1 !! k0).
  { intros k0 Hk0. apply fold_strings; [intros; by apply set_if_absent_frame|].
    intros (p & ->)%placeholders_elem. by eapply Hk0. }
  assert (Hd1 : strings d1 = <[content_active_key (content_hash task) := (task_id task, None)]>
    (<[task_key (task_id task) := (task_to_json task, None)]> (strings d))) by done.
  split_and!.
  - rewrite Hk, Hd1 by apply task_member_ne.
    rewrite lookup_insert_ne by (symmetry; apply task_content_ne). apply lookup_insert_eq.
  - rewrite Hk, Hd1 by apply content_member_ne. apply lookup_insert_eq.
  - intros id Hid. rewrite Hk, Hd1 by apply task_member_ne.
    rewrite lookup_insert_ne by (symmetry; apply task_content_ne).
    apply lookup_insert_ne. by intros ?%task_key_inj.
  - intros h Hh. rewrite Hk, Hd1 by apply content_member_ne.
    rewrite lookup_insert_ne by done. apply lookup_insert_ne, task_content_ne.
  - unfold active. rewrite fold_sets by (intros; apply set_if_absent_rest).
    subst d1. simpl. by rewrite lookup_insert_eq.
  - rewrite fold_now by (intros; apply set_if_absent_rest). done.
Qed.

Lemma inv_admit task d :
  store_inv d → status task = Pending → strings d !! task_key (task_id task) = None →
  store_inv (admit_script task d).2.
Proof.
  intros Hinv Hst Hfresh. destruct (redis_get (content_active_key (content_hash task)) d) eqn:Hget.
  { unfold admit_script. by rewrite Hget. }
  destruct (admit_script_new task d Hget) as (Ht & Hc & Hto & Hco & Ha & _).
  set (d' := (admit_script task d).2) in *. pose proof (proj1 (redis_get_none _ _) Hget) as Hexp.
  destruct Hinv as [Ia Ic Ir]. split.
  - intros id. rewrite Ha. intros [->%elem_of_singleton|Hid]%elem_of_union.
    + by exists task.
    + destruct (Ia id Hid) as (t & H1 & H2 & H3 & H4). exists t.
      assert (id ≠ task_id task) by congruence. rewrite Hto by done. split_and!; try done.
      rewrite Hco; [done|]. intros E. rewrite E in H4. by apply Hexp in H4.
  - intros h id e. destruct (decide (content_active_key h = content_active_key (content_hash task))) as [E|E].
    + rewrite E, Hc. intros [= <- <-]. exists task, None. split_and!; try done. left. rewrite Ha. set_solver.
    + rewrite Hco by done. intros (t & e' & H1 & H2 & H3 & H4)%Ic. exists t, e'.
      assert (id ≠ task_id task) by congruence. rewrite Hto by done. split_and!; try done.
      rewrite Ha. set_solver.
  - intros id v e. destruct (decide (id = task_id task)) as [->|Hne].
    + rewrite Ht. intros [= <- <-]. exists task. rewrite Ha. set_solver.
    + rewrite Hto by done. intros (t & ? & ? & ?)%Ir. exists t. rewrite Ha. set_solver.
Qed.

Lemma done_script_effects t d (d' := (done_script t d).2) (k := content_active_key (content_hash t)) :
  strings d' !! task_key (task_id t) = Some (task_to_json t, Some (now d + TASK_DONE_TTL)) ∧
  (∀ id, id ≠ task_id t → strings d' !! task_key id = strings d !! task_key id) ∧
  strings d' !! k = (if bool_decide (redis_get k d = Some (task_id t))
    then Some (task_id t, Some (now d + TASK_DONE_TTL)) else strings d !! k) ∧
  (∀ h, content_active_key h ≠ k → strings d' !! content_active_key h = strings d !! content_active_key h) ∧
  active d' = active d ∖ {[task_id t]} ∧ now d' = now d.
Proof.
  subst d' k. unfold done_script. cbn [snd foldl].
  set (d1 := redis_zrem _ _ _). set (d2 := expire_if_mine _ _ _ d1).
  assert (Hd1 : strings d1 = <[task_key (task_id t) :=
    (task_to_json t, Some (now d + TASK_DONE_TTL))]> (strings d)) by done.
  assert (Hk : ∀ k0, (∀ p, k0 ≠ key_active_key p) → strings (foldl (λ d k,
    expire_if_mine (task_id t) TASK_DONE_TTL k d) d2 (member_key_placeholders t)) !! k0 = strings d2 !! k0).
  { intros k0 Hk0. apply fold_strings; [intros; by apply expire_frame|].
    intros (p & ->)%placeholders_elem. by eapply Hk0. }
  assert (Hget : redis_get (content_active_key (content_hash t)) d1 =
    redis_get (content_active_key (content_hash t)) d).
  { unfold redis_get. rewrite Hd1, lookup_insert_ne by apply task_content_ne. done. }
  split_and!.
  - rewrite Hk by apply task_member_ne. subst d2.
    rewrite expire_frame, Hd1 by (symmetry; apply task_content_ne). apply lookup_insert_eq.
  - intros id Hid. rewrite Hk by apply task_member_ne. subst d2.
    rewrite expire_frame, Hd1 by (symmetry; apply task_content_ne).
    apply lookup_insert_ne. by intros ?%task_key_inj.
  - rewrite Hk by apply content_member_ne. subst d2. unfold expire_if_mine. rewrite Hget.
    case_bool_decide as Hm.
    + unfold redis_pexpire. rewrite Hget, Hm. simpl. apply lookup_insert_eq.
    + rewrite Hd1. apply lookup_insert_ne, task_content_ne.
  - intros h Hh. rewrite Hk by apply content_member_ne. subst d2.
    rewrite expire_frame, Hd1 by done. apply lookup_insert_ne, task_content_ne.
  - unfold active. rewrite fold_sets by (intros; apply expire_rest).
    subst d2. rewrite (proj1 (expire_rest _ _ _ _)). simpl. by rewrite lookup_insert_eq.
  - rewrite fold_now by (intros; apply expire_rest). apply (proj2 (expire_rest _ _ _ d1)).
Qed.

Lemma failed_script_effects t d (d' := (failed_script t d).2) (k := content_active_key (content_hash t)) :
  strings d' !! task_key (task_id t) = Some (task_to_json t, Some (now d + TASK_FAILED_TTL)) ∧
  (∀ id, id ≠ task_id t → strings d' !! task_key id = strings d !! task_key id) ∧
  strings d' !! k = (if bool_decide (redis_get k d = Some (task_id t)) then None else strings d !! k) ∧
  (∀ h, content_active_key h ≠ k → strings d' !! content_active_key h = strings d !! content_active_key h) ∧
  active d' = active d ∖ {[task_id t]} ∧ now d' = now d.
Proof.
  subst d' k. unfold failed_script. cbn [snd foldl].
  set (d1 := redis_sadd dlq_set_key _ _). set (d2 := del_if_mine _ _ d1).
  assert (Hd1 : strings d1 = <[task_key (task_id t) :=
    (task_to_json t, Some (now d + TASK_FAILED_TTL))]> (strings d)) by done.
  assert (Hk : ∀ k0, (∀ p, k0 ≠ key_active_key p) → strings (foldl (λ d k,
    del_if_mine (task_id t) k d) d2 (member_key_placeholders t)) !! k0 = strings d2 !! k0).
  { intros k0 Hk0. apply fold_strings; [intros; by apply del_frame|].
    intros (p & ->)%placeholders_elem. by eapply Hk0. }
  assert (Hget : redis_get (content_active_key (content_hash t)) d1 =
    redis_get (content_active_key (content_hash t)) d).
  { unfold redis_get. rewrite Hd1, lookup_insert_ne by apply task_content_ne. done. }
  split_and!.
  - rewrite Hk by apply task_member_ne. subst d2.
    rewrite del_frame, Hd1 by (symmetry; apply task_content_ne). apply lookup_insert_eq.
  - intros id Hid. rewrite Hk by apply task_member_ne. subst d2.
    rewrite del_frame, Hd1 by (symmetry; apply task_content_ne).
    apply lookup_insert_ne. by intros ?%task_key_inj.
  - rewrite Hk by apply content_member_ne. subst d2. unfold del_if_mine. rewrite Hget.
    case_bool_decide as Hm; [apply lookup_delete_eq|].
    rewrite Hd1. apply lookup_insert_ne, task_content_ne.
  - intros h Hh. rewrite Hk by apply content_member_ne. subst d2.
    rewrite del_frame, Hd1 by done. apply lookup_insert_ne, task_content_ne.
  - unfold active. rewrite fold_sets by (intros; apply del_rest).
    subst d2. rewrite (proj1 (del_rest _ _ _)). subst d1. simpl.
    rewrite lookup_insert_ne by done. by rewrite lookup_insert_eq.
  - rewrite fold_now by (intros; apply del_rest). apply (proj2 (del_rest _ _ d1)).
Qed.

(** A worker's copy names the stored record's content. *)
Lemma worker_read_record d t :
  worker_read d t → ∃ t0 e, strings d !! task_key (task_id t) = Some (task_to_json t0, e) ∧
    expired (now d) e = false ∧ content_hash t0 = content_hash t ∧ task_id t0 = task_id t ∧
    status t0 = status t.
Proof. intros (t0 & e & ? & ? & [-> | ->]); eauto 10. Qed.

(** The content key of the task being settled, when it is this task's. *)
Lemma inv_settle d d' t t' x :
  store_inv d → worker_read d t → task_id t' = task_id t → content_hash t' = content_hash t →
  status t' ≠ Pending →
  strings d' !! task_key (task_id t) = Some (task_to_json t', Some x) →
  (∀ id, id ≠ task_id t → strings d' !! task_key id = strings d !! task_key id) →
  (strings d' !! content_active_key (content_hash t) =
    (if bool_decide (redis_get (content_active_key (content_hash t)) d = Some (task_id t))
     then match status t' with Done => Some (task_id t, Some x) | _ => None end
     else strings d !! content_active_key (content_hash t))) →
  (∀ h, content_active_key h ≠ content_active_key (content_hash t) →
    strings d' !! content_active_key h = strings d !! content_active_key h) →
  active d' = active d ∖ {[task_id t]} → store_inv d'.
Proof.
  intros [Ia Ic Ir] (t0 & e0 & Hrec & Hlive & Hch & Hid0 & _)%worker_read_record Hid Hh Hst Ht Hto Hc Hco Ha.
  (* the content entries of other tasks are untouched, those of [t] are its own *)
  assert (Hmine : ∀ k e, (∃ h, k = content_active_key h) → strings d !! k = Some (task_id t, e) →
    k = content_active_key (content_hash t) ∧ e = e0 ∧ redis_get k d = Some (task_id t)).
  { intros k e (h & ->) Hk. destruct (Ic _ _ _ Hk) as (t1 & e' & H1 & _ & H3 & H4).
    rewrite Hrec in H1. injection H1 as E <-. apply task_to_json_inj in E as <-.
    assert (e = e0) as -> by naive_solver.
    split_and!; [by rewrite <-H3, Hch|done|]. apply redis_get_some. eauto. }
  split.
  - intros id. rewrite Ha. intros [Hin Hne]%elem_of_difference.
    assert (id ≠ task_id t) by set_solver.
    destruct (Ia id Hin) as (t1 & H1 & H2 & H3 & H4). exists t1. rewrite Hto by done.
    split_and!; try done.
    destruct (decide (content_active_key (content_hash t1) = content_active_key (content_hash t))) as [E|E];
      [|by rewrite Hco].
    rewrite E, Hc in *. case_bool_decide as Hm; [|done].
    apply redis_get_some in Hm as (e & Hm & _). congruence.
  - intros h id e He.
    destruct (decide (content_active_key h = content_active_key (content_hash t))) as [E|E].
    + rewrite E, Hc in He. case_bool_decide as Hm.
      * destruct (status t') eqn:Hs; try done. injection He as <- <-.
        exists t', (Some x). split_and!; [done..|by rewrite E, Hh|]. right. eauto.
      * assert (id ≠ task_id t).
        { intros ->. destruct (Hmine _ e (ex_intro _ _ eq_refl) He) as (_ & _ & ?). done. }
        rewrite <-E in He. destruct (Ic _ _ _ He) as (t1 & e' & H1 & H2 & H3 & H4).
        exists t1, e'. rewrite Hto by done. split_and!; try done.
        rewrite Ha. set_solver.
    + rewrite Hco in He by done. assert (id ≠ task_id t).
      { intros ->. by destruct (Hmine _ e (ex_intro _ _ eq_refl) He) as (? & _). }
      destruct (Ic _ _ _ He) as (t1 & e' & H1 & H2 & H3 & H4).
      exists t1, e'. rewrite Hto by done. split_and!; try done. rewrite Ha. set_solver.
  - intros id v e. destruct (decide (id = task_id t)) as [->|Hne].
    + rewrite Ht. intros [= <- <-]. by exists t'.
    + rewrite Hto by done. intros (t1 & ? & ? & ?)%Ir. exists t1. rewrite Ha. set_solver.
Qed.

(** Rewriting a pending task's own record keeps the invariant. *)
Lemma inv_rewrite d t t' :
  store_inv d → worker_read d t → status t = Pending → status t' = Pending →
  task_id t' = task_id t → content_hash t' = content_hash t →
  store_inv (with_strings (<[task_key (task_id t) := (task_to_json t', None)]>) d).
Proof.
  intros [Ia Ic Ir] (t0 & e0 & Hrec & Hlive & Hch & Hid0 & Hst0)%worker_read_record Hst Hst' Hid Hh.
  assert (Hto : ∀ id, id ≠ task_id t → strings (with_strings (<[task_key (task_id t) :=
    (task_to_json t', None)]>) d) !! task_key id = strings d !! task_key id).
  { intros id Hne. apply lookup_insert_ne. by intros ?%task_key_inj. }
  assert (Hco : ∀ h, strings (with_strings (<[task_key (task_id t) :=
    (task_to_json t', None)]>) d) !! content_active_key h = strings d !! content_active_key h).
  { intros h. apply lookup_insert_ne, task_content_ne. }
  destruct (Ir _ _ _ Hrec) as (t1 & E & _ & H1). apply task_to_json_inj in E as <-.
  destruct H1 as [-> Hact]; [congruence|].
  split.
  - intros id Hin. destruct (Ia id Hin) as (t1 & H1 & H2 & H3 & H4).
    destruct (decide (id = task_id t)) as [->|Hne].
    + rewrite Hrec in H1. injection H1 as E. apply task_to_json_inj in E as <-.
      exists t'. rewrite Hco, Hh, <-Hch. split_and!; try done. apply lookup_insert_eq.
    + exists t1. by rewrite Hto, Hco.
  - intros h id e. rewrite Hco. intros (t1 & e' & H1 & H2 & H3 & H4)%Ic.
    destruct (decide (id = task_id t)) as [->|Hne].
    + rewrite Hrec in H1. injection H1 as E <-. apply task_to_json_inj in E as <-.
      exists t', None. split_and!; [apply lookup_insert_eq|done|by rewrite Hh, <-Hch|].
      destruct H4 as [(?&?&_&?)|(?&?&?)]; [by left|congruence].
    + exists t1, e'. by rewrite Hto.
  - intros id v e. destruct (decide (id = task_id t)) as [->|Hne].
    + simpl. rewrite lookup_insert_eq. intros [= <- <-]. by exists t'.
    + rewrite Hto by done. apply Ir.
Qed.

Lemma retried_pending message t :
  status t = Pending → retries (retried_task message t) < 10 →
  status (retried_task message t) = Pending ∧ task_id (retried_task message t) = task_id t ∧
  content_hash (retried_task message t) = content_hash t.
Proof.
  intros Hs. unfold retried_task. cbn [retries set_error set_retries set_status].
  case_match eqn:E; cbn; [lia|done].
Qed.

Lemma retried_failed message t :
  10 ≤ retries (retried_task message t) →
  status (retried_task message t) = Failed ∧ task_id (retried_task message t) = task_id t ∧
  content_hash (retried_task message t) = content_hash t.
Proof.
  unfold retried_task. cbn [retries set_error set_retries set_status].
  case_match eqn:E; cbn; [done|lia].
Qed.

Lemma inv_failed d t t' :
  store_inv d → worker_read d t → task_id t' = task_id t → content_hash t' = content_hash t →
  status t' = Failed → store_inv (failed_script t' d).2.
Proof.
  intros Hi Hw Hid Hh Hs. destruct (failed_script_effects t' d) as (H1 & H2 & H3 & H4 & H5 & _).
  rewrite Hid, Hh in *. eapply inv_settle; eauto; [congruence|].
  rewrite H3. by rewrite Hs.
Qed.

Lemma inv_step d d' : store_inv d → store_step d d' → store_inv d'.
Proof.
  intros Hi [task Hst Hf|t Hs|t tx n Hw|t msg Hw Hs Hr|t msg Hw Hs Hr|t p msg Hw|d'' Hf].
  - by apply inv_admit.
  - unfold cas_script. case_bool_decide as Hc; [|done]. simpl.
    apply redis_get_some in Hc as (e & Hrec & Hlive). unfold redis_set_keep.
    rewrite Hrec, Hlive.
    destruct (inv_records d Hi _ _ _ Hrec) as (t1 & E & _ & H1). apply task_to_json_inj in E as <-.
    destruct (H1 Hs) as [-> _].
    apply (inv_rewrite d t); try done. exists t, None. auto.
  - destruct (done_script_effects (done_task tx n t) d) as (H1 & H2 & H3 & H4 & H5 & _).
    by eapply (inv_settle d _ t (done_task tx n t)); eauto.
  - destruct (retried_pending msg t Hs Hr) as (? & ? & ?). by apply (inv_rewrite d t).
  - destruct (retried_failed msg t Hr) as (? & ? & ?). by eapply inv_failed.
  - by eapply inv_failed.
  - by eapply inv_frame.
Qed.

(** ** Reachable stores *)

Definition initial (d : Redis) : Prop := strings d = ∅ ∧ sets d = ∅.
Definition reachable (d : Redis) : Prop := ∃ d0, initial d0 ∧ rtc store_step d0 d.

Lemma inv_initial d : initial d → store_inv d.
Proof.
  intros [Hs Ha]. split.
  - intros id. unfold active. rewrite Ha. set_solver.
  - intros h id e. by rewrite Hs, lookup_empty.
  - intros id v e. by rewrite Hs, lookup_empty.
Qed.

Lemma inv_reachable d : reachable d → store_inv d.
Proof.
  intros (d0 & H0%inv_initial & Hr). induction Hr as [|d1 d2 d3 H12 _ IH]; [done|].
  apply IH. by eapply inv_step.
Qed.

Lemma reachable_step d d' : reachable d → store_step d d' → reachable d'.
Proof. intros (d0 & H0 & Hr) Hs. exists d0. split; [done|]. by eapply rtc_r. Qed.

(** ** Operations are made of steps *)

Lemma query_db {A} (command : Redis → A * Redis) w :
  db (query command w).2 = db w ∨ db (query command w).2 = (command (db w)).2.
Proof.
  unfold query. destruct (faults w) as [|[] fs]; try (destruct (command (db w))); simpl; auto.
Qed.

Lemma query_ok {A} (command : Redis → A * Redis) w a w' :
  query command w = (Ok a, w') → command (db w) = (a, db w').
Proof.
  unfold query. destruct (faults w) as [|[] fs]; try done; destruct (command (db w)); by intros [= <- <-].
Qed.

Lemma bind_db {A B} (P : Redis → Prop) (m : St A) (f : A → St B) w :
  P (db (m w).2) → (∀ a w', m w = (Ok a, w') → P (db (f a w').2)) → P (db (st_bind m f w).2).
Proof. unfold st_bind. destruct (m w) as [[a|e] w']; simpl; auto. Qed.

(** A read-only command leaves the store as it is. *)
Lemma read_db {A} (g : Redis → A) w : db (query (λ d, (g d, d)) w).2 = db w.
Proof. by destruct (query_db (λ d, (g d, d)) w). Qed.

Lemma get_task_db id w : db (get_task id w).2 = db w.
Proof.
  unfold get_task, st_bind. pose proof (read_db (redis_get (task_key id)) w) as H.
  by destruct (query _ w) as [[a|e] w'].
Qed.

Lemma get_task_ok id w t w' :
  get_task id w = (Ok (Some t), w') → store_inv (db w) →
  db w' = db w ∧ task_id t = id ∧ worker_read (db w') t.
Proof.
  intros H Hi. unfold get_task, st_bind in H.
  destruct (query _ w) as [[v|e] w1] eqn:Hq; [|done]. injection H as Hv <-.
  apply query_ok in Hq. injection Hq as Hv0 Hdb. rewrite <-Hdb. split; [done|].
  destruct v as [v|]; [|done]. apply redis_get_some in Hv0 as (e & Hrec & Hlive).
  destruct (inv_records _ Hi _ _ _ Hrec) as (t1 & -> & Hid & _).
  simpl in Hv. rewrite task_json_roundtrip in Hv. injection Hv as ->.
  split; [done|]. exists t, e. rewrite Hid. auto.
Qed.

(** The calls of the service on its store, with what it guarantees first:
    admitted tasks are new (a fresh UUID) and pending. *)
Inductive store_call (d : Redis) : ∀ {A}, St A → Prop :=
| call_admit task : status task = Pending → strings d !! task_key (task_id task) = None →
    store_call d (admit_task task)
| call_get id : store_call d (get_task id)
| call_find_content h : store_call d (find_by_content h)
| call_find_key k : store_call d (find_by_public_key k)
| call_find_digest k : store_call d (find_by_retry_digest k)
| call_record_digest k id ttl : store_call d (record_retry_digest k id ttl)
| call_mark_admitted id : store_call d (mark_admitted id)
| call_mark_done id tx n : store_call d (mark_done id tx n)
| call_transient id msg : store_call d (record_transient_failure id msg)
| call_mark_failed id p msg : store_call d (mark_failed id p msg)
| call_stats : store_call d queue_stats
| call_record_tx r n h s a f : store_call d (record_pending_tx r n h s a f)
| call_delete_tx r n : store_call d (delete_pending_tx r n)
| call_list_tx b : store_call d (list_pending_txs b)
| call_ip ip : store_call d (allow_ip_create ip)
| call_global n : store_call d (allow_global_create n)
| call_read ip : store_call d (allow_read_ ip)
| call_cache_get k l : store_call d (cache_get k l)
| call_cache_set k v b : store_call d (cache_set k v b)
| call_cache_negative k : store_call d (cache_set_negative k).

Lemma frame_refl d : frame d d.
Proof. repeat split; lia. Qed.

Lemma frame_same d d' :
  strings d' = strings d → sets d' = sets d → now d' = now d → frame d d'.
Proof. intros H1 H2 H3. unfold frame, active. rewrite H1, H2, H3. repeat split; lia. Qed.

Lemma frame_string k f d :
  (∀ id, k ≠ task_key id) → (∀ h, k ≠ content_active_key h) →
  (∀ m k', k' ≠ k → f m !! k' = m !! k') → frame d (with_strings f d).
Proof. intros H1 H2 Hf. split_and!; try done; intros; simpl; apply Hf; done. Qed.

Lemma reach_query {A} (command : Redis → A * Redis) w :
  reachable (db w) → (store_step (db w) (command (db w)).2) → reachable (db (query command w).2).
Proof. intros Hr Hs. destruct (query_db command w) as [-> | ->]; [done|]. by eapply reachable_step. Qed.

Lemma reach_frame {A} (command : Redis → A * Redis) w :
  reachable (db w) → frame (db w) (command (db w)).2 → reachable (db (query command w).2).
Proof. intros Hr Hf. apply reach_query; [done|]. by apply step_frame. Qed.

Lemma reach_read {A} (g : Redis → A) w : reachable (db w) → reachable (db (query (λ d, (g d, d)) w).2).
Proof. by rewrite read_db. Qed.

Lemma reach_find k w : reachable (db w) → reachable (db (find_by_index k w).2).
Proof.
  intros Hr. unfold find_by_index. apply bind_db; [by apply reach_read|].
  intros o w' Hq. apply query_ok in Hq as [= _ E].
  destruct o; cbn [st_ret snd]; rewrite ?get_task_db; by rewrite <-E.
Qed.

(** After reading a task, the rest may only settle, rewrite or admit it. *)
Lemma reach_after_get {A} id (f : option RegisterTask → St A) w :
  reachable (db w) →
  (∀ w', reachable (db w') → reachable (db (f None w').2)) →
  (∀ t w', reachable (db w') → task_id t = id → worker_read (db w') t → reachable (db (f (Some t) w').2)) →
  reachable (db (st_bind (get_task id) f w).2).
Proof.
  intros Hr Hn Hs. apply bind_db; [by rewrite get_task_db|].
  intros [t|] w' Hg.
  - apply get_task_ok in Hg as (Hdb & Hid & Hw); [|by apply inv_reachable].
    apply Hs; [by rewrite Hdb|done|done].
  - apply Hn. pose proof (get_task_db id w) as H. rewrite Hg in H. simpl in H. by rewrite H.
Qed.

Lemma reach_then_ret {A B} (m : St A) (b : A → B) w :
  reachable (db (m w).2) → reachable (db (st_bind m (λ a, st_ret (b a)) w).2).
Proof. intros H. apply bind_db; [done|]. intros a w' E. by rewrite E in H. Qed.

Lemma frame_incr k d :
  (∀ id, k ≠ task_key id) → (∀ h, k ≠ content_active_key h) → frame d (redis_incr k d).2.
Proof.
  intros H1 H2. unfold redis_incr. cbn [snd]. unfold redis_set_keep, redis_del.
  assert (Hd : ∀ d', (d' = d ∨ d' = with_strings (delete k) d) → ∀ e v, frame d (with_strings (<[k := (v, e)]>) d')).
  { intros d' [-> | ->] e v; split_and!; try done; intros; simpl;
      rewrite lookup_insert_ne, ?lookup_delete_ne by done; done. }
  apply Hd. case_match; auto.
Qed.

Lemma frame_pexpire k ttl d :
  (∀ id, k ≠ task_key id) → (∀ h, k ≠ content_active_key h) → frame d (redis_pexpire k ttl d).
Proof.
  intros H1 H2. unfold redis_pexpire. case_match; [|apply frame_refl].
  apply (frame_string k); try done. intros. by apply lookup_insert_ne.
Qed.

Lemma reach_increment k w :
  (∀ id, k ≠ task_key id) → (∀ h, k ≠ content_active_key h) → reachable (db w) →
  reachable (db (increment_minute k w).2).
Proof.
  intros H1 H2 Hr. unfold increment_minute.
  assert (Hq : reachable (db (query (redis_incr k) w).2)) by (apply reach_frame; [done|by apply frame_incr]).
  apply bind_db; [done|]. intros n w' Hn. rewrite Hn in Hq. simpl in Hq.
  case_match; [|done]. apply reach_then_ret, reach_frame; [done|by apply frame_pexpire].
Qed.

Lemma cache_key_ne k : (∀ id, cache_key k ≠ task_key id) ∧ (∀ h, cache_key k ≠ content_active_key h).
Proof. split; by intros ? [=]. Qed.

Lemma reach_write_cache k v f r w : reachable (db w) → reachable (db (write_cache k v f r w).2).
Proof.
  intros Hr. unfold write_cache. apply bind_db; [done|]. intros n w' [= _ <-].
  apply reach_frame; [done|]. apply (frame_string (cache_key k)); try apply cache_key_ne.
  intros. by apply lookup_insert_ne.
Qed.

Lemma reach_transition_failed t t' w :
  reachable (db w) → worker_read (db w) t →
  store_step (db w) (failed_script t' (db w)).2 → reachable (db (transition_failed t' w).2).
Proof. intros Hr Hw Hs. by apply reach_query. Qed.

Lemma retried_retries message t :
  retries (retried_task message t) = sat_add U32_MAX (retries t) 1.
Proof. unfold retried_task. by case_match. Qed.

Lemma reach_transient id msg w :
  reachable (db w) → reachable (db (record_transient_failure id msg w).2).
Proof.
  intros Hr. unfold record_transient_failure. apply reach_after_get; [done|done|].
  intros t w' Hr' Hid Hw. destruct (is_terminal (status t)) eqn:Ht; [done|].
  assert (Hp : status t = Pending) by (by destruct (status t)).
  destruct (Z.leb_spec 10 (retries (retried_task msg t))).
  - apply reach_then_ret, reach_query; [done|]. by apply step_exhausted.
  - apply reach_then_ret, reach_query; [done|]. cbn [snd].
    destruct (retried_pending msg t Hp) as (_ & -> & _); [lia|]. apply step_retry; [done..|lia].
Qed.

Lemma reach_call {A} (m : St A) w :
  store_call (db w) m → reachable (db w) → reachable (db (m w).2).
Proof.
  intros Hc Hr. destruct Hc as [task Hs Hf|id|h|k|k|k id ttl|id|id tx n|id msg|id p msg| |r n h s a f
    |r n|b|ip|n|ip|k l|k v b|k].
  - unfold admit_task. apply bind_db; [apply reach_query; [done|by apply step_admit]|].
    intros resp w' Hq. assert (Hr' : reachable (db w')).
    { assert (reachable (db (query (admit_script task) w).2)) as H
        by (apply reach_query; [done|by apply step_admit]). by rewrite Hq in H. }
    destruct (split_once _ _) as [[kind rest]|]; [|done].
    by repeat (case_match; try done).
  - by rewrite get_task_db.
  - by apply reach_find.
  - by apply reach_find.
  - by apply reach_find.
  - apply reach_frame; [done|]. apply (frame_string (retry_digest_key k)).
    + intros i. apply not_eq_sym, task_retry_ne.
    + intros h. apply not_eq_sym, content_retry_ne.
    + intros. by apply lookup_insert_ne.
  - unfold mark_admitted. apply reach_after_get; [done|done|]. intros t w' Hr' Hid Hw.
    destruct (is_terminal (status t)) eqn:Ht; [done|].
    assert (Hp : status t = Pending) by (by destruct (status t)).
    assert (Hq : reachable (db (query (cas_script (task_key id) (task_to_json t)
      (task_to_json (set_admitted true t))) w').2)).
    { apply reach_query; [done|]. rewrite <-Hid. by apply step_cas. }
    apply bind_db; [done|]. intros [] w2 E; rewrite E in Hq; [done|]. by rewrite get_task_db.
  - unfold mark_done. apply reach_after_get; [done|done|]. intros t w' Hr' Hid Hw.
    apply reach_then_ret, reach_query; [done|]. by apply step_done.
  - by apply reach_transient.
  - unfold mark_failed. apply reach_after_get; [done|done|]. intros t w' Hr' Hid Hw.
    apply reach_then_ret, reach_query; [done|]. by apply step_failed.
  - unfold queue_stats. do 3 (apply bind_db; [by apply reach_read|]; intros ? ? E%query_ok;
      injection E as _ E; rewrite E in Hr; clear E). done.
  - apply reach_frame; [done|]. by apply frame_same.
  - apply reach_frame; [done|]. by apply frame_same.
  - unfold list_pending_txs. by apply reach_then_ret, reach_read.
  - by apply reach_then_ret, reach_increment.
  - by apply reach_then_ret, reach_increment.
  - by apply reach_then_ret, reach_increment.
  - unfold cache_get. apply bind_db; [by apply reach_read|]. intros o w' E%query_ok.
    injection E as _ E. rewrite E in Hr. destruct o as [v|]; [|done].
    apply bind_db; [by destruct (cache_of_json v)|]. intros c w2 Hl.
    assert (w2 = w') as -> by (destruct (cache_of_json v); by inversion Hl).
    apply bind_db; [done|]. intros n w3 [= _ <-]. by repeat case_match.
  - unfold cache_set. by apply reach_write_cache.
  - unfold cache_set_negative. by apply reach_write_cache.
Qed.
End invariant.
