(* ===== verification/StoreConcrete.v ===== *)
(** * A concrete codec of the stored records

    An executable [StoreCodec]: records go through [Concrete]'s
    self-delimiting value coder.  Used to evaluate the store on examples. *)
From Stdlib Require Import Ascii String Strings.Byte.
From S2P Require Export Store Concrete.
From stdpp Require Import options.

Definition to_text (v : AbiValue) : string := string_of_list_byte (enc_values [v]).
Definition of_text (s : string) : option AbiValue :=
  let b := list_byte_of_string s in
  match dec_list (dec_value (length b)) (length b) b with
  | Some ([v], _) => Some v
  | _ => None
  end.

Lemma of_to_text v : of_text (to_text v) = Some v.
Proof.
  unfold of_text, to_text. rewrite list_byte_of_string_of_list_byte. by rewrite dec_enc_values.
Qed.

(** ** Options *)

Definition v_opt {A} (f : A → AbiValue) (o : option A) : AbiValue :=
  VSeq (match o with Some a => [f a] | None => [] end).
Definition opt_v {A} (g : AbiValue → option A) (v : AbiValue) : option (option A) :=
  match v with
  | VSeq [] => Some None
  | VSeq [v] => a ← g v; Some (Some a)
  | _ => None
  end.

Lemma opt_v_opt {A} (f : A → AbiValue) g o :
  (∀ a, g (f a) = Some a) → opt_v g (v_opt f o) = Some o.
Proof. intros H. destruct o as [a|]; simpl; [|done]. by rewrite H. Qed.

Definition str_v (v : AbiValue) : option string := match v with VString s => Some s | _ => None end.
Definition num_v (v : AbiValue) : option Z := match v with VUint n => Some n | _ => None end.

(** ** Tasks *)

Definition v_proof (p : Proof_) : AbiValue :=
  VSeq [VString (authenticator_data p); VString (client_data_json p); VUint (challenge_index p);
        VUint (type_index p); VString (proof_r p); VString (proof_s p)].
Definition proof_v (v : AbiValue) : option Proof_ :=
  match v with
  | VSeq [VString a; VString c; VUint i; VUint t; VString r; VString s] => Some (mkProof a c i t r s)
  | _ => None
  end.

Definition v_member (m : Member) : AbiValue :=
  VSeq [VString (public_key m); VString (attestation m); VString (credential_id m);
        VString (authenticator_attachment m); VString (transports m); v_proof (proof m)].
Definition member_v (v : AbiValue) : option Member :=
  match v with
  | VSeq [VString k; VString a; VString c; VString h; VString t; p] =>
      p ← proof_v p; Some (mkMember k a c h t p)
  | _ => None
  end.

Definition v_status (s : TaskStatus) : AbiValue :=
  VUint (match s with Pending => 0 | Done => 1 | Failed => 2 end).
Definition status_v (v : AbiValue) : option TaskStatus :=
  match v with VUint 0 => Some Pending | VUint 1 => Some Done | VUint 2 => Some Failed | _ => None end.

Definition v_kind (k : TaskKind) : AbiValue := VBool (match k with Register => true | Refer => false end).
Definition kind_v (v : AbiValue) : option TaskKind :=
  match v with VBool b => Some (if b then Register else Refer) | _ => None end.

Definition v_task (t : RegisterTask) : AbiValue :=
  VSeq [VString (task_id t); v_status (status t); v_kind (kind t); VString (rp_id t);
        VString (metadata t); VString (content_hash t); VString (group_public_key t);
        v_opt v_proof (group_proof t); VSeq (v_member <$> members t); v_opt VString (tx_hash t);
        v_opt VUint (on_chain_id t); v_opt VString (task_error t); VUint (retries t);
        VUint (created_at t); VBool (admitted t)].
Definition task_v (v : AbiValue) : option RegisterTask :=
  match v with
  | VSeq [VString id; st; k; VString rp; VString md; VString ch; VString gk; gp; VSeq ms; tx; oc; er;
          VUint rt; VUint ca; VBool ad] =>
      st ← status_v st; k ← kind_v k; gp ← opt_v proof_v gp; ms ← mapM member_v ms;
      tx ← opt_v str_v tx; oc ← opt_v num_v oc; er ← opt_v str_v er;
      Some (mkTask id st k rp md ch gk gp ms tx oc er rt ca ad)
  | _ => None
  end.

Lemma proof_v_proof p : proof_v (v_proof p) = Some p.
Proof. by destruct p. Qed.
Lemma member_v_member m : member_v (v_member m) = Some m.
Proof. destruct m. cbn -[proof_v v_proof]. by rewrite proof_v_proof. Qed.

Lemma task_v_task t : task_v (v_task t) = Some t.
Proof.
  destruct t as [id st k rp md ch gk gp ms tx oc er rt ca ad]. unfold v_task.
  cbn [task_v task_id status kind rp_id metadata content_hash group_public_key group_proof members
       tx_hash on_chain_id task_error retries created_at admitted].
  assert (status_v (v_status st) = Some st) as -> by by destruct st.
  assert (kind_v (v_kind k) = Some k) as -> by by destruct k.
  assert (mapM member_v (v_member <$> ms) = Some ms) as Hm.
  { apply mapM_Some. apply Forall2_fmap_l. induction ms; constructor; auto using member_v_member. }
  cbn [mbind option_bind].
  rewrite (opt_v_opt v_proof proof_v) by apply proof_v_proof.
  cbn [mbind option_bind]. rewrite Hm. cbn [mbind option_bind].
  by rewrite !opt_v_opt.
Qed.

(** ** JSON values *)

Fixpoint v_json (j : Json) : AbiValue :=
  match j with
  | JNull => VSeq []
  | JBool b => VBool b
  | JNum n => VUint n
  | JStr s => VString s
  | JArr l => VSeq [VUint 0; VSeq (map v_json l)]
  | JObj l => VSeq [VUint 1; VSeq (map (λ '(k, j), VSeq [VString k; v_json j]) l)]
  end.

Fixpoint json_v (v : AbiValue) : Json :=
  match v with
  | VBool b => JBool b
  | VUint n => JNum n
  | VString s => JStr s
  | VSeq [VUint 0; VSeq l] => JArr (map json_v l)
  | VSeq [VUint 1; VSeq l] =>
      JObj (map (λ v, match v with
                      | VSeq [VString k; w] => (k, json_v w)
                      | _ => (EmptyString, JNull)
                      end) l)
  | _ => JNull
  end.

Lemma json_v_json : ∀ j, json_v (v_json j) = j.
Proof.
  fix IH 1. intros [| | | |l|l]; cbn; [reflexivity..|f_equal|f_equal].
  - induction l as [|j l IHl]; cbn; [reflexivity|]. rewrite IH, IHl. reflexivity.
  - induction l as [|[k j] l IHl]; cbn; [reflexivity|]. rewrite IH, IHl. reflexivity.
Qed.

(** ** The codec *)

Definition v_cache (c : CacheEntry) : AbiValue :=
  VSeq [v_opt v_json (ce_value c); VUint (ce_stored_at_ms c); VUint (ce_fresh_until_ms c)].
Definition cache_v (v : AbiValue) : option CacheEntry :=
  match v with
  | VSeq [o; VUint s; VUint f] => o ← opt_v (Some ∘ json_v) o; Some (mkCacheEntry o s f)
  | _ => None
  end.

Definition v_pending (p : PendingTxEntry) : AbiValue :=
  VSeq [VString (pe_hash p); VUint (pe_sent_at_ms p); VUint (pe_attempts p);
        v_opt VString (pe_max_fee_wei p); v_opt VString (pe_max_priority_fee_wei p)].
Definition pending_v (v : AbiValue) : option PendingTxEntry :=
  match v with
  | VSeq [VString h; VUint s; VUint a; f; p] =>
      f ← opt_v str_v f; p ← opt_v str_v p; Some (mkPendingTxEntry h s a f p)
  | _ => None
  end.

Definition concrete_codec : StoreCodec.
Proof.
  refine {|
    task_to_json t := to_text (v_task t); task_of_json s := of_text s ≫= task_v;
    cache_to_json c := to_text (v_cache c); cache_of_json s := of_text s ≫= cache_v;
    pending_to_json p := to_text (v_pending p); pending_of_json s := of_text s ≫= pending_v |}.
  - intros t. rewrite of_to_text. apply task_v_task.
  - intros [v s f] _. rewrite of_to_text. cbn -[opt_v v_opt].
    rewrite opt_v_opt; [done|]. intros a. cbn. by rewrite json_v_json.
  - intros [h s a f p]. rewrite of_to_text. cbn -[opt_v v_opt].
    by rewrite !opt_v_opt.
Defined.
