(* ===== verification/StoreFacts.v ===== *)
(** * What the store guarantees

    The safety of every reachable store, the retry ladder of a failing task,
    idempotent admission under lost replies, the life of a cached body and
    the rate limiter's windows; each with a run on a concrete store. *)
From Stdlib Require Import Ascii String Strings.Byte.
From S2P Require Export StoreInv StoreConcrete.
From stdpp Require Import options.

(** ** Decimal text *)

Lemma parse_digits_pretty x s :
  parse_digits 0 (pretty_N_go x s) = parse_digits (Z.of_N x) s.
Proof.
  revert s. induction (N.lt_wf_0 x) as [x _ IH]; intros s.
  destruct (decide (x = 0)%N) as [->|Hx]; [done|].
  rewrite pretty_N_go_step by lia. rewrite IH by (apply N.div_lt; lia). cbn [parse_digits].
  assert (Hm : (x `mod` 10 < 10)%N) by (by apply N.mod_lt).
  assert (digit_value (pretty_N_char (x `mod` 10)) = Some (Z.of_N (x `mod` 10))) as ->.
  { set (m := (x `mod` 10)%N) in *.
    assert (m = 0 ∨ m = 1 ∨ m = 2 ∨ m = 3 ∨ m = 4 ∨ m = 5 ∨ m = 6 ∨ m = 7 ∨ m = 8 ∨ m = 9)%N as H by lia.
    by repeat destruct H as [-> | H]; [..|rewrite H]. }
  cbn [mbind option_bind]. f_equal. rewrite N2Z.inj_div, N2Z.inj_mod.
  pose proof (Z.div_mod (Z.of_N x) 10). lia.
Qed.

Definition plain (s : string) : Prop := s ≠ "" ∧ strip_prefix "+" s = None.

Lemma pretty_plain x s : plain s ∨ (x ≠ 0)%N → plain (pretty_N_go x s).
Proof.
  revert s. induction (N.lt_wf_0 x) as [x _ IH]; intros s Hs.
  destruct (decide (x = 0)%N) as [->|Hx]; [by destruct Hs|].
  rewrite pretty_N_go_step by lia. apply IH; [apply N.div_lt; lia|]. left. split; [done|].
  unfold pretty_N_char. by repeat case_match.
Qed.

Lemma parse_digits_fmt n :
  0 ≤ n → fmt n ≠ "" ∧ strip_prefix "+" (fmt n) = None ∧ parse_digits 0 (fmt n) = Some n.
Proof.
  intros Hn. destruct n as [|p|p]; [done| |lia].
  assert (fmt (Z.pos p) = pretty_N_go (N.pos p) EmptyString) as -> by done.
  destruct (pretty_plain (N.pos p) EmptyString) as [H1 H2]; [by right|].
  split; [done|]. split; [done|]. by rewrite parse_digits_pretty.
Qed.

Lemma parse_fmt_u64 n : 0 ≤ n ≤ U64_MAX → parse_u64 (fmt n) = Some n.
Proof.
  intros Hn. destruct (parse_digits_fmt n) as (H1 & H2 & H3); [lia|].
  unfold parse_u64, parse_unsigned. rewrite H2. cbn [default from_option]. destruct (fmt n) as [|c s]; [done|].
  rewrite H3. unfold try_u64. cbn [mbind option_bind]. by rewrite decide_True.
Qed.

Lemma parse_fmt_u128 n : 0 ≤ n ≤ U128_MAX → parse_u128 (fmt n) = Some n.
Proof.
  intros Hn. destruct (parse_digits_fmt n) as (H1 & H2 & H3); [lia|].
  unfold parse_u128. rewrite H2. cbn [default from_option]. destruct (fmt n) as [|c s]; [done|].
  rewrite H3. unfold try_u128. cbn [mbind option_bind]. by rewrite decide_True.
Qed.

Section facts.
Context `{C : Crates, K : StoreCodec}.

(** ** Safety *)

Definition stored (d : Redis) (id : string) (t : RegisterTask) : Prop :=
  redis_get (task_key id) d = Some (task_to_json t) ∧ task_id t = id.

Definition queued_safely (d : Redis) (id : string) : Prop :=
  ∃ t, stored d id t ∧ status t = Pending ∧
    (∃ v, strings d !! task_key id = Some (v, None)) ∧
    redis_get (content_active_key (content_hash t)) d = Some id.

Lemma get_forever k v d : strings d !! k = Some (v, None) → redis_get k d = Some v.
Proof. intros H. apply redis_get_some. by exists None. Qed.

Lemma active_queued d id : store_inv d → id ∈ active d → queued_safely d id.
Proof.
  intros Hi (t & H1 & H2 & H3 & H4)%(inv_active _ Hi). exists t.
  repeat split; eauto using get_forever.
Qed.

Lemma content_lookup d h id :
  store_inv d → redis_get (content_active_key h) d = Some id →
  ∃ t, stored d id t ∧ content_active_key (content_hash t) = content_active_key h ∧ status t ≠ Failed.
Proof.
  intros Hi (e & H & Hl)%redis_get_some.
  destruct (inv_content _ Hi _ _ _ H) as (t & e' & H1 & H2 & H3 & H4). exists t.
  assert (e' = e) as -> by naive_solver.
  split_and!; [split; [|done]|done|intros Hs; destruct H4 as [(?&_)|(?&_)]; congruence].
  apply redis_get_some. eauto.
Qed.

(** C3. Whatever the handlers and the worker do to the store, in whatever
    order their commands interleave and whichever of them are lost or lose
    their reply: every active task is stored, pending, without an expiry and
    found under its content hash; no two active tasks carry the same content;
    a content lookup leads to the stored record of that content, never to a
    failed one; and every call of the service keeps it so. *)
Theorem store_safe d :
  reachable d →
  (∀ id, id ∈ active d → queued_safely d id) ∧
  (∀ id1 id2 t1 t2, id1 ∈ active d → id2 ∈ active d → stored d id1 t1 → stored d id2 t2 →
     to_ascii_lowercase (content_hash t1) = to_ascii_lowercase (content_hash t2) → id1 = id2) ∧
  (∀ h id, redis_get (content_active_key h) d = Some id →
     ∃ t, stored d id t ∧ content_active_key (content_hash t) = content_active_key h ∧
       status t ≠ Failed) ∧
  (∀ A (m : St A) fs, store_call d m → reachable (db (m (mkWorld d fs)).2)).
Proof.
  intros Hr. pose proof (inv_reachable _ Hr) as Hi. split_and!.
  - intros id. by apply active_queued.
  - assert (Hown : ∀ id t, id ∈ active d → stored d id t →
      redis_get (content_active_key (content_hash t)) d = Some id).
    { intros id t Hid [Ht _]. destruct (active_queued _ _ Hi Hid) as (t' & [Ht' _] & _ & _ & H).
      rewrite Ht in Ht'. injection Ht' as ->%task_to_json_inj. done. }
    intros id1 id2 t1 t2 H1 H2 Hs1 Hs2 E. apply Hown in Hs1, Hs2; try done.
    unfold content_active_key in *. rewrite E in Hs1. congruence.
  - intros h id. by apply content_lookup.
  - intros A m fs Hc. by apply (reach_call m (mkWorld d fs)).
Qed.

(** ** The retry ladder *)

Lemma query_fine {A} (command : Redis → A * Redis) d :
  query command (mkWorld d []) = (Ok (command d).1, mkWorld (command d).2 []).
Proof. unfold query. simpl. by destruct (command d). Qed.

Lemma get_stored d id t :
  stored d id t → get_task id (mkWorld d []) = (Ok (Some t), mkWorld d []).
Proof.
  intros [H _]. unfold get_task, st_bind. rewrite query_fine. cbn [fst snd]. rewrite H.
  simpl. by rewrite task_json_roundtrip.
Qed.

Lemma bind_ok {A B} (m : St A) (f : A → St B) w a w' :
  m w = (Ok a, w') → st_bind m f w = f a w'.
Proof. unfold st_bind. by intros ->. Qed.

(** The store once task [id] has failed transiently, the last time with
    [msg]: pending and queued below ten failures, else failed, in the
    dead-letter set, with its content free to be submitted again. *)
Definition ladder_state (d : Redis) (id msg : string) (t : RegisterTask) : Prop :=
  stored d id t ∧
  if retries t <? 10
  then status t = Pending ∧ id ∈ active d ∧ task_error t = Some (redact_error msg)
  else status t = Failed ∧ ¬ (id ∈ active d) ∧ id ∈ (default ∅ (sets d !! dlq_set_key)) ∧
       task_error t = Some ("EXHAUSTED: " +:+ redact_error msg) ∧
       redis_get (content_active_key (content_hash t)) d = None.

Fixpoint fail_times (id : string) (msgs : list string) (w : World) : World :=
  match msgs with
  | [] => w
  | msg :: msgs => fail_times id msgs (record_transient_failure id msg w).2
  end.

Lemma failed_script_dlq t d :
  task_id t ∈ default ∅ (sets (failed_script t d).2 !! dlq_set_key).
Proof.
  unfold failed_script. cbn [snd foldl]. rewrite fold_sets by (intros; apply del_rest).
  rewrite (proj1 (del_rest _ _ _)). simpl. rewrite lookup_insert_eq. simpl. set_solver.
Qed.

Lemma retried_error msg t :
  task_error (retried_task msg t) =
    Some (if 10 <=? retries (retried_task msg t) then "EXHAUSTED: " +:+ redact_error msg
          else redact_error msg).
Proof. rewrite retried_retries. unfold retried_task. simpl. by case_match. Qed.

Lemma ladder_exhausted d id msg t :
  store_inv d → stored d id t → status t = Pending → 10 ≤ retries (retried_task msg t) →
  ladder_state (failed_script (retried_task msg t) d).2 id msg (retried_task msg t).
Proof.
  intros Hi [Hst Hid] Hp Hr. destruct (retried_failed msg t Hr) as (H1 & H2 & H3).
  destruct (failed_script_effects (retried_task msg t) d) as (E1 & _ & E3 & _ & E5 & E6).
  pose proof (failed_script_dlq (retried_task msg t) d) as Hdlq.
  rewrite H2, Hid in *. split; [split; [|congruence]|].
  - apply redis_get_some. eexists. split; [exact E1|]. rewrite E6. simpl.
    apply Z.leb_gt. unfold TASK_FAILED_TTL. lia.
  - rewrite (proj2 (Z.ltb_ge _ _)) by done. split_and!; [done|set_solver|done| |].
    + rewrite retried_error. by rewrite (proj2 (Z.leb_le _ _)).
    + apply redis_get_some in Hst as (e & Hst & _).
      destruct (inv_records _ Hi _ _ _ Hst) as (t' & <-%task_to_json_inj & _ & Hact).
      destruct (Hact Hp) as [-> Hin]. destruct (active_queued _ _ Hi Hin) as (t' & [Hs _] & _ & _ & Hk).
      rewrite (get_forever _ _ _ Hst) in Hs. injection Hs as <-%task_to_json_inj.
      apply redis_get_none. intros v e. rewrite E3, H3, bool_decide_true by done. done.
Qed.

Lemma transient_run d id msg t :
  stored d id t → status t = Pending →
  record_transient_failure id msg (mkWorld d []) =
    (Ok (Some (retried_task msg t)),
     mkWorld (if 10 <=? retries (retried_task msg t) then (failed_script (retried_task msg t) d).2
              else redis_set (task_key id) (task_to_json (retried_task msg t)) None d) []).
Proof.
  intros Hst Hp. unfold record_transient_failure. rewrite (bind_ok _ _ _ _ _ (get_stored _ _ _ Hst)), Hp.
  cbn [is_terminal]. assert (task_id (retried_task msg t) = id) as Hid.
  { rewrite <-(proj2 Hst). unfold retried_task. by case_match. }
  destruct (10 <=? _); unfold transition_failed, write_active_task, set_task;
    rewrite (bind_ok _ _ _ _ _ (query_fine _ _)); [done|by rewrite Hid].
Qed.

Lemma stored_read d id t : stored d id t → worker_read d t.
Proof. intros [(e & H & Hl)%redis_get_some Hid]. exists t, e. rewrite Hid. auto. Qed.

Lemma transient_step d id msg t :
  stored d id t → status t = Pending →
  store_step d (if 10 <=? retries (retried_task msg t) then (failed_script (retried_task msg t) d).2
                else redis_set (task_key id) (task_to_json (retried_task msg t)) None d).
Proof.
  intros Hst Hp. destruct (Z.leb_spec 10 (retries (retried_task msg t))).
  - apply step_exhausted; [by eapply stored_read|done..].
  - rewrite <-(proj2 Hst). apply step_retry; [by eapply stored_read|done..].
Qed.

Lemma ladder_step d id msg t :
  reachable d → stored d id t → status t = Pending → 0 ≤ retries t < 10 →
  ∃ d', record_transient_failure id msg (mkWorld d []) = (Ok (Some (retried_task msg t)), mkWorld d' []) ∧
    reachable d' ∧ retries (retried_task msg t) = retries t + 1 ∧ ladder_state d' id msg (retried_task msg t).
Proof.
  intros Hr Hst Hp Hb.
  assert (Hn : retries (retried_task msg t) = retries t + 1).
  { rewrite retried_retries. unfold sat_add, U32_MAX. lia. }
  rewrite (transient_run d id msg t) by done. eexists. split; [done|].
  split; [apply (reachable_step d); [done|by apply transient_step]|]. split; [done|].
  destruct (Z.leb_spec 10 (retries (retried_task msg t))) as [Ht|Ht].
  { apply ladder_exhausted; try done. by apply inv_reachable. }
  destruct (retried_pending msg t Hp Ht) as (H1 & H2 & _). destruct Hst as [Hst Hid].
  split; [split; [|congruence]|].
  - apply get_forever. simpl. apply lookup_insert_eq.
  - rewrite (proj2 (Z.ltb_lt _ _)) by done. split_and!; [done| |].
    + apply redis_get_some in Hst as (e & Hst & _).
      destruct (inv_records _ (inv_reachable _ Hr) _ _ _ Hst) as (t' & <-%task_to_json_inj & _ & Hact).
      apply Hact, Hp.
    + rewrite retried_error. by rewrite (proj2 (Z.leb_gt _ _)).
Qed.

(** A pending task survives nine transient failures and fails at the
    tenth: after any run of failures that brings it to at most ten, it is
    stored with that many retries and the last failure's text, pending and
    still queued below ten; at ten it is failed as exhausted, out of the
    queue, in the dead-letter set, and its content can be submitted again. *)
Theorem retry_ladder d id t msgs msg :
  reachable d → stored d id t → status t = Pending → 0 ≤ retries t →
  retries t + Z.of_nat (length msgs) < 10 →
  ∃ t', retries t' = retries t + Z.of_nat (length msgs) + 1 ∧
    ladder_state (db (fail_times id (msgs ++ [msg]) (mkWorld d []))) id msg t'.
Proof.
  revert d t. induction msgs as [|m msgs IH]; intros d t Hr Hst Hp H0 Hb; simpl in *.
  - destruct (ladder_step d id msg t) as (d' & -> & _ & Hn & Hl); [done|done|done|lia|].
    exists (retried_task msg t). split; [lia|done].
  - destruct (ladder_step d id m t) as (d' & -> & Hr' & Hn & Hl & Hl'); [done|done|done|lia|].
    rewrite (proj2 (Z.ltb_lt _ _)) in Hl' by lia. destruct Hl' as (Hp' & _ & _).
    destruct (IH d' (retried_task m t)) as (t' & Ht' & ?); [done|done|done|lia|lia|].
    exists t'. split; [lia|done].
Qed.
Lemma frame_tick ms d : 0 ≤ ms → frame d (tick ms d).
Proof. intros H. repeat split; try done. simpl. lia. Qed.

(** ** Admission *)

Lemma present_set id k k0 d :
  is_Some (redis_get k0 d) → is_Some (redis_get k0 (set_if_absent id k d)).
Proof.
  intros H. unfold set_if_absent. destruct (redis_get k d) eqn:E; [done|].
  destruct (decide (k = k0)) as [->|Hne]; [rewrite E in H; by destruct H|].
  unfold redis_get. simpl. by rewrite lookup_insert_ne.
Qed.

Lemma present_self id k d : is_Some (redis_get k (set_if_absent id k d)).
Proof.
  unfold set_if_absent. destruct (redis_get k d) eqn:E; [by rewrite E|].
  rewrite (get_forever k id); [done|]. simpl. by rewrite lookup_insert_eq.
Qed.

Lemma present_fold id ks k d :
  k ∈ ks ∨ is_Some (redis_get k d) →
  is_Some (redis_get k (foldl (λ d k, set_if_absent id k d) d ks)).
Proof.
  revert d. induction ks as [|k0 ks IH]; intros d H; simpl; [by destruct H as [?%elem_of_nil|]|].
  apply IH. destruct H as [[->|H]%elem_of_cons|H]; auto using present_self, present_set.
Qed.

Lemma admit_placeholders t d k :
  redis_get (content_active_key (content_hash t)) d = None →
  k ∈ member_key_placeholders t → is_Some (redis_get k (admit_script t d).2).
Proof. intros H Hk. unfold admit_script. rewrite H. apply present_fold. by left. Qed.

(** Admission runs once per content.  When a content is free, an
    admission that reaches the store stores the task under its id, its
    content hash and every key it names, and answers with that id - or loses
    its reply; from then on, as long as the task's record and content key are
    not rewritten, however much time passes, a lookup of the content finds
    this task and a second admission of the same content (in any letter case)
    changes nothing and answers with the first task's id.  One that is lost
    before it runs changes nothing. *)
Theorem admit_once d d2 t1 t2 f fs (w1 := (admit_task t1 (mkWorld d (f :: fs))).2) :
  redis_get (content_active_key (content_hash t1)) d = None →
  frame (db w1) d2 →
  to_ascii_lowercase (content_hash t2) = to_ascii_lowercase (content_hash t1) →
  match f with
  | LostBefore => db w1 = d
  | _ =>
      (admit_task t1 (mkWorld d (f :: fs))).1 =
        (match f with Fine => Ok (ANew (task_id t1)) | _ => Err "Redis command timed out" end) ∧
      (∀ k, k ∈ member_key_placeholders t1 → is_Some (redis_get k (db w1))) ∧
      find_by_content (content_hash t2) (mkWorld d2 []) = (Ok (Some t1), mkWorld d2 []) ∧
      admit_task t2 (mkWorld d2 []) = (Ok (AExisting (task_id t1)), mkWorld d2 [])
  end.
Proof.
  intros Hfree Hfr Hlow.
  assert (Hrun : f ≠ LostBefore → db w1 = (admit_script t1 d).2 ∧
    (admit_task t1 (mkWorld d (f :: fs))).1 =
      (match f with Fine => Ok (ANew (task_id t1)) | _ => Err "Redis command timed out" end)).
  { intros Hf. unfold w1, admit_task, st_bind, query, admit_script. cbn [faults db]. rewrite Hfree.
    by destruct f. }
  assert (Hdone : f ≠ LostBefore →
    (∀ k, k ∈ member_key_placeholders t1 → is_Some (redis_get k (db w1))) ∧
    find_by_content (content_hash t2) (mkWorld d2 []) = (Ok (Some t1), mkWorld d2 []) ∧
    admit_task t2 (mkWorld d2 []) = (Ok (AExisting (task_id t1)), mkWorld d2 [])).
  { intros [E _]%Hrun. rewrite E in *. destruct Hfr as (Ft & Fc & _ & _).
    destruct (admit_script_new t1 d Hfree) as (Ht & Hc & _).
    assert (Hk : redis_get (content_active_key (content_hash t2)) d2 = Some (task_id t1)).
    { apply get_forever. unfold content_active_key in *. by rewrite Hlow, Fc. }
    split_and!.
    - intros k. by apply admit_placeholders.
    - unfold find_by_content, find_by_index. rewrite (bind_ok _ _ _ _ _ (query_fine _ _)).
      cbn [fst snd]. rewrite Hk. apply get_stored. split; [|done]. apply get_forever. by rewrite Ft.
    - unfold admit_task. rewrite (bind_ok _ _ _ _ _ (query_fine _ _)). unfold admit_script. by rewrite Hk. }
  destruct f; [split; [by apply Hrun|by apply Hdone]|done|split; [by apply Hrun|by apply Hdone]].
Qed.

(** ** The cache *)

Lemma set_get k v ttl d δ :
  0 ≤ δ → redis_get k (tick δ (redis_set k v (Some ttl) d)) = if δ <? ttl then Some v else None.
Proof.
  intros Hd. unfold redis_get, tick. simpl. rewrite lookup_insert_eq. simpl.
  destruct (Z.ltb_spec δ ttl); [rewrite (proj2 (Z.leb_gt _ _)) by lia|rewrite (proj2 (Z.leb_le _ _)) by lia]; done.
Qed.

Lemma cache_get_run key limit d :
  (cache_get key limit (mkWorld d [])).1 =
    match redis_get (cache_key key) d with
    | None => Ok CMiss
    | Some p =>
        match cache_of_json p with
        | None => Err "stored cache entry is invalid"
        | Some c =>
            Ok match ce_value c with
               | None => if now d <=? ce_fresh_until_ms c then CNegative else CMiss
               | Some v =>
                   if now d <=? ce_fresh_until_ms c then CFresh v
                   else if sat_sub (now d) (ce_stored_at_ms c) <=? limit
                        then CStale v (sat_sub (now d) (ce_stored_at_ms c)) else CMiss
               end
        end
    end.
Proof.
  unfold cache_get. rewrite (bind_ok _ _ _ _ _ (query_fine _ _)). cbn [fst snd].
  destruct (redis_get _ d) as [p|]; [|done]. destruct (cache_of_json p) as [[v s f]|]; [|done].
  cbn. by repeat case_match.
Qed.

Lemma write_cache_db key v fresh retention d :
  db (write_cache key v fresh retention (mkWorld d [])).2 =
    redis_set (cache_key key) (cache_to_json (mkCacheEntry v (now d) (sat_add U64_MAX (now d) fresh)))
      (Some retention) d.
Proof. done. Qed.

Lemma set_now k v ttl d : now (redis_set k v ttl d) = now d.
Proof. done. Qed.

(** The life of a cached body: for five minutes it is served fresh;
    then, until its retention ends (a day for records, an hour for stats), it
    can only be served stale, to readers that accept its age; then it is
    gone.  A negative entry is served for one minute and never stale. *)
Theorem cache_life d key v stats δ limit :
  v ≠ JNull → 0 ≤ now d → now d + CACHE_FRESH_TTL ≤ U64_MAX → 0 ≤ δ →
  let later w := mkWorld (tick δ (db w)) [] in
  (cache_get key limit (later (cache_set key v stats (mkWorld d [])).2)).1 =
    Ok (if δ <=? CACHE_FRESH_TTL then CFresh v
        else if (δ <? if stats then CACHE_STATS_STALE_TTL else CACHE_RECORD_STALE_TTL) && (δ <=? limit)
        then CStale v δ else CMiss) ∧
  (cache_get key limit (later (cache_set_negative key (mkWorld d [])).2)).1 =
    Ok (if δ <? CACHE_NEGATIVE_TTL then CNegative else CMiss).
Proof.
  intros Hv H0 Hmax Hd later. unfold later, cache_set, cache_set_negative.
  rewrite !write_cache_db, !cache_get_run, !set_get by done.
  unfold sat_add. rewrite !Z.min_r by (unfold CACHE_FRESH_TTL, CACHE_NEGATIVE_TTL in *; lia). split.
  - set (r := if stats then _ else _). assert (CACHE_FRESH_TTL < r) by (by destruct stats).
    destruct (Z.ltb_spec δ r).
    + rewrite cache_json_roundtrip by (simpl; congruence). cbn [ce_value ce_fresh_until_ms ce_stored_at_ms tick now].
      rewrite set_now. unfold sat_sub. replace (Z.max 0 (now d + δ - now d)) with δ by lia.
      destruct (Z.leb_spec (now d + δ) (now d + CACHE_FRESH_TTL)), (Z.leb_spec δ CACHE_FRESH_TTL); try lia; done.
    + by rewrite (proj2 (Z.leb_gt _ _)) by lia.
  - destruct (Z.ltb_spec δ CACHE_NEGATIVE_TTL); [|done].
    rewrite cache_json_roundtrip by done. cbn [ce_value ce_fresh_until_ms tick now].
    rewrite set_now. by rewrite (proj2 (Z.leb_le _ _)) by lia.
Qed.
(** ** Rate limits *)

(** The service's limiters, their counter and their calls per minute. *)
Inductive limiter : St bool → string → Z → Prop :=
| limit_ip ip : limiter (allow_ip_create ip) ("p256-index:rate:create:" +:+ ip) 5
| limit_global n : limiter (allow_global_create n) "p256-index:rate:create:global" n
| limit_read ip : limiter (allow_read_ ip) ("p256-index:rate:read:" +:+ ip) 120.

(** Calls of a limiter, each after a pause, and what each is told. *)
Fixpoint calls (m : St bool) (pauses : list Z) (d : Redis) : list bool * Redis :=
  match pauses with
  | [] => ([], d)
  | p :: pauses =>
      let '(r, w) := m (mkWorld (tick p d) []) in
      let '(rs, d') := calls m pauses (db w) in
      (match r with Ok b => b | Err _ => false end :: rs, d')
  end.

Definition total (pauses : list Z) : Z := foldr Z.add 0 pauses.

Lemma total_nonneg ps : Forall (λ p, 0 ≤ p) ps → 0 ≤ total ps.
Proof. induction 1; simpl; unfold total in *; lia. Qed.

Lemma expired_mono t1 t2 e : t1 ≤ t2 → expired t2 e = false → expired t1 e = false.
Proof. destruct e; simpl; [|done]. rewrite !Z.leb_gt. lia. Qed.

Lemma limiter_run m k limit w :
  limiter m k limit → m w = st_bind (increment_minute k) (λ n, st_ret (n <=? limit)) w.
Proof. by intros []. Qed.

Lemma incr_live k j e d :
  strings d !! k = Some (fmt j, e) → expired (now d) e = false → 0 ≤ j < U64_MAX →
  redis_incr k d = (j + 1, with_strings (<[k := (fmt (j + 1), e)]>) d).
Proof.
  intros Hk He Hj. unfold redis_incr, redis_set_keep, redis_get. rewrite Hk, He, parse_fmt_u64 by lia.
  by rewrite Hk, He.
Qed.

Lemma incr_fresh k d :
  redis_get k d = None →
  redis_incr k d = (1, with_strings (<[k := (fmt 1, None)]>) (redis_del k d)).
Proof.
  intros Hk. unfold redis_incr. rewrite Hk. unfold redis_set_keep. simpl. by rewrite lookup_delete_eq.
Qed.

Lemma limiter_live m k limit j e d :
  limiter m k limit → strings d !! k = Some (fmt j, e) → expired (now d) e = false → 1 ≤ j < U64_MAX →
  m (mkWorld d []) = (Ok (j + 1 <=? limit), mkWorld (with_strings (<[k := (fmt (j + 1), e)]>) d) []).
Proof.
  intros Hm Hk He Hj. rewrite (limiter_run _ _ _ _ Hm). unfold increment_minute, st_bind at 1 2.
  rewrite query_fine, (incr_live k j e) by (done || lia). cbn [fst snd].
  by rewrite (proj2 (Z.eqb_neq _ _)) by lia.
Qed.

Lemma calls_counted m k limit pauses : limiter m k limit →
  Forall (λ p, 0 ≤ p) pauses → ∀ d j e,
  strings d !! k = Some (fmt j, e) → expired (now d + total pauses) e = false →
  1 ≤ j → j + Z.of_nat (length pauses) ≤ U64_MAX →
  (calls m pauses d).1 = (λ i, i <=? limit) <$> seqZ (j + 1) (Z.of_nat (length pauses)) ∧
  strings (calls m pauses d).2 !! k = Some (fmt (j + Z.of_nat (length pauses)), e) ∧
  now (calls m pauses d).2 = now d + total pauses.
Proof.
  intros Hm. induction 1 as [|p ps Hp Hps IH]; intros d j e Hk He H1 Hj.
  - cbn. rewrite !Z.add_0_r. done.
  - apply total_nonneg in Hps as Ht. cbn [length] in *. cbn [calls].
    cbn [total foldr] in He. fold (total ps) in *.
    rewrite (limiter_live m k limit j e) by
      (done || lia || (eapply expired_mono; [|exact He]; simpl; lia)). cbn [db].
    destruct (IH (with_strings (<[k := (fmt (j + 1), e)]>) (tick p d)) (j + 1) e) as (E1 & E2 & E3);
      [apply lookup_insert_eq|by replace (_ + _) with (now d + (p + total ps)) by (simpl; lia)|lia|lia|].
    destruct (calls m ps _) as [rs d'] eqn:E. cbn [fst snd] in *. split_and!.
    + rewrite E1. rewrite (seqZ_cons (j + 1)) by lia. cbn.
      by replace (Z.pred (Z.of_nat (S (length ps)))) with (Z.of_nat (length ps)) by lia.
    + rewrite E2. do 3 f_equal. lia.
    + rewrite E3. simpl. fold (total ps). lia.
Qed.

(** A limiter opens a window of one minute at its first call and allows
    exactly its limit of calls in it: with no counter stored, of any calls
    made within a minute of the first, the first [limit] are allowed and the
    rest refused; a minute after the first call the counter is gone and a
    new window can open. *)
Theorem rate_window m k limit d p pauses :
  limiter m k limit → redis_get k (tick p d) = None → Forall (λ p, 0 ≤ p) pauses →
  total pauses < 60_000 → Z.of_nat (length pauses) < U64_MAX →
  let '(answers, d') := calls m (p :: pauses) d in
  answers = (λ i, i <=? limit) <$> seqZ 1 (1 + Z.of_nat (length pauses)) ∧
  now d' = now d + p + total pauses ∧
  redis_get k (tick (60_000 - total pauses) d') = None.
Proof.
  intros Hm Hfree Hps Ht Hlen. cbn [calls].
  rewrite (limiter_run _ _ _ _ Hm). unfold increment_minute, st_bind at 1 2. rewrite query_fine.
  rewrite incr_fresh by done. cbn [fst snd Z.eqb Pos.eqb]. unfold st_bind at 1.
  rewrite query_fine. cbn [fst snd st_ret db].
  set (d1 := with_strings _ (redis_del k (tick p d))).
  assert (Hget : redis_get k d1 = Some (fmt 1)) by (apply get_forever, lookup_insert_eq).
  unfold redis_pexpire. rewrite Hget. set (d2 := with_strings _ d1).
  destruct (calls_counted m k limit pauses Hm Hps d2 1 (Some (now d1 + 60_000))) as (E1 & E2 & E3);
    [apply lookup_insert_eq|apply Z.leb_gt; change (now d2) with (now d1); lia|lia|lia|].
  destruct (calls m pauses d2) as [rs d'] eqn:E. cbn [fst snd] in *.
  rewrite (seqZ_cons 1) by lia. split_and!.
  - rewrite E1. cbn. by replace (Z.pred (1 + Z.of_nat (length pauses))) with (Z.of_nat (length pauses)) by lia.
  - rewrite E3. done.
  - unfold redis_get. cbn [tick strings now]. rewrite E2, E3. change (now d2) with (now d1).
    simpl. by rewrite (proj2 (Z.leb_le _ _)) by lia.
Qed.

(** A window never closes when the command that sets its expiry is lost
    after the counter was created: however long the pauses, the counter only
    grows and every call past the limit is refused. *)
Theorem rate_counter_can_stick m k limit d pauses :
  limiter m k limit → redis_get k d = None → Forall (λ p, 0 ≤ p) pauses →
  Z.of_nat (length pauses) < U64_MAX →
  let w := (m (mkWorld d [Fine; LostBefore])).2 in
  (calls m pauses (db w)).1 = (λ i, i <=? limit) <$> seqZ 2 (Z.of_nat (length pauses)).
Proof.
  intros Hm Hfree Hps Hlen. rewrite (limiter_run _ _ _ _ Hm).
  unfold increment_minute, st_bind at 1 2, query at 1. cbn [faults db]. rewrite incr_fresh by done.
  apply (calls_counted m k limit pauses Hm Hps _ 1 None); [apply lookup_insert_eq|done|lia|lia].
Qed.
End facts.

(** ** Runs *)

Section store_examples.
#[local] Existing Instance concrete_crates.
#[local] Existing Instance concrete_codec.

Definition empty_redis : Redis := mkRedis ∅ ∅ ∅ ∅ 1_000.
Definition demo_member : Member :=
  mkMember "04aB" "" "" "" "" (mkProof "" "" 0 0 "" "").
Definition demo_task : RegisterTask :=
  mkTask "id-1" Pending Register "rp" "" "0xAb" "04Cd" None [demo_member] None None None 0 900 false.
Definition admitted_redis : Redis := (admit_script demo_task empty_redis).2.

Lemma admitted_reachable : reachable admitted_redis.
Proof.
  exists empty_redis. split; [done|]. apply rtc_once. apply step_admit; [done|].
  vm_compute. reflexivity.
Qed.

Lemma admitted_stored : stored admitted_redis "id-1" demo_task.
Proof. split; [vm_compute; reflexivity|done]. Qed.

Lemma store_safe_witness :
  queued_safely admitted_redis "id-1" ∧
  reachable (db (mark_failed "id-1" "REVERTED" "x" (mkWorld admitted_redis [Fine; LostAfter])).2).
Proof.
  destruct (store_safe admitted_redis admitted_reachable) as (H1 & _ & _ & H4). split.
  - apply H1. vm_compute. reflexivity.
  - apply H4. apply call_mark_failed.
Defined.

Lemma retry_ladder_witness :
  ∃ t', retries t' = 10 ∧
    ladder_state (db (fail_times "id-1" (replicate 9 "rpc" ++ ["last"]) (mkWorld admitted_redis [])))
      "id-1" "last" t'.
Proof.
  apply (retry_ladder admitted_redis "id-1" demo_task (replicate 9 "rpc") "last").
  - exact admitted_reachable.
  - exact admitted_stored.
  - reflexivity.
  - done.
  - done.
Defined.

Lemma admit_once_witness :
  let w1 := (admit_task demo_task (mkWorld empty_redis [LostAfter])).2 in
  let again := set_content_hash "0xaB" (mkTask "id-2" Pending Register "rp" "" "" "04Cd" None [] None
                 None None 0 950 false) in
  (admit_task again (mkWorld (tick 86_400_000 (db w1)) [])).1 = Ok (AExisting "id-1").
Proof.
  intros w1 again.
  destruct (admit_once empty_redis (tick 86_400_000 (db w1)) demo_task again LostAfter []) as (_ & _ & _ & ->).
  - vm_compute. reflexivity.
  - by apply frame_tick.
  - vm_compute. reflexivity.
  - reflexivity.
Defined.

Lemma cache_life_witness :
  (cache_get "stats" 3_600_000 (mkWorld (tick 300_001
     (db (cache_set "stats" (JNum 7) true (mkWorld empty_redis [])).2)) [])).1 = Ok (CStale (JNum 7) 300_001).
Proof.
  destruct (cache_life empty_redis "stats" (JNum 7) true 300_001 3_600_000) as [-> _]; done.
Defined.

Lemma rate_window_witness :
  (calls (allow_ip_create "ip") [0; 1; 1; 1; 1; 1; 1] empty_redis).1 =
    [true; true; true; true; true; false; false].
Proof.
  pose proof (rate_window (allow_ip_create "ip") _ 5 empty_redis 0 [1; 1; 1; 1; 1; 1]
    (limit_ip "ip") eq_refl ltac:(repeat constructor; done) ltac:(done) ltac:(done)) as H.
  destruct (calls _ _ _) as [answers d']. destruct H as [-> _]. reflexivity.
Defined.

Lemma rate_counter_can_stick_witness :
  (calls (allow_ip_create "ip") [86_400_000; 0; 0; 0; 86_400_000]
     (db (allow_ip_create "ip" (mkWorld empty_redis [Fine; LostBefore])).2)).1 =
    [true; true; true; true; false].
Proof.
  rewrite (rate_counter_can_stick (allow_ip_create "ip") _ 5 empty_redis
    [86_400_000; 0; 0; 0; 86_400_000] (limit_ip "ip") eq_refl); [reflexivity| |done].
  repeat constructor; done.
Defined.
End store_examples.
