(* ===== verification/Http.v ===== *)
(** * The HTTP shell ([p256-index-server/src/http.rs])

    The shell of the admission and lookup cores: each operation is executed
    against the store, the chain reads and the queue, and outcomes are
    rendered as responses.  The chain reads and the queue are interfaces.
    Routing, body limits and the parsing of bodies are axum's and serde's;
    handlers start from the parsed request. *)
From Stdlib Require Import Ascii String Strings.Byte.
From S2P Require Export StoreFacts Admission ChainTypes Sentinel.
From stdpp Require Import options.
#[local] Set Warnings "-register-all".

Definition RECORD_STALE_LIMIT : Z := 24 * 60 * 60 * 1_000.
Definition STATS_STALE_LIMIT : Z := 60 * 60 * 1_000.
Definition WORKER_STALL_LIMIT : Z := 10 * 60 * 1_000.

(** ** Interfaces *)

(** [ReadChain]; [S] is everything its answers depend on. *)
Class ReadChain (S : Type) := {
  rc_circuit_state : S → string * S;
  rc_registry_address : string;
  rc_domain_registry_address : string;
  rc_entry : Z → S → result (option Entry) ChainError * S;
  rc_key_profile : string → Z → Z → bool → S → result (option KeyProfile) ChainError * S;
  rc_groups_by_rp_id : string → Z → Z → bool → S → result (Page Unit) ChainError * S;
  rc_rp_ids : Z → Z → bool → S → result (Page SiteItem) ChainError * S;
  rc_totals : S → result Totals ChainError * S;
  rc_is_content_registered : bytes → S → result bool ChainError * S;
  rc_is_referenced : bytes → bytes → S → result bool ChainError * S;
  rc_unit_by_group_key : bytes → S → result (option Unit) ChainError * S;
  rc_group_detail_by_key : bytes → Z → Z → bool → S → result (option GroupDetail) ChainError * S;
  rc_group_detail_by_id : Z → Z → Z → bool → S → result (option GroupDetail) ChainError * S;
}.

(** [RegisterTaskQueue]: an append acknowledged with [Ok] is in the log; an
    error may hide an append. *)
Class TaskQueue (Q : Type) := {
  q_log : Q → list RegisterTask;
  q_enqueue : RegisterTask → Q → result unit string * Q;
  q_enqueue_ok task q q' : q_enqueue task q = (Ok tt, q') → q_log q' = q_log q ++ [task];
  q_enqueue_err task q e q' : q_enqueue task q = (Err e, q') →
    q_log q' = q_log q ∨ q_log q' = q_log q ++ [task];
}.

Record AppConfig := mkAppConfig {
  ip_salt : string;
  global_write_limit : Z;
  telegram_configured : bool;
  app_chain_id : Z;
}.

(** [AppState], with the last beat of the worker's pulse. *)
Record App (S Q : Type) := mkApp {
  a_store : World;
  a_chain : S;
  a_queue : Q;
  worker_pulse : option Z;
}.
Arguments mkApp {S Q} _ _ _ _.
Arguments a_store {S Q} _.
Arguments a_chain {S Q} _.
Arguments a_queue {S Q} _.
Arguments worker_pulse {S Q} _.

(** ** Responses *)

Record Response := mkResponse {
  code_ : Z;
  body : Json;
  cache_control : option string;
  served_stale : bool;
}.

Definition json_response (code : Z) (v : Json) : Response := mkResponse code v None false.
Definition error_response (code : Z) (message : string) : Response :=
  json_response code (JObj [("error", JStr message)]).
Definition cached_response (v : Json) : Response :=
  mkResponse 200 v (Some "public, max-age=3600") false.

(** [object.insert(k, v)]: replaces the field, or adds it. *)
Fixpoint obj_insert (k : string) (v : Json) (l : list (string * Json)) : list (string * Json) :=
  match l with
  | [] => [(k, v)]
  | (k', v') :: l => if bool_decide (k' = k) then (k, v) :: l else (k', v') :: obj_insert k v l
  end.
Definition json_set (k : string) (v : Json) (j : Json) : Json :=
  match j with JObj l => JObj (obj_insert k v l) | _ => j end.

Definition stale_response (v : Json) (age_ms : Z) : Response :=
  mkResponse 200 (json_set "_staleAgeMs" (JNum age_ms) (json_set "_stale" (JBool true) v))
    (Some "no-cache") true.

(** ** Serialized records *)

Definition nums_json (l : list Z) : Json := JArr (JNum <$> l).

Definition entry_json (e : Entry) : Json :=
  JObj [("entryId", JNum (e_entry_id e)); ("publicKey", JStr (e_public_key e));
        ("attestation", JStr (e_attestation e)); ("credentialId", JStr (e_credential_id e));
        ("authenticatorAttachment", JStr (e_authenticator_attachment e));
        ("transports", JStr (e_transports e)); ("createdAt", JNum (e_created_at e))].
Definition unit_json (u : Unit) : Json :=
  JObj [("unitId", JNum (u_unit_id u)); ("rpId", JStr (u_rp_id u));
        ("metadata", JStr (u_metadata u)); ("groupPublicKey", JStr (u_group_public_key u));
        ("contentHash", JStr (u_content_hash u)); ("memberCount", JNum (u_member_count u));
        ("createdAt", JNum (u_created_at u))].
Definition site_json (s : SiteItem) : Json :=
  JObj [("rpId", JStr (s_rp_id s)); ("entryCount", JNum (s_entry_count s));
        ("createdAt", JNum (s_created_at s))].
Definition page_json {T} (item : T → Json) (p : Page T) : Json :=
  JObj [("total", JNum (Records.total T p)); ("page", JNum (Records.page T p)); ("pageSize", JNum (Records.page_size T p));
        ("items", JArr (item <$> Records.items T p))].

Definition group_detail_json (d : GroupDetail) (page page_size : Z) : Json :=
  JObj [("unit", unit_json (gd_unit d));
        ("members", JObj [("total", JNum (gd_member_total d));
                          ("items", JArr (entry_json <$> gd_members d))]);
        ("references", JObj [("total", JNum (gd_reference_total d));
                             ("referenceIds", nums_json (gd_reference_ids d))]);
        ("page", JNum page); ("pageSize", JNum page_size)].
Definition key_profile_json (p : KeyProfile) (page limit : Z) : Json :=
  JObj [("entry", entry_json (kp_entry p));
        ("groups", JObj [("total", JNum (kp_group_total p)); ("unitIds", nums_json (kp_group_ids p))]);
        ("references", JObj [("total", JNum (kp_reference_total p));
                             ("referenceIds", nums_json (kp_reference_ids p))]);
        ("page", JNum page); ("pageSize", JNum limit)].
Definition totals_json (t : Totals) : Json :=
  JObj [("totalEntries", JNum (t_entries t)); ("totalUnits", JNum (t_units t));
        ("totalReferences", JNum (t_references t)); ("totalRpIds", JNum (t_rp_ids t))].

(** ** Cache keys *)

Definition fmt_bool (b : bool) : string := if b then "true" else "false".

Definition page_suffix (page page_size : Z) (descending : bool) : string :=
  fmt page +:+ ":" +:+ fmt page_size +:+ ":" +:+ fmt_bool descending.

Definition cache_key_string (key : LookupCacheKey) : string :=
  match key with
  | KEntriesByKey key_hash page page_size descending =>
      "query:key:" +:+ key_hash +:+ ":" +:+ page_suffix page page_size descending
  | KEntry entry_id => "query:entry:" +:+ fmt entry_id
  | KUnit unit_id page page_size descending =>
      "query:unit:" +:+ fmt unit_id +:+ ":" +:+ page_suffix page page_size descending
  | KGroup group_key page page_size descending =>
      "query:group:" +:+ group_key +:+ ":" +:+ page_suffix page page_size descending
  | KStatsTotal => "stats:total"
  | KSites page page_size descending => "stats:rpIds:" +:+ page_suffix page page_size descending
  | KKeys rp_id page page_size descending =>
      "stats:keys:" +:+ rp_id +:+ ":" +:+ page_suffix page page_size descending
  end.

(** ** Chain reads of the lookup core *)

(** [offset / limit + 1]: the page the offset came from. *)
Definition page_of (offset limit : Z) : Z := wrap64 (offset / limit + 1).

(** [Ok(Some(v))], [Ok(None)] and [Err(_)] of a chain read. *)
Definition fetched {A} (f : A → Json) (r : result (option A) ChainError) : LookupResult :=
  match r with Ok (Some a) => LChain (f a) | Ok None => ChainNotFound | Err _ => ChainFailed end.
Definition fetched_total {A} (f : A → Json) (r : result A ChainError) : LookupResult :=
  match r with Ok a => LChain (f a) | Err _ => ChainFailed end.

Section reads.
Context `{C : Crates} {S : Type} `{R : ReadChain S}.

Definition reading {A} (m : S → A * S) (f : A → LookupResult) (s : S) : LookupResult * S :=
  let '(r, s) := m s in (f r, s).

Definition fetch_chain (fetch : ChainFetch) : S → LookupResult * S :=
  match fetch with
  | FEntriesByKey public_key offset limit descending =>
      let page := page_of offset limit in
      reading (rc_key_profile public_key page limit descending)
        (fetched (λ p, key_profile_json p page limit))
  | FEntry entry_id => reading (rc_entry entry_id) (fetched entry_json)
  | FGroupById unit_id offset limit descending =>
      let page := page_of offset limit in
      reading (rc_group_detail_by_id unit_id page limit descending)
        (fetched (λ d, group_detail_json d page limit))
  | FGroupByKey group_public_key offset limit descending =>
      match hex_decode group_public_key with
      | None => λ s, (ChainFailed, s)
      | Some key =>
          let page := page_of offset limit in
          reading (rc_group_detail_by_key key page limit descending)
            (fetched (λ d, group_detail_json d page limit))
      end
  | FTotals => reading rc_totals (fetched_total totals_json)
  | FSites offset limit descending =>
      reading (rc_rp_ids (page_of offset limit) limit descending) (fetched_total (page_json site_json))
  | FKeys rp_id offset limit descending =>
      reading (rc_groups_by_rp_id rp_id (page_of offset limit) limit descending)
        (fetched_total (page_json unit_json))
  end.
End reads.

Section http.
Context `{C : Crates, K : StoreCodec} {S Q : Type} `{R : ReadChain S, T : TaskQueue Q}.
Context (cfg : AppConfig).

Definition Ap (A : Type) : Type := App S Q → A * App S Q.
Definition ap_ret {A} (a : A) : Ap A := λ s, (a, s).
Definition ap_bind {A B} (m : Ap A) (f : A → Ap B) : Ap B := λ s, let '(a, s) := m s in f a s.
Definition ap_store {A} (m : St A) : Ap (result A string) :=
  λ s, let '(r, w) := m (a_store s) in (r, mkApp w (a_chain s) (a_queue s) (worker_pulse s)).
Definition ap_chain {A} (m : S → A * S) : Ap A :=
  λ s, let '(r, c) := m (a_chain s) in (r, mkApp (a_store s) c (a_queue s) (worker_pulse s)).
Definition ap_queue {A} (m : Q → A * Q) : Ap A :=
  λ s, let '(r, q) := m (a_queue s) in (r, mkApp (a_store s) (a_chain s) q (worker_pulse s)).

#[local] Notation "'let*' x := m 'in' k" := (ap_bind m (λ x, k))
  (at level 10, x name, m at level 100, k at level 200).

(** ** Admission operations *)

Definition answer {A} (f : A → AdmissionResult) (r : result A string) : AdmissionResult :=
  match r with Ok a => f a | Err _ => StoreUnavailable end.
Definition chain_bool {A} (f : A → bool) (r : result A ChainError) : AdmissionResult :=
  match r with Ok a => ChainBool (f a) | Err _ => ChainReadFailed end.
Definition admitted_as (a : StoreAdmission) : AdmissionResult :=
  match a with ANew _ => AdmittedAs New | AExisting id => AdmittedAs (Existing id) end.

Definition execute_admission (ip_hash : string) (operation : AdmissionOperation)
    : Ap AdmissionResult :=
  match operation with
  | AllowIpCreate => let* r := ap_store (allow_ip_create ip_hash) in ap_ret (answer Allowed r)
  | FindTaskByContent content_hash =>
      let* r := ap_store (find_by_content content_hash) in ap_ret (answer TaskFound r)
  | FindTaskByRetryDigest digest =>
      let* r := ap_store (find_by_retry_digest digest) in ap_ret (answer TaskFound r)
  | RecordRetryDigest digest task_id =>
      let* r := ap_store (record_retry_digest digest task_id RETRY_COALESCE_TTL_SECS) in
      ap_ret (answer (λ _, Persisted) r)
  | CheckContentRegistered content_hash =>
      match parse_b256 content_hash with
      | Err _ => ap_ret ChainReadFailed
      | Ok h => let* r := ap_chain (rc_is_content_registered h) in ap_ret (chain_bool id r)
      end
  | CheckReferenced group_public_key member_public_key =>
      match parse_hex_bytes group_public_key, parse_hex_bytes member_public_key with
      | Ok group, Ok member =>
          let* r := ap_chain (rc_is_referenced group member) in ap_ret (chain_bool id r)
      | _, _ => ap_ret ChainReadFailed
      end
  | CheckGroupExists group_public_key =>
      match parse_hex_bytes group_public_key with
      | Err _ => ap_ret ChainReadFailed
      | Ok group =>
          let* r := ap_chain (rc_unit_by_group_key group) in
          ap_ret (chain_bool (λ u : option Unit, bool_decide (is_Some u)) r)
      end
  | FindTaskByKey key_hash =>
      let* r := ap_store (find_by_public_key key_hash) in ap_ret (answer TaskFound r)
  | QueueDepth =>
      let* r := ap_store queue_stats in ap_ret (answer (λ stats, Depth (q_depth stats)) r)
  | AllowGlobalCreate =>
      let* r := ap_store (allow_global_create (global_write_limit cfg)) in
      ap_ret (answer Allowed r)
  | Admit task => let* r := ap_store (admit_task task) in ap_ret (answer admitted_as r)
  | LoadTask id => let* r := ap_store (get_task id) in ap_ret (answer TaskFound r)
  | Enqueue task =>
      let* r := ap_queue (q_enqueue task) in
      ap_ret (match r with Ok _ => Enqueued | Err _ => QueueUnavailable end)
  | MarkAdmitted id => let* r := ap_store (mark_admitted id) in ap_ret (answer TaskFound r)
  end.

Definition render_admission (outcome : AdmissionOutcome) : Response :=
  match outcome with
  | Invalid message => error_response 400 message
  | RateLimited => error_response 429 "rate limit exceeded, max 5 requests per minute"
  | Queued id status =>
      json_response (match status with Done => 200 | _ => 202 end)
        (JObj [("id", JStr id); ("status", status_json status)])
  | AlreadyRegistered content_hash =>
      json_response 200 (JObj [("status", JStr "done"); ("contentHash", JStr content_hash)])
  | ReferGroupMissing =>
      error_response 404 "referenced group does not exist; if you just created it, retry shortly"
  | Busy => error_response 503 "service is busy, please retry later"
  | DependencyUnavailable dependency =>
      error_response 503 (dependency +:+ " temporarily unavailable, please retry")
  end.

(** The core's run, its operations executed in turn; [id] is the fresh uuid. *)
Definition drive_admission_request (peer_ip id : string) (submitted : AdmissionRequest)
    : Ap Response :=
  λ s,
    let ip_hash := hash_ip (ip_salt cfg) peer_ip in
    let '(s', _, m) := run (execute_admission ip_hash)
      (drive_admission submitted id (now (db (a_store s))) (app_chain_id cfg)
        rc_domain_registry_address) s in
    (render_admission (settle m), s').

Definition register_handler (peer_ip id : string) (body : RegisterRequest) : Ap Response :=
  drive_admission_request peer_ip id (ARegister body).

(** The fail-open cross-check of the claimed rpId, then admission. *)
Definition refer_mismatch (body : ReferRequest) : Ap bool :=
  match fr_rp_id body, fr_group_public_key body with
  | Some rp_id, Some group_key =>
      match parse_hex_bytes group_key with
      | Err _ => ap_ret false
      | Ok b =>
          let* r := ap_chain (rc_unit_by_group_key b) in
          ap_ret match r with
                 | Ok (Some u) => negb (bool_decide (u_rp_id u = rp_id))
                 | _ => false
                 end
      end
  | _, _ => ap_ret false
  end.

Definition refer_handler (peer_ip id : string) (body : ReferRequest) : Ap Response :=
  let* mismatch := refer_mismatch body in
  if mismatch : bool
  then ap_ret (error_response 400 "rpId does not match the group's frozen record")
  else drive_admission_request peer_ip id (ARefer body).

Definition missing_task_id : Response := error_response 400 "task id is required".

Definition task_status (id : string) : Ap Response :=
  let* r := ap_store (get_task id) in
  ap_ret match r with
         | Ok (Some task) => json_response 200 (task_status_body task)
         | Ok None => error_response 404 "not found"
         | Err _ => error_response 503 "redis temporarily unavailable, please retry"
         end.

(** ** Lookup operations *)

Definition execute_fetch (fetch : ChainFetch) : Ap LookupResult := ap_chain (fetch_chain fetch).

Definition cache_result (r : result CacheRead string) : LookupResult :=
  match r with
  | Ok (CFresh value) => CacheFresh value
  | Ok CNegative => CacheNegative
  | Ok (CStale value age_ms) => CacheStale value age_ms
  | Ok CMiss => CacheMiss
  | Err _ => LStoreUnavailable
  end.

Definition stale_limit (key : LookupCacheKey) : Z :=
  match ttl_class key with TtlRecord => RECORD_STALE_LIMIT | TtlStats => STATS_STALE_LIMIT end.

Definition execute_lookup (ip_hash : string) (operation : LookupOperation) : Ap LookupResult :=
  match operation with
  | ReadCache key =>
      let* r := ap_store (cache_get (cache_key_string key) (stale_limit key)) in
      ap_ret (cache_result r)
  | WriteCache key value negative =>
      let k := cache_key_string key in
      let* r := ap_store (if negative then cache_set_negative k else cache_set k value false) in
      ap_ret (match r with Ok _ => LPersisted | Err _ => LStoreUnavailable end)
  | AllowRead =>
      let* r := ap_store (allow_read_ ip_hash) in
      ap_ret (match r with Ok allowed => LAllowed allowed | Err _ => LStoreUnavailable end)
  | FetchChain fetch => execute_fetch fetch
  | LFindTaskByKey key_hash =>
      let* r := ap_store (find_by_public_key key_hash) in
      ap_ret (match r with Ok task => LTaskFound task | Err _ => LStoreUnavailable end)
  end.

Definition render_lookup (outcome : LookupOutcome) : Response :=
  match outcome with
  | CachedOk value => cached_response value
  | OkFetched value | QueuePending value => json_response 200 value
  | StaleOk value age_ms => stale_response value age_ms
  | LInvalid message => error_response 400 message
  | NotFound => error_response 404 "not found"
  | ReadLimited => error_response 429 "rate limit exceeded, please retry later"
  | LDependencyUnavailable dependency =>
      error_response 503 (dependency +:+ " temporarily unavailable, please retry")
  end.

Definition run_lookup (peer_ip : string) (endpoint : LookupEndpoint) : Ap Response :=
  λ s,
    let ip_hash := hash_ip (ip_salt cfg) peer_ip in
    let '(s', _, m) := run (execute_lookup ip_hash) (drive_lookup endpoint) s in
    (render_lookup (settle_lookup m), s').

Definition query_handler (peer_ip : string) (params : LookupParams) : Ap Response :=
  run_lookup peer_ip (Query params).
Definition stats_total (peer_ip : string) : Ap Response := run_lookup peer_ip StatsTotalE.
Definition stats_sites (peer_ip : string) (params : LookupParams) : Ap Response :=
  run_lookup peer_ip (StatsSites params).
Definition stats_keys (peer_ip : string) (rp_id : option string) (params : LookupParams)
    : Ap Response :=
  match rp_id with
  | None => ap_ret (error_response 400 "rpId is required")
  | Some rp_id => run_lookup peer_ip (StatsKeys rp_id params)
  end.

(** ** Health *)

Definition VERSION : string := "2.1.1".

Definition stalled (now_ms beat : Z) : bool := WORKER_STALL_LIMIT <=? now_ms - beat.

Definition health_status (worker_stalled : bool) (reasons : list string) : string :=
  if worker_stalled then "unhealthy" else match reasons with [] => "ok" | _ => "degraded" end.

Definition health_base (rpc_circuit status : string) : list (string * Json) :=
  [("service", JStr "webauthn-p256-publickey-registry"); ("version", JStr VERSION);
   ("chainId", JNum (app_chain_id cfg)); ("registry", JStr rc_registry_address);
   ("domainRegistry", JStr rc_domain_registry_address); ("rpcCircuit", JStr rpc_circuit);
   ("telegramConfigured", JBool (telegram_configured cfg)); ("status", JStr status)].

Definition health : Ap Response :=
  λ s,
    let worker_stalled :=
      match worker_pulse s with Some beat => stalled (now (db (a_store s))) beat | None => false end in
    let code := if worker_stalled then 503 else 200 in
    let extra := if worker_stalled then ["queue-worker-stalled"] else [] in
    let reasons_json rs := [("reasons", JArr (JStr <$> rs))] in
    (let* r := ap_store queue_stats in
     let* circuit := ap_chain rc_circuit_state in
     match r with
     | Ok stats =>
         let reasons := health_reasons
           (mkQueueHealth (q_depth stats) (q_dlq_count stats) (q_oldest_active_age_ms stats)) ++ extra in
         ap_ret (json_response code (JObj (health_base circuit (health_status worker_stalled reasons) ++
           [("queue", JObj [("depth", JNum (q_depth stats)); ("dlq", JNum (q_dlq_count stats));
                            ("oldestJobAgeMs", JNum (q_oldest_active_age_ms stats))])] ++
           match reasons with [] => [] | _ => reasons_json reasons end)))
     | Err _ =>
         ap_ret (json_response code (JObj
           (health_base circuit (if worker_stalled then "unhealthy" else "degraded") ++
            reasons_json ("stats-unavailable" :: extra) ++
            [("queue", JObj [("error", JStr "queue stats unavailable")])])))
     end) s.
End http.

(** ** Cache keys are unambiguous *)

Definition no_colon (s : string) : Prop := str_all (λ c, negb (Ascii.eqb c ":")) s = true.

Lemma str_all_app f s1 s2 : str_all f (s1 +:+ s2) = str_all f s1 && str_all f s2.
Proof. induction s1 as [|c s IH]; [done|]. simpl. by rewrite IH, andb_assoc. Qed.

Lemma no_colon_fmt n : no_colon (fmt n).
Proof.
  assert (Hgo : ∀ x s, no_colon s → no_colon (pretty_N_go x s)).
  { intros x. induction (N.lt_wf_0 x) as [x _ IH]. intros s Hs.
    destruct (decide (x = 0)%N) as [->|]; [by rewrite pretty_N_go_0|].
    rewrite pretty_N_go_step by lia. apply IH; [apply N.div_lt; lia|].
    unfold no_colon in *. cbn [str_all]. rewrite Hs, andb_true_r. unfold pretty_N_char. by repeat case_match. }
  destruct n as [|p|p]; [done| |].
  - change (fmt (Z.pos p)) with (pretty_N_go (N.pos p) EmptyString). by apply Hgo.
  - change (fmt (Z.neg p)) with ("-" +:+ pretty_N_go (N.pos p) EmptyString).
    unfold no_colon. rewrite str_all_app. apply andb_true_iff. split; [done|by apply Hgo].
Qed.

Lemma no_colon_bool b : no_colon (fmt_bool b).
Proof. by destruct b. Qed.

Lemma last_field a b a' b' :
  a +:+ ":" +:+ b = a' +:+ ":" +:+ b' → no_colon b → no_colon b' → a = a' ∧ b = b'.
Proof.
  intros H Hb Hb'.
  assert (Hno : ∀ x y, no_colon (x +:+ ":" +:+ y) → False).
  { intros x y. unfold no_colon. rewrite !str_all_app. cbn. by rewrite andb_false_r. }
  revert a' H. induction a as [|c a IH]; intros [|c' a'] H.
  - by injection H.
  - injection H as _ H. exfalso. apply (Hno a' b'). by rewrite <-H.
  - injection H as _ H. exfalso. apply (Hno a b). by rewrite H.
  - injection H as -> H. by destruct (IH a' H) as [-> ->].
Qed.

Lemma fmt_inj n m : fmt n = fmt m → n = m.
Proof. intros H. unfold fmt in H. by apply (inj pretty). Qed.

Lemma str_app_assoc (a b c : string) : (a +:+ b) +:+ c = a +:+ (b +:+ c).
Proof.
  induction a as [|x a IH]; [done|].
  change (String x ((a +:+ b) +:+ c) = String x (a +:+ (b +:+ c))). by rewrite IH.
Qed.

(** The page fields are read off the end, whatever the text before them. *)
Lemma page_suffix_inj a p l d a' p' l' d' :
  a +:+ ":" +:+ page_suffix p l d = a' +:+ ":" +:+ page_suffix p' l' d' →
  a = a' ∧ p = p' ∧ l = l' ∧ d = d'.
Proof.
  unfold page_suffix.
  assert (Hr : ∀ a p l d, a +:+ ":" +:+ fmt p +:+ ":" +:+ fmt l +:+ ":" +:+ fmt_bool d =
    (((a +:+ ":" +:+ fmt p) +:+ ":" +:+ fmt l) +:+ ":" +:+ fmt_bool d)).
  { intros. by rewrite !str_app_assoc. }
  rewrite !Hr. intros [H Hd]%last_field; [|apply no_colon_bool..].
  apply last_field in H as [H Hl%fmt_inj]; [|apply no_colon_fmt..].
  apply last_field in H as [H Hp%fmt_inj]; [|apply no_colon_fmt..].
  split_and!; [done..|]. by destruct d, d'.
Qed.

(** Different lookups never share a cache entry: the key string names
    its lookup completely (kind, id, key or rpId, page, page size, order),
    even for an rpId that contains colons. *)
Theorem cache_key_string_inj k1 k2 : cache_key_string k1 = cache_key_string k2 → k1 = k2.
Proof.
  destruct k1 as [h p l d|i|i p l d|g p l d| |p l d|r p l d],
    k2 as [h' p' l' d'|i'|i' p' l' d'|g' p' l' d'| |p' l' d'|r' p' l' d'];
    cbn [cache_key_string]; intros H; try (by discriminate H).
  - injection H as H. by apply page_suffix_inj in H as (-> & -> & -> & ->).
  - injection H as H. by apply fmt_inj in H as ->.
  - injection H as H. by apply page_suffix_inj in H as (->%fmt_inj & -> & -> & ->).
  - injection H as H. by apply page_suffix_inj in H as (-> & -> & -> & ->).
  - done.
  - injection H as H. apply (f_equal (λ s, ":" +:+ s)) in H.
    by apply (page_suffix_inj EmptyString _ _ _ EmptyString) in H as (_ & -> & -> & ->).
  - injection H as H. by apply page_suffix_inj in H as (-> & -> & -> & ->).
Qed.

Lemma cache_key_string_inj_witness :
  cache_key_string (KKeys "a:1:2:true" 3 4 false) ≠ cache_key_string (KKeys "a" 1 2 true).
Proof. intros H. by apply cache_key_string_inj in H. Defined.

(** ** Which page a lookup fetches, caches and serves *)

(** The page and page size a cache key names. *)
Definition key_page (key : LookupCacheKey) : option (Z * Z) :=
  match key with
  | KEntry _ | KStatsTotal => None
  | KEntriesByKey _ p s _ | KUnit _ p s _ | KGroup _ p s _ | KSites p s _ | KKeys _ p s _ => Some (p, s)
  end.

Definition at_page (p : Z) (key : LookupCacheKey) : LookupCacheKey :=
  match key with
  | KEntry _ | KStatsTotal => key
  | KEntriesByKey k _ s d => KEntriesByKey k p s d
  | KUnit u _ s d => KUnit u p s d
  | KGroup g _ s d => KGroup g p s d
  | KSites _ s d => KSites p s d
  | KKeys rp _ s d => KKeys rp p s d
  end.

(** The page number stays in [u64] when it is turned into an offset. *)
Definition page_fits (key : LookupCacheKey) : Prop :=
  match key_page key with Some (p, s) => (p - 1) * s < 2 ^ 64 | None => True end.

(** The chain read a cache key stands for, at the key's own page. *)
Definition direct_read `{C : Crates} {S : Type} `{R : ReadChain S} (key : LookupCacheKey)
    : S → LookupResult * S :=
  match key with
  | KEntriesByKey k p s d => reading (rc_key_profile k p s d) (fetched (λ x, key_profile_json x p s))
  | KEntry i => reading (rc_entry i) (fetched entry_json)
  | KUnit u p s d => reading (rc_group_detail_by_id u p s d) (fetched (λ x, group_detail_json x p s))
  | KGroup g p s d =>
      match hex_decode g with
      | None => λ c, (ChainFailed, c)
      | Some g => reading (rc_group_detail_by_key g p s d) (fetched (λ x, group_detail_json x p s))
      end
  | KStatsTotal => reading rc_totals (fetched_total totals_json)
  | KSites p s d => reading (rc_rp_ids p s d) (fetched_total (page_json site_json))
  | KKeys rp p s d => reading (rc_groups_by_rp_id rp p s d) (fetched_total (page_json unit_json))
  end.

Lemma page_of_offset p s : 1 ≤ p → 1 ≤ s → p < 2 ^ 64 → (p - 1) * s < 2 ^ 64 →
  page_of (page_offset p s) s = p.
Proof.
  intros Hp Hs Hw Hf. unfold page_of, page_offset, wrap64.
  rewrite (Z.mod_small ((p - 1) * s)) by nia. rewrite Z.div_mul by lia. rewrite Z.mod_small by lia. lia.
Qed.

Lemma page_of_wrapped p s : 1 ≤ p → 1 ≤ s → p < 2 ^ 64 → 2 ^ 64 ≤ (p - 1) * s →
  1 ≤ page_of (page_offset p s) s < p.
Proof.
  intros Hp Hs Hw Hf. unfold page_of, page_offset, wrap64.
  set (o := ((p - 1) * s) mod 2 ^ 64).
  assert (Ho : 0 ≤ o < (p - 1) * s).
  { subst o. pose proof (Z.mod_pos_bound ((p - 1) * s) (2 ^ 64) ltac:(lia)). lia. }
  assert (Hd : 0 ≤ o / s < p - 1).
  { split; [apply Z.div_pos; lia|apply Z.div_lt_upper_bound; lia]. }
  rewrite Z.mod_small by lia. lia.
Qed.

Lemma fetch_chain_direct `{C : Crates} {S : Type} `{R : ReadChain S} key :
  fetch_chain (fetch_for key) =
  direct_read (match key_page key with Some (p, s) => at_page (page_of (page_offset p s) s) key | None => key end).
Proof. by destruct key. Qed.

(** The keys a lookup's trace touches, and what it fetches. *)
Definition under_key (key : LookupCacheKey) (operation : LookupOperation) : Prop :=
  match operation with
  | ReadCache k => k = key
  | WriteCache k _ _ => k = key
  | FetchChain fetch => fetch = fetch_for key
  | AllowRead | LFindTaskByKey _ => True
  end.

Lemma served_under_key key t m : served key t m → Forall (under_key key) t.*1.
Proof. destruct 1; simpl; repeat constructor. Qed.

Lemma served_is_cached key t m fetch v : served key t m → (FetchChain fetch, LChain v) ∈ t →
  m = Ok (OkFetched v) ∧ WriteCache key v false ∈ t.*1.
Proof.
  destruct 1; rewrite ?elem_of_cons; intros Hin; destruct_or?; simplify_eq; try (by apply elem_of_nil in Hin);
    try naive_solver.
  split; [done|]. set_solver.
Qed.

(** The page of a request as it is parsed, a [u64]. *)
Definition page_typed (endpoint : LookupEndpoint) : Prop :=
  match endpoint with
  | StatsTotalE => True
  | Query params | StatsSites params | StatsKeys _ params => from_option in_u64 True (lp_page params)
  end.

Lemma typed_page endpoint key p s : page_typed endpoint → request_key endpoint = Some key →
  key_in_bounds key → key_page key = Some (p, s) → 1 ≤ p < 2 ^ 64 ∧ 1 ≤ s.
Proof.
  intros Ht Hk Hb Hp.
  enough (p < 2 ^ 64) by (destruct key; simplify_eq/=; lia).
  assert (Hpage : ∀ params p' s' d, from_option in_u64 True (lp_page params) →
    pagination params = (p', s', d) → p' < 2 ^ 64).
  { unfold pagination, in_u64, U64_MAX. intros params p' s' d Hin [= <- _ _].
    destruct (lp_page params); simpl in *; lia. }
  destruct endpoint as [params| |params|rp params]; cbn [request_key page_typed] in *; [| |eauto..];
    [|by simplify_eq|..].
  all: destruct (pagination params) as [[p' s'] d] eqn:Hpag; specialize (Hpage _ _ _ _ Ht Hpag);
    repeat case_match; simplify_eq/=; try done;
    repeat match goal with H : _ <$> parse_u64 _ = Some _ |- _ => apply fmap_Some in H as (? & ? & ->) end;
    by simplify_eq/=.
Qed.

Section paging.
Context `{C : Crates, K : StoreCodec} {S Q : Type} `{R : ReadChain S, T : TaskQueue Q}.
Context (cfg : AppConfig).

Lemma execute_direct ip key :
  execute_lookup (S := S) (Q := Q) ip (FetchChain (fetch_for key)) =
  ap_chain (direct_read (match key_page key with Some (p, s) => at_page (page_of (page_offset p s) s) key | None => key end)).
Proof. cbn [execute_lookup]. unfold execute_fetch. by rewrite fetch_chain_direct. Qed.

Lemma at_own_page key p s : key_page key = Some (p, s) → at_page p key = key.
Proof. destruct key; naive_solver. Qed.

(** C40. What a lookup fetches, caches and serves is the page it was asked
    for, up to the machine width.  A request is refused before any
    operation, or names one cache key - its selector, page, size and order -
    and: every cache read and write of the run is of that key, and every
    fetch is the key's own; what was fetched is the answer, and is written
    under that key and no other; and while [(page - 1) * pageSize] fits a
    [u64], the fetch is the chain read of exactly that page.  Past that
    width the unchecked product wraps and the chain is asked for a lower
    page, which is then the one cached and served. *)
Theorem lookup_page_exact ip endpoint t m :
  exec (drive_lookup endpoint) t m → page_typed endpoint →
  (t = [] ∧ ∃ msg, m = Ok (LInvalid msg)) ∨
  ∃ key, request_key endpoint = Some key ∧
    Forall (under_key key) t.*1 ∧
    (∀ fetch v, (FetchChain fetch, LChain v) ∈ t →
      m = Ok (OkFetched v) ∧ WriteCache key v false ∈ t.*1) ∧
    (page_fits key →
      execute_lookup (S := S) (Q := Q) ip (FetchChain (fetch_for key)) = ap_chain (direct_read key)) ∧
    (¬ page_fits key → ∃ p s p', key_page key = Some (p, s) ∧ 1 ≤ p' < p ∧
      execute_lookup (S := S) (Q := Q) ip (FetchChain (fetch_for key)) = ap_chain (direct_read (at_page p' key))).
Proof.
  intros [(msg & -> & ->)|(key & Hk & Hb & Hs)]%exec_lookup Ht; [left; eauto|right; exists key].
  split_and!; [done|by eapply served_under_key|intros; by eapply served_is_cached|..]; rewrite execute_direct;
    unfold page_fits; destruct (key_page key) as [[p s]|] eqn:Hp; try done;
    destruct (typed_page _ _ _ _ Ht Hk Hb Hp) as [? ?].
  - intros Hf. rewrite page_of_offset by lia. by rewrite (at_own_page key p s).
  - intros Hf. exists p, s, (page_of (page_offset p s) s). pose proof (page_of_wrapped p s). by split_and!; [|lia|lia|].
Qed.
End paging.

(** ** Paging on an example *)

#[local] Existing Instance concrete_crates.
#[local] Existing Instance concrete_codec.

(** A chain of no sites that notes the pages it is asked for. *)
Definition asked {A} (a : A) (p n : Z) (c : list (Z * Z)) : A * list (Z * Z) := (a, c ++ [(p, n)]).
#[local] Instance paging_reads : ReadChain (list (Z * Z)) := {|
  rc_circuit_state c := ("closed", c);
  rc_registry_address := sample_registry_hex;
  rc_domain_registry_address := sample_registry_hex;
  rc_entry _ c := (Ok None, c);
  rc_key_profile _ p n _ := asked (Ok None) p n;
  rc_groups_by_rp_id _ p n _ := asked (Ok (mkPage 0 p n [])) p n;
  rc_rp_ids p n _ := asked (Ok (mkPage 0 p n [])) p n;
  rc_totals c := (Ok (mkTotals 0 0 0 0), c);
  rc_is_content_registered _ c := (Ok false, c);
  rc_is_referenced _ _ c := (Ok false, c);
  rc_unit_by_group_key _ c := (Ok None, c);
  rc_group_detail_by_key _ p n _ := asked (Ok None) p n;
  rc_group_detail_by_id _ p n _ := asked (Ok None) p n;
|}.

(** A log whose appends always succeed. *)
#[local, refine] Instance plain_queue : TaskQueue (list RegisterTask) :=
  {| q_log q := q; q_enqueue task q := (Ok tt, q ++ [task]) |}.
Proof. all: intros; by simplify_eq. Defined.

Definition sites_at (page page_size : Z) : LookupEndpoint :=
  StatsSites (mkLookupParams None None None None (Some page) (Some page_size) None).
Definition missed (key : LookupCacheKey) : ltrace :=
  [(ReadCache key, CacheMiss); (AllowRead, LAllowed true); (FetchChain (fetch_for key), LChain JNull);
   (WriteCache key JNull false, LPersisted)].
Definition site_fetch (key : LookupCacheKey) : App (list (Z * Z)) (list RegisterTask) → list (Z * Z) :=
  λ s, a_chain (execute_lookup "ip" (FetchChain (fetch_for key)) s).2.
Definition idle_app : App (list (Z * Z)) (list RegisterTask) := mkApp (mkWorld (mkRedis ∅ ∅ ∅ ∅ 0) []) [] [] None.

(** The third page is read as the third page; a page whose offset does not
    fit 64 bits reaches the chain as the first one. *)
Lemma lookup_page_exact_witness :
  site_fetch (KSites 3 20 true) idle_app = [(3, 20)] ∧
  site_fetch (KSites (2 ^ 60 + 1) 16 true) idle_app = [(1, 16)] ∧
  ∀ page page_size, (page, page_size) ∈ [(3, 20); (2 ^ 60 + 1, 16)] →
    ∃ key, request_key (sites_at page page_size) = Some key ∧ WriteCache key JNull false ∈ (missed key).*1.
Proof.
  split_and!; [by vm_compute..|].
  assert (Hone : ∀ p n, Ok (E := LookupOutcome) (OkFetched JNull) = Ok (OkFetched JNull) →
    request_key (sites_at p n) = Some (KSites p n true) →
    exec (drive_lookup (sites_at p n)) (missed (KSites p n true)) (Ok (OkFetched JNull)) → in_u64 p →
    ∃ key, request_key (sites_at p n) = Some key ∧ WriteCache key JNull false ∈ (missed key).*1).
  { intros p n _ Hk He Hp.
    destruct (lookup_page_exact (S := list (Z * Z)) (Q := list RegisterTask) "ip" _ _ _ He Hp)
      as [[? _]|(key & Hkey & _ & Hfetch & _)]; [done|].
    exists key. split; [done|]. rewrite Hk in Hkey. injection Hkey as <-.
    apply (Hfetch (fetch_for (KSites p n true)) JNull). right; right; left. }
  intros page page_size H.
  apply elem_of_cons in H as [[= -> ->]|H]; [|apply list_elem_of_singleton in H as [= -> ->]];
    apply Hone; try done; repeat constructor.
Defined.
