(* ===== verification/Queue.v ===== *)
(** * The queue producer ([p256-index-server/src/queue.rs])

    One task, one message: the append, and the provisioning of a missing
    stream or topic.  The broker is an interface; [CreateQueue] over it is a
    [TaskQueue] of the HTTP shell.  Connecting, the client's time limit and
    the lock that serializes provisioning are the runtime's. *)
From Stdlib Require Import Ascii String Strings.Byte.
From S2P Require Export Http.
From stdpp Require Import options.
#[local] Set Warnings "-register-all".

(** How building the message and [send_messages], under its time limit, end. *)
Inductive SendReply := Sent | SendInvalid | SendRejected | SendTimedOut.

(** The Iggy client on one stream and topic.  [br_topic] is what the topic
    holds, when stream and topic exist.  A message that was not acknowledged
    may have been appended; an inspection that answers tells the truth. *)
Class Broker (B : Type) := {
  br_topic : B → option (list string);
  br_send : string → B → SendReply * B;
  br_get_stream : B → result bool () * B;
  br_get_topic : B → result bool () * B;
  br_create_stream : B → bool * B;
  br_create_topic : B → bool * B;
  br_sent p b b' : br_send p b = (Sent, b') →
    ∃ l, br_topic b = Some l ∧ br_topic b' = Some (l ++ [p]);
  br_unsent p b r b' : br_send p b = (r, b') → r ≠ Sent → br_topic b' = br_topic b ∨
    ∃ l, br_topic b = Some l ∧ br_topic b' = Some (l ++ [p]);
  br_get_stream_ok b r b' : br_get_stream b = (r, b') →
    br_topic b' = br_topic b ∧ (r = Ok false → br_topic b = None);
  br_get_topic_ok b r b' : br_get_topic b = (r, b') →
    br_topic b' = br_topic b ∧ (r = Ok false → br_topic b = None);
  br_create_stream_ok b r b' : br_create_stream b = (r, b') →
    br_topic b' = br_topic b ∨ br_topic b = None ∧ br_topic b' = Some [];
  br_create_topic_ok b r b' : br_create_topic b = (r, b') →
    br_topic b' = br_topic b ∨ br_topic b = None ∧ br_topic b' = Some [];
}.

Section queue.
Context `{K : StoreCodec} {B : Type} `{BR : Broker B}.

Definition Qm (A : Type) : Type := B → result A string * B.
Definition q_ret {A} (a : A) : Qm A := λ b, (Ok a, b).
Definition q_fail {A} (e : string) : Qm A := λ b, (Err e, b).
Definition q_bind {A A'} (m : Qm A) (f : A → Qm A') : Qm A' :=
  λ b, match m b with (Ok a, b) => f a b | (Err e, b) => (Err e, b) end.

#[local] Notation "'let*' x := m 'in' k" := (q_bind m (λ x, k))
  (at level 10, x name, m at level 100, k at level 200).

(** [op.await.map_err(|_| QueueError(message))?] *)
Definition or_fail {A} (op : B → result A () * B) (message : string) : Qm A :=
  λ b, let '(r, b) := op b in (map_err (λ _, message) r, b).

Definition append (payload : string) : Qm () :=
  λ b, let '(r, b) := br_send payload b in
    (match r with
     | Sent => Ok ()
     | SendInvalid => Err "Iggy create task is invalid"
     | SendRejected => Err "Iggy rejected the create task"
     | SendTimedOut => Err "Iggy create enqueue timed out"
     end, b).

Definition create_stream_if_missing : Qm () :=
  λ b, let '(created, b) := br_create_stream b in
    if created : bool then (Ok (), b) else
    (let* found := or_fail br_get_stream "could not inspect Iggy stream" in
     if found : bool then q_ret () else q_fail "could not create Iggy stream") b.

Definition create_topic_if_missing : Qm () :=
  λ b, let '(created, b) := br_create_topic b in
    if created : bool then (Ok (), b) else
    (let* found := or_fail br_get_topic "could not inspect Iggy topic" in
     if found : bool then q_ret () else q_fail "could not create Iggy topic") b.

Definition ensure_topology : Qm bool :=
  let* stream := or_fail br_get_stream "could not inspect Iggy stream" in
  let* u := (if stream : bool then q_ret () else create_stream_if_missing) in
  let* topic := or_fail br_get_topic "could not inspect Iggy topic" in
  let* u := (if topic : bool then q_ret () else create_topic_if_missing) in
  q_ret (negb stream || negb topic).

Definition enqueue_inner (task : RegisterTask) : Qm () :=
  let payload := task_to_json task in
  λ b, match append payload b with
       | (Ok u, b) => (Ok u, b)
       | (Err first_error, b) =>
           (let* created := ensure_topology in
            if created : bool then append payload else q_fail first_error) b
       end.

(** ** At most one message *)

(** What the topic holds, none when there is none. *)
Definition payloads (b : B) : list string := default [] (br_topic b).

(** The topic is untouched, or was missing and is now empty. *)
Definition provisions (b b' : B) : Prop :=
  br_topic b' = br_topic b ∨ br_topic b = None ∧ br_topic b' = Some [].

Lemma provisions_trans b1 b2 b3 : provisions b1 b2 → provisions b2 b3 → provisions b1 b3.
Proof. intros [E1|[E1 E1']] [E2|[E2 E2']]; unfold provisions; (left; congruence) || (right; split; congruence). Qed.

Lemma provisions_payloads b b' : provisions b b' → payloads b' = payloads b.
Proof. unfold payloads. by intros [->|[-> ->]]. Qed.

Lemma append_sends p b r b' :
  append p b = (r, b') →
  (is_ok r = true → ∃ l, br_topic b = Some l ∧ br_topic b' = Some (l ++ [p])) ∧
  (br_topic b' = br_topic b ∨ ∃ l, br_topic b = Some l ∧ br_topic b' = Some (l ++ [p])).
Proof.
  unfold append. destruct (br_send p b) as [s b1] eqn:E. intros [= <- <-].
  destruct s; (split; [intros Hr; try done|]); try (by right; eapply br_sent); try (by eapply br_sent);
    by eapply br_unsent.
Qed.

(** Every part of provisioning provisions. *)
Definition provisioning {A} (m : Qm A) : Prop := ∀ b, provisions b (m b).2.

Lemma provisioning_ret {A} (a : A) : provisioning (q_ret a).
Proof. by left. Qed.
Lemma provisioning_fail {A} e : provisioning (q_fail (A := A) e).
Proof. by left. Qed.
Lemma provisioning_bind {A A'} (m : Qm A) (f : A → Qm A') :
  provisioning m → (∀ a, provisioning (f a)) → provisioning (q_bind m f).
Proof.
  intros Hm Hf b. unfold q_bind. specialize (Hm b). destruct (m b) as [[a|e] b1]; simpl in *; [|done].
  eapply provisions_trans; [exact Hm|apply Hf].
Qed.
Lemma provisioning_stream e : provisioning (or_fail br_get_stream e).
Proof.
  intros b. unfold or_fail. destruct (br_get_stream b) as [r b1] eqn:E. left.
  apply (br_get_stream_ok _ _ _ E).
Qed.
Lemma provisioning_topic e : provisioning (or_fail br_get_topic e).
Proof.
  intros b. unfold or_fail. destruct (br_get_topic b) as [r b1] eqn:E. left.
  apply (br_get_topic_ok _ _ _ E).
Qed.
#[local] Hint Resolve provisioning_ret provisioning_fail provisioning_stream provisioning_topic : core.

Lemma provisioning_create_stream : provisioning create_stream_if_missing.
Proof.
  intros b. unfold create_stream_if_missing. destruct (br_create_stream b) as [r b1] eqn:E.
  apply br_create_stream_ok in E. destruct r; [done|]. eapply provisions_trans; [exact E|].
  apply provisioning_bind; [done|]. by intros [].
Qed.
Lemma provisioning_create_topic : provisioning create_topic_if_missing.
Proof.
  intros b. unfold create_topic_if_missing. destruct (br_create_topic b) as [r b1] eqn:E.
  apply br_create_topic_ok in E. destruct r; [done|]. eapply provisions_trans; [exact E|].
  apply provisioning_bind; [done|]. by intros [].
Qed.

Lemma provisioning_topology : provisioning ensure_topology.
Proof.
  unfold ensure_topology. apply provisioning_bind; [done|intros st].
  apply provisioning_bind; [destruct st; [done|apply provisioning_create_stream]|intros _].
  apply provisioning_bind; [done|intros tp].
  apply provisioning_bind; [destruct tp; [done|apply provisioning_create_topic]|done].
Qed.

(** Provisioning that found something missing found the topic missing. *)
Lemma topology_created b b' : ensure_topology b = (Ok true, b') → payloads b = [].
Proof.
  unfold ensure_topology, q_bind, or_fail, payloads.
  destruct (br_get_stream b) as [rs b1] eqn:Es. destruct (br_get_stream_ok _ _ _ Es) as [H1 H1'].
  destruct rs as [[]|[]]; simpl; [|by rewrite H1'|done]. rewrite <-H1.
  destruct (br_get_topic b1) as [rt b2] eqn:Et. destruct (br_get_topic_ok _ _ _ Et) as [_ H2'].
  destruct rt as [[]|[]]; simpl; [done|by rewrite H2'|done].
Qed.

Lemma enqueue_at_most_once_law task b r b' :
  enqueue_inner task b = (r, b') →
  (is_ok r = true → payloads b' = payloads b ++ [task_to_json task]) ∧
  (payloads b' = payloads b ∨ payloads b' = payloads b ++ [task_to_json task]).
Proof.
  unfold enqueue_inner. destruct (append (task_to_json task) b) as [[[]|e] b1] eqn:E1;
    apply append_sends in E1 as [Hok Hany].
  { intros [= <- <-]. destruct (Hok eq_refl) as (l & H1 & H2). unfold payloads. rewrite H1, H2. auto. }
  assert (H1 : payloads b1 = payloads b ∨ payloads b1 = payloads b ++ [task_to_json task]).
  { unfold payloads. destruct Hany as [-> |(l & -> & ->)]; auto. }
  unfold q_bind. pose proof (provisioning_topology b1) as Hp.
  destruct (ensure_topology b1) as [[[]|e'] b2] eqn:Et; simpl in Hp; apply provisions_payloads in Hp;
    [|intros [= <- <-]; rewrite Hp; (split; [done|exact H1])..].
  apply topology_created in Et. intros E2. apply append_sends in E2 as [Hok2 Hany2].
  assert (H0 : payloads b = []).
  { destruct H1 as [H1|H1]; rewrite Et in H1; [done|]. by destruct (payloads b). }
  rewrite H0, Et in *. clear Hok Hany H1. unfold payloads in *. split.
  - intros Hr. destruct (Hok2 Hr) as (l & Hl & ->). rewrite Hl in Hp. simpl in *. by subst l.
  - destruct Hany2 as [-> |(l & Hl & ->)]; [by left|right]. rewrite Hl in Hp. simpl in *. by subst l.
Qed.

(** A task becomes at most one message.  When the producer reports
    success the topic holds exactly one new message, the task's; when it
    reports an error it holds at most that one: the second append, after a
    missing stream or topic was provisioned, never doubles a first one whose
    acknowledgement was lost. *)
Theorem enqueue_at_most_once task b r b' :
  enqueue_inner task b = (r, b') →
  (is_ok r = true → payloads b' = payloads b ++ [task_to_json task]) ∧
  (payloads b' = payloads b ∨ payloads b' = payloads b ++ [task_to_json task]).
Proof. apply enqueue_at_most_once_law. Qed.

(** The producer, as the HTTP shell's queue: its log is the messages that
    parse. *)
#[refine] Instance create_queue : TaskQueue B := {|
  q_log b := omap task_of_json (payloads b);
  q_enqueue task b := enqueue_inner task b;
|}.
Proof using K BR.
  - intros task b b' Hq. destruct (enqueue_at_most_once_law task b (Ok ()) b' Hq) as [H1 _].
    rewrite H1 by done. rewrite omap_app. cbn. by rewrite task_json_roundtrip.
  - intros task b e b' Hq. destruct (enqueue_at_most_once_law task b (Err e) b' Hq) as [_ [-> | ->]];
      [by left|right]. rewrite omap_app. cbn. by rewrite task_json_roundtrip.
Defined.
End queue.

(** ** Evaluation on examples *)
Section examples.
#[local] Existing Instance concrete_crates.
#[local] Existing Instance concrete_codec.

(** A broker whose state is the topic. *)
#[local, refine] Instance topic_broker : Broker (option (list string)) := {|
  br_topic b := b;
  br_send p b := match b with Some l => (Sent, Some (l ++ [p])) | None => (SendRejected, None) end;
  br_get_stream b := (Ok (bool_decide (is_Some b)), b);
  br_get_topic b := (Ok (bool_decide (is_Some b)), b);
  br_create_stream b := (true, b);
  br_create_topic b := (true, Some (default [] b));
|}.
Proof.
  - intros p [l|] b' [=]; subst. eauto.
  - intros p [l|] r b' [=]; subst; auto. intros _. right. eauto.
  - intros [l|] r b' [=]; subst; done.
  - intros [l|] r b' [=]; subst; done.
  - intros [l|] r b' [=]; subst; auto.
  - intros [l|] r b' [=]; subst; auto.
Defined.

(** The topic was never created: the producer creates it and appends once. *)
Lemma enqueue_at_most_once_witness :
  payloads (enqueue_inner sample_task None).2 = [task_to_json sample_task].
Proof.
  assert (E : (enqueue_inner sample_task None).1 = Ok ()) by (vm_compute; reflexivity).
  destruct (enqueue_inner sample_task None) as [r b'] eqn:He. simpl in E. subst r.
  by apply (enqueue_at_most_once sample_task None (Ok ()) b' He).
Defined.
End examples.
