(* ===== verification/Challenge.v ===== *)
(** * The challenge endpoint ([p256-index-server/src/http.rs], [challenge])

    What a client signs: the endpoint computes, from the fields of a write
    that is still to be signed, the challenge of each of its passkeys.  The
    theorems tie it to validation ([Validation]): a write whose proofs answer
    the handed-out challenges is accepted. *)
From Stdlib Require Import Ascii String Strings.Byte.
From S2P Require Export Http Rpc.
From stdpp Require Import options.
#[local] Set Warnings "-register-all".

(** How the handler stops early: with a response, or in an [expect]. *)
Inductive Halt :=
| Reply (r : Response)
| Panic (message : string).

(** The request's body, as [to_bytes] and [from_slice] leave it. *)
Inductive ChallengeBody := TooLarge | NotJson | Parsed (v : Json).

Definition as_bool (j : Json) : option bool := match j with JBool b => Some b | _ => None end.

Definition refuse {A} (code : Z) (message : string) : result A Halt :=
  Err (Reply (error_response code message)).

(** [Err(message) => error_response(400, pre ++ message)]. *)
Definition or_refuse {A} (pre : string) (r : result A VError) : result A Halt :=
  map_err (λ e, match e with
    | Msg m => Reply (error_response 400 (pre +:+ m))
    | Panicked m => Panic m end) r.
Definition must {A} (o : option A) : result A Halt := ok_or (Panic "validated hex") o.
Definition must_ok {A E} (r : result A E) : result A Halt := map_err (λ _, Panic "validated hex") r.

Definition body_str (k : string) (body : Json) : option string := json_get k body ≫= as_str.
Definition body_bool (k : string) (body : Json) : option bool := json_get k body ≫= as_bool.

Definition blank_proof : Proof_ := mkProof "" "" 0 0 "" "".

Section challenge.
Context `{C : Crates}.

(** [URL_SAFE_NO_PAD.encode], of the base64 crate. *)
Context (url_safe_encode : bytes → string).

Definition render_challenge (challenge : bytes) : Json :=
  JObj [("challenge", JStr (fmt_b256 challenge));
        ("challengeBase64url", JStr (url_safe_encode challenge))].

Definition body_rp_id (body : Json) : result string Halt :=
  match body_str "rpId" body with
  | None => refuse 400 "rpId is required"
  | Some rp_id =>
      if bool_decide (rp_id = "") || (253 <? str_len rp_id)
      then refuse 400 "rpId must be 1..=253 bytes" else Ok rp_id
  end.

Definition body_group_key (body : Json) : result string Halt :=
  match body_str "groupPublicKey" body with
  | None => refuse 400 "groupPublicKey is required"
  | Some k => or_refuse "groupPublicKey: " (validate_public_key_hex k)
  end.

Definition body_metadata (body : Json) : result bytes Halt :=
  match parse_hex_bytes (default "" (body_str "metadata" body)) with
  | Ok b => if byte_len b <=? MAX_METADATA_BYTES then Ok b
            else refuse 400 "metadata exceeds max length"
  | Err _ => refuse 400 "metadata must be hex"
  end.

(** MEMBER and REFERENCE modes. *)
Definition challenge_member (chain_id : Z) (registry : bytes) (body : Json) (rp_id : string)
    (group_public_key : string) (group_key_bytes : bytes) : result Response Halt :=
  match body_str "publicKey" body with
  | None => refuse 400 "publicKey (member mode) or members (group mode) is required"
  | Some k =>
      try public_key := or_refuse "publicKey: " (validate_public_key_hex k) in
      if bool_decide (public_key = group_public_key)
      then refuse 400 "the group key cannot also be a member" else
      try attestation := or_refuse "attestation: "
        (validate_attestation_hex (default "" (body_str "attestation" body))) in
      try attestation_bytes := must_ok (parse_hex_bytes attestation) in
      try binding :=
        (if default false (body_bool "refer" body)
         then try metadata_bytes := body_metadata body in
              Ok (reference_binding_for group_key_bytes attestation_bytes metadata_bytes)
         else Ok (member_binding_for group_key_bytes attestation_bytes)) in
      try key_bytes := must (hex_decode public_key) in
      let challenge := challenge_for chain_id registry rp_id key_bytes binding in
      Ok (json_response 200
        (json_set "binding" (JStr (fmt_b256 binding)) (render_challenge challenge)))
  end.

(** The skeleton of one member; [earlier] are those before it. *)
Definition skeleton_member (group_public_key : string) (earlier : list Member) (index : nat)
    (member : Json) : result Member Halt :=
  match body_str "publicKey" member with
  | None => refuse 400 (at_member index +:+ "publicKey is required")
  | Some k =>
      try public_key := or_refuse (at_member index) (validate_public_key_hex k) in
      if bool_decide (public_key = group_public_key)
      then refuse 400 (at_member index +:+ "the group key cannot also be a member") else
      if existsb (λ e, bool_decide (Task.public_key e = public_key)) earlier
      then refuse 400 (at_member index +:+ "duplicate public key within the unit") else
      try attestation := or_refuse (at_member index)
        (validate_attestation_hex (default "" (body_str "attestation" member))) in
      Ok (mkMember public_key attestation "" "" "" blank_proof)
  end.

Fixpoint skeleton_members (group_public_key : string) (earlier : list Member) (index : nat)
    (members : list Json) : result (list Member) Halt :=
  match members with
  | [] => Ok earlier
  | member :: members =>
      try m := skeleton_member group_public_key earlier index member in
      skeleton_members group_public_key (earlier ++ [m]) (S index) members
  end.

Definition skeleton (rp_id metadata group_public_key : string) (ms : list Member) : RegisterTask :=
  mkTask "" Pending Register rp_id metadata "" group_public_key (Some blank_proof) ms
    None None None 0 0 false.

Definition member_challenge (chain_id : Z) (registry : bytes) (rp_id : string)
    (group_key_bytes : bytes) (member : Member) : result (string * bytes) Halt :=
  try key := must (hex_decode (public_key member)) in
  try attestation := must_ok (parse_hex_bytes (attestation member)) in
  let binding := member_binding_for group_key_bytes attestation in
  Ok (public_key member, challenge_for chain_id registry rp_id key binding).

Definition render_member (mc : string * bytes) : Json :=
  json_set "publicKey" (JStr mc.1) (render_challenge mc.2).

Definition group_reply (content_hash group_challenge : bytes) (members : list (string * bytes))
    : Response :=
  json_response 200
    (JObj [("contentHash", JStr (fmt_b256 content_hash));
           ("groupChallenge", render_challenge group_challenge);
           ("members", JArr (render_member <$> members))]).

(** GROUP mode. *)
Definition challenge_group (chain_id : Z) (registry : bytes) (body : Json) (rp_id : string)
    (group_public_key : string) (group_key_bytes : bytes) : result Response Halt :=
  let members := default [] (json_get "members" body ≫= as_array) in
  if bool_decide (members = []) || (MAX_MEMBERS <? Z.of_nat (length members))
  then refuse 400 "members must contain 1 to 7 entries" else
  try metadata_bytes := body_metadata body in
  try ms := skeleton_members group_public_key [] 0 members in
  let skeleton := skeleton rp_id (hex_field metadata_bytes) group_public_key ms in
  try content_hash := map_err (λ _, Panic "validated fields") (content_hash_for skeleton) in
  let group_challenge := challenge_for chain_id registry rp_id group_key_bytes content_hash in
  try cs := rmap (member_challenge chain_id registry rp_id group_key_bytes) ms in
  Ok (group_reply content_hash group_challenge cs).

Definition challenge (chain_id : Z) (registry : string) (raw : ChallengeBody)
    : result Response Halt :=
  match raw with
  | TooLarge => refuse 413 "request body too large"
  | NotJson => refuse 400 "invalid JSON body"
  | Parsed body =>
      try rp_id := body_rp_id body in
      try group_public_key := body_group_key body in
      try group_key_bytes := must (hex_decode group_public_key) in
      try registry := ok_or (Reply (error_response 500 "registry misconfigured"))
        (address_parse registry) in
      match json_get "members" body with
      | Some _ =>
          if bool_decide (body_bool "refer" body = Some true)
          then refuse 400 "choose one mode: members (group) or refer (reference), not both"
          else challenge_group chain_id registry body rp_id group_public_key group_key_bytes
      | None => challenge_member chain_id registry body rp_id group_public_key group_key_bytes
      end
  end.
End challenge.

(** ** What the responses promise *)

(** The member request carries the body's fields. *)
Definition completes (member : Json) (m : MemberRequest) : Prop :=
  mr_public_key m = body_str "publicKey" member ∧ mr_attestation m = body_str "attestation" member.

(** The two records name the same key with the same attestation. *)
Definition same_fields (m1 m2 : Member) : Prop :=
  public_key m1 = public_key m2 ∧ attestation m1 = attestation m2.

Section lemmas.
Context `{C : Crates}.

Lemma or_refuse_ok {A} pre (r : result A VError) a : or_refuse pre r = Ok a → r = Ok a.
Proof. by destruct r as [|[]]; simpl; intros; simplify_eq. Qed.
Lemma must_get {A} (o : option A) a : must o = Ok a → o = Some a.
Proof. by destruct o; simpl; intros; simplify_eq. Qed.
Lemma must_ok_get {A E} (r : result A E) a : must_ok r = Ok a → r = Ok a.
Proof. by destruct r; simpl; intros; simplify_eq. Qed.

Lemma body_rp_id_ok body rp :
  body_rp_id body = Ok rp → body_str "rpId" body = Some rp ∧ parse_rp_id (Some rp) = Ok rp.
Proof.
  unfold body_rp_id. destruct (body_str "rpId" body) as [s|]; [|done].
  destruct (bool_decide_reflect (s = "")) as [|Hs]; [done|]. simpl.
  destruct (Z.ltb_spec 253 (str_len s)) as [|Hl]; [done|]. intros [= ->]. split; [done|].
  unfold parse_rp_id. destruct rp as [|c rp]; [done|]. by rewrite (proj2 (Z.ltb_ge _ _)).
Qed.

Lemma body_metadata_ok body b :
  body_metadata body = Ok b → parse_metadata (body_str "metadata" body) = Ok (hex_field b).
Proof.
  unfold body_metadata, parse_metadata. destruct (parse_hex_bytes _) as [x|]; [|done].
  destruct (Z.leb_spec (byte_len x) MAX_METADATA_BYTES); [|done]. intros [= ->]. simpl.
  by rewrite (proj2 (Z.ltb_ge _ _)).
Qed.

Lemma body_group_key_ok body g :
  body_group_key body = Ok g →
  parse_public_key (body_str "groupPublicKey" body) = Ok g ∧ ∃ b, canonical_key g b.
Proof.
  unfold body_group_key. destruct (body_str _ body) as [k|]; [|done]. intros H%or_refuse_ok.
  split; [done|]. by eapply parse_public_key_ok.
Qed.

Lemma existsb_key k ms :
  existsb (λ e, bool_decide (public_key e = k)) ms = bool_decide (k ∈ public_key <$> ms).
Proof.
  induction ms as [|m ms IH]; [by rewrite bool_decide_eq_false_2 by set_solver|].
  cbn [existsb]. rewrite IH. change (fmap public_key (m :: ms)) with (public_key m :: (public_key <$> ms)).
  apply eq_true_iff_eq. rewrite orb_true_iff, !bool_decide_eq_true, elem_of_cons. naive_solver.
Qed.

Lemma same_fields_keys l1 l2 : Forall2 same_fields l1 l2 → public_key <$> l1 = public_key <$> l2.
Proof. induction 1 as [|? ? ? ? [H _] _ IH]; [done|]. cbn. by rewrite H, IH. Qed.

(** The skeleton of a member is the member, less hints and proof. *)
Lemma skeleton_member_parse g earlier i j m r p :
  skeleton_member g earlier i j = Ok m → completes j r → parse_member r = Ok p →
  same_fields m p ∧ public_key p ≠ g ∧ public_key p ∉ public_key <$> earlier.
Proof.
  unfold skeleton_member. destruct (body_str "publicKey" j) as [k|] eqn:Ek; [|done].
  intros H [Hk Ha] Hp. apply rbind_ok in H as (key & Hkey%or_refuse_ok & H).
  case_bool_decide as Hg; [done|]. rewrite existsb_key in H. case_bool_decide as Hd; [done|].
  apply rbind_ok in H as (att & Hatt%or_refuse_ok & H). injection H as <-.
  unfold parse_member in Hp. rewrite Hk, Ek, Ha in Hp.
  change (parse_public_key (Some k)) with (validate_public_key_hex k) in Hp. rewrite Hkey in Hp.
  cbn [rbind] in Hp. rewrite Hatt in Hp. cbn [rbind] in Hp. res_inv. by subst p.
Qed.

Lemma skeleton_members_parse g earlier parsed i js ms rs ps :
  skeleton_members g earlier i js = Ok ms → Forall2 completes js rs →
  Forall2 (λ r p, parse_member r = Ok p) rs ps → Forall2 same_fields earlier parsed →
  parse_members g parsed i rs = Ok (parsed ++ ps) ∧ Forall2 same_fields ms (parsed ++ ps).
Proof.
  intros H Hc. revert earlier parsed i ps H. induction Hc as [|j r js rs Hj _ IH];
    intros earlier parsed i ps H Hp He.
  - inversion Hp; subst. injection H as <-. by rewrite app_nil_r.
  - inversion Hp as [|? p ? ps' Hrp Hps]; subst. cbn [skeleton_members] in H.
    apply rbind_ok in H as (m & Hm & H). cbn [parse_members]. rewrite Hrp. cbn [map_err rbind].
    destruct (skeleton_member_parse _ _ _ _ _ _ _ Hm Hj Hrp) as (Hs & Hg & Hd).
    rewrite existsb_key, bool_decide_eq_false_2 by done.
    rewrite bool_decide_eq_false_2 by by rewrite <-(same_fields_keys _ _ He).
    change (p :: ps') with ([p] ++ ps'). rewrite app_assoc. apply (IH _ _ _ _ H Hps).
    apply Forall2_app; [done|]. by apply Forall2_cons.
Qed.

(** Hashes and challenges read only those fields. *)
Lemma same_fields_hashes l1 l2 :
  Forall2 same_fields l1 l2 → rmap member_hash l1 = rmap member_hash l2.
Proof.
  induction 1 as [|m1 m2 l1 l2 [Hk Ha] _ IH]; [done|]. cbn [rmap]. rewrite IH.
  unfold member_hash. by rewrite Hk, Ha.
Qed.

Lemma same_fields_challenges chain reg rp gkb l1 l2 :
  Forall2 same_fields l1 l2 →
  rmap (member_challenge chain reg rp gkb) l1 = rmap (member_challenge chain reg rp gkb) l2.
Proof.
  induction 1 as [|m1 m2 l1 l2 [Hk Ha] _ IH]; [done|]. cbn [rmap]. rewrite IH.
  unfold member_challenge. by rewrite Hk, Ha.
Qed.

(** [p] answers the challenge handed out for [m]'s key. *)
Definition answers (rp : string) (m : Member) (mc : string * bytes) : Prop :=
  ∃ kb, hex_decode (public_key m) = Some kb ∧ verify_proof (proof m) mc.2 rp kb = Ok ().

Lemma answered_members chain reg rp gkb i ms cs :
  rmap (member_challenge chain reg rp gkb) ms = Ok cs → Forall2 (answers rp) ms cs →
  verify_members chain reg rp gkb i ms = Ok ().
Proof.
  intros H Ha. revert i H. induction Ha as [|m mc ms cs (kb & Hkb & Hv) _ IH]; intros i H; [done|].
  cbn [rmap] in H. apply rbind_ok in H as (c & Hc & H). apply rbind_ok in H as (cs' & Hcs & H).
  injection H as -> ->. unfold member_challenge in Hc.
  apply rbind_ok in Hc as (kb' & Hk%must_get & Hc). apply rbind_ok in Hc as (att & Hatt%must_ok_get & Hc).
  rewrite Hkb in Hk. injection Hk as <-. injection Hc as <-. cbn [snd] in Hv.
  cbn [verify_members]. rewrite Hkb, Hatt. cbn [expect expect_ok ok_or map_err rbind].
  rewrite Hv. cbn [map_err rbind]. by apply IH.
Qed.
End lemmas.

Section theorems.
Context `{C : Crates}.
Context (url_safe_encode : bytes → string).

(** What a group-mode answer is, and what a request that completes it and
    answers its challenges validates to. *)
Lemma challenge_group_ok chain reg body resp jms :
  challenge url_safe_encode chain reg (Parsed body) = Ok resp →
  json_get "members" body = Some jms →
  ∃ rp g gkb h gc cs, resp = group_reply url_safe_encode h gc cs ∧
    body_str "rpId" body = Some rp ∧ body_group_key body = Ok g ∧ hex_decode g = Some gkb ∧
  ∀ req rs ps gp id now,
    rr_rp_id req = body_str "rpId" body → rr_metadata req = body_str "metadata" body →
    rr_group_public_key req = body_str "groupPublicKey" body →
    rr_members req = Some rs → Forall2 completes (default [] (as_array jms)) rs →
    Forall2 (λ r p, parse_member r = Ok p) rs ps → parse_proof (rr_group_proof req) = Ok gp →
    verify_proof gp gc rp gkb = Ok () → Forall2 (answers rp) ps cs →
    ∃ t, validate_register req id now chain reg = Ok (t, fmt_b256 h) ∧ members t = ps.
Proof.
  unfold challenge. intros H Hm. rewrite Hm in H.
  apply rbind_ok in H as (rp & [Hrp Hrp']%body_rp_id_ok & H).
  apply rbind_ok in H as (g & Hgo & H). destruct (body_group_key_ok _ _ Hgo) as [Hg (b & Hb)].
  apply rbind_ok in H as (gkb & Hgkb%must_get & H).
  apply rbind_ok in H as (ra & Hra%ok_or_ok & H). case_bool_decide; [done|].
  unfold challenge_group in H. rewrite Hm in H. cbn [mbind option_bind] in H.
  destruct (bool_decide_reflect (default [] (as_array jms) = [])) as [|Hne]; [done|].
  destruct (Z.ltb_spec MAX_MEMBERS (Z.of_nat (length (default [] (as_array jms))))) as [|Hmax];
    [done|]. cbn [orb] in H.
  apply rbind_ok in H as (md & Hmd%body_metadata_ok & H).
  apply rbind_ok in H as (ms & Hms & H).
  apply rbind_ok in H as (h & Hh%map_err_ok & H).
  apply rbind_ok in H as (cs & Hcs & H). injection H as <-.
  exists rp, g, gkb, h, (challenge_for chain ra rp gkb h), cs. split_and!; [done..|].
  intros req rs ps gp id now E1 E2 E3 E4 Hrs Hps Hgp Hv Ha.
  pose proof (Forall2_length _ _ _ Hrs) as Hlen.
  destruct (skeleton_members_parse g [] [] 0 _ ms rs ps Hms Hrs Hps ltac:(constructor)) as [Hpm Hsame].
  rewrite app_nil_l in Hpm, Hsame.
  unfold validate_register. rewrite Hra, E1, Hrp, Hrp', E2, Hmd, E4. cbn [ok_or rbind].
  destruct rs as [|r rs]; [by apply nil_length_inv in Hlen|]. cbn [rbind].
  rewrite (proj2 (Z.ltb_ge _ _)) by lia. rewrite E3, Hg, Hgp. cbn [map_err rbind]. rewrite Hpm. cbn [map_err rbind].
  set (task := mkTask id _ _ _ _ _ _ _ _ _ _ _ _ _ _).
  assert (Ht : content_hash_for task = Ok h).
  { rewrite <-Hh. unfold content_hash_for. cbn [Task.members skeleton metadata group_public_key kind rp_id task].
    by rewrite (same_fields_hashes _ _ Hsame). }
  rewrite Ht, Hgkb. cbn [map_err expect ok_or rbind]. rewrite Hv. cbn [map_err rbind].
  rewrite (answered_members chain ra rp gkb 0 ps cs); [|by rewrite <-(same_fields_challenges _ _ _ _ _ _ Hsame)|done].
  cbn [rbind]. by eexists.
Qed.

Lemma render_inj c1 c2 :
  render_challenge url_safe_encode c1 = render_challenge url_safe_encode c2 → c1 = c2.
Proof. intros [= H _]. by apply hex_encode_inj. Qed.

Lemma group_reply_inj h1 gc1 cs1 h2 gc2 cs2 :
  group_reply url_safe_encode h1 gc1 cs1 = group_reply url_safe_encode h2 gc2 cs2 →
  h1 = h2 ∧ gc1 = gc2 ∧ cs1 = cs2.
Proof.
  unfold group_reply, json_response. intros H. injection H as Hh Hg _ Hc.
  apply hex_encode_inj in Hh, Hg. split_and!; [done..|].
  revert cs2 Hc. induction cs1 as [|[k c] cs1 IH]; intros [|[k' c'] cs2] Hc; try done.
  injection Hc as Hc _ Hk Hr. apply hex_encode_inj in Hc. rewrite Hc, Hk. f_equal. by apply IH.
Qed.

(** C24. Sign what you were handed and you are in (group creation).  When
    the endpoint answers a group-mode body with the content hash [h], the
    group challenge [gc] and the members' challenges [cs], any register
    request with the body's fields whose hints parse, whose group proof
    answers [gc] and whose members' proofs answer their own challenges
    validates, as a task of those members with exactly the announced
    content hash. *)
Theorem challenge_then_register chain reg body h gc cs jms rp g gkb req rs ps gp id now :
  challenge url_safe_encode chain reg (Parsed body) = Ok (group_reply url_safe_encode h gc cs) →
  json_get "members" body = Some jms → body_str "rpId" body = Some rp →
  body_group_key body = Ok g → hex_decode g = Some gkb →
  rr_rp_id req = Some rp → rr_metadata req = body_str "metadata" body →
  rr_group_public_key req = body_str "groupPublicKey" body →
  rr_members req = Some rs → Forall2 completes (default [] (as_array jms)) rs →
  Forall2 (λ r p, parse_member r = Ok p) rs ps → parse_proof (rr_group_proof req) = Ok gp →
  verify_proof gp gc rp gkb = Ok () → Forall2 (answers rp) ps cs →
  ∃ t, validate_register req id now chain reg = Ok (t, fmt_b256 h) ∧ members t = ps.
Proof.
  intros H Hm Hrp Hg Hgkb. destruct (challenge_group_ok _ _ _ _ _ H Hm)
    as (rp' & g' & gkb' & h' & gc' & cs' & (-> & -> & ->)%group_reply_inj & E1 & E2 & E3 & Hok).
  rewrite <-Hrp. rewrite Hrp in E1. rewrite Hg in E2. simplify_eq. apply Hok.
Qed.

(** The same for a reference: a refer request with the body's fields
    whose member's proof answers the handed-out challenge validates. *)
Theorem challenge_then_refer chain reg body binding c rp g req r p id now :
  challenge url_safe_encode chain reg (Parsed body) =
    Ok (json_response 200 (json_set "binding" (JStr binding) (render_challenge url_safe_encode c))) →
  json_get "members" body = None → body_bool "refer" body = Some true →
  body_str "rpId" body = Some rp → body_group_key body = Ok g →
  fr_rp_id req = Some rp → fr_metadata req = body_str "metadata" body →
  fr_group_public_key req = body_str "groupPublicKey" body →
  fr_member req = Some r → completes body r → parse_member r = Ok p →
  answers rp p (public_key p, c) →
  ∃ t, validate_refer req id now chain reg = Ok (t, content_hash t) ∧ members t = [p] ∧
    group_public_key t = g.
Proof.
  unfold challenge. intros H Hm Hrefer Hrp Hg E1 E2 E3 E4 [Ek Ea] Hp (kb & Hkb & Hv).
  rewrite Hm in H. apply rbind_ok in H as (rp' & [Hrp0 Hrp']%body_rp_id_ok & H).
  rewrite Hrp in Hrp0. injection Hrp0 as <-. rewrite Hg in H. cbn [rbind] in H.
  destruct (body_group_key_ok _ _ Hg) as [Hgk (gb & Hgb)].
  rewrite (ck_decode _ _ Hgb) in H. cbn [must ok_or rbind] in H.
  apply rbind_ok in H as (ra & Hra%ok_or_ok & H).
  unfold challenge_member in H. destruct (body_str "publicKey" body) as [k|] eqn:Ekey; [|done].
  apply rbind_ok in H as (key & Hkey%or_refuse_ok & H). case_bool_decide as Hne; [done|].
  apply rbind_ok in H as (att & Hatt%or_refuse_ok & H).
  apply rbind_ok in H as (ab & Hab%must_ok_get & H). rewrite Hrefer in H. cbn [default] in H.
  apply rbind_ok in H as (b & Hb & H). apply rbind_ok in Hb as (md & Hmd%body_metadata_ok & Hb).
  injection Hb as <-. apply rbind_ok in H as (kb' & Hkb'%must_get & H).
  injection H as Hc%hex_encode_inj _ _. subst c.
  pose proof (parse_member_ok _ _ Hp) as Hwf.
  pose proof Hp as Hp'. unfold parse_member in Hp'. rewrite Ek, Ea in Hp'.
  change (parse_public_key (Some k)) with (validate_public_key_hex k) in Hp'. rewrite Hkey in Hp'.
  cbn [rbind] in Hp'. rewrite Hatt in Hp'. cbn [rbind] in Hp'. res_inv.
  assert (Hfields : public_key p = key ∧ attestation p = att) by (by subst p). destruct Hfields as [Hpk Hpa].
  clear Hp'. rewrite Hpk in Hkb. rewrite Hkb in Hkb'. injection Hkb' as <-.
  destruct (parse_metadata_ok _ _ Hmd) as (md' & Heq & _). apply hex_field_inj in Heq as <-.
  unfold validate_refer. rewrite Hra, E1, Hrp', E3, Hgk, E2, Hmd, E4. cbn [ok_or map_err rbind].
  rewrite Hp. cbn [map_err rbind]. rewrite Hpk, bool_decide_eq_false_2 by done.
  set (task := mkTask id _ _ _ _ _ _ _ _ _ _ _ _ _ _).
  destruct (wf_member_hash _ Hwf) as [mh Hmh].
  assert (Ht : ∃ h, content_hash_for task = Ok h).
  { unfold content_hash_for. subst task. cbn [Task.members metadata group_public_key kind rmap head].
    rewrite (canonical_key_parse _ _ Hgb), parse_hex_field, Hmh. cbn [rbind ok_or].
    destruct (wm_key _ Hwf) as [x Hx%canonical_key_parse]. rewrite Hx. cbn [rbind]. by eexists. }
  destruct Ht as [h Ht]. rewrite Ht, (ck_decode _ _ Hgb), Hkb, Hpa, Hab, parse_hex_field.
  cbn [map_err expect expect_ok ok_or rbind]. cbn [snd] in Hv. rewrite Hv. cbn [map_err rbind].
  by eexists.
Qed.

(** ** No [expect] of the handler ever fires *)

Definition never_halts {A} (r : result A Halt) : Prop := ∀ m, r ≠ Err (Panic m).

Lemma never_bind {A B} (r : result A Halt) (f : A → result B Halt) :
  never_halts r → (∀ a, r = Ok a → never_halts (f a)) → never_halts (rbind r f).
Proof. intros Hr Hf m. destruct r as [a|e]; cbn; [by apply Hf|]. intros [= ->]. by eapply Hr. Qed.
Lemma never_refuse {A} code m : never_halts (refuse (A := A) code m).
Proof. done. Qed.
Lemma never_or_refuse {A} pre (r : result A VError) : no_panic r → never_halts (or_refuse pre r).
Proof. intros Hr m. destruct r as [|[x|x]]; cbn; [done..|]. by destruct (Hr x). Qed.
Lemma never_ok {A} (a : A) : never_halts (Ok a).
Proof. done. Qed.
#[local] Hint Resolve never_refuse never_ok : core.

(** A skeleton's fields are canonical. *)
Definition skeletal (m : Member) : Prop :=
  (∃ b, canonical_key (public_key m) b) ∧ ∃ a, attestation m = hex_field a.

Lemma skeleton_members_ok g earlier i js ms :
  Forall skeletal earlier → skeleton_members g earlier i js = Ok ms → Forall skeletal ms.
Proof.
  revert earlier i. induction js as [|j js IH]; intros earlier i He; cbn [skeleton_members].
  - by intros [= <-].
  - intros (m & Hm & H)%rbind_ok. eapply IH, H. apply Forall_app_2; [done|]. apply Forall_singleton.
    unfold skeleton_member in Hm. destruct (body_str "publicKey" j); [|done].
    apply rbind_ok in Hm as (k & Hk%or_refuse_ok%parse_public_key_ok & Hm).
    case_bool_decide; [done|]. destruct (existsb _ _); [done|].
    apply rbind_ok in Hm as (a & (b & Hb & _)%or_refuse_ok%validate_attestation_ok & Hm).
    injection Hm as <-. split; [done|by exists b].
Qed.

Lemma skeleton_members_never g earlier i js : never_halts (skeleton_members g earlier i js).
Proof.
  revert earlier i. induction js as [|j js IH]; intros earlier i; cbn [skeleton_members]; [done|].
  apply never_bind; [|intros m _; apply IH]. unfold skeleton_member.
  destruct (body_str "publicKey" j); [|done].
  apply never_bind; [apply never_or_refuse, no_panic_public_key|intros k _].
  case_bool_decide; [done|]. destruct (existsb _ _); [done|].
  apply never_bind; [apply never_or_refuse, no_panic_attestation|done].
Qed.

Lemma skeletal_challenge chain ra rp gkb m :
  skeletal m → ∃ c, member_challenge chain ra rp gkb m = Ok c.
Proof.
  intros [[b Hb] [a Ha]]. unfold member_challenge.
  rewrite (ck_decode _ _ Hb), Ha, parse_hex_field. by eexists.
Qed.

Lemma skeletal_hash rp md g gb ms :
  canonical_key g gb → Forall skeletal ms → ∃ h, content_hash_for (skeleton rp (hex_field md) g ms) = Ok h.
Proof.
  intros Hg Hms. unfold content_hash_for. cbn [skeleton group_public_key metadata members kind rp_id].
  rewrite (canonical_key_parse _ _ Hg), parse_hex_field. cbn [rbind].
  destruct (rmap_total member_hash ms) as [hs ->]; [|by eexists].
  eapply Forall_impl; [exact Hms|]. intros m [[b Hb%canonical_key_parse] [a Ha]].
  unfold member_hash. rewrite Hb, Ha, parse_hex_field. by eexists.
Qed.

(** The challenge handler is total: whatever body it is sent and
    however the registry is configured, it answers; none of its six
    [expect]s can fire, because every key and byte field it decodes again
    was normalized first. *)
Theorem challenge_never_panics chain reg raw m :
  challenge url_safe_encode chain reg raw ≠ Err (Panic m).
Proof.
  revert m. change (never_halts (challenge url_safe_encode chain reg raw)).
  destruct raw as [| |body]; [done..|]. unfold challenge.
  apply never_bind; [unfold body_rp_id; by repeat case_match|intros rp _].
  apply never_bind.
  { unfold body_group_key. destruct (body_str _ body); [|done]. apply never_or_refuse, no_panic_public_key. }
  intros g [_ (gb & Hg)]%body_group_key_ok. rewrite (ck_decode _ _ Hg). cbn [must ok_or rbind].
  apply never_bind; [by destruct (address_parse reg)|intros ra _].
  assert (Hmd : never_halts (body_metadata body)).
  { unfold body_metadata. destruct (parse_hex_bytes _); [|done]. by destruct (_ <=? _). }
  destruct (json_get "members" body) as [jms|].
  - case_bool_decide; [done|]. unfold challenge_group. destruct (_ || _); [done|].
    apply never_bind; [done|intros md _]. apply never_bind; [apply skeleton_members_never|].
    intros ms Hms%skeleton_members_ok; [|constructor].
    destruct (skeletal_hash rp md g gb ms Hg Hms) as [h ->]. cbn [map_err rbind].
    destruct (rmap_total (member_challenge chain ra rp gb) ms) as [cs ->]; [|done].
    eapply Forall_impl; [exact Hms|]. intros x. apply skeletal_challenge.
  - unfold challenge_member. destruct (body_str "publicKey" body); [|done].
    apply never_bind; [apply never_or_refuse, no_panic_public_key|].
    intros k (kb & Hk)%or_refuse_ok%parse_public_key_ok. case_bool_decide; [done|].
    apply never_bind; [apply never_or_refuse, no_panic_attestation|].
    intros att (ab & -> & _)%or_refuse_ok%validate_attestation_ok. rewrite parse_hex_field.
    cbn [must_ok map_err rbind]. rewrite (ck_decode _ _ Hk). cbn [must ok_or rbind].
    apply never_bind; [|done]. destruct (default false _); [|done]. by apply never_bind.
Qed.
End theorems.

(** ** Evaluation on examples *)
Section examples.
#[local] Existing Instance concrete_crates.

Definition blank_member : Member := mkMember "" "" "" "" "" blank_proof.

Definition group_body : Json :=
  JObj [("rpId", JStr sample_rp); ("metadata", JStr "0102");
        ("groupPublicKey", JStr ("0x" +:+ hex_encode group_key_bytes));
        ("members", JArr [JObj [("publicKey", JStr (hex_encode member_key_bytes))]])].

(** What the endpoint hands out for it. *)
Definition handed_hash : bytes :=
  match content_hash_for sample_task with Ok h => h | Err _ => [] end.
Definition handed_group : bytes :=
  challenge_for 100 sample_registry sample_rp group_key_bytes handed_hash.
Definition handed_members : list (string * bytes) :=
  match rmap (member_challenge 100 sample_registry sample_rp group_key_bytes) (members sample_task) with
  | Ok cs => cs
  | Err _ => []
  end.
Definition first_member : Member := default blank_member (head (members sample_task)).
Definition first_request : MemberRequest :=
  default (mkMemberRequest None None None None None None)
    (head (default [] (rr_members sample_register_request))).

Lemma challenge_then_register_witness :
  ∃ t, validate_register sample_register_request "t1" 1000 100 sample_registry_hex =
      Ok (t, fmt_b256 handed_hash) ∧ members t = [first_member].
Proof.
  apply (challenge_then_register base64url_32 100 sample_registry_hex group_body
    handed_hash handed_group handed_members
    (JArr [JObj [("publicKey", JStr (hex_encode member_key_bytes))]]) sample_rp
    (hex_encode group_key_bytes) group_key_bytes sample_register_request
    [first_request] [first_member] sample_group_proof "t1" 1000).
  - vm_compute. reflexivity.
  - reflexivity.
  - reflexivity.
  - vm_compute. reflexivity.
  - vm_compute. reflexivity.
  - reflexivity.
  - reflexivity.
  - reflexivity.
  - reflexivity.
  - by repeat constructor.
  - constructor; [vm_compute; reflexivity|constructor].
  - reflexivity.
  - vm_compute. reflexivity.
  - unfold handed_members. assert (Hm : rmap (member_challenge 100 sample_registry sample_rp
      group_key_bytes) (members sample_task) = Ok [default ("", []) (head handed_members)])
      by (vm_compute; reflexivity).
    rewrite Hm. constructor; [|constructor]. exists member_key_bytes. split; vm_compute; reflexivity.
Defined.

Definition refer_body : Json :=
  JObj [("rpId", JStr sample_rp); ("metadata", JStr "0x0102"); ("refer", JBool true);
        ("groupPublicKey", JStr (hex_encode group_key_bytes));
        ("publicKey", JStr (hex_encode member_key_bytes))].
Definition refer_member : MemberRequest :=
  default (mkMemberRequest None None None None None None) (fr_member sample_refer_request).
Definition refer_binding : bytes := reference_binding_for group_key_bytes [] sample_metadata.

Definition refer_signer : Member := default blank_member (head (members refer_result)).

Lemma challenge_then_refer_witness :
  ∃ t, validate_refer sample_refer_request "t2" 1000 100 sample_registry_hex = Ok (t, content_hash t) ∧
    members t = [refer_signer] ∧ group_public_key t = hex_encode group_key_bytes.
Proof.
  apply (challenge_then_refer base64url_32 100 sample_registry_hex refer_body (fmt_b256 refer_binding)
    (challenge_for 100 sample_registry sample_rp member_key_bytes refer_binding) sample_rp
    (hex_encode group_key_bytes) sample_refer_request refer_member refer_signer "t2" 1000).
  - vm_compute. reflexivity.
  - reflexivity.
  - reflexivity.
  - reflexivity.
  - vm_compute. reflexivity.
  - reflexivity.
  - reflexivity.
  - reflexivity.
  - reflexivity.
  - by split.
  - vm_compute. reflexivity.
  - exists member_key_bytes. split; vm_compute; reflexivity.
Defined.
End examples.
