(* ===== verification/Worker.v ===== *)
(** * The create worker ([p256-index-server/src/worker.rs])

    The shell of the submission core: it executes each operation against the
    store and the chain, keeps the nonce cache and the broadcast ledger, and
    moves the queue's offset past a batch only on an [Advance] verdict.  The
    chain client is an interface of arbitrary behaviour. *)
From Stdlib Require Import Ascii String Strings.Byte.
From S2P Require Export StoreFacts Submission Gas Sentinel ChainTypes.
From stdpp Require Import options.

(** The chain client the worker writes and reads through ([Chain]); [S] is
    everything its answers depend on. *)
Class ChainClient (S : Type) := {
  pending_nonce : S → result Z ChainError * S;
  chain_register : RegisterTask → Z → S → result Broadcast ChainError * S;
  wait_for_receipt : string → S → result ReceiptOutcome ChainError * S;
  is_content_registered : bytes → S → result bool ChainError * S;
  is_referenced : bytes → bytes → S → result bool ChainError * S;
}.

Record Worker (S : Type) := mkWorker {
  w_store : World;
  w_nonce : option Z;
  w_chain : S;
}.
Arguments mkWorker {S} _ _ _.
Arguments w_store {S} _.
Arguments w_nonce {S} _.
Arguments w_chain {S} _.

Section worker.
Context `{C : Crates, K : StoreCodec} {S : Type} `{ChainClient S}.

Definition Wk (A : Type) : Type := Worker S → A * Worker S.
Definition wk_ret {A} (a : A) : Wk A := λ s, (a, s).
Definition wk_bind {A B} (m : Wk A) (f : A → Wk B) : Wk B := λ s, let '(a, s) := m s in f a s.
Definition on_store {A} (m : St A) : Wk (result A string) :=
  λ s, let '(r, w) := m (w_store s) in (r, mkWorker w (w_nonce s) (w_chain s)).
Definition on_chain {A} (m : S → A * S) : Wk A :=
  λ s, let '(r, c) := m (w_chain s) in (r, mkWorker (w_store s) (w_nonce s) c).
Definition set_nonce (n : option Z) : Wk unit :=
  λ s, (tt, mkWorker (w_store s) n (w_chain s)).

#[local] Notation "'let*' x := m 'in' k" := (wk_bind m (λ x, k))
  (at level 10, x name, m at level 100, k at level 200).

(** ** Nonces *)

Definition acquire : Wk (result Z string) :=
  λ s, match w_nonce s with
       | Some nonce => (Ok nonce, mkWorker (w_store s) (Some (sat_add U64_MAX nonce 1)) (w_chain s))
       | None =>
           let '(r, c) := pending_nonce (w_chain s) in
           match r with
           | Ok nonce => (Ok nonce, mkWorker (w_store s) (Some (sat_add U64_MAX nonce 1)) c)
           | Err _ => (Err "could not acquire pending chain nonce", mkWorker (w_store s) None c)
           end
       end.

Definition release : Wk unit := set_nonce None.

(** Both ignore the store's answer. *)
Definition record_pending (nonce : Z) (hash : string) (fees_wei : option (Z * Z)) : Wk unit :=
  let* r := on_store (do now_ms := st_now in
    record_pending_tx REGISTER_ROLE nonce hash now_ms 0 fees_wei) in wk_ret tt.
Definition clear_pending (nonce : Z) : Wk unit :=
  let* r := on_store (delete_pending_tx REGISTER_ROLE nonce) in wk_ret tt.

(** ** Operations *)

Definition submit (task : RegisterTask) : Wk TxOutcome :=
  let* acquired := acquire in
  match acquired with
  | Err _ => wk_ret NoncePoolUnavailable
  | Ok nonce =>
      let* sent := on_chain (chain_register task nonce) in
      match sent with
      | Ok b =>
          let* u := record_pending nonce (bc_hash b) (bc_fees_wei b) in
          let* receipt := on_chain (wait_for_receipt (bc_hash b)) in
          match receipt with
          | Ok (Success on_chain_id) =>
              let* u := clear_pending nonce in wk_ret (Confirmed (bc_hash b) on_chain_id)
          | Ok RReverted =>
              let* u := clear_pending nonce in
              let* u := release in wk_ret (TxReverted (bc_hash b))
          | Err error => let* u := release in wk_ret (ReceiptUncertain error)
          end
      | Err error => let* u := release in wk_ret (SendFailed error)
      end
  end.

Definition store_ack {A} (r : result A string) : SubmissionResult :=
  match r with Ok _ => Persisted | Err _ => StoreUnavailable end.

Fixpoint load_tasks (ids : list string) : St (list (option RegisterTask)) :=
  match ids with
  | [] => st_ret []
  | id :: ids =>
      do task := get_task id in
      do tasks := load_tasks ids in st_ret (task :: tasks)
  end.

Definition content_checked (r : result bool ChainError) : SubmissionResult :=
  match r with Ok registered => ContentChecked registered | Err _ => ChainReadFailed end.

Definition execute (operation : SubmissionOperation) : Wk SubmissionResult :=
  match operation with
  | LoadTasks ids =>
      let* r := on_store (load_tasks ids) in
      wk_ret (match r with Ok tasks => TasksLoaded tasks | Err _ => StoreUnavailable end)
  | CheckContentRegistered content_hash =>
      match parse_b256 content_hash with
      | Ok h => let* r := on_chain (is_content_registered h) in wk_ret (content_checked r)
      | Err _ => wk_ret ChainReadFailed
      end
  | CheckReferenced group_public_key member_public_key =>
      match parse_hex_bytes group_public_key, parse_hex_bytes member_public_key with
      | Ok group, Ok member =>
          let* r := on_chain (is_referenced group member) in wk_ret (content_checked r)
      | _, _ => wk_ret ChainReadFailed
      end
  | SubmitRegister task => let* o := submit task in wk_ret (Tx o)
  | MarkDone task_id tx_hash on_chain_id =>
      let* r := on_store (Store.mark_done task_id tx_hash on_chain_id) in wk_ret (store_ack r)
  | MarkFailed task_id kind message =>
      let* r := on_store (mark_failed task_id (as_store_class kind) message) in wk_ret (store_ack r)
  | RecordTransientFailure task_id message =>
      let* r := on_store (record_transient_failure task_id message) in wk_ret (store_ack r)
  end.

(** [process_batch]: the ids of the polled envelopes through the core. *)
Definition process_batch (queue_tasks : list RegisterTask) : Wk (result unit string) :=
  λ s, match queue_tasks with
       | [] => (Ok tt, s)
       | _ =>
           let '(s', _, m) := run execute (drive_batch (task_id <$> queue_tasks)) s in
           (match settle_batch m with
            | Some Advance => Ok tt
            | Some (Retry reason) => Err reason
            | None => Err "submission batch never settled"
            end, s')
       end.

(** One turn of [run]'s loop on the polled messages, offset and payload
    each: what happens to the consumer's offset, and the failure count. *)
Inductive PollOutcome :=
| Idle
| Requeued
| StoreOffset (highest_offset : Z)
| RetryAfter (reason : string) (backoff_secs : Z).

Definition handle_poll (fee : result FeeVerdict ChainError) (failures : Z)
    (messages : list (Z * string)) : Wk (PollOutcome * Z) :=
  match last messages with
  | None => wk_ret (Idle, failures)
  | Some (highest_offset, _) =>
      let tasks := omap (task_of_json ∘ snd) messages in
      match fee with
      | Ok (TooExpensive _ _) => wk_ret (Requeued, failures)
      | _ =>
          let* r := process_batch tasks in
          match r with
          | Ok _ => wk_ret (StoreOffset highest_offset, 0)
          | Err error =>
              let failures := sat_add U32_MAX failures 1 in
              wk_ret (RetryAfter error (Z.min (backoff_delay failures) 60), failures)
          end
      end
  end.
End worker.

(** ** What an operation does to the store *)

Section store_effects.
Context `{C : Crates, K : StoreCodec}.

(** No live task is stored under [id]. *)
Definition resolved (d : Redis) (id : string) : Prop :=
  ∀ t, redis_get (task_key id) d = Some (task_to_json t) → status t ≠ Pending.

(** A command that resolves nothing back to pending. *)
Definition keeps_resolved (d d' : Redis) : Prop := ∀ id, resolved d id → resolved d' id.

Lemma keeps_refl d : keeps_resolved d d.
Proof. by intros id. Qed.
#[local] Hint Resolve keeps_refl : core.

Lemma get_task_exact id w t w' :
  get_task id w = (Ok (Some t), w') → store_inv (db w) → db w' = db w ∧ stored (db w) id t.
Proof.
  intros Hg Hi. destruct (get_task_ok _ _ _ _ Hg Hi) as (Hdb & Hid & _). split; [done|].
  split; [|done]. unfold get_task, st_bind in Hg. destruct (query _ w) as [[v|e] w1] eqn:Hq; [|done].
  injection Hg as Hv ->. apply query_ok in Hq. injection Hq as <- _.
  destruct (redis_get (task_key id) (db w)) as [v|] eqn:Hk; [|done]. simpl in Hv.
  pose proof Hk as (e & Hrec & _)%redis_get_some.
  destruct (inv_records _ Hi _ _ _ Hrec) as (t1 & -> & _). rewrite task_json_roundtrip in Hv. by simplify_eq.
Qed.

Lemma get_task_none id w w' :
  get_task id w = (Ok None, w') → store_inv (db w) → db w' = db w ∧ redis_get (task_key id) (db w) = None.
Proof.
  intros Hg Hi. pose proof (get_task_db id w) as Hdb. rewrite Hg in Hdb. split; [done|].
  unfold get_task, st_bind in Hg. destruct (query _ w) as [[v|e] w1] eqn:Hq; [|done].
  injection Hg as Hv ->. apply query_ok in Hq. injection Hq as <- _.
  destruct (redis_get (task_key id) (db w)) as [v|] eqn:Hk; [|done]. simpl in Hv.
  pose proof Hk as (e & Hrec & _)%redis_get_some.
  destruct (inv_records _ Hi _ _ _ Hrec) as (t1 & -> & _). by rewrite task_json_roundtrip in Hv.
Qed.

Lemma stored_resolved d id t : stored d id t → status t ≠ Pending → resolved d id.
Proof. intros [Hs _] Ht t'. rewrite Hs. by intros [= <-%task_to_json_inj]. Qed.

(** Writing one record: terminal, or over a pending one. *)
Lemma rewrite_resolved d d' t e :
  now d' = now d → strings d' !! task_key (task_id t) = Some (task_to_json t, e) →
  (∀ id, id ≠ task_id t → strings d' !! task_key id = strings d !! task_key id) →
  (status t ≠ Pending → resolved d' (task_id t)) ∧
  (status t ≠ Pending ∨ ¬ resolved d (task_id t) → keeps_resolved d d').
Proof.
  intros Hn Ht Hto.
  assert (Hself : status t ≠ Pending → resolved d' (task_id t)).
  { intros Hs t' (e' & Hk & _)%redis_get_some. rewrite Ht in Hk. by injection Hk as <-%task_to_json_inj _. }
  split; [done|]. intros Hor id Hr. destruct (decide (id = task_id t)) as [->|Hne].
  - destruct Hor as [Hs|Hs]; [by apply Hself|by destruct Hs].
  - intros t'. unfold redis_get. rewrite Hn, Hto by done. apply Hr.
Qed.

Lemma done_resolves t d :
  status t ≠ Pending →
  resolved (done_script t d).2 (task_id t) ∧ keeps_resolved d (done_script t d).2.
Proof.
  intros Hs. destruct (done_script_effects t d) as (E1 & E2 & _ & _ & _ & E6).
  destruct (rewrite_resolved _ _ _ _ E6 E1 E2) as [H1 H2]. auto.
Qed.

Lemma failed_resolves t d :
  status t ≠ Pending →
  resolved (failed_script t d).2 (task_id t) ∧ keeps_resolved d (failed_script t d).2.
Proof.
  intros Hs. destruct (failed_script_effects t d) as (E1 & E2 & _ & _ & _ & E6).
  destruct (rewrite_resolved _ _ _ _ E6 E1 E2) as [H1 H2]. auto.
Qed.

(** A settling call: it reads the task, then runs one command that resolves
    it. *)
Lemma settle_resolves id (upd : RegisterTask → RegisterTask) (script : RegisterTask → Redis → unit * Redis)
    (m : St (option RegisterTask)) w :
  m = (do found := get_task id in
       match found with
       | None => st_ret None
       | Some t => do u := query (script (upd t)) in st_ret (Some (upd t))
       end) →
  reachable (db w) → (∀ t, status (upd t) ≠ Pending ∧ task_id (upd t) = task_id t) →
  (∀ t d, status t ≠ Pending → resolved (script t d).2 (task_id t) ∧ keeps_resolved d (script t d).2) →
  keeps_resolved (db w) (db (m w).2) ∧ (∀ r, (m w).1 = Ok r → resolved (db (m w).2) id).
Proof.
  intros -> Hr Hu Hsc. pose proof (inv_reachable _ Hr) as Hi. unfold st_bind at 1 3 5.
  pose proof (get_task_db id w) as Hdb. destruct (get_task id w) as [[[t|]|e] w1] eqn:Hg; simpl in Hdb.
  - destruct (get_task_exact _ _ _ _ Hg Hi) as [_ [_ Hid]]. destruct (Hu t) as [Hs Hid'].
    destruct (Hsc (upd t) (db w1) Hs) as [H1 H2]. rewrite Hid', Hid in H1.
    unfold st_bind. pose proof (query_db (script (upd t)) w1) as Hq.
    destruct (query _ w1) as [[u|e] w2] eqn:E; simpl in *.
    + apply query_ok in E. rewrite E in *. simpl in *. by rewrite <-Hdb.
    + split; [|done]. rewrite <-Hdb. by destruct Hq as [-> | ->].
  - destruct (get_task_none _ _ _ Hg Hi) as [_ Hk]. simpl. rewrite Hdb. split; [by intros ?|].
    intros r _ t. by rewrite Hk.
  - simpl. rewrite Hdb. split; [by intros ?|done].
Qed.

Lemma mark_done_resolves id tx n w :
  reachable (db w) →
  keeps_resolved (db w) (db (Store.mark_done id tx n w).2) ∧
  (∀ r, (Store.mark_done id tx n w).1 = Ok r → resolved (db (Store.mark_done id tx n w).2) id).
Proof.
  intros Hr. apply (settle_resolves id (done_task tx n) done_script); [reflexivity|done|by split|].
  intros t d. apply done_resolves.
Qed.

Lemma mark_failed_resolves id p msg w :
  reachable (db w) →
  keeps_resolved (db w) (db (mark_failed id p msg w).2) ∧
  (∀ r, (mark_failed id p msg w).1 = Ok r → resolved (db (mark_failed id p msg w).2) id).
Proof.
  intros Hr. apply (settle_resolves id (failed_task p msg) failed_script); [reflexivity|done|by split|].
  intros t d. apply failed_resolves.
Qed.

Lemma transient_keeps id msg w :
  reachable (db w) → keeps_resolved (db w) (db (record_transient_failure id msg w).2).
Proof.
  intros Hr. pose proof (inv_reachable _ Hr) as Hi. unfold record_transient_failure, st_bind at 1.
  pose proof (get_task_db id w) as Hdb. destruct (get_task id w) as [[[t|]|e] w1] eqn:Hg; simpl in Hdb;
    [|by rewrite <-Hdb..].
  destruct (get_task_exact _ _ _ _ Hg Hi) as [_ Hst]. destruct (is_terminal (status t)) eqn:Ht; [by rewrite <-Hdb|].
  assert (Hp : status t = Pending) by (by destruct (status t)). rewrite <-Hdb in *.
  assert (Hid : task_id (retried_task msg t) = task_id t) by (unfold retried_task; by case_match).
  destruct (Z.leb_spec 10 (retries (retried_task msg t))) as [Hn|Hn];
    unfold transition_failed, write_active_task, set_task, st_bind.
  - destruct (retried_failed msg t Hn) as (Hs & _ & _).
    pose proof (query_db (failed_script (retried_task msg t)) w1) as Hq.
    assert (keeps_resolved (db w1) (failed_script (retried_task msg t) (db w1)).2) as Hk
      by (apply failed_resolves; by rewrite Hs).
    destruct (query _ w1) as [[u|e] w2]; simpl in *; by destruct Hq as [-> | ->].
  - set (cmd := λ d, ((), redis_set _ _ _ d)). pose proof (query_db cmd w1) as Hq.
    assert (keeps_resolved (db w1) (cmd (db w1)).2) as Hk.
    { apply (rewrite_resolved (db w1) (cmd (db w1)).2 (retried_task msg t) None).
      - done.
      - apply lookup_insert_eq.
      - intros i Hi'. apply lookup_insert_ne. by intros ?%task_key_inj.
      - right. rewrite Hid, (proj2 Hst). intros Hres. by apply (Hres t); [apply Hst|]. }
    destruct (query cmd w1) as [[u|e] w2]; simpl in *; by destruct Hq as [-> | ->].
Qed.

Lemma load_tasks_spec ids w :
  store_inv (db w) →
  db (load_tasks ids w).2 = db w ∧
  (∀ loaded, (load_tasks ids w).1 = Ok loaded →
     ∀ id, id ∈ ids → resolved (db w) id ∨
       ∃ t, Some t ∈ loaded ∧ task_id t = id ∧ status t = Pending).
Proof.
  revert w. induction ids as [|id ids IH]; intros w Hi; [split; [done|set_solver]|].
  cbn [load_tasks]. unfold st_bind at 1 3. pose proof (get_task_db id w) as Hdb.
  destruct (get_task id w) as [[o|e] w1] eqn:Hg; simpl in Hdb; [|split; [done|done]].
  destruct (IH w1) as [H1 H2]; [by rewrite Hdb|]. unfold st_bind.
  destruct (load_tasks ids w1) as [[l|e] w2]; simpl in *; (split; [congruence|]); [|done].
  intros loaded [= <-] i [->|Hin]%elem_of_cons.
  - destruct o as [t|].
    + destruct (get_task_exact _ _ _ _ Hg Hi) as [_ Hst]. destruct (status t) eqn:Hs.
      * right. exists t. split; [by left|]. split; [apply Hst|done].
      * left. eapply stored_resolved; [done|congruence].
      * left. eapply stored_resolved; [done|congruence].
    + left. intros t. by rewrite (proj2 (get_task_none _ _ _ Hg Hi)).
  - rewrite Hdb in H2. destruct (H2 l eq_refl i Hin) as [?|(t & ? & ? & ?)]; [by left|right].
    exists t. split; [by right|done].
Qed.
End store_effects.

(** ** Whole batches *)

(** The ledger writes of a submission touch no task. *)
Definition same_tasks (d d' : Redis) : Prop :=
  strings d' = strings d ∧ sets d' = sets d ∧ now d' = now d.

Section batches.
Context `{C : Crates, K : StoreCodec} {S : Type} `{ChainClient S}.

Lemma record_same role n h s a f w :
  same_tasks (db w) (db (record_pending_tx role n h s a f w).2).
Proof. unfold record_pending_tx. by destruct (query_db (λ d, ((), redis_hset broadcast_ledger_key
  (ledger_field role n) (pending_to_json (mkPendingTxEntry h s a ((λ f : Z * Z, fmt f.1) <$> f)
    ((λ f : Z * Z, fmt f.2) <$> f))) d)) w) as [-> | ->]. Qed.

Lemma delete_same role n w : same_tasks (db w) (db (delete_pending_tx role n w).2).
Proof. unfold delete_pending_tx. by destruct (query_db (λ d, ((), redis_hdel broadcast_ledger_key
  (ledger_field role n) d)) w) as [-> | ->]. Qed.

Lemma record_pending_same n h f (s : Worker S) :
  same_tasks (db (w_store s)) (db (w_store (record_pending n h f s).2)).
Proof.
  unfold record_pending, wk_bind, on_store, st_bind, st_now.
  pose proof (record_same REGISTER_ROLE n h (now (db (w_store s))) 0 f (w_store s)) as Hs.
  by destruct (record_pending_tx _ _ _ _ _ _ _) as [r w].
Qed.

Lemma clear_pending_same n (s : Worker S) :
  same_tasks (db (w_store s)) (db (w_store (clear_pending n s).2)).
Proof.
  unfold clear_pending, wk_bind, on_store. pose proof (delete_same REGISTER_ROLE n (w_store s)) as Hs.
  by destruct (delete_pending_tx _ _ _) as [r w].
Qed.

Lemma acquire_same (s : Worker S) : w_store (acquire s).2 = w_store s.
Proof. unfold acquire. destruct (w_nonce s); [done|]. by destruct (pending_nonce _) as [[|] c]. Qed.

Lemma same_tasks_trans d1 d2 d3 : same_tasks d1 d2 → same_tasks d2 d3 → same_tasks d1 d3.
Proof. intros (?&?&?) (?&?&?). repeat split; congruence. Qed.

Lemma submit_same task (s : Worker S) :
  same_tasks (db (w_store s)) (db (w_store (submit task s).2)).
Proof.
  unfold submit, wk_bind at 1. pose proof (acquire_same s) as Ha.
  destruct (acquire s) as [[n|e] s1]; simpl in Ha; rewrite <-Ha; [|done].
  unfold wk_bind at 1, on_chain at 1. destruct (chain_register task n (w_chain s1)) as [[b|e] c]; [|done].
  set (s2 := mkWorker (w_store s1) (w_nonce s1) c). unfold wk_bind at 1.
  pose proof (record_pending_same n (bc_hash b) (bc_fees_wei b) s2) as Hr.
  destruct (record_pending _ _ _ s2) as [u s3]. unfold wk_bind at 1, on_chain at 1.
  destruct (wait_for_receipt (bc_hash b) (w_chain s3)) as [[o|e] c']; [|done].
  set (s4 := mkWorker (w_store s3) (w_nonce s3) c').
  pose proof (clear_pending_same n s4) as Hc. pose proof (same_tasks_trans _ _ _ Hr Hc) as Ht.
  destruct o; unfold wk_bind at 1; by destruct (clear_pending n s4) as [u' s5].
Qed.

Lemma same_tasks_reachable d d' :
  same_tasks d d' → reachable d → reachable d' ∧ keeps_resolved d d'.
Proof.
  intros (Hs & Hset & Hn) Hr. split.
  - eapply reachable_step; [done|]. apply step_frame. by apply frame_same.
  - intros id Hres t. unfold redis_get. rewrite Hs, Hn. apply Hres.
Qed.

(** What every operation of the shell does to the tasks of the store. *)
Definition op_effect (op : SubmissionOperation) (d d' : Redis) (r : SubmissionResult) : Prop :=
  reachable d' ∧ keeps_resolved d d' ∧ (∀ id, settled1 (op, r) = Some id → resolved d' id).

Lemma op_effect_same op d r : reachable d → settled1 (op, r) = None → op_effect op d d r.
Proof. intros Hr Hs. split_and!; [done|by intros id|intros id; by rewrite Hs]. Qed.

Lemma execute_effect op (s : Worker S) :
  reachable (db (w_store s)) →
  op_effect op (db (w_store s)) (db (w_store (execute op s).2)) (execute op s).1.
Proof.
  intros Hr. destruct op as [ids|h|g m|t|id tx n|id k msg|id msg]; cbn [execute].
  - unfold wk_bind, on_store. destruct (load_tasks_spec ids (w_store s) (inv_reachable _ Hr)) as [Hd _].
    destruct (load_tasks ids _) as [r w]; simpl in *. rewrite Hd.
    by apply op_effect_same.
  - destruct (parse_b256 h); [|by apply op_effect_same]. unfold wk_bind, on_chain.
    destruct (is_content_registered _ _) as [r c]. by apply op_effect_same.
  - destruct (parse_hex_bytes g); [|by apply op_effect_same].
    destruct (parse_hex_bytes m); [|by apply op_effect_same].
    unfold wk_bind, on_chain. destruct (is_referenced _ _ _) as [r c]. by apply op_effect_same.
  - unfold wk_bind. pose proof (submit_same t s) as Hs. destruct (submit t s) as [o s1].
    destruct (same_tasks_reachable _ _ Hs Hr). by split_and!.
  - unfold wk_bind, on_store. destruct (mark_done_resolves id tx n (w_store s) Hr) as [H1 H2].
    pose proof (reach_call _ (w_store s) (call_mark_done _ id tx n) Hr) as H3.
    destruct (Store.mark_done id tx n _) as [[r|e] w]; simpl in *; split_and!; try done.
    intros i [= <-]. by eapply H2.
  - unfold wk_bind, on_store. destruct (mark_failed_resolves id (as_store_class k) msg (w_store s) Hr) as [H1 H2].
    pose proof (reach_call _ (w_store s) (call_mark_failed _ id (as_store_class k) msg) Hr) as H3.
    destruct (mark_failed id _ msg _) as [[r|e] w]; simpl in *; split_and!; try done.
    intros i [= <-]. by eapply H2.
  - unfold wk_bind, on_store. pose proof (transient_keeps id msg (w_store s) Hr) as H1.
    pose proof (reach_call _ (w_store s) (call_transient _ id msg) Hr) as H3.
    destruct (record_transient_failure id msg _) as [[r|e] w]; simpl in *; by split_and!.
Qed.

Lemma run_effect {A} (p : SProg A) (s s' : Worker S) t a :
  reachable (db (w_store s)) → run execute p s = (s', t, a) →
  reachable (db (w_store s')) ∧
  (∀ id, resolved (db (w_store s)) id ∨ id ∈ settled t → resolved (db (w_store s')) id).
Proof.
  revert s t. induction p as [a0|op k IH]; intros s t Hr; cbn [run].
  - intros [= <- <- _]. split; [done|]. intros id [?|?]; [done|set_solver].
  - destruct (execute_effect op s Hr) as (H1 & H2 & H3).
    destruct (execute op s) as [r s1]; cbn [fst snd] in *.
    destruct (run execute (k r) s1) as [[s2 t2] a2] eqn:E. intros [= <- <- <-].
    destruct (IH r s1 t2 H1 E) as [H4 H5]. split; [done|].
    change (settled ((op, r) :: t2)) with
      (match settled1 (op, r) with Some y => y :: settled t2 | None => settled t2 end).
    intros id [Hid|Hid]; [by apply H5; left; apply H2|].
    destruct (settled1 (op, r)) as [i|] eqn:Es; [|by apply H5; right].
    apply elem_of_cons in Hid as [->|Hid]; apply H5; [left; by apply H3|by right].
Qed.

Lemma drive_batch_resolves ids (s s' : Worker S) t :
  reachable (db (w_store s)) → run execute (drive_batch ids) s = (s', t, Ok Advance) →
  ∀ id, id ∈ ids → resolved (db (w_store s')) id.
Proof.
  intros Hr Hrun. destruct ids as [|i ids]; [set_solver|].
  cbn [drive_batch run] in Hrun. cbn [execute] in Hrun. unfold wk_bind, on_store in Hrun.
  destruct (load_tasks_spec (i :: ids) (w_store s) (inv_reachable _ Hr)) as [Hd Hl].
  destruct (load_tasks (i :: ids) (w_store s)) as [[loaded|e] w]; [|by injection Hrun].
  cbn [wk_ret fst snd] in *. specialize (Hl loaded eq_refl).
  set (s1 := mkWorker w (w_nonce s) (w_chain s)) in *.
  destruct (run execute _ s1) as [[s2 t2] a2] eqn:E. injection Hrun as -> <- ->.
  assert (Hr1 : reachable (db (w_store s1))) by (subst s1; simpl; by rewrite Hd).
  destruct (run_effect _ _ _ _ _ Hr1 E) as [_ Hres].
  apply run_exec in E. unfold fbind in E. apply exec_bind in E as (t3 & t4 & m & -> & He & Hm).
  destruct m as [u|e]; inversion Hm; subst t4. rewrite app_nil_r in Hres.
  apply process_exec in He as [_ (ext & -> & _ & _ & Hset & _)].
  intros id Hid. apply Hres. subst s1. simpl. rewrite Hd.
  destruct (Hl id Hid) as [?|(x & Hx & <- & Hp)]; [by left|right].
  simpl. rewrite Hset. destruct (canonical_tasks_spec [] loaded) as (_ & _ & H3).
  destruct (H3 x Hx Hp) as [?|?]; [set_solver|done].
Qed.
End batches.

Section worker_properties.
Context `{C : Crates, K : StoreCodec} {S : Type} `{ChainClient S}.

(** C2. The queue moves on only past finished work.  Whatever the chain
    answers and whichever store commands are lost, when a polled batch ends
    with its offset stored, that offset is the last message's, the fee gate
    was open, and no task enqueued in the batch is still live in the store:
    each is finished, or gone; and the store is reachable again. *)
Theorem offset_after_settlement fee failures messages (s : Worker S) o n s' :
  reachable (db (w_store s)) →
  handle_poll fee failures messages s = ((StoreOffset o, n), s') →
  reachable (db (w_store s')) ∧ n = 0 ∧ (∃ p, last messages = Some (o, p)) ∧
  (∀ required cap, fee ≠ Ok (TooExpensive required cap)) ∧
  (∀ off payload t, (off, payload) ∈ messages → task_of_json payload = Some t →
     resolved (db (w_store s')) (task_id t)).
Proof.
  intros Hr. unfold handle_poll. destruct (last messages) as [[hi p]|]; [|done].
  set (tasks := omap _ _).
  assert (Htask : ∀ off payload t, (off, payload) ∈ messages → task_of_json payload = Some t →
    task_id t ∈ task_id <$> tasks).
  { intros off payload t Hin Ht. apply list_elem_of_fmap_2, list_elem_of_omap.
    exists (off, payload). done. }
  assert (Hrun : wk_bind (process_batch tasks) (λ r, match r with
      | Ok _ => wk_ret (StoreOffset hi, 0)
      | Err error => let failures := sat_add U32_MAX failures 1 in
          wk_ret (RetryAfter error (Z.min (backoff_delay failures) 60), failures) end) s =
      (StoreOffset o, n, s') →
    reachable (db (w_store s')) ∧ n = 0 ∧ hi = o ∧
    ∀ id, id ∈ task_id <$> tasks → resolved (db (w_store s')) id).
  { clearbody tasks. unfold wk_bind, process_batch. destruct tasks as [|x xs].
    { intros [= <- <- <-]. split_and!; [done..|set_solver]. }
    destruct (run execute (drive_batch (task_id <$> x :: xs)) s) as [[s1 t1] m] eqn:E.
    destruct (settle_batch m) as [[|reason]|] eqn:Em; [|done|done]. intros [= <- <- <-].
    assert (Hm : m = Ok Advance ∨ m = Err (StopWith Advance)).
    { destruct m as [v|[v|]]; simpl in Em; simplify_eq; auto. }
    pose proof (run_effect _ _ _ _ _ Hr E) as [Hr' _]. split_and!; try done.
    destruct Hm as [-> | ->]; [exact (drive_batch_resolves _ _ _ _ Hr E)|].
    by apply run_exec, stop_is_retry in E. }
  intros Hp. destruct fee as [[q|r c]|e]; [|by injection Hp|]; apply Hrun in Hp as (? & ? & <- & Hres);
    (split_and!; [done|done|by eexists|done|]); intros; eapply Hres, Htask; eauto.
Qed.
(** ** The broadcast ledger *)

Definition ledger (d : Redis) : gmap string string := default ∅ (hashes d !! broadcast_ledger_key).

Definition u128_fees (fees : option (Z * Z)) : Prop :=
  ∀ f p, fees = Some (f, p) → 0 ≤ f ≤ U128_MAX ∧ 0 ≤ p ≤ U128_MAX.

(** What the sweep reads back of a recorded broadcast. *)
Lemma ledger_row_read nonce hash sent attempts fees before :
  0 ≤ nonce ≤ U64_MAX → u128_fees fees → sent < before →
  ledger_row before (ledger_field REGISTER_ROLE nonce,
    pending_to_json (mkPendingTxEntry hash sent attempts ((λ f : Z * Z, fmt f.1) <$> fees)
      ((λ f : Z * Z, fmt f.2) <$> fees))) =
  Some (mkPendingTx REGISTER_ROLE nonce hash sent attempts (fst <$> fees) (snd <$> fees)).
Proof.
  intros Hn Hf Hs. unfold ledger_row. cbn [fst snd].
  assert (split_once ":" (ledger_field REGISTER_ROLE nonce) = Some (REGISTER_ROLE, fmt nonce)) as -> by done.
  cbn [mbind option_bind]. rewrite parse_fmt_u64 by done. cbn [mbind option_bind].
  rewrite pending_json_roundtrip. cbn [mbind option_bind pe_sent_at_ms]. rewrite (proj2 (Z.ltb_lt _ _)) by done.
  destruct fees as [[f p]|]; [|done]. cbn. destruct (Hf f p eq_refl).
  by rewrite !parse_fmt_u128.
Qed.

(** The nonce a submission uses: the cached one, or the chain's. *)
Definition uses_nonce (s : Worker S) (nonce : Z) (c : S) : Prop :=
  (w_nonce s = Some nonce ∧ c = w_chain s) ∨
  (w_nonce s = None ∧ pending_nonce (w_chain s) = (Ok nonce, c)).

Lemma acquire_run (s : Worker S) :
  (∃ nonce c, uses_nonce s nonce c ∧
     acquire s = (Ok nonce, mkWorker (w_store s) (Some (sat_add U64_MAX nonce 1)) c)) ∨
  (∃ e e' c, w_nonce s = None ∧ pending_nonce (w_chain s) = (Err e, c) ∧
     acquire s = (Err e', mkWorker (w_store s) None c)).
Proof.
  unfold acquire, uses_nonce. destruct (w_nonce s) as [n|] eqn:E; [left; eauto 10|].
  destruct (pending_nonce (w_chain s)) as [[n|e] c] eqn:Ep; [left|right]; eauto 10.
Qed.

Definition with_row (nonce : Z) (payload : string) (d : Redis) : Redis :=
  redis_hset broadcast_ledger_key (ledger_field REGISTER_ROLE nonce) payload d.
Definition without_row (nonce : Z) (d : Redis) : Redis :=
  redis_hdel broadcast_ledger_key (ledger_field REGISTER_ROLE nonce) d.

Definition sent_entry (b : Broadcast) (at_ : Z) : PendingTxEntry :=
  mkPendingTxEntry (bc_hash b) at_ 0 ((λ f : Z * Z, fmt f.1) <$> bc_fees_wei b)
    ((λ f : Z * Z, fmt f.2) <$> bc_fees_wei b).

Lemma ledger_with nonce p d : ledger (with_row nonce p d) = <[ledger_field REGISTER_ROLE nonce := p]> (ledger d).
Proof. unfold ledger, with_row. simpl. by rewrite lookup_insert_eq. Qed.
Lemma ledger_without nonce d : ledger (without_row nonce d) = delete (ledger_field REGISTER_ROLE nonce) (ledger d).
Proof. unfold ledger, without_row. simpl. by rewrite lookup_insert_eq. Qed.

Lemma listed before k v tx d :
  ledger d !! k = Some v → ledger_row before (k, v) = Some tx →
  ∃ l, list_pending_txs before (mkWorld d []) = (Ok l, mkWorld d []) ∧ tx ∈ l.
Proof.
  intros Hk Hr. unfold list_pending_txs. rewrite (bind_ok _ _ _ _ _ (query_fine _ _)). cbn [fst snd].
  eexists. split; [done|]. apply list_elem_of_omap. exists (k, v). split; [|done].
  by apply elem_of_map_to_list.
Qed.

(** The nonce and ledger rules of a submission, on a working store.
    Without a nonce nothing is sent.  Otherwise the cached nonce is used, or
    the chain's pending one when none is cached; the cache advances by one
    only when the receipt is a success and is dropped on every failure, so
    the next send asks the chain again.  The broadcast ledger keeps no row of
    a failed send and none after a definite receipt; when the receipt is
    uncertain it keeps exactly the broadcast, and the sweep will read it back
    with its hash, its time and both fees.  No other row changes. *)
Theorem submit_nonce_and_ledger task d nn c (s := mkWorker (mkWorld d []) nn c : Worker S) :
  let '(o, s') := submit task s in
  let d' := db (w_store s') in
  match o with
  | NoncePoolUnavailable => d' = d ∧ nn = None ∧ w_nonce s' = None
  | _ => ∃ nonce c0, uses_nonce s nonce c0 ∧
      (∀ k, k ≠ ledger_field REGISTER_ROLE nonce → ledger d' !! k = ledger d !! k) ∧
      let row := ledger d' !! ledger_field REGISTER_ROLE nonce in
      match o with
      | Confirmed _ _ => row = None ∧ w_nonce s' = Some (sat_add U64_MAX nonce 1)
      | TxReverted _ => row = None ∧ w_nonce s' = None
      | SendFailed e => d' = d ∧ w_nonce s' = None ∧ (chain_register task nonce c0).1 = Err e
      | _ => w_nonce s' = None ∧ ∃ b, (chain_register task nonce c0).1 = Ok b ∧
          (0 ≤ nonce ≤ U64_MAX → u128_fees (bc_fees_wei b) → ∀ before, now d < before →
             ∃ l, list_pending_txs before (mkWorld d' []) = (Ok l, mkWorld d' []) ∧
               mkPendingTx REGISTER_ROLE nonce (bc_hash b) (now d) 0
                 (fst <$> bc_fees_wei b) (snd <$> bc_fees_wei b) ∈ l)
      end
  end.
Proof.
  unfold submit, wk_bind at 1. destruct (acquire_run s) as [(n & c0 & Hu & ->)|(e & e' & c1 & Hn & _ & ->)];
    [|done].
  unfold wk_bind at 1, on_chain at 1. cbn [w_chain w_store w_nonce].
  destruct (chain_register task n c0) as [[b|e] c1] eqn:Ereg;
    [|simpl; exists n, c0; rewrite Ereg; auto].
  set (p := pending_to_json (sent_entry b (now d))).
  assert (Hrec : ∀ c2 : S, record_pending n (bc_hash b) (bc_fees_wei b)
    (mkWorker (w_store s) (Some (sat_add U64_MAX n 1)) c2) =
    (tt, mkWorker (mkWorld (with_row n p d) []) (Some (sat_add U64_MAX n 1)) c2)) by done.
  assert (Hclr : ∀ c2 : S, clear_pending n
    (mkWorker (mkWorld (with_row n p d) []) (Some (sat_add U64_MAX n 1)) c2) =
    (tt, mkWorker (mkWorld (without_row n (with_row n p d)) []) (Some (sat_add U64_MAX n 1)) c2)) by done.
  assert (Hgone : ∀ k, ledger (without_row n (with_row n p d)) !! k =
    if decide (k = ledger_field REGISTER_ROLE n) then None else ledger d !! k).
  { intros k. rewrite ledger_without, ledger_with. case_decide as Hk; [subst; apply lookup_delete_eq|].
    by rewrite lookup_delete_ne, lookup_insert_ne. }
  assert (Hrest : ∀ k, k ≠ ledger_field REGISTER_ROLE n →
    ledger (without_row n (with_row n p d)) !! k = ledger d !! k)
    by (intros; by rewrite Hgone, decide_False).
  assert (Hnone : ledger (without_row n (with_row n p d)) !! ledger_field REGISTER_ROLE n = None)
    by by rewrite Hgone, decide_True.
  unfold wk_bind at 1. rewrite Hrec. unfold wk_bind at 1, on_chain at 1. cbn [w_chain w_store w_nonce].
  destruct (wait_for_receipt (bc_hash b) c1) as [[[id|]|e] c2]; unfold wk_bind.
  - rewrite Hclr. by exists n, c0.
  - rewrite Hclr. by exists n, c0.
  - unfold release, set_nonce, wk_ret. cbn [w_store w_nonce w_chain db].
    exists n, c0. split; [done|]. split.
    + intros k Hk. rewrite ledger_with. by apply lookup_insert_ne.
    + split; [done|]. exists b. rewrite Ereg. split; [done|]. intros Hn Hf before Hb.
      eapply listed; [rewrite ledger_with; apply lookup_insert_eq|]. by apply ledger_row_read.
Qed.
End worker_properties.

(** ** Runs *)

Section worker_examples.
#[local] Existing Instance concrete_crates.
#[local] Existing Instance concrete_codec.

(** A chain at block-independent nonce 5 that confirms every write; nothing
    is registered yet. *)
#[local] Instance confirming_chain : ChainClient Z := {|
  pending_nonce c := (Ok 5, c);
  chain_register _ _ c := (Ok (mkBroadcast "0xfeed" (Some (7, 3))), c + 1);
  wait_for_receipt _ c := (Ok (Success (Some c)), c);
  is_content_registered _ c := (Ok false, c);
  is_referenced _ _ c := (Ok false, c);
|}.

(** The same chain, whose receipts never come. *)
Definition silent_chain : ChainClient Z := {|
  pending_nonce c := (Ok 5, c);
  chain_register _ _ c := (Ok (mkBroadcast "0xfeed" (Some (7, 3))), c + 1);
  wait_for_receipt _ c := (Err Unavailable, c);
  is_content_registered _ c := (Ok false, c);
  is_referenced _ _ c := (Ok false, c);
|}.

Definition queued_redis : Redis := (admit_script (live_task "a") empty_redis).2.

Lemma queued_reachable : reachable queued_redis.
Proof.
  exists empty_redis. split; [done|]. apply rtc_once. apply step_admit; [done|].
  vm_compute. reflexivity.
Qed.

Definition demo_worker : Worker Z := mkWorker (mkWorld queued_redis []) None 0.
Definition demo_messages : list (Z * string) :=
  [(41, task_to_json (live_task "a")); (42, "not a task")].

Lemma offset_after_settlement_witness :
  ∃ s', handle_poll (Ok (Send (mkFeePlan 7 3))) 4 demo_messages demo_worker = ((StoreOffset 42, 0), s') ∧
    resolved (db (w_store s')) "a".
Proof.
  assert (E : (handle_poll (Ok (Send (mkFeePlan 7 3))) 4 demo_messages demo_worker).1 = (StoreOffset 42, 0))
    by (vm_compute; reflexivity).
  destruct (handle_poll _ _ _ _) as [r s'] eqn:Hp. simpl in E. subst r. exists s'. split; [done|].
  destruct (offset_after_settlement _ _ _ _ _ _ _ (queued_reachable : reachable (db (w_store demo_worker))) Hp)
    as (_ & _ & _ & _ & Hres).
  apply (Hres 41 (task_to_json (live_task "a")) (live_task "a")); [by left|].
  apply task_json_roundtrip.
Defined.

Lemma submit_nonce_and_ledger_witness :
  let s' := (submit (H := silent_chain) (live_task "a") demo_worker).2 in
  w_nonce s' = None ∧
  ∃ l, list_pending_txs 1_001 (mkWorld (db (w_store s')) []) = (Ok l, mkWorld (db (w_store s')) []) ∧
    mkPendingTx REGISTER_ROLE 5 "0xfeed" 1_000 0 (Some 7) (Some 3) ∈ l.
Proof.
  pose proof (submit_nonce_and_ledger (H := silent_chain) (live_task "a") queued_redis None 0) as Hs.
  cbv zeta in Hs. change (mkWorker (mkWorld queued_redis []) None 0) with demo_worker in Hs.
  destruct (submit (H := silent_chain) (live_task "a") demo_worker) as [o s'] eqn:E.
  assert (Ho : o = ReceiptUncertain Unavailable).
  { apply (f_equal fst) in E. simpl in E. rewrite <-E. vm_compute. reflexivity. }
  subst o. destruct Hs as (n & c0 & Hu & _ & Hn & b & Hb & Hl). split; [done|].
  destruct Hu as [[Hu _]|[_ Hu]]; [done|]. injection Hu as <- _. injection Hb as <-.
  apply Hl; [by split| |vm_compute; reflexivity]. intros f p [= <- <-]. unfold U128_MAX. lia.
Defined.
End worker_examples.
