(* ===== verification/WorkerLoop.v ===== *)
(** * The create worker's loop ([p256-index-server/src/worker.rs])

    The consumer session, the poll loop, the supervisor that starts a session
    again and the watchdog that ends the process when no poll completes.
    What [Worker] says of one poll is here carried over whole runs, against a
    broker any of whose calls may fail, be late or never come back.  Times
    are milliseconds of the process' monotonic clock. *)
From Stdlib Require Import Ascii String Strings.Byte.
From S2P Require Export Worker Http.
From stdpp Require Import options.
#[local] Set Warnings "-register-all".

Definition IGGY_CONNECT_TIMEOUT : Z := 5_000.
Definition GAS_WAIT : Z := 15_000.
Definition WATCHDOG_TICK : Z := 60_000.

(** ** What the loop waits for *)

(** How an await ends: with an answer after so long, or never. *)
Inductive Await (A : Type) := Came (ms : Z) (a : A) | Never.
Arguments Came {A} _ _.
Arguments Never {A}.

(** Calls of the Iggy client.  A poll gives the partition and its messages,
    offset and payload; nothing or [false] is an error. *)
Inductive ConsumerOp : Type → Type :=
| OpConnect : ConsumerOp bool
| OpGetGroup : ConsumerOp (option bool)
| OpCreateGroup : ConsumerOp bool
| OpJoin : ConsumerOp bool
| OpPoll : ConsumerOp (option (Z * list (Z * string)))
| OpStoreOffset (partition offset : Z) : ConsumerOp bool
| OpLeave : ConsumerOp bool.

Class ConsumerApi (B : Type) := {
  co_connection_string_ok : string → bool;
  co_identifier_ok : string → bool;
  co_ask {A} : ConsumerOp A → B → Await A * B;
  co_ask_time {A} (op : ConsumerOp A) b ms a b' : co_ask op b = (Came ms a, b') → 0 ≤ ms;
}.

(** The fee check, and how long it and a batch take: the calls of either are
    bounded by their clients' timeouts, so both come back. *)
Class WorkTimes (S : Type) := {
  wt_fee_plan : S → result FeeVerdict ChainError * S;
  wt_fee_ms : S → Z;
  wt_batch_ms : Worker S → list (Z * string) → Z;
  wt_fee_time c : 0 ≤ wt_fee_ms c;
  wt_batch_time s messages : 0 ≤ wt_batch_ms s messages;
}.

Record ConsumerConfig := mkConsumerConfig {
  consumer_url : string;
  consumer_group : string;
  stream_name : string;
  topic_name : string;
}.

Section worker_loop.
Context `{C : Crates, K : StoreCodec} {S B : Type} `{CL : ChainClient S} `{CO : ConsumerApi B} `{WT : WorkTimes S}.
Context (cfg : ConsumerConfig).
(** When the shutdown token is cancelled, if it is. *)
Context (cancel : option Z).

(** The worker, its broker, the clock, the times of the pulse and the offsets
    sent to the broker with the messages polled for them, newest first. *)
Record Loop := mkLoop {
  lp_worker : Worker S;
  lp_broker : B;
  lp_now : Z;
  lp_beats : list Z;
  lp_commits : list (list (Z * string) * Z);
}.

(** [None]: the computation waits for ever. *)
Definition Lp (A : Type) : Type := Loop → option A * Loop.
Definition lp_ret {A} (a : A) : Lp A := λ l, (Some a, l).
Definition lp_bind {A D} (m : Lp A) (f : A → Lp D) : Lp D :=
  λ l, match m l with (Some a, l) => f a l | (None, l) => (None, l) end.

#[local] Notation "'let*' x := m 'in' k" := (lp_bind m (λ x, k))
  (at level 10, x name, m at level 100, k at level 200).

Definition at_time (t : Z) (l : Loop) : Loop :=
  mkLoop (lp_worker l) (lp_broker l) t (lp_beats l) (lp_commits l).
Definition after_call (b : B) (t : Z) (l : Loop) : Loop :=
  mkLoop (lp_worker l) b t (lp_beats l) (lp_commits l).
Definition beat : Lp unit :=
  λ l, (Some tt, mkLoop (lp_worker l) (lp_broker l) (lp_now l) (lp_now l :: lp_beats l) (lp_commits l)).
Definition offset_sent (messages : list (Z * string)) (offset : Z) : Lp unit :=
  λ l, (Some tt, mkLoop (lp_worker l) (lp_broker l) (lp_now l) (lp_beats l) ((messages, offset) :: lp_commits l)).

Definition cancelled_by (t : Z) : bool := match cancel with Some c => c <=? t | None => false end.
(** When a wait that the token interrupts ends. *)
Definition cancel_time (now : Z) : Z := match cancel with Some c => Z.max now c | None => now end.
Definition is_cancelled : Lp bool := λ l, (Some (cancelled_by (lp_now l)), l).

(** A bare [await] of a broker call. *)
Definition ask {A} (op : ConsumerOp A) : Lp A :=
  λ l, match co_ask op (lp_broker l) with
       | (Came ms a, b) => (Some a, after_call b (lp_now l + ms) l)
       | (Never, b) => (None, after_call b (lp_now l) l)
       end.

(** [timeout(limit, call)]: [None] is the timer. *)
Definition ask_within {A} (limit : Z) (op : ConsumerOp A) : Lp (option A) :=
  λ l, match co_ask op (lp_broker l) with
       | (Came ms a, b) =>
           if ms <=? limit then (Some (Some a), after_call b (lp_now l + ms) l)
           else (Some None, after_call b (lp_now l + limit) l)
       | (Never, b) => (Some None, after_call b (lp_now l + limit) l)
       end.

(** [select!] with the shutdown token: [None] is the token.  (Of two that are
    ready in the same millisecond the token is taken.) *)
Definition ask_or_cancel {A} (op : ConsumerOp A) : Lp (option A) :=
  λ l, match co_ask op (lp_broker l) with
       | (Came ms a, b) =>
           if cancelled_by (lp_now l + ms) then (Some None, after_call b (cancel_time (lp_now l)) l)
           else (Some (Some a), after_call b (lp_now l + ms) l)
       | (Never, b) =>
           match cancel with
           | Some _ => (Some None, after_call b (cancel_time (lp_now l)) l)
           | None => (None, after_call b (lp_now l) l)
           end
       end.

(** [select!] of a sleep and the token; [true] is the token. *)
Definition pause (ms : Z) : Lp bool :=
  λ l, if cancelled_by (lp_now l + ms) then (Some true, at_time (cancel_time (lp_now l)) l)
       else (Some false, at_time (lp_now l + ms) l).

(** ** A session *)

Definition ensure_consumer_group : Lp (result unit string) :=
  let* there := ask OpGetGroup in
  match there with
  | None => lp_ret (Err "could not inspect Iggy consumer group")
  | Some true => lp_ret (Ok tt)
  | Some false =>
      let* created := ask OpCreateGroup in
      if created : bool then lp_ret (Ok tt) else
      let* there := ask OpGetGroup in
      lp_ret match there with
             | None => Err "could not inspect Iggy consumer group"
             | Some true => Ok tt
             | Some false => Err "could not create Iggy consumer group"
             end
  end.

(** [run], up to its loop. *)
Definition open_session : Lp (result unit string) :=
  if negb (co_connection_string_ok (consumer_url cfg))
  then lp_ret (Err "invalid Iggy consumer connection configuration") else
  let* connected := ask_within IGGY_CONNECT_TIMEOUT OpConnect in
  match connected with
  | None => lp_ret (Err "Iggy consumer connection timed out")
  | Some false => lp_ret (Err "could not connect Iggy consumer")
  | Some true =>
      if negb (co_identifier_ok (stream_name cfg)) then lp_ret (Err "invalid Iggy stream name") else
      if negb (co_identifier_ok (topic_name cfg)) then lp_ret (Err "invalid Iggy topic name") else
      if negb (co_identifier_ok (consumer_group cfg))
      then lp_ret (Err "invalid Iggy consumer group name") else
      let* group := ensure_consumer_group in
      match group with
      | Err e => lp_ret (Err e)
      | Ok _ =>
          let* joined := ask OpJoin in
          lp_ret (if joined : bool then Ok tt else Err "could not join Iggy consumer group")
      end
  end.

(** [self.chain.fee_plan()] *)
Definition check_fee : Lp (result FeeVerdict ChainError) :=
  λ l, let w := lp_worker l in
       let '(fee, c) := wt_fee_plan (w_chain w) in
       (Some fee, mkLoop (mkWorker (w_store w) (w_nonce w) c) (lp_broker l)
          (lp_now l + wt_fee_ms (w_chain w)) (lp_beats l) (lp_commits l)).

(** One poll's messages; only a batch takes time. *)
Definition handle (fee : result FeeVerdict ChainError) (failures : Z) (messages : list (Z * string))
    : Lp (PollOutcome * Z) :=
  λ l, let '(r, w) := handle_poll fee failures messages (lp_worker l) in
       let ms := match r.1 with Idle | Requeued => 0 | _ => wt_batch_ms (lp_worker l) messages end in
       (Some r, mkLoop w (lp_broker l) (lp_now l + ms) (lp_beats l) (lp_commits l)).

(** The loop goes on, leaves on the token, or fails. *)
Inductive Next := Continue (failures : Z) | Break | Fails (reason : string).

Definition go_on (failures : Z) (cancelled : bool) : Next := if cancelled then Break else Continue failures.

(** What follows a poll that brought messages. *)
Definition poll_rest (partition failures : Z) (messages : list (Z * string)) : Lp Next :=
  let* fee := check_fee in
  let* r := handle fee failures messages in
  let failures := r.2 in
  match r.1 with
  | Idle => lp_ret (Continue failures)
  | Requeued => let* c := pause GAS_WAIT in lp_ret (go_on failures c)
  | StoreOffset offset =>
      let* u := offset_sent messages offset in
      let* stored := ask (OpStoreOffset partition offset) in
      lp_ret (if stored : bool then Continue failures else Fails "could not store Iggy consumer offset")
  | RetryAfter _ secs => let* c := pause (secs * 1_000) in lp_ret (go_on failures c)
  end.

(** One turn of the loop of [run]. *)
Definition poll_turn (failures : Z) : Lp Next :=
  let* polled := ask_or_cancel OpPoll in
  match polled with
  | None => lp_ret Break
  | Some None => lp_ret (Fails "could not poll Iggy create tasks")
  | Some (Some (_, [])) =>
      let* u := beat in
      let* c := pause 250 in lp_ret (go_on failures c)
  | Some (Some (partition, messages)) =>
      let* u := beat in
      poll_rest partition failures messages
  end.

(** ** The supervisor *)

(** Where the worker's task is. *)
Inductive Phase :=
| Starting (restarts : Z)
| Polling (restarts started failures : Z)
| Stopped
| Stuck.

Definition SESSION_HELD : Z := 300_000.

(** [run] returned an error. *)
Definition supervise (restarts started : Z) : Lp Phase :=
  let* c := is_cancelled in
  if c : bool then lp_ret Stopped else
  λ l,
    let restarts := if SESSION_HELD <? lp_now l - started then 0 else restarts in
    let backoff := Z.min (backoff_delay restarts) 60 in
    (let* c := pause (backoff * 1_000) in
     lp_ret (if c : bool then Stopped else Starting (sat_add U32_MAX restarts 1))) l.

Definition phase_of (r : option Phase * Loop) : Phase * Loop := (default Stuck r.1, r.2).

(** One step of the task: the opening of a session, or one turn of its loop. *)
Definition turn (s : Phase * Loop) : Phase * Loop :=
  let '(phase, l) := s in
  match phase with
  | Starting restarts =>
      let started := lp_now l in
      phase_of ((let* r := open_session in
                 match r with
                 | Ok _ => lp_ret (Polling restarts started 0)
                 | Err _ => supervise restarts started
                 end) l)
  | Polling restarts started failures =>
      phase_of ((let* next := poll_turn failures in
                 match next with
                 | Continue failures => lp_ret (Polling restarts started failures)
                 | Break => let* left := ask OpLeave in lp_ret Stopped
                 | Fails _ => supervise restarts started
                 end) l)
  | Stopped | Stuck => s
  end.

Fixpoint turns (n : nat) (s : Phase * Loop) : Phase * Loop :=
  match n with O => s | Datatypes.S n => turns n (turn s) end.

(** The task as [start] spawns it: the pulse is stamped once. *)
Definition start (w : Worker S) (b : B) (t0 : Z) : Phase * Loop := (Starting 0, mkLoop w b t0 [t0] []).

(** ** The watchdog *)

(** The last stamp no later than [t]. *)
Fixpoint pulse_at (t : Z) (beats : list Z) : option Z :=
  match beats with
  | [] => None
  | b :: beats => if b <=? t then Some b else pulse_at t beats
  end.
Definition pulse_stalled (t : Z) (beats : list Z) : bool :=
  match pulse_at t beats with Some b => stalled t b | None => false end.

(** The tick at which the process exits, of the next [fuel] ticks after [t]. *)
Fixpoint watchdog (fuel : nat) (t : Z) (beats : list Z) : option Z :=
  match fuel with
  | O => None
  | Datatypes.S fuel =>
      let t := t + WATCHDOG_TICK in
      if cancelled_by t then None
      else if pulse_stalled t beats then Some t
      else watchdog fuel t beats
  end.

(** ** Reasoning on one step *)

Definition lwp {A} (m : Lp A) (l : Loop) (Q : option A → Loop → Prop) : Prop := Q (m l).1 (m l).2.

Lemma lwp_bind {A D} (m : Lp A) (f : A → Lp D) l Q :
  lwp m l (λ o l', match o with Some a => lwp (f a) l' Q | None => Q None l' end) → lwp (lp_bind m f) l Q.
Proof. unfold lwp, lp_bind. by destruct (m l) as [[a|] l']. Qed.

Lemma lwp_mono {A} (m : Lp A) l (Q Q' : option A → Loop → Prop) :
  lwp m l Q → (∀ o l', Q o l' → Q' o l') → lwp m l Q'.
Proof. unfold lwp. auto. Qed.

(** ** Offsets *)

(** No task of the messages is live in the store, and the offset is the last
    one's. *)
Definition commit_settled (d : Redis) (c : list (Z * string) * Z) : Prop :=
  (∃ p, last c.1 = Some (c.2, p)) ∧
  ∀ off payload t, (off, payload) ∈ c.1 → task_of_json payload = Some t → resolved d (task_id t).

Definition store_of (l : Loop) : Redis := db (w_store (lp_worker l)).
Definition commits_inv (l : Loop) : Prop :=
  reachable (store_of l) ∧ Forall (commit_settled (store_of l)) (lp_commits l).

Lemma handle_poll_effect fee failures messages (s s' : Worker S) r :
  reachable (db (w_store s)) → handle_poll fee failures messages s = (r, s') →
  reachable (db (w_store s')) ∧ keeps_resolved (db (w_store s)) (db (w_store s')).
Proof.
  intros Hr. pose proof (conj Hr (keeps_refl (db (w_store s)))) as Hsame. unfold handle_poll.
  destruct (last messages) as [[hi p]|]; [|by intros [= _ <-]].
  set (tasks := omap _ _). clearbody tasks.
  assert (Hb : ∀ s2 x, process_batch tasks s = (x, s2) →
    reachable (db (w_store s2)) ∧ keeps_resolved (db (w_store s)) (db (w_store s2))).
  { intros s2 x. unfold process_batch. destruct tasks as [|y ys]; [by intros [= _ <-]|].
    destruct (run execute _ s) as [[s1 t1] m] eqn:E. apply (run_effect _ _ _ _ _ Hr) in E as [Hr1 Hk].
    assert (keeps_resolved (db (w_store s)) (db (w_store s1))) by (intros id ?; apply Hk; by left).
    destruct (settle_batch m) as [[|reason]|]; intros [= _ <-]; by split. }
  destruct fee as [[q|rq cap]|e]; [|by intros [= _ <-]|]; unfold wk_bind;
    destruct (process_batch tasks s) as [x s2]; destruct (Hb s2 x eq_refl); destruct x; intros [= _ <-]; by split.
Qed.

(** Time passes, and the pulse is stamped within it. *)
Definition later (l l' : Loop) : Prop :=
  lp_now l ≤ lp_now l' ∧
  ∃ new, lp_beats l' = new ++ lp_beats l ∧ Forall (λ b, lp_now l ≤ b ≤ lp_now l') new.

#[local] Instance later_preorder : PreOrder later.
Proof.
  split; [intros l; split; [lia|by exists []]|].
  intros l1 l2 l3 [H1 (n1 & E1 & F1)] [H2 (n2 & E2 & F2)]. split; [lia|].
  exists (n2 ++ n1). rewrite E2, E1, app_assoc. split; [done|].
  apply Forall_app. split; eapply Forall_impl; eauto; cbn; lia.
Qed.

Lemma later_by l l' : lp_now l ≤ lp_now l' → lp_beats l' = lp_beats l → later l l'.
Proof. intros Hn Hb. split; [done|]. exists []. by rewrite Hb. Qed.

Definition onward {A} (m : Lp A) : Prop := ∀ l, later l (m l).2.
(** A step that leaves the store and the sent offsets. *)
Definition calm {A} (m : Lp A) : Prop :=
  ∀ l, store_of (m l).2 = store_of l ∧ lp_commits (m l).2 = lp_commits l.

Lemma calm_inv {A} (m : Lp A) l : calm m → commits_inv l → commits_inv (m l).2.
Proof. intros Hm [H1 H2]. destruct (Hm l) as [Hs Hc]. split; [by rewrite Hs|by rewrite Hs, Hc]. Qed.

Lemma calm_ret {A} (a : A) : calm (lp_ret a).
Proof. by intros l. Qed.
Lemma calm_bind {A D} (m : Lp A) (f : A → Lp D) : calm m → (∀ a, calm (f a)) → calm (lp_bind m f).
Proof.
  intros Hm Hf l. unfold lp_bind. specialize (Hm l). destruct (m l) as [[a|] l1]; [|done].
  cbn [snd] in Hm. destruct Hm as [<- <-]. apply Hf.
Qed.
Lemma calm_ask {A} (op : ConsumerOp A) : calm (ask op).
Proof. intros l. unfold ask. by destruct (co_ask op (lp_broker l)) as [[]]. Qed.
Lemma calm_within {A} limit (op : ConsumerOp A) : calm (ask_within limit op).
Proof. intros l. unfold ask_within. destruct (co_ask op (lp_broker l)) as [[]]; [by case_match|done]. Qed.
Lemma calm_or_cancel {A} (op : ConsumerOp A) : calm (ask_or_cancel op).
Proof. intros l. unfold ask_or_cancel. destruct (co_ask op (lp_broker l)) as [[]]; by case_match. Qed.
Lemma calm_pause ms : calm (pause ms).
Proof. intros l. unfold pause. by case_match. Qed.
Lemma calm_beat : calm beat.
Proof. by intros l. Qed.
Lemma calm_fee : calm check_fee.
Proof. intros l. unfold check_fee. by destruct (wt_fee_plan _). Qed.
Create HintDb calm.
#[local] Hint Resolve calm_ret calm_bind calm_ask calm_within calm_or_cancel calm_pause calm_beat calm_fee : calm.

Lemma calm_group : calm ensure_consumer_group.
Proof.
  unfold ensure_consumer_group. apply calm_bind; [apply calm_ask|]. intros [[]|]; auto with calm.
  apply calm_bind; [apply calm_ask|]. intros []; auto with calm.
Qed.
Lemma calm_session : calm open_session.
Proof.
  unfold open_session. destruct (negb _); [apply calm_ret|].
  apply calm_bind; [apply calm_within|]. intros [[]|]; [|apply calm_ret..].
  do 3 (destruct (negb _); [apply calm_ret|]). apply calm_bind; [apply calm_group|].
  intros []; auto with calm.
Qed.
Lemma calm_supervise restarts started : calm (supervise restarts started).
Proof.
  unfold supervise. apply calm_bind; [by intros l|]. intros []; [apply calm_ret|]. intros l.
  apply (calm_bind (pause _)); auto with calm.
Qed.

(** *** Every step takes time *)

Lemma cancel_time_le t : t ≤ cancel_time t.
Proof. unfold cancel_time. destruct cancel; lia. Qed.

Lemma onward_ret {A} (a : A) : onward (lp_ret a).
Proof. by intros l. Qed.
Lemma onward_bind {A D} (m : Lp A) (f : A → Lp D) : onward m → (∀ a, onward (f a)) → onward (lp_bind m f).
Proof.
  intros Hm Hf l. unfold lp_bind. specialize (Hm l). destruct (m l) as [[a|] l1]; [|done].
  etransitivity; [exact Hm|apply Hf].
Qed.
Lemma onward_ask {A} (op : ConsumerOp A) : onward (ask op).
Proof.
  intros l. unfold ask. destruct (co_ask op (lp_broker l)) as [[ms a|] b] eqn:E; apply later_by; cbn; [|done..].
  apply co_ask_time in E. lia.
Qed.
Lemma onward_within {A} limit (op : ConsumerOp A) : 0 ≤ limit → onward (ask_within limit op).
Proof.
  intros Hl l. unfold ask_within. destruct (co_ask op (lp_broker l)) as [[ms a|] b] eqn:E;
    [apply co_ask_time in E; destruct (ms <=? limit)|]; apply later_by; cbn; lia || done.
Qed.
Lemma onward_or_cancel {A} (op : ConsumerOp A) : onward (ask_or_cancel op).
Proof.
  intros l. unfold ask_or_cancel. pose proof (cancel_time_le (lp_now l)) as Hc.
  destruct (co_ask op (lp_broker l)) as [[ms a|] b] eqn:E;
    [apply co_ask_time in E; destruct (cancelled_by _)|destruct cancel]; apply later_by; cbn; lia || done.
Qed.
Lemma onward_pause ms : 0 ≤ ms → onward (pause ms).
Proof.
  intros Hms l. unfold pause. pose proof (cancel_time_le (lp_now l)) as Hc.
  destruct (cancelled_by _); apply later_by; cbn; lia || done.
Qed.
Lemma onward_beat : onward beat.
Proof. intros l. split; [done|]. exists [lp_now l]. split; [done|]. repeat constructor; cbn; lia. Qed.
Lemma onward_fee : onward check_fee.
Proof.
  intros l. unfold check_fee. destruct (wt_fee_plan _) as [fee c]. apply later_by; [|done]. cbn.
  pose proof (wt_fee_time (w_chain (lp_worker l))). lia.
Qed.
Lemma onward_handle fee failures messages : onward (handle fee failures messages).
Proof.
  intros l. unfold handle. destruct (handle_poll _ _ _ _) as [r w]. apply later_by; [|done]. cbn.
  pose proof (wt_batch_time (lp_worker l) messages). destruct r.1; lia.
Qed.
Lemma onward_sent messages offset : onward (offset_sent messages offset).
Proof. intros l. by apply later_by. Qed.

(** The waits between attempts are 5 to 60 seconds. *)
Lemma backoff_range retries : 5 ≤ Z.min (backoff_delay retries) 60 ≤ 60.
Proof.
  enough (5 ≤ backoff_delay retries) by lia.
  assert (Hb : backoff_delay retries = backoff_delay (Z.max 0 retries)).
  { unfold backoff_delay, sat_sub. by replace (Z.max 0 (Z.max 0 retries - 1)) with (Z.max 0 (retries - 1)) by lia. }
  rewrite Hb, backoff_delay_closed by lia. apply Z.min_glb; [|by vm_compute].
  change 5 with (5 * 3 ^ 0) at 1. apply Z.mul_le_mono_nonneg_l; [lia|]. apply Z.pow_le_mono_r; lia.
Qed.

Lemma handle_poll_waits fee failures messages (s : Worker S) reason secs n w :
  handle_poll fee failures messages s = ((RetryAfter reason secs, n), w) → 5 ≤ secs ≤ 60.
Proof.
  unfold handle_poll. destruct (last messages) as [[hi p]|]; [|done].
  destruct fee as [[q|rq cap]|e]; [|done|]; unfold wk_bind; destruct (process_batch _ s) as [[u|e'] s2]; try done;
    intros [= _ <- _ _]; apply backoff_range.
Qed.

Lemma handle_lwp fee failures messages l (Q : option (PollOutcome * Z) → Loop → Prop) :
  (∀ o n w, handle_poll fee failures messages (lp_worker l) = ((o, n), w) →
     Q (Some (o, n)) (mkLoop w (lp_broker l)
       (lp_now l + match o with Idle | Requeued => 0 | _ => wt_batch_ms (lp_worker l) messages end)
       (lp_beats l) (lp_commits l))) →
  lwp (handle fee failures messages) l Q.
Proof. intros HQ. unfold lwp, handle. destruct (handle_poll _ _ _ _) as [[o n] w] eqn:E. by apply HQ. Qed.

Lemma onward_rest partition failures messages : onward (poll_rest partition failures messages).
Proof.
  apply onward_bind; [apply onward_fee|]. intros fee l.
  pose proof (onward_handle fee failures messages l) as H1.
  change (lwp (lp_bind (handle fee failures messages) (λ r, match r.1 with
    | Idle => lp_ret (Continue r.2)
    | Requeued => lp_bind (pause GAS_WAIT) (λ c, lp_ret (go_on r.2 c))
    | StoreOffset offset => lp_bind (offset_sent messages offset) (λ _, lp_bind (ask (OpStoreOffset partition offset))
        (λ stored, lp_ret (if stored : bool then Continue r.2 else Fails "could not store Iggy consumer offset")))
    | RetryAfter _ secs => lp_bind (pause (secs * 1_000)) (λ c, lp_ret (go_on r.2 c)) end)) l (λ _, later l)).
  apply lwp_bind. revert H1. unfold lwp at 1. destruct (handle fee failures messages l) as [[[o n]|] l1] eqn:E; [|done].
  cbn [fst snd]. intros H1. unfold lwp. etransitivity; [exact H1|]. clear H1.
  destruct o as [| |offset|reason secs].
  - apply onward_ret.
  - apply onward_bind; [by apply onward_pause|intros; apply onward_ret].
  - apply onward_bind; [apply onward_sent|intros _]. apply onward_bind; [apply onward_ask|intros; apply onward_ret].
  - apply onward_bind; [|intros; apply onward_ret]. apply onward_pause.
    unfold handle in E. destruct (handle_poll _ _ _ _) as [r w] eqn:Hp. injection E as -> _.
    apply handle_poll_waits in Hp. lia.
Qed.

Lemma onward_group : onward ensure_consumer_group.
Proof.
  unfold ensure_consumer_group. apply onward_bind; [apply onward_ask|].
  intros [[]|]; [apply onward_ret| |apply onward_ret].
  apply onward_bind; [apply onward_ask|]. intros []; [apply onward_ret|].
  apply onward_bind; [apply onward_ask|intros; apply onward_ret].
Qed.
Lemma onward_session : onward open_session.
Proof.
  unfold open_session. destruct (negb _); [apply onward_ret|].
  apply onward_bind; [by apply onward_within|]. intros [[]|]; [|apply onward_ret..].
  do 3 (destruct (negb _); [apply onward_ret|]). apply onward_bind; [apply onward_group|].
  intros []; [|apply onward_ret]. apply onward_bind; [apply onward_ask|intros; apply onward_ret].
Qed.
Lemma onward_supervise restarts started : onward (supervise restarts started).
Proof.
  unfold supervise. apply onward_bind; [by intros l|]. intros []; [apply onward_ret|]. intros l.
  set (r := if _ <? _ then _ else _). apply (onward_bind (pause _)); [|intros; apply onward_ret].
  apply onward_pause. pose proof (backoff_range r). lia.
Qed.
Lemma onward_poll failures : onward (poll_turn failures).
Proof.
  apply onward_bind; [apply onward_or_cancel|]. intros [[[partition [|m ms]]|]|]; [| |apply onward_ret..].
  - apply onward_bind; [apply onward_beat|intros _].
    apply onward_bind; [by apply onward_pause|intros; apply onward_ret].
  - apply onward_bind; [apply onward_beat|intros _; apply onward_rest].
Qed.

Lemma onward_turn s : later s.2 (turn s).2.
Proof.
  destruct s as [[restarts|restarts started failures| |] l]; cbn [turn snd phase_of]; [| |done|done].
  - apply (onward_bind open_session); [apply onward_session|]. intros []; [apply onward_ret|apply onward_supervise].
  - apply (onward_bind (poll_turn failures)); [apply onward_poll|].
    intros []; [apply onward_ret| |apply onward_supervise].
    apply onward_bind; [apply onward_ask|intros; apply onward_ret].
Qed.

Lemma onward_turns n s : later s.2 (turns n s).2.
Proof.
  revert s. induction n as [|n IH]; intros s; cbn [turns]; [done|].
  etransitivity; [apply onward_turn|apply IH].
Qed.

Lemma poll_turn_inv failures l : commits_inv l → lwp (poll_turn failures) l (λ _, commits_inv).
Proof.
  intros Hi. apply lwp_bind. unfold lwp at 1. pose proof (calm_inv _ l (calm_or_cancel OpPoll) Hi) as H1.
  destruct (ask_or_cancel OpPoll l) as [[[[[partition [|m ms]]|]|]|] l1]; cbn [fst snd] in *; try done.
  { apply (calm_inv (lp_bind beat _)); [|done]. auto with calm. }
  apply lwp_bind. pose proof (calm_inv _ _ calm_beat H1) as H2. unfold lwp at 1. cbn [beat fst].
  set (l2 := (beat l1).2) in *. clearbody l2. unfold poll_rest. apply lwp_bind. unfold lwp at 1.
  pose proof (calm_inv _ _ calm_fee H2) as H3. destruct (check_fee l2) as [[fee|] l3]; cbn [fst snd] in *; [|done].
  apply lwp_bind. unfold lwp at 1, handle.
  destruct (handle_poll fee failures (m :: ms) (lp_worker l3)) as [[o n] w] eqn:Hp. cbn [fst snd].
  destruct H3 as [Hr3 Hc3]. destruct (handle_poll_effect _ _ _ _ _ _ Hr3 Hp) as [Hr4 Hk4].
  set (l4 := mkLoop w _ _ _ _).
  assert (H4 : commits_inv l4).
  { split; [done|]. eapply Forall_impl; [exact Hc3|]. intros c [Hlast Hs]. split; [done|].
    intros off payload t Hin Ht. by eapply Hk4, Hs. }
  destruct o as [| |offset|reason secs]; cbn [fst snd].
  - done.
  - apply (calm_inv (lp_bind (pause _) _)); auto with calm.
  - destruct (offset_after_settlement fee failures (m :: ms) (lp_worker l3) offset n w Hr3 Hp)
      as (_ & _ & Hlast & _ & Hres).
    apply lwp_bind. apply (calm_inv (lp_bind (ask _) _)); [auto with calm|]. destruct H4 as [Hr Hf].
    split; [done|]. cbn. constructor; [|done]. by split.
  - apply (calm_inv (lp_bind (pause _) _)); auto with calm.
Qed.

Lemma turn_inv s : commits_inv s.2 → commits_inv (turn s).2.
Proof.
  destruct s as [[restarts|restarts started failures| |] l]; intros Hi; cbn [turn snd]; [| |done|done].
  - apply (calm_inv (lp_bind open_session _)); [|done]. apply calm_bind; [apply calm_session|].
    intros []; [apply calm_ret|apply calm_supervise].
  - change (lwp (lp_bind (poll_turn failures) (λ next, match next with
      | Continue failures => lp_ret (Polling restarts started failures)
      | Break => lp_bind (ask OpLeave) (λ _, lp_ret Stopped)
      | Fails _ => supervise restarts started end)) l (λ _, commits_inv)).
    apply lwp_bind. eapply lwp_mono; [by apply poll_turn_inv|]. intros [[f| |reason]|] l1 H1; [..|done].
    + done.
    + apply (calm_inv (lp_bind (ask _) _)); auto with calm.
    + apply (calm_inv (supervise _ _)); [apply calm_supervise|done].
Qed.

(** C8. The offsets the worker sends are those of finished work, over whole
    runs.  From a store the service can reach, through any number of polls,
    failed sessions, restarts, price waits and retries, and wherever the
    worker hangs or is stopped: every offset that was sent to the broker is
    the last of a poll none of whose tasks is live in the store now. *)
Theorem offsets_stay_settled n (w : Worker S) (b : B) t0 :
  reachable (db (w_store w)) →
  Forall (commit_settled (store_of (turns n (start w b t0)).2)) (lp_commits (turns n (start w b t0)).2).
Proof.
  intros Hr. enough (H' : ∀ s, commits_inv s.2 → commits_inv (turns n s).2).
  { apply (H' (start w b t0)). by split. }
  clear Hr. induction n as [|n IH]; intros s Hi; cbn [turns]; [done|]. apply IH. by apply turn_inv.
Qed.

(** ** The watchdog *)

Lemma watchdog_fires fuel t beats k :
  cancel = None → (k < fuel)%nat → pulse_stalled (t + WATCHDOG_TICK * (Z.of_nat k + 1)) beats = true →
  ∃ t', watchdog fuel t beats = Some t' ∧ t' ≤ t + WATCHDOG_TICK * (Z.of_nat k + 1).
Proof.
  intros Hc. revert t k. induction fuel as [|fuel IH]; intros t k Hk Hs; [lia|]. cbn [watchdog].
  assert (Hcc : ∀ u, cancelled_by u = false) by (intros u; unfold cancelled_by; by rewrite Hc). rewrite Hcc.
  destruct (pulse_stalled (t + WATCHDOG_TICK) beats) eqn:E.
  { eexists. split; [done|]. unfold WATCHDOG_TICK. lia. }
  destruct k as [|k]; [by replace (t + WATCHDOG_TICK * _) with (t + WATCHDOG_TICK) in Hs by lia; congruence|].
  destruct (IH (t + WATCHDOG_TICK) k) as (t' & Ht & Hle); [lia| |].
  - replace (t + WATCHDOG_TICK + WATCHDOG_TICK * (Z.of_nat k + 1))
      with (t + WATCHDOG_TICK * (Z.of_nat (Datatypes.S k) + 1)) by lia. done.
  - exists t'. split; [done|]. lia.
Qed.

Lemma turns_beats n w b t0 :
  ∃ p bs, lp_beats (turns n (start w b t0)).2 = p :: bs ∧ t0 ≤ p ≤ lp_now (turns n (start w b t0)).2.
Proof.
  destruct (onward_turns n (start w b t0)) as [H1 (new & E & F)]. cbn in *. rewrite E.
  destruct new as [|p new]; [by exists t0, []|]. exists p, (new ++ [t0]). split; [done|].
  by apply Forall_cons in F as [? _].
Qed.

(** A wedged worker does not stay so.  If a wait of the worker never ends
    (no call back, no error: what the supervisor cannot see), then, unless
    the service is being stopped, the process exits for a restart at a tick
    of the watchdog less than eleven minutes after the last completed poll. *)
Theorem wedged_worker_is_restarted n (w : Worker S) (b : B) t0 l :
  cancel = None → turns n (start w b t0) = (Stuck, l) →
  ∃ p fuel t, head (lp_beats l) = Some p ∧ watchdog fuel t0 (lp_beats l) = Some t ∧
    t < p + WORKER_STALL_LIMIT + WATCHDOG_TICK.
Proof.
  intros Hc Ht. destruct (turns_beats n w b t0) as (p & bs & Hb & Hp & _). rewrite Ht in Hb. cbn in Hb.
  rewrite Hb. set (k := Z.to_nat ((p - t0 + WORKER_STALL_LIMIT - 1) / WATCHDOG_TICK)).
  assert (Hk : p + WORKER_STALL_LIMIT ≤ t0 + WATCHDOG_TICK * (Z.of_nat k + 1) < p + WORKER_STALL_LIMIT + WATCHDOG_TICK).
  { unfold k, WORKER_STALL_LIMIT, WATCHDOG_TICK in *. rewrite Z2Nat.id by (apply Z.div_pos; lia).
    pose proof (Z.div_mod (p - t0 + 10 * 60 * 1000 - 1) 60000). pose proof (Z.mod_pos_bound (p - t0 + 10 * 60 * 1000 - 1) 60000).
    lia. }
  exists p, (Datatypes.S k). destruct (watchdog_fires (Datatypes.S k) t0 (p :: bs) k Hc) as (t & Hw & Hle); [lia| |].
  - unfold pulse_stalled. cbn [pulse_at]. unfold WORKER_STALL_LIMIT in *.
    destruct (Z.leb_spec p (t0 + WATCHDOG_TICK * (Z.of_nat k + 1))); [|lia].
    unfold stalled, WORKER_STALL_LIMIT. apply Z.leb_le. lia.
  - exists t. split; [done|]. split; [done|]. lia.
Qed.

(** *** It leaves a working worker alone *)

(** Stamps, newest first, each less than the limit after the one before. *)
Inductive steady (t0 : Z) : list Z → Prop :=
| steady_start : steady t0 [t0]
| steady_beat b b' beats : steady t0 (b' :: beats) → b' ≤ b < b' + WORKER_STALL_LIMIT → steady t0 (b :: b' :: beats).

Lemma steady_pulse t0 beats t p :
  steady t0 beats → head beats = Some p → t0 ≤ t → t < p + WORKER_STALL_LIMIT → pulse_stalled t beats = false.
Proof.
  intros Hs. revert p. induction Hs as [|b b' beats Hs IH Hb]; intros p [= <-] Ht Hp; unfold pulse_stalled; cbn [pulse_at].
  - destruct (Z.leb_spec t0 t); [|lia]. apply Z.leb_gt. lia.
  - destruct (Z.leb_spec b t); [apply Z.leb_gt; lia|].
    specialize (IH b' eq_refl Ht ltac:(lia)). unfold pulse_stalled in IH. exact IH.
Qed.

Lemma watchdog_quiet fuel t t0 beats p :
  steady t0 beats → head beats = Some p → t0 ≤ t → t + WATCHDOG_TICK * Z.of_nat fuel < p + WORKER_STALL_LIMIT →
  watchdog fuel t beats = None.
Proof.
  intros Hs Hh. revert t. induction fuel as [|fuel IH]; intros t Ht Hp; cbn [watchdog]; [done|].
  destruct (cancelled_by _); [done|]. unfold WATCHDOG_TICK in *.
  rewrite (steady_pulse t0 beats _ p) by (done || lia). apply IH; lia.
Qed.

Section bounded.
(** Every call of the broker comes back within [P], a fee check within [F]
    and a batch within [T]. *)
Context (P F T : Z).
Context (HP : ∀ A (op : ConsumerOp A) b ms a b', co_ask op b = (Came ms a, b') → ms ≤ P).
Context (HF : ∀ c, wt_fee_ms c ≤ F) (HT : ∀ s messages, wt_batch_ms s messages ≤ T).
Context (HPpos : 0 ≤ P) (HTpos : 0 ≤ T) (HC : cancel = None).

(** Between a stamp and the next poll. *)
Definition busy : Z := IGGY_CONNECT_TIMEOUT + 4 * P + F + T + 60_000.

Lemma F_pos c : 0 ≤ wt_fee_ms c ≤ F.
Proof using HF. pose proof (wt_fee_time c). pose proof (HF c). lia. Qed.
Lemma T_pos s messages : 0 ≤ wt_batch_ms s messages ≤ T.
Proof using HT. pose proof (wt_batch_time s messages). pose proof (HT s messages). lia. Qed.

(** A step that takes at most [d] and does not stamp the pulse. *)
Definition within {A} (d : Z) (m : Lp A) : Prop :=
  ∀ l, lp_now (m l).2 ≤ lp_now l + d ∧ lp_beats (m l).2 = lp_beats l.

Lemma within_ret {A} d (a : A) : 0 ≤ d → within d (lp_ret a).
Proof. intros Hd l. cbn. split; [lia|done]. Qed.
Lemma within_bind_from {A D} d1 d2 (m : Lp A) (f : A → Lp D) :
  within d1 m → 0 ≤ d2 → (∀ l a, (m l).1 = Some a → within d2 (f a)) → within (d1 + d2) (lp_bind m f).
Proof.
  intros Hm Hd Hf l. unfold lp_bind. destruct (Hm l) as [Hn Hb]. pose proof (Hf l) as Hfl.
  destruct (m l) as [[a|] l1]; cbn in *; [|split; [lia|done]].
  destruct (Hfl a eq_refl l1) as [Hn2 Hb2]. split; [lia|congruence].
Qed.
Lemma within_bind {A D} d1 d2 (m : Lp A) (f : A → Lp D) :
  within d1 m → 0 ≤ d2 → (∀ a, within d2 (f a)) → within (d1 + d2) (lp_bind m f).
Proof. intros Hm Hd Hf. apply within_bind_from; auto. Qed.
Lemma within_le {A} d d' (m : Lp A) : within d m → d ≤ d' → within d' m.
Proof. intros Hm Hd l. destruct (Hm l). split; [lia|done]. Qed.
Lemma within_ask {A} (op : ConsumerOp A) : within P (ask op).
Proof using HP HPpos.
  intros l. unfold ask. destruct (co_ask op (lp_broker l)) as [[ms a|] b] eqn:E; cbn; [|split; [lia|done]].
  apply HP in E. split; [lia|done].
Qed.
Lemma within_limit {A} limit (op : ConsumerOp A) : within limit (ask_within limit op).
Proof.
  intros l. unfold ask_within. destruct (co_ask op (lp_broker l)) as [[ms a|] b]; [|done].
  destruct (Z.leb_spec ms limit); cbn; split; lia || done.
Qed.
Lemma not_cancelled t : cancelled_by t = false.
Proof using HC. unfold cancelled_by. by rewrite HC. Qed.
Lemma within_pause ms : within ms (pause ms).
Proof using HC. intros l. unfold pause. rewrite not_cancelled. done. Qed.

Lemma within_group : within (3 * P) ensure_consumer_group.
Proof using HP HPpos.
  apply (within_le (P + (P + (P + 0)))); [|lia].
  apply within_bind; [apply within_ask|lia|]. intros [[]|]; [apply within_ret; lia| |apply within_ret; lia].
  apply within_bind; [apply within_ask|lia|]. intros []; [apply within_ret; lia|].
  apply within_bind; [apply within_ask|lia|]. intros. apply within_ret. lia.
Qed.
Lemma within_session : within (IGGY_CONNECT_TIMEOUT + 4 * P) open_session.
Proof using HP HPpos.
  unfold open_session. destruct (negb _); [apply within_ret; unfold IGGY_CONNECT_TIMEOUT; lia|].
  apply within_bind; [apply within_limit|lia|]. intros [[]|]; [|apply within_ret; lia..].
  do 3 (destruct (negb _); [apply within_ret; lia|]). apply (within_le (3 * P + (P + 0))); [|lia].
  apply within_bind; [apply within_group|lia|]. intros []; [|apply within_ret; lia].
  apply within_bind; [apply within_ask|lia|]. intros. apply within_ret. lia.
Qed.

Lemma within_fee : within F check_fee.
Proof using HF.
  intros l. unfold check_fee. destruct (wt_fee_plan _) as [fee c]. cbn.
  pose proof (F_pos (w_chain (lp_worker l))). split; [lia|done].
Qed.
Lemma within_handle fee failures messages : within T (handle fee failures messages).
Proof using HT HTpos.
  intros l. unfold handle. destruct (handle_poll _ _ _ _) as [r w]. cbn.
  pose proof (T_pos (lp_worker l) messages). split; [|done]. destruct r.1; lia.
Qed.

Lemma within_rest partition failures messages :
  within (F + (T + (P + 60_000))) (poll_rest partition failures messages).
Proof using HP HPpos HTpos HC HF HT.
  apply within_bind; [apply within_fee|lia|]. intros fee.
  apply within_bind_from; [apply within_handle|lia|]. intros l [o n] Hr. cbn [fst snd].
  destruct o as [| |offset|reason secs].
  - apply within_ret. lia.
  - apply (within_le (GAS_WAIT + 0)); [|unfold GAS_WAIT; lia].
    apply within_bind; [apply within_pause|lia|intros; apply within_ret; lia].
  - apply (within_le (0 + (P + 0))); [|lia]. apply within_bind; [|lia|intros _].
    + intros l2. cbn. split; [lia|done].
    + apply within_bind; [apply within_ask|lia|intros; apply within_ret; lia].
  - unfold handle in Hr. destruct (handle_poll _ _ _ _) as [r w] eqn:Hp. injection Hr as ->.
    apply handle_poll_waits in Hp. apply (within_le (secs * 1_000 + 0)); [|lia].
    apply within_bind; [apply within_pause|lia|intros; apply within_ret; lia].
Qed.

(** The pulse is steady, and was stamped no longer ago than [busy]. *)
Definition beating (t0 : Z) (l : Loop) : Prop :=
  steady t0 (lp_beats l) ∧ ∃ p, head (lp_beats l) = Some p ∧ t0 ≤ p ≤ lp_now l ∧ lp_now l ≤ p + busy.

Lemma poll_turn_beating failures t0 l :
  busy + P < WORKER_STALL_LIMIT → beating t0 l →
  lwp (poll_turn failures) l (λ o l', ∀ f, o = Some (Continue f) → beating t0 l').
Proof using HP HPpos HTpos HC HF HT.
  intros Hlim (Hs & p & Hp & Hge & Hle). apply lwp_bind. unfold lwp, ask_or_cancel.
  destruct (co_ask OpPoll (lp_broker l)) as [[ms r|] b] eqn:E; [|by rewrite HC].
  rewrite not_cancelled. cbn [fst snd]. pose proof (co_ask_time _ _ _ _ _ E) as H0. pose proof (HP _ _ _ _ _ _ E) as HPm.
  destruct r as [[partition messages]|]; [|done].
  set (l1 := after_call b (lp_now l + ms) l). set (t1 := lp_now l + ms) in *.
  assert (Hrest : ∀ (m : Lp Next), within (F + (T + (P + 60_000))) m → onward m →
    beating t0 (m (beat l1).2).2).
  { intros m Hw Hon. destruct (Hw (beat l1).2) as [Hn Hb]. destruct (Hon (beat l1).2) as [Hn2 _].
    unfold beating. rewrite Hb. cbn in Hn, Hn2 |- *. split.
    - destruct (lp_beats l) as [|b' bs]; [done|]. injection Hp as ->. constructor; [done|]. fold t1. lia.
    - exists t1. fold t1 in Hn, Hn2. split; [done|]. unfold busy, IGGY_CONNECT_TIMEOUT. lia. }
  destruct messages as [|x xs]; intros f _.
  - apply (Hrest (lp_bind (pause 250) (λ c, lp_ret (go_on failures c)))).
    + apply (within_le (250 + 0)); [|pose proof (F_pos (w_chain (lp_worker l))); lia].
      apply within_bind; [apply within_pause|lia|intros; apply within_ret; lia].
    + apply onward_bind; [by apply onward_pause|intros; apply onward_ret].
  - apply Hrest; [apply within_rest|apply onward_rest].
Qed.

Definition is_polling (phase : Phase) : Prop :=
  match phase with Polling _ _ _ => True | _ => False end.

Lemma supervise_leaves restarts started l phase l' :
  supervise restarts started l = (phase, l') → ¬ is_polling (default Stuck phase).
Proof.
  unfold supervise, lp_bind, is_cancelled, lp_ret. destruct (cancelled_by _); [intros [= <- _]; by intros []|].
  destruct (pause _ l) as [[c|] l1]; [destruct c|]; intros [= <- _]; by intros [].
Qed.

Lemma turn_beating t0 s :
  busy + P < WORKER_STALL_LIMIT → is_polling s.1 → is_polling (turn s).1 → beating t0 s.2 → beating t0 (turn s).2.
Proof using HP HPpos HTpos HC HF HT.
  intros Hlim. destruct s as [[|restarts started failures| |] l]; [done| |done..]. intros _. cbn [turn snd].
  unfold lp_bind, lp_ret. intros Hpol Hb. pose proof (poll_turn_beating failures t0 l Hlim Hb) as Hturn.
  unfold lwp in Hturn. destruct (poll_turn failures l) as [[[f| |reason]|] l1]; cbn [fst snd] in *.
  - by apply (Hturn f).
  - revert Hpol. by destruct (ask OpLeave l1) as [[u|] l2].
  - destruct (supervise restarts started l1) as [ph l2] eqn:Hs. by destruct (supervise_leaves _ _ _ _ _ Hs).
  - done.
Qed.

Lemma turns_beating n t0 s :
  busy + P < WORKER_STALL_LIMIT → (∀ k, (k ≤ n)%nat → is_polling (turns k s).1) →
  beating t0 s.2 → beating t0 (turns n s).2.
Proof using HP HPpos HTpos HC HF HT.
  intros Hlim. revert s. induction n as [|n IH]; intros s Hk Hb; cbn [turns]; [done|].
  apply IH; [intros k Hn; apply (Hk (Datatypes.S k)); lia|].
  apply turn_beating; [done|apply (Hk O); lia|apply (Hk 1%nat); lia|done].
Qed.

(** C32. The watchdog leaves a working worker alone.  While the session holds,
    if every broker call comes back within [P], every fee check within [F]
    and every batch within [T], and five seconds, five calls, a check, a batch
    and the longest wait (a minute) together stay below ten minutes, then no
    tick of the watchdog so far has ended the process. *)
Theorem watchdog_spares_working n (w : Worker S) (b : B) t0 fuel :
  busy + P < WORKER_STALL_LIMIT →
  (∀ k, (1 ≤ k ≤ Datatypes.S n)%nat → is_polling (turns k (start w b t0)).1) →
  t0 + WATCHDOG_TICK * Z.of_nat fuel ≤ lp_now (turns (Datatypes.S n) (start w b t0)).2 →
  watchdog fuel t0 (lp_beats (turns (Datatypes.S n) (start w b t0)).2) = None.
Proof using HP HPpos HTpos HC HF HT.
  intros Hlim Hk Hfuel. cbn [turns] in *.
  assert (Hb : beating t0 (turn (start w b t0)).2).
  { specialize (Hk 1%nat ltac:(lia)). cbn [turns] in Hk. revert Hk. unfold start, turn.
    set (l0 := mkLoop _ _ _ _ _). destruct (within_session l0) as [Hn Hbeats]. destruct (onward_session l0) as [Hn2 _].
    unfold lp_bind, lp_ret. destruct (open_session l0) as [[[u|e]|] l1]; cbn [fst snd] in *; [|intros Hpol..].
    - intros _. unfold beating. cbn in *. rewrite Hbeats. split; [constructor|]. exists t0. split; [done|].
      pose proof (F_pos (w_chain w)). unfold busy. split; lia.
    - destruct (supervise 0 (lp_now l0) l1) as [ph l2] eqn:Hs. by destruct (supervise_leaves _ _ _ _ _ Hs).
    - done. }
  apply (turns_beating n) in Hb as (Hs & p & Hp & Hge & Hle); [|done|intros k Hn; apply (Hk (Datatypes.S k)); lia].
  apply (watchdog_quiet _ _ t0 _ p); [done..|lia|]. lia.
Qed.
End bounded.

(** ** Recovery *)

Definition succeeded {A} (op : ConsumerOp A) : A → Prop :=
  match op in ConsumerOp A return A → Prop with
  | OpConnect | OpCreateGroup | OpJoin | OpStoreOffset _ _ => λ ok, ok = true
  | OpGetGroup => λ there, is_Some there
  | OpPoll => λ polled, is_Some polled
  | OpLeave => λ _, True
  end.

(** The broker serves from here on, each call within [P]. *)
Definition serving (P : Z) (G : B → Prop) : Prop :=
  ∀ A (op : ConsumerOp A) b, G b → ∃ ms a b', co_ask op b = (Came ms a, b') ∧ ms ≤ P ∧ succeeded op a ∧ G b'.

Definition well_configured : Prop :=
  co_connection_string_ok (consumer_url cfg) = true ∧ co_identifier_ok (stream_name cfg) = true ∧
  co_identifier_ok (topic_name cfg) = true ∧ co_identifier_ok (consumer_group cfg) = true.

Section recovery.
Context (P : Z) (G : B → Prop) (HG : serving P G) (HC : cancel = None).

Lemma ask_serving {A} (op : ConsumerOp A) l :
  G (lp_broker l) → lwp (ask op) l (λ o l', ∃ a, o = Some a ∧ succeeded op a ∧ G (lp_broker l') ∧
    lp_now l' ≤ lp_now l + P).
Proof using HG.
  intros (ms & a & b' & E & Hms & Hs & Hg)%(HG A op). unfold lwp, ask. rewrite E. exists a. cbn. split_and!; auto. lia.
Qed.

Lemma session_serving l :
  well_configured → P ≤ IGGY_CONNECT_TIMEOUT → 0 ≤ P → G (lp_broker l) →
  lwp open_session l (λ o l', o = Some (Ok tt) ∧ G (lp_broker l') ∧ lp_now l' ≤ lp_now l + 4 * P).
Proof using HG.
  intros (H1 & H2 & H3 & H4) Hlim Hpos Hg. unfold open_session. rewrite H1, H2, H3, H4. cbn [negb].
  apply lwp_bind. destruct (HG _ OpConnect _ Hg) as (ms & a & b' & E & Hms & Hs & Hg'). cbn in Hs. subst a.
  unfold lwp at 1, ask_within. rewrite E. destruct (Z.leb_spec ms IGGY_CONNECT_TIMEOUT); [|lia]. cbn [fst snd].
  set (l1 := after_call b' (lp_now l + ms) l). assert (Hn1 : lp_now l1 ≤ lp_now l + P) by (cbn; lia).
  assert (Hg1 : G (lp_broker l1)) by done. clearbody l1. apply lwp_bind.
  assert (Hgroup : lwp ensure_consumer_group l1 (λ o l', o = Some (Ok tt) ∧ G (lp_broker l') ∧
    lp_now l' ≤ lp_now l1 + 2 * P)).
  { apply lwp_bind. eapply lwp_mono; [by apply ask_serving|]. intros ? l2 (a & -> & [there ->] & Hg2 & Hn2).
    destruct there; [unfold lwp; cbn; split_and!; auto; lia|].
    apply lwp_bind. eapply lwp_mono; [by apply ask_serving|]. intros ? l3 (a & -> & -> & Hg3 & Hn3).
    unfold lwp; cbn; split_and!; auto; lia. }
  eapply lwp_mono; [exact Hgroup|]. intros ? l2 (-> & Hg2 & Hn2).
  apply lwp_bind. eapply lwp_mono; [by apply ask_serving|]. intros ? l3 (a & -> & -> & Hg3 & Hn3).
  unfold lwp; cbn; split_and!; auto; lia.
Qed.

(** Stamped within the next poll. *)
Lemma poll_stamps failures l :
  G (lp_broker l) → ∃ t, t ∈ lp_beats (poll_turn failures l).2 ∧ lp_now l ≤ t ≤ lp_now l + P.
Proof using HG HC.
  intros (ms & a & b' & E & Hms & [polled Hs] & Hg)%(HG _ OpPoll). pose proof (co_ask_time _ _ _ _ _ E) as H0.
  cbn in a, Hs. subst a. destruct polled as [partition messages].
  unfold poll_turn, lp_bind at 1, ask_or_cancel. rewrite E. unfold cancelled_by. rewrite HC.
  set (l1 := after_call b' (lp_now l + ms) l). exists (lp_now l1).
  assert (Hon : ∀ m : Lp Next, onward m → lp_now l1 ∈ lp_beats (m (beat l1).2).2).
  { intros m Hm. destruct (Hm (beat l1).2) as (_ & new & -> & _). cbn. set_solver. }
  split; [|cbn; lia]. destruct messages as [|x xs].
  - apply (Hon (lp_bind (pause 250) (λ c, lp_ret (go_on failures c)))).
    apply onward_bind; [by apply onward_pause|intros; apply onward_ret].
  - apply Hon, onward_rest.
Qed.

Lemma turn_stamps restarts started failures l :
  G (lp_broker l) →
  ∃ t, t ∈ lp_beats (turn (Polling restarts started failures, l)).2 ∧ lp_now l ≤ t ≤ lp_now l + P.
Proof using HG HC.
  intros (t & Hin & Ht)%(poll_stamps failures). exists t. split; [|done]. cbn [turn]. unfold lp_bind at 1.
  destruct (poll_turn failures l) as [[next|] l1]; [|done]. cbn [phase_of snd] in *.
  set (m := match next with Continue _ => _ | Break => _ | Fails _ => _ end).
  assert (Hm : onward m).
  { subst m. destruct next; [apply onward_ret| |apply onward_supervise].
    apply onward_bind; [apply onward_ask|intros; apply onward_ret]. }
  destruct (Hm l1) as (_ & new & Hb & _). fold m. rewrite Hb. set_solver.
Qed.

Lemma turn_goes_on s : s.1 ≠ Stopped → (turn s).1 ≠ Stopped.
Proof using HC.
  assert (Hs : ∀ r st l, default Stuck (supervise r st l).1 ≠ Stopped).
  { intros r st l. unfold supervise, lp_bind, is_cancelled, pause, cancelled_by. by rewrite HC. }
  destruct s as [[restarts|restarts started failures| |] l]; intros Hn; cbn [turn]; [| |done|done]; unfold lp_bind at 1.
  - destruct (open_session l) as [[[u|e]|] l1]; cbn; [done| |done]. apply Hs.
  - assert (Hb : (poll_turn failures l).1 ≠ Some Break).
    { unfold poll_turn, poll_rest, lp_bind, ask_or_cancel, cancelled_by. rewrite HC.
      destruct (co_ask OpPoll (lp_broker l)) as [[ms [[partition [|x xs]]|]|] b]; try done;
        unfold beat, pause, cancelled_by; rewrite ?HC; [done|].
      destruct (check_fee _) as [[fee|] l2]; [|done]. destruct (handle _ _ _ l2) as [[[o n]|] l3]; [|done]. cbn [fst snd].
      destruct o; try done. destruct (offset_sent _ _ l3) as [[u|] l4]; [|done].
      by destruct (ask _ l4) as [[[]|] l5]. }
    destruct (poll_turn failures l) as [[[f| |reason]|] l1]; cbn; [done|done| |done]. apply Hs.
Qed.

Lemma turns_go_on n s : s.1 ≠ Stopped → (turns n s).1 ≠ Stopped.
Proof using HC. revert s. induction n; intros s Hs; cbn [turns]; [done|]. auto using turn_goes_on. Qed.
End recovery.

(** C9. The worker never gives up.  Whatever happened before (failed polls
    and sessions, restarts, batches to be retried), unless it is stopped or
    hangs in a call that never ends: once the broker serves again, with calls
    that take at most [P], at most two turns later a poll has completed,
    within five calls' time. *)
Theorem worker_recovers n (w : Worker S) (b : B) t0 phase l P G :
  cancel = None → well_configured → serving P G → 0 ≤ P ≤ IGGY_CONNECT_TIMEOUT →
  turns n (start w b t0) = (phase, l) → phase ≠ Stuck → G (lp_broker l) →
  ∃ k t, (k ≤ 2)%nat ∧ t ∈ lp_beats (turns k (phase, l)).2 ∧ lp_now l ≤ t ≤ lp_now l + 5 * P.
Proof.
  intros HC Hcfg HG HP Ht Hstuck Hg.
  assert (Hns : phase ≠ Stopped).
  { pose proof (turns_go_on HC n (start w b t0)) as Hgo. rewrite Ht in Hgo. by apply Hgo. }
  destruct phase as [restarts|restarts started failures| |]; [| |done|done].
  - pose proof (session_serving P G HG l Hcfg ltac:(lia) ltac:(lia) Hg) as Hs. unfold lwp in Hs.
    destruct (onward_session l) as [Hnow _].
    destruct (open_session l) as [o l1] eqn:E. cbn [fst snd] in Hs, Hnow. destruct Hs as (-> & Hg1 & Hn1).
    destruct (turn_stamps P G HG HC restarts (lp_now l) 0 l1 Hg1) as (t & Hin & Hle). exists 2%nat, t.
    split; [done|]. change (turns 2 (Starting restarts, l)) with (turn (turn (Starting restarts, l))).
    assert (Hfirst : turn (Starting restarts, l) = (Polling restarts (lp_now l) 0, l1)).
    { cbn [turn]. unfold lp_bind. by rewrite E. }
    rewrite Hfirst. split; [done|]. lia.
  - destruct (turn_stamps P G HG HC restarts started failures l Hg) as (t & Hin & Hle). exists 1%nat, t.
    split; [lia|]. split; [done|]. lia.
Qed.
End worker_loop.

(** ** Evaluation on examples *)
Section loop_examples.
#[local] Existing Instance concrete_crates.
#[local] Existing Instance concrete_codec.
#[local] Existing Instance confirming_chain.

(** Answers in a millisecond: so many failures first; then the messages once,
    and after them empty polls, or a poll that never ends. *)
Definition failure {A} (op : ConsumerOp A) : A :=
  match op in ConsumerOp A return A with
  | OpConnect | OpCreateGroup | OpJoin | OpStoreOffset _ _ | OpLeave => false
  | OpGetGroup => None
  | OpPoll => None
  end.
Definition success {A} (op : ConsumerOp A) (messages : list (Z * string)) : A :=
  match op in ConsumerOp A return A with
  | OpConnect | OpCreateGroup | OpJoin | OpStoreOffset _ _ | OpLeave => true
  | OpGetGroup => Some false
  | OpPoll => Some (1, messages)
  end.
Definition is_poll {A} (op : ConsumerOp A) : bool := match op with OpPoll => true | _ => false end.

#[refine] Definition demo_broker (hangs : bool) : ConsumerApi (nat * list (Z * string)) := {|
  co_connection_string_ok _ := true;
  co_identifier_ok _ := true;
  co_ask A op b := match b.1 with
    | Datatypes.S n => (Came 1 (failure op), (n, b.2))
    | O =>
        if is_poll op && hangs && bool_decide (b.2 = []) then (Never, b)
        else (Came 1 (success op b.2), (O, if is_poll op then [] else b.2))
    end;
|}.
Proof. intros A op [[|n] ms0] ms a b'; cbn; [case_match; [done|]|]; intros [= <- _ _]; lia. Defined.

(** A batch, of at most fifty, takes so long for each message. *)
#[refine] Definition demo_times (each : Z) : WorkTimes Z := {|
  wt_fee_plan c := (Ok (Send (mkFeePlan 7 3)), c);
  wt_fee_ms _ := 1;
  wt_batch_ms _ messages := Z.max 0 each * Z.of_nat (Nat.min 50 (length messages));
|}.
Proof. all: intros; lia. Defined.

Definition demo_consumer : ConsumerConfig := mkConsumerConfig "iggy+tcp://q" "g" "s" "t".
Definition demo_run (hangs : bool) (each : Z) (fails n : nat) (messages : list (Z * string)) :=
  turns (CO := demo_broker hangs) (WT := demo_times each) demo_consumer None n
    (start demo_worker (fails, messages) 0).

#[local] Strategy expand [demo_run].

Lemma demo_committed : lp_commits (demo_run false 10 0 3 demo_messages).2 = [(demo_messages, 42)].
Proof. vm_compute. reflexivity. Qed.
Lemma demo_settled c l d : Forall (commit_settled d) l → l = [c] → commit_settled d c.
Proof. intros Hf ->. by apply Forall_cons in Hf as [? _]. Qed.

Lemma offsets_stay_settled_witness :
  commit_settled (store_of (demo_run false 10 0 3 demo_messages).2) (demo_messages, 42).
Proof.
  apply (demo_settled _ _ _ (offsets_stay_settled (CO := demo_broker false) (WT := demo_times 10) demo_consumer None 3
    demo_worker (O, demo_messages) 0 queued_reachable) demo_committed).
Defined.

(** The second poll never ends. *)
Definition demo_wedged := demo_run true 10 0 3 demo_messages.
#[local] Strategy expand [demo_wedged].
Lemma demo_stuck : demo_wedged = (Stuck, demo_wedged.2).
Proof. assert (H : demo_wedged.1 = Stuck) by (vm_compute; reflexivity). by destruct demo_wedged as [p l]; cbn in H; subst. Qed.
Lemma demo_stamps : lp_beats demo_wedged.2 = [5; 0].
Proof. vm_compute. reflexivity. Qed.

Lemma wedged_worker_is_restarted_witness :
  ∃ fuel t, watchdog None fuel 0 [5; 0] = Some t ∧ t < 5 + WORKER_STALL_LIMIT + WATCHDOG_TICK.
Proof.
  destruct (wedged_worker_is_restarted (CO := demo_broker true) (WT := demo_times 10) demo_consumer None 3
    demo_worker (O, demo_messages) 0 demo_wedged.2 eq_refl demo_stuck) as (p & fuel & t & Hp & Hw & Hlt).
  exists fuel, t. rewrite demo_stamps in Hp, Hw. injection Hp as <-. by split.
Defined.

Lemma demo_ask hangs A (op : ConsumerOp A) b ms a b' :
  co_ask (ConsumerApi := demo_broker hangs) op b = (Came ms a, b') → ms ≤ 1.
Proof. destruct b as [[|n] ms0]; cbn; [case_match; [done|]|]; intros [= <- _ _]; lia. Qed.

Definition demo_working (each : Z) (n : nat) (messages : list (Z * string)) := demo_run false each 0 n messages.
#[local] Strategy expand [demo_working].

Definition long_batch : list (Z * string) := (λ i, (Z.of_nat i, "not a task")) <$> seq 0 50.
Lemma demo_polls k : (1 ≤ k ≤ 4)%nat → is_polling (demo_working 5_000 k long_batch).1.
Proof.
  intros Hk. assert (Hin : k ∈ seq 1 4) by (apply elem_of_seq; lia). clear Hk. revert k Hin.
  apply Forall_forall. change (seq 1 4) with [1; 2; 3; 4]%nat.
  do 4 (apply Forall_cons; split; [vm_compute; exact I|]). done.
Qed.
Lemma watchdog_spares_working_witness : watchdog None 4 0 (lp_beats (demo_working 5_000 4 long_batch).2) = None.
Proof.
  apply (watchdog_spares_working (CO := demo_broker false) (WT := demo_times 5_000) demo_consumer None
    1 1 250_000 (demo_ask false)).
  - intros c. done.
  - intros s messages. change (Z.max 0 5_000 * Z.of_nat (Nat.min 50 (length messages)) ≤ 250_000). lia.
  - done.
  - done.
  - done.
  - by vm_compute.
  - exact demo_polls.
  - vm_compute. done.
Defined.

(** Nothing is stuck and no call fails, but a batch of fifty takes fifteen
    seconds for each task: the process ends in the middle of the batch. *)
Lemma watchdog_ends_a_working_batch :
  (demo_working 15_000 2 long_batch).1 = Polling 0 0 0 ∧
  lp_commits (demo_working 15_000 2 long_batch).2 = [(long_batch, 49)] ∧
  watchdog None 20 0 (lp_beats (demo_working 15_000 3 long_batch).2) = Some 660_000 ∧
  660_000 < lp_now (demo_working 15_000 2 long_batch).2.
Proof. vm_compute. done. Qed.

(** Two failures, then the broker serves. *)
Definition demo_failing := demo_run false 10 2 2 demo_messages.
#[local] Strategy expand [demo_failing].
Lemma demo_fails_first : demo_failing = (Starting 2, demo_failing.2).
Proof. assert (H : demo_failing.1 = Starting 2) by (vm_compute; reflexivity). by destruct demo_failing as [p l]; cbn in H; subst. Qed.

Lemma worker_recovers_witness :
  ∃ k t, (k ≤ 2)%nat ∧
    t ∈ lp_beats (turns (CO := demo_broker false) (WT := demo_times 10) demo_consumer None k
      (Starting 2, demo_failing.2)).2 ∧
    lp_now demo_failing.2 ≤ t ≤ lp_now demo_failing.2 + 5 * 1.
Proof.
  apply (worker_recovers (CO := demo_broker false) (WT := demo_times 10) demo_consumer None 2
    demo_worker (2%nat, demo_messages) 0 (Starting 2) demo_failing.2 1 (λ b, b.1 = O)); [done|done| |done|exact demo_fails_first|done|].
  - intros A op [n messages] Hn. cbn in Hn. subst n.
    exists 1, (success op messages), (O, if is_poll op then [] else messages). cbn. rewrite andb_false_r. cbn.
    split_and!; [done|done| |done].
    destruct op; cbn; eauto; done.
  - vm_compute. reflexivity.
Defined.
End loop_examples.
