(* ===== verification/StoreTasks.v ===== *)
(** * What the store's operations do to task records

    One relation over all operations: records are never removed, only one's
    own admission creates one, finished tasks stay finished, and a live
    task's [admitted] flag is raised only by [mark_admitted]. *)
From Stdlib Require Import Ascii String Strings.Byte.
From S2P Require Export Worker Shell.
From stdpp Require Import options.

Section records.
Context `{K : StoreCodec}.

Definition record (d : Redis) (id : string) (t : RegisterTask) : Prop :=
  ∃ e, strings d !! task_key id = Some (task_to_json t, e).
Definition present (d : Redis) (id : string) : Prop := is_Some (strings d !! task_key id).

(** [own]: the id being admitted, if any; [mark]: the id being marked
    admitted, if any. *)
Record evolves (own mark : option string) (d d' : Redis) : Prop := {
  ev_present : ∀ id, present d id → present d' id;
  ev_absent : ∀ id, own ≠ Some id → present d' id → present d id;
  ev_resolved : ∀ id, own ≠ Some id → resolved d id → resolved d' id;
  ev_admitted : ∀ id t, record d' id t → awaiting t →
    mark = Some id ∨ ∃ t0, record d id t0 ∧ awaiting t0;
}.

Lemma evolves_refl own mark d : evolves own mark d d.
Proof. split; try done. intros id t Hr Ha. right. by exists t. Qed.

Lemma evolves_trans own mark d1 d2 d3 :
  evolves own mark d1 d2 → evolves own mark d2 d3 → evolves own mark d1 d3.
Proof.
  intros [P1 A1 R1 M1] [P2 A2 R2 M2]. split; auto. intros id t Hr Ha.
  destruct (M2 id t Hr Ha) as [?|(t0 & H0 & Ha0)]; [by left|by eapply M1].
Qed.

Lemma redis_get_later k d d' :
  strings d' !! k = strings d !! k → now d ≤ now d' →
  ∀ v, redis_get k d' = Some v → redis_get k d = Some v.
Proof.
  intros Hk Hn v (e & Hs & He)%redis_get_some. apply redis_get_some. exists e. rewrite <-Hk.
  split; [done|]. destruct e as [x|]; [|done]. unfold expired in *. rewrite Z.leb_gt in *. lia.
Qed.

Lemma evolves_frame own mark d d' :
  (∀ id, strings d' !! task_key id = strings d !! task_key id) → now d ≤ now d' →
  evolves own mark d d'.
Proof.
  intros Hs Hn. split.
  - intros id. unfold present. by rewrite Hs.
  - intros id _. unfold present. by rewrite Hs.
  - intros id _ Hr t Hg. apply Hr. eapply redis_get_later; [apply Hs|done|done].
  - intros id t (e & He) Ha. right. exists t. split; [exists e; by rewrite <-Hs|done].
Qed.

(** Rewriting a record that is there. *)
Lemma evolves_put mark d d' t e t0 :
  now d' = now d → strings d' !! task_key (task_id t) = Some (task_to_json t, e) →
  (∀ id, id ≠ task_id t → strings d' !! task_key id = strings d !! task_key id) →
  record d (task_id t) t0 →
  (awaiting t → awaiting t0 ∨ mark = Some (task_id t)) →
  (status t ≠ Pending ∨ ¬ resolved d (task_id t)) →
  evolves None mark d d'.
Proof.
  intros Hn Ht Hto Ht0 Ha Hs. split.
  - intros id Hp. destruct (decide (id = task_id t)) as [->|Hne]; [by eexists|].
    unfold present. by rewrite Hto.
  - intros id _ Hp. destruct (decide (id = task_id t)) as [->|Hne].
    + destruct Ht0 as [e0 He0]. by eexists.
    + unfold present in *. by rewrite Hto in Hp.
  - intros id _. by apply (rewrite_resolved d d' t e).
  - intros id t' (e' & He') Ha'. destruct (decide (id = task_id t)) as [->|Hne].
    + rewrite Ht in He'. injection He' as <-%task_to_json_inj _.
      destruct (Ha Ha') as [?|?]; [right; by exists t0|by left].
    + right. exists t'. split; [exists e'; by rewrite <-Hto|done].
Qed.

Lemma evolves_admit mark task d :
  strings d !! task_key (task_id task) = None → admitted task = false →
  evolves (Some (task_id task)) mark d (admit_script task d).2.
Proof.
  intros Hf Ha. destruct (redis_get (content_active_key (content_hash task)) d) eqn:Hg.
  { unfold admit_script. rewrite Hg. apply evolves_refl. }
  destruct (admit_script_new task d Hg) as (Ht & _ & Hto & _ & _ & Hn). split.
  - intros id [v Hv]. unfold present. rewrite Hto; [by eexists|congruence].
  - intros id Hid. unfold present. rewrite Hto; [done|congruence].
  - intros id Hid Hr t'. unfold redis_get. rewrite Hn, Hto by congruence. apply Hr.
  - intros id t (e & He) Hat. destruct (decide (id = task_id task)) as [->|Hne].
    + rewrite Ht in He. injection He as <-%task_to_json_inj. destruct Hat. congruence.
    + right. exists t. split; [exists e; by rewrite <-Hto|done].
Qed.

(** ** Calls *)

Definition evolving {A} (own mark : option string) (m : St A) (w : World) : Prop :=
  evolves own mark (db w) (db (m w).2).

Lemma evolving_query {A} own mark (command : Redis → A * Redis) w :
  evolves own mark (db w) (command (db w)).2 → evolving own mark (query command) w.
Proof.
  intros He. unfold evolving. destruct (query_db command w) as [-> | ->]; [apply evolves_refl|done].
Qed.

Lemma evolving_same {A} own mark (m : St A) w : db (m w).2 = db w → evolving own mark m w.
Proof. unfold evolving. intros ->. apply evolves_refl. Qed.

Lemma evolving_bind {A B} own mark (m : St A) (f : A → St B) w :
  evolving own mark m w → (∀ a w', m w = (Ok a, w') → evolving own mark (f a) w') →
  evolving own mark (st_bind m f) w.
Proof.
  unfold evolving, st_bind. intros Hm Hf. destruct (m w) as [[a|e] w1] eqn:E; simpl in *; [|done].
  eapply evolves_trans; [exact Hm|]. by apply Hf.
Qed.

(** After reading a task: the rest sees the record that was read. *)
Lemma evolving_get {A} own mark id (f : option RegisterTask → St A) w :
  store_inv (db w) →
  (∀ w', db w' = db w → evolving own mark (f None) w') →
  (∀ t w', db w' = db w → stored (db w') id t → evolving own mark (f (Some t)) w') →
  evolving own mark (st_bind (get_task id) f) w.
Proof.
  intros Hi Hnone Hsome. apply evolving_bind; [apply evolving_same, get_task_db|].
  intros [t|] w' Hg.
  - destruct (get_task_exact _ _ _ _ Hg Hi) as [Hd Hs]. apply Hsome; [done|by rewrite Hd].
  - destruct (get_task_none _ _ _ Hg Hi) as [Hd _]. by apply Hnone.
Qed.

Lemma stored_record d id t : stored d id t → record d id t ∧ task_id t = id.
Proof. intros [(e & He & _)%redis_get_some Hid]. split; [by exists e|done]. Qed.

Lemma stored_unresolved d id t : stored d id t → status t = Pending → ¬ resolved d id.
Proof. intros [Hs _] Hp Hr. by apply (Hr t). Qed.

Lemma evolving_settle mark id (upd : RegisterTask → RegisterTask)
    (script : RegisterTask → Redis → unit * Redis) (ttl : Z) w t :
  stored (db w) id t → task_id (upd t) = task_id t →
  status (upd t) ≠ Pending →
  (∀ t d, now (script t d).2 = now d ∧
     strings (script t d).2 !! task_key (task_id t) = Some (task_to_json t, Some (now d + ttl)) ∧
     ∀ id, id ≠ task_id t → strings (script t d).2 !! task_key id = strings d !! task_key id) →
  evolving None mark (query (script (upd t))) w.
Proof.
  intros [Hr Hid]%stored_record Hu Hs Hsc. apply evolving_query.
  destruct (Hsc (upd t) (db w)) as (Hn & Ht & Hto).
  eapply (evolves_put _ _ _ _ _ t); [done|done|done|by rewrite Hu, Hid|by intros [_ ?]|by left].
Qed.

Lemma done_script_writes t d :
  now (done_script t d).2 = now d ∧
  strings (done_script t d).2 !! task_key (task_id t) = Some (task_to_json t, Some (now d + TASK_DONE_TTL)) ∧
  ∀ id, id ≠ task_id t → strings (done_script t d).2 !! task_key id = strings d !! task_key id.
Proof. destruct (done_script_effects t d) as (E1 & E2 & _ & _ & _ & E6). done. Qed.

Lemma failed_script_writes t d :
  now (failed_script t d).2 = now d ∧
  strings (failed_script t d).2 !! task_key (task_id t) = Some (task_to_json t, Some (now d + TASK_FAILED_TTL)) ∧
  ∀ id, id ≠ task_id t → strings (failed_script t d).2 !! task_key id = strings d !! task_key id.
Proof. destruct (failed_script_effects t d) as (E1 & E2 & _ & _ & _ & E6). done. Qed.

Lemma evolving_mark_done mark id tx n w :
  store_inv (db w) → evolving None mark (Store.mark_done id tx n) w.
Proof.
  intros Hi. unfold Store.mark_done. apply evolving_get; [done|intros; by apply evolving_same|].
  intros t w' _ Hs. apply evolving_bind; [|intros; by apply evolving_same].
  apply (evolving_settle mark id (done_task tx n) done_script TASK_DONE_TTL); try done.
  apply done_script_writes.
Qed.

Lemma evolving_mark_failed mark id p msg w :
  store_inv (db w) → evolving None mark (Store.mark_failed id p msg) w.
Proof.
  intros Hi. unfold Store.mark_failed. apply evolving_get; [done|intros; by apply evolving_same|].
  intros t w' _ Hs. apply evolving_bind; [|intros; by apply evolving_same].
  apply (evolving_settle mark id (failed_task p msg) failed_script TASK_FAILED_TTL); try done.
  apply failed_script_writes.
Qed.

Lemma evolving_transient mark id msg w :
  store_inv (db w) → evolving None mark (record_transient_failure id msg) w.
Proof.
  intros Hi. unfold record_transient_failure. apply evolving_get; [done|intros; by apply evolving_same|].
  intros t w' _ Hs. destruct (is_terminal (status t)) eqn:Hterm; [by apply evolving_same|].
  assert (Hp : status t = Pending) by (by destruct (status t)).
  assert (Hid : task_id (retried_task msg t) = task_id t) by (unfold retried_task; by case_match).
  assert (Ha : admitted (retried_task msg t) = admitted t) by (unfold retried_task; by case_match).
  destruct (Z.leb_spec 10 (retries (retried_task msg t))) as [Hn|Hn];
    (apply evolving_bind; [|intros; by apply evolving_same]).
  - apply (evolving_settle mark id (retried_task msg) failed_script TASK_FAILED_TTL); try done.
    + by destruct (retried_failed msg t Hn) as (-> & _).
    + apply failed_script_writes.
  - apply evolving_query. destruct (stored_record _ _ _ Hs) as [Hr Hid'].
    eapply (evolves_put _ _ _ (retried_task msg t) None t).
    + done.
    + apply lookup_insert_eq.
    + intros i Hi'. apply lookup_insert_ne. by intros ?%task_key_inj.
    + by rewrite Hid, Hid'.
    + intros [Ha' _]. left. by rewrite Ha in Ha'.
    + right. rewrite Hid, Hid'. by eapply stored_unresolved.
Qed.

Lemma evolving_mark_admitted id w :
  store_inv (db w) → evolving None (Some id) (mark_admitted id) w.
Proof.
  intros Hi. unfold mark_admitted. apply evolving_get; [done|intros; by apply evolving_same|].
  intros t w' _ Hs. destruct (is_terminal (status t)) eqn:Hterm; [by apply evolving_same|].
  assert (Hp : status t = Pending) by (by destruct (status t)).
  apply evolving_bind; [|intros [] ? _; apply evolving_same; [done|apply get_task_db]].
  apply evolving_query. destruct (stored_record _ _ _ Hs) as [[e He] Hid].
  unfold cas_script. rewrite bool_decide_eq_true_2 by apply Hs. cbn [snd].
  eapply (evolves_put _ _ _ (set_admitted true t) _ t).
  - done.
  - cbn [task_id set_admitted]. rewrite Hid. apply lookup_insert_eq.
  - intros i Hi'. apply lookup_insert_ne. intros E%task_key_inj. apply Hi'. by rewrite <-E, <-Hid.
  - cbn [task_id set_admitted]. rewrite Hid. by exists e.
  - right. cbn [task_id set_admitted]. by rewrite Hid.
  - right. cbn [task_id set_admitted]. rewrite Hid. by eapply stored_unresolved.
Qed.

(** Commands on keys that are not tasks'. *)
Lemma evolving_other {A} own mark (command : Redis → A * Redis) w :
  frame (db w) (command (db w)).2 → evolving own mark (query command) w.
Proof. intros (Hs & _ & _ & Hn). apply evolving_query. by apply evolves_frame. Qed.

Lemma evolving_increment own mark k w :
  (∀ id, k ≠ task_key id) → (∀ h, k ≠ content_active_key h) →
  evolving own mark (increment_minute k) w.
Proof.
  intros H1 H2. unfold increment_minute.
  apply evolving_bind; [apply evolving_other; by apply frame_incr|]. intros n w' _.
  destruct (n =? 1); [|by apply evolving_same].
  apply evolving_bind; [|intros; by apply evolving_same]. apply evolving_other. by apply frame_pexpire.
Qed.

Lemma evolving_rate {A} own mark k (f : Z → A) w :
  (∀ id, k ≠ task_key id) → (∀ h, k ≠ content_active_key h) →
  evolving own mark (st_bind (increment_minute k) (λ n, st_ret (f n))) w.
Proof.
  intros H1 H2. apply evolving_bind; [by apply evolving_increment|]. intros; by apply evolving_same.
Qed.

Lemma evolving_find own mark k w : evolving own mark (find_by_index k) w.
Proof.
  unfold find_by_index. apply evolving_bind; [apply evolving_same, read_db|].
  intros [id|] w' _; apply evolving_same; [apply get_task_db|done].
Qed.

Lemma evolving_record_digest own mark dg id ttl w :
  evolving own mark (record_retry_digest dg id ttl) w.
Proof.
  apply evolving_other. apply (frame_string (retry_digest_key dg)); try by intros ? [=].
  intros. by apply lookup_insert_ne.
Qed.

Lemma evolving_stats own mark w : evolving own mark queue_stats w.
Proof.
  unfold queue_stats.
  repeat (apply evolving_bind; [first [apply evolving_same, read_db | by apply evolving_same]|intros ? ? _]).
  by apply evolving_same.
Qed.

(** The script's reply, parsed. *)
Lemma admit_task_spec task w :
  db (admit_task task w).2 = db (query (admit_script task) w).2 ∧
  ∀ id, (admit_task task w).1 = Ok (ANew id) →
    redis_get (content_active_key (content_hash task)) (db w) = None.
Proof.
  unfold admit_task, st_bind. destruct (query (admit_script task) w) as [[s|e] w'] eqn:Hq; [|done].
  apply query_ok in Hq. unfold admit_script in Hq.
  destruct (redis_get (content_active_key (content_hash task)) (db w)) as [x|]; injection Hq as <- _; done.
Qed.

Lemma evolving_admit mark task w :
  strings (db w) !! task_key (task_id task) = None → admitted task = false →
  evolving (Some (task_id task)) mark (admit_task task) w.
Proof.
  intros Hf Ha. unfold evolving. rewrite (proj1 (admit_task_spec task w)).
  by apply evolving_query, evolves_admit.
Qed.

(** What the answers of the calls that return a task say. *)
Lemma get_task_found id w t :
  (get_task id w).1 = Ok (Some t) → store_inv (db w) → stored (db (get_task id w).2) id t.
Proof.
  intros Hg Hi. destruct (get_task id w) as [r w'] eqn:E. simpl in Hg. subst r.
  destruct (get_task_exact _ _ _ _ E Hi) as [Hd Hs]. simpl. by rewrite Hd.
Qed.

Lemma find_found k w t :
  (find_by_index k w).1 = Ok (Some t) → store_inv (db w) →
  stored (db (find_by_index k w).2) (task_id t) t.
Proof.
  unfold find_by_index, st_bind. destruct (query _ w) as [[[id|]|e] w1] eqn:Hq; [|done..].
  intros Hg Hi. assert (Hd : db w1 = db w) by (apply query_ok in Hq; by injection Hq).
  rewrite <-Hd in Hi. pose proof (get_task_found _ _ _ Hg Hi) as Hs. by rewrite (proj2 Hs).
Qed.

Lemma mark_admitted_found id w t :
  (mark_admitted id w).1 = Ok (Some t) → store_inv (db w) → stored (db (mark_admitted id w).2) id t.
Proof.
  unfold mark_admitted. unfold st_bind at 1 3. destruct (get_task id w) as [[[b|]|e] w1] eqn:Hg; [|done..].
  intros Hm Hi. destruct (get_task_exact _ _ _ _ Hg Hi) as [Hd Hs]. rewrite <-Hd in Hi, Hs.
  destruct (is_terminal (status b)); [by injection Hm as <-|].
  unfold st_bind in *. destruct (query _ w1) as [[[]|e] w2] eqn:Hq; [| |done].
  - injection Hm as <-. cbn [snd st_ret]. apply query_ok in Hq. unfold cas_script in Hq.
    rewrite bool_decide_eq_true_2 in Hq by apply Hs. injection Hq as Hq. rewrite <-Hq.
    split; [|apply Hs]. apply redis_get_some. pose proof (proj1 Hs) as (e & He & Hx)%redis_get_some.
    exists e. unfold redis_set_keep. cbn [strings with_strings now]. rewrite lookup_insert_eq, He, Hx. done.
  - assert (Hd2 : db w2 = db w1).
    { apply query_ok in Hq. unfold cas_script in Hq. case_bool_decide; [done|]. by injection Hq. }
    apply get_task_found; [done|by rewrite Hd2].
Qed.

Lemma admit_new_present task w id :
  (admit_task task w).1 = Ok (ANew id) → present (db (admit_task task w).2) (task_id task).
Proof.
  intros Hr. destruct (admit_task_spec task w) as [-> Hg]. specialize (Hg id Hr).
  destruct (admit_script_new task (db w) Hg) as (Ht & _).
  unfold admit_task, st_bind in Hr. destruct (query (admit_script task) w) as [[s|e] w'] eqn:Hq; [|done].
  apply query_ok in Hq. rewrite Hq in Ht. by eexists.
Qed.
End records.
