(* ===== verification/SqlStore.v ===== *)
(** * The Durable Object's store ([p256-index-cf/src/submitter.rs])

    The Cloudflare shell keeps in one SQLite database what the Docker shell
    keeps in Redis and on the queue: the task records, the content index, the
    key placeholders, the FIFO queue, the counters and the ledger.  Tables
    are maps by primary key, the queue table the list of its rows in [seq]
    order.  A statement may fail, and then changes nothing; the object runs
    statements between two awaits without interleaving.  [s_purged] records
    the ids whose expired rows were deleted; no statement reads it. *)
From Stdlib Require Import Ascii String Strings.Byte.
From S2P Require Export Store Shell Rescue.
From stdpp Require Import options.

Record TaskRow := mkTaskRow {
  r_payload : string;
  r_status : string;
  r_admitted : bool;
  r_content_hash : string;
  r_created_at : Z;
  r_active : bool;
  r_expires_at : option Z;
}.

Record LedgerRowSql := mkLedgerRowSql {
  lr_hash : string;
  lr_sent_at : Z;
  lr_attempts : Z;
  lr_max_fee : option string;
  lr_max_priority : option string;
}.

Record Sql := mkSql {
  s_tasks : gmap string TaskRow;
  s_content : gmap string (string * option Z);
  s_keys : gmap string (string * option Z);
  s_digests : gmap string (string * option Z);
  s_queue : list (Z * string);
  s_seq : Z;
  s_dlq : gset string;
  s_rates : gmap string (Z * Z);
  s_ledger : gmap (string * Z) LedgerRowSql;
  s_alerts : gmap string Z;
  s_meta : gmap string Z;
  s_now : Z;
  s_purged : gset string;
}.

Definition on_tasks (f : gmap string TaskRow → gmap string TaskRow) (d : Sql) : Sql :=
  mkSql (f (s_tasks d)) (s_content d) (s_keys d) (s_digests d) (s_queue d) (s_seq d) (s_dlq d)
    (s_rates d) (s_ledger d) (s_alerts d) (s_meta d) (s_now d) (s_purged d).
Definition on_content (f : gmap string (string * option Z) → gmap string (string * option Z))
    (d : Sql) : Sql :=
  mkSql (s_tasks d) (f (s_content d)) (s_keys d) (s_digests d) (s_queue d) (s_seq d) (s_dlq d)
    (s_rates d) (s_ledger d) (s_alerts d) (s_meta d) (s_now d) (s_purged d).
Definition on_keys (f : gmap string (string * option Z) → gmap string (string * option Z))
    (d : Sql) : Sql :=
  mkSql (s_tasks d) (s_content d) (f (s_keys d)) (s_digests d) (s_queue d) (s_seq d) (s_dlq d)
    (s_rates d) (s_ledger d) (s_alerts d) (s_meta d) (s_now d) (s_purged d).
Definition on_digests (f : gmap string (string * option Z) → gmap string (string * option Z))
    (d : Sql) : Sql :=
  mkSql (s_tasks d) (s_content d) (s_keys d) (f (s_digests d)) (s_queue d) (s_seq d) (s_dlq d)
    (s_rates d) (s_ledger d) (s_alerts d) (s_meta d) (s_now d) (s_purged d).
Definition on_dlq (f : gset string → gset string) (d : Sql) : Sql :=
  mkSql (s_tasks d) (s_content d) (s_keys d) (s_digests d) (s_queue d) (s_seq d) (f (s_dlq d))
    (s_rates d) (s_ledger d) (s_alerts d) (s_meta d) (s_now d) (s_purged d).
Definition on_rates (f : gmap string (Z * Z) → gmap string (Z * Z)) (d : Sql) : Sql :=
  mkSql (s_tasks d) (s_content d) (s_keys d) (s_digests d) (s_queue d) (s_seq d) (s_dlq d)
    (f (s_rates d)) (s_ledger d) (s_alerts d) (s_meta d) (s_now d) (s_purged d).
Definition on_ledger (f : gmap (string * Z) LedgerRowSql → gmap (string * Z) LedgerRowSql)
    (d : Sql) : Sql :=
  mkSql (s_tasks d) (s_content d) (s_keys d) (s_digests d) (s_queue d) (s_seq d) (s_dlq d)
    (s_rates d) (f (s_ledger d)) (s_alerts d) (s_meta d) (s_now d) (s_purged d).
Definition on_alerts (f : gmap string Z → gmap string Z) (d : Sql) : Sql :=
  mkSql (s_tasks d) (s_content d) (s_keys d) (s_digests d) (s_queue d) (s_seq d) (s_dlq d)
    (s_rates d) (s_ledger d) (f (s_alerts d)) (s_meta d) (s_now d) (s_purged d).
Definition on_meta (f : gmap string Z → gmap string Z) (d : Sql) : Sql :=
  mkSql (s_tasks d) (s_content d) (s_keys d) (s_digests d) (s_queue d) (s_seq d) (s_dlq d)
    (s_rates d) (s_ledger d) (s_alerts d) (f (s_meta d)) (s_now d) (s_purged d).
Definition on_queue (f : list (Z * string) → list (Z * string)) (d : Sql) : Sql :=
  mkSql (s_tasks d) (s_content d) (s_keys d) (s_digests d) (f (s_queue d)) (s_seq d) (s_dlq d)
    (s_rates d) (s_ledger d) (s_alerts d) (s_meta d) (s_now d) (s_purged d).

(** [INSERT INTO queue]: the next [seq]. *)
Definition push_queue (id : string) (d : Sql) : Sql :=
  mkSql (s_tasks d) (s_content d) (s_keys d) (s_digests d) (s_queue d ++ [(s_seq d + 1, id)])
    (s_seq d + 1) (s_dlq d) (s_rates d) (s_ledger d) (s_alerts d) (s_meta d) (s_now d) (s_purged d).

(** [DELETE FROM tasks WHERE expires_at IS NOT NULL AND expires_at <= now] *)
Definition purge_tasks (d : Sql) : Sql :=
  mkSql (filter (λ kv, expired (s_now d) (r_expires_at kv.2) = false) (s_tasks d))
    (s_content d) (s_keys d) (s_digests d) (s_queue d) (s_seq d) (s_dlq d)
    (s_rates d) (s_ledger d) (s_alerts d) (s_meta d) (s_now d)
    (s_purged d ∪ dom (filter (λ kv, expired (s_now d) (r_expires_at kv.2) = true) (s_tasks d))).
Definition sql_tick (ms : Z) (d : Sql) : Sql :=
  mkSql (s_tasks d) (s_content d) (s_keys d) (s_digests d) (s_queue d) (s_seq d) (s_dlq d)
    (s_rates d) (s_ledger d) (s_alerts d) (s_meta d) (s_now d + ms) (s_purged d).

(** ** Statements *)

(** The database and which of the coming statements fail. *)
Record SqlWorld := mkSqlWorld { sql : Sql; outages : list bool }.

Definition Dm (A : Type) : Type := SqlWorld → result A string * SqlWorld.
Definition dm_ret {A} (a : A) : Dm A := λ w, (Ok a, w).
Definition dm_bind {A B} (m : Dm A) (f : A → Dm B) : Dm B :=
  λ w, match m w with (Ok a, w') => f a w' | (Err e, w') => (Err e, w') end.
Definition dm_now : Dm Z := λ w, (Ok (s_now (sql w)), w).

Notation "'sq' x := m 'in' k" := (dm_bind m (λ x, k))
  (at level 10, x name, m at level 100, k at level 200) : rust_scope.

(** [self.sql().exec(..)?] *)
Definition statement {A} (f : Sql → A * Sql) : Dm A :=
  λ w, match outages w with
       | true :: o => (Err "SQL statement failed", mkSqlWorld (sql w) o)
       | false :: o => let '(a, d) := f (sql w) in (Ok a, mkSqlWorld d o)
       | [] => let '(a, d) := f (sql w) in (Ok a, mkSqlWorld d [])
       end.
Definition update_ (f : Sql → Sql) : Dm () := statement (λ d, (tt, f d)).
Definition select {A} (f : Sql → A) : Dm A := statement (λ d, (f d, d)).

(** A row of an index that has not expired. *)
Definition live_row (at_ : Z) (row : option (string * option Z)) : option string :=
  match row with
  | Some (id, e) => if expired at_ e then None else Some id
  | None => None
  end.

Definition TASK_DONE_TTL_MS : Z := 7 * 24 * 60 * 60 * 1000.
Definition TASK_FAILED_TTL_MS : Z := 30 * 24 * 60 * 60 * 1000.

Section sqlstore.
Context `{K : StoreCodec}.

(** [now] is read before the statement runs, with the same clock. *)
Definition task_row (id : string) (d : Sql) : option string :=
  match s_tasks d !! id with
  | Some r => if expired (s_now d) (r_expires_at r) then None else Some (r_payload r)
  | None => None
  end.

Definition sq_get_task (id : string) : Dm (option RegisterTask) :=
  sq rows := select (task_row id) in
  dm_ret (rows ≫= task_of_json).

Definition sq_find (table : Sql → gmap string (string * option Z)) (value : string)
    : Dm (option RegisterTask) :=
  sq rows := select (λ d, live_row (s_now d) (table d !! value)) in
  match rows with Some id => sq_get_task id | None => dm_ret None end.

Definition sq_find_by_content (content_hash : string) : Dm (option RegisterTask) :=
  sq_find s_content (to_ascii_lowercase content_hash).
Definition sq_find_by_public_key (public_key : string) : Dm (option RegisterTask) :=
  sq_find s_keys (to_ascii_lowercase public_key).
Definition sq_find_by_retry_digest (digest : string) : Dm (option RegisterTask) :=
  sq_find s_digests (to_ascii_lowercase digest).

Definition sq_record_retry_digest (digest task_id : string) (ttl_secs : Z) : Dm () :=
  sq now := dm_now in
  update_ (on_digests (<[to_ascii_lowercase digest := (task_id, Some (now + ttl_secs * 1000))]>)).

Definition cf_placeholders (task : RegisterTask) : list string :=
  (to_ascii_lowercase ∘ public_key <$> members task) ++ [to_ascii_lowercase (group_public_key task)].

(** [INSERT OR IGNORE]: the first claim stays. *)
Definition claim_key (id key : string) (m : gmap string (string * option Z)) :
    gmap string (string * option Z) :=
  match m !! key with Some _ => m | None => <[key := (id, None)]> m end.

Fixpoint claim_keys (id : string) (keys : list string) : Dm () :=
  match keys with
  | [] => dm_ret tt
  | key :: keys => sq u := update_ (on_keys (claim_key id key)) in claim_keys id keys
  end.

Definition sq_admit (task : RegisterTask) : Dm StoreAdmission :=
  sq existing := sq_find_by_content (content_hash task) in
  match existing with
  | Some existing => dm_ret (AExisting (task_id existing))
  | None =>
      sq u := update_ (on_tasks (<[task_id task := mkTaskRow (task_to_json task) "pending" false
        (to_ascii_lowercase (content_hash task)) (created_at task) true None]>)) in
      sq u := update_ (on_content (<[to_ascii_lowercase (content_hash task) := (task_id task, None)]>)) in
      sq u := claim_keys (task_id task) (cf_placeholders task) in
      dm_ret (ANew (task_id task))
  end.

Definition sq_enqueue (task : RegisterTask) : Dm () := update_ (push_queue (task_id task)).

(** [UPDATE tasks SET .. WHERE id = ?] *)
Definition update_task (id : string) (f : TaskRow → TaskRow) : Dm () :=
  update_ (on_tasks (alter f id)).

Definition with_payload (payload : string) (r : TaskRow) : TaskRow :=
  mkTaskRow payload (r_status r) (r_admitted r) (r_content_hash r) (r_created_at r) (r_active r)
    (r_expires_at r).
Definition with_admitted (payload : string) (r : TaskRow) : TaskRow :=
  mkTaskRow payload (r_status r) true (r_content_hash r) (r_created_at r) (r_active r)
    (r_expires_at r).
Definition with_terminal (payload status : string) (expires_at : Z) (r : TaskRow) : TaskRow :=
  mkTaskRow payload status true (r_content_hash r) (r_created_at r) false (Some expires_at).

Definition sq_mark_admitted (id : string) : Dm (option RegisterTask) :=
  sq before := sq_get_task id in
  match before with
  | None => dm_ret None
  | Some before =>
      if is_terminal (status before) then dm_ret (Some before) else
      let task := set_admitted true before in
      sq u := update_task id (with_admitted (task_to_json task)) in
      dm_ret (Some task)
  end.

(** [UPDATE .. SET expires_at = ? WHERE task_id = ?], [DELETE .. WHERE task_id = ?] *)
Definition expire_rows (id : string) (at_ : Z) (m : gmap string (string * option Z)) :
    gmap string (string * option Z) :=
  (λ row : string * option Z, if bool_decide (row.1 = id) then (row.1, Some at_) else row) <$> m.
Definition delete_rows (id : string) (m : gmap string (string * option Z)) :
    gmap string (string * option Z) :=
  filter (λ kv, kv.2.1 ≠ id) m.

Definition sq_transition_terminal (task : RegisterTask) (ttl_ms : Z) (failed : bool) : Dm () :=
  sq now := dm_now in
  let expires_at := now + ttl_ms in
  sq u := update_task (task_id task)
    (with_terminal (task_to_json task) (if failed then "failed" else "done") expires_at) in
  if failed then
    sq u := update_ (on_content (delete_rows (task_id task))) in
    sq u := update_ (on_keys (delete_rows (task_id task))) in
    update_ (on_dlq (λ s, {[task_id task]} ∪ s))
  else
    sq u := update_ (on_content (expire_rows (task_id task) expires_at)) in
    update_ (on_keys (expire_rows (task_id task) expires_at)).

Definition sq_mark_done (id : string) (tx : option string) (on_chain : option Z)
    : Dm (option RegisterTask) :=
  sq found := sq_get_task id in
  match found with
  | None => dm_ret None
  | Some task =>
      let task := done_task tx on_chain task in
      sq u := sq_transition_terminal task TASK_DONE_TTL_MS false in dm_ret (Some task)
  end.

Definition sq_record_transient_failure (id message : string) : Dm (option RegisterTask) :=
  sq found := sq_get_task id in
  match found with
  | None => dm_ret None
  | Some task =>
      if is_terminal (status task) then dm_ret (Some task) else
      let task := retried_task message task in
      if 10 <=? retries task then
        sq u := sq_transition_terminal task TASK_FAILED_TTL_MS true in dm_ret (Some task)
      else
        sq u := update_task id (with_payload (task_to_json task)) in dm_ret (Some task)
  end.

Definition sq_mark_failed (id prefix message : string) : Dm (option RegisterTask) :=
  sq found := sq_get_task id in
  match found with
  | None => dm_ret None
  | Some task =>
      let task := failed_task prefix message task in
      sq u := sq_transition_terminal task TASK_FAILED_TTL_MS true in dm_ret (Some task)
  end.

(** [count( * )] and [min(created_at)] over the active rows. *)
Definition active_rows (d : Sql) : list TaskRow :=
  filter (λ r, r_active r = true) ((map_to_list (s_tasks d)).*2).

Definition sq_queue_stats : Dm QueueStats :=
  sq depth := select (λ d, Z.of_nat (length (active_rows d))) in
  sq dlq := select (λ d, Z.of_nat (size (s_dlq d))) in
  sq oldest := select (λ d, foldr (λ r acc, Some (match acc with
    | Some a => Z.min (r_created_at r) a | None => r_created_at r end)) None (active_rows d)) in
  sq now := dm_now in
  dm_ret (mkQueueStats depth dlq (default 0 ((λ created, sat_sub now created) <$> oldest))).

Definition sq_queue_len : Dm Z := select (λ d, Z.of_nat (length (s_queue d))).
Definition sq_poll_batch (limit : nat) : Dm (list (Z * string)) := select (λ d, take limit (s_queue d)).

Fixpoint sq_delete_batch (batch : list (Z * string)) : Dm () :=
  match batch with
  | [] => dm_ret tt
  | envelope :: batch =>
      sq u := update_ (on_queue (filter (λ row, row.1 ≠ envelope.1))) in sq_delete_batch batch
  end.

(** The upsert of the minute window. *)
Definition bump (key : string) (now : Z) (m : gmap string (Z * Z)) : Z * gmap string (Z * Z) :=
  match m !! key with
  | None => (1, <[key := (1, now + 60_000)]> m)
  | Some (count, window_end) =>
      let row := if window_end <=? now then (1, now + 60_000) else (count + 1, window_end) in
      (row.1, <[key := row]> m)
  end.
Definition sq_bump_minute_counter (key : string) : Dm Z :=
  sq now := dm_now in
  statement (λ d, let '(n, m) := bump key now (s_rates d) in (n, on_rates (λ _, m) d)).

(** [n as i64] of a [u64]. *)
Definition as_i64 (n : Z) : Z := if n <? 2 ^ 63 then n else n - 2 ^ 64.

Definition sq_record_pending_tx (role : string) (nonce : Z) (hash : string)
    (sent_at_ms attempts : Z) (fees : option (Z * Z)) : Dm () :=
  update_ (on_ledger (<[(role, as_i64 nonce) := mkLedgerRowSql hash sent_at_ms attempts
    ((λ f : Z * Z, fmt f.1) <$> fees) ((λ f : Z * Z, fmt f.2) <$> fees)]>)).
Definition sq_delete_pending_tx (role : string) (nonce : Z) : Dm () :=
  update_ (on_ledger (delete (role, as_i64 nonce))).

(** Rows first broadcast before [sent_before_ms], in the plan's vocabulary. *)
Definition sql_ledger_row (kv : (string * Z) * LedgerRowSql) : LedgerRow :=
  let '((role, nonce), row) := kv in
  mkLedgerRow role (Z.max nonce 0) (lr_hash row) (Z.max (lr_sent_at row) 0)
    (Z.max 0 (Z.min (lr_attempts row) U32_MAX))
    (f ← lr_max_fee row ≫= parse_u128; p ← lr_max_priority row ≫= parse_u128; Some (f, p)).
Definition sq_list_pending_txs (sent_before_ms : Z) : Dm (list LedgerRow) :=
  select (λ d, sql_ledger_row <$>
    filter (λ kv, lr_sent_at kv.2 < sent_before_ms) (map_to_list (s_ledger d))).

(** The alert log and the [meta] table. *)
Definition sq_alert_last_fired (kind : string) : Dm (option Z) :=
  select (λ d, Z.max 0 <$> s_alerts d !! kind).
Definition sq_alert_fired (kind : string) (now : Z) : Dm () := update_ (on_alerts (<[kind := now]>)).
Definition sq_meta_get (key : string) : Dm (option Z) := select (λ d, s_meta d !! key).
Definition sq_meta_set (key : string) (value : Z) : Dm () := update_ (on_meta (<[key := value]>)).
Definition sq_meta_get_or_insert (key : string) (value : Z) : Dm Z :=
  sq existing := sq_meta_get key in
  match existing with
  | Some existing => dm_ret existing
  | None => sq u := sq_meta_set key value in dm_ret value
  end.

(** [purge_expired], at the top of every request and alarm. *)
Definition purge_index (d : Sql) (m : gmap string (string * option Z)) :
    gmap string (string * option Z) :=
  filter (λ kv, expired (s_now d) kv.2.2 = false) m.
Definition sq_purge_expired : Dm () :=
  sq u := update_ purge_tasks in
  sq u := update_ (λ d, on_content (purge_index d) d) in
  sq u := update_ (λ d, on_keys (purge_index d) d) in
  sq u := update_ (λ d, on_digests (purge_index d) d) in
  update_ (λ d, on_rates (filter (λ kv, (kv.2.2 <=? s_now d) = false)) d).
End sqlstore.
