(* ===== verification/SqlFacts.v ===== *)
(** * What the Durable Object's store keeps

    The well-formedness of the tables, and what each store operation does to
    the records, the queue and the index, whichever of its statements fail. *)
From Stdlib Require Import Ascii String Strings.Byte Sorting.Sorted.
From S2P Require Export StoreInv StoreConcrete SqlStore.
From stdpp Require Import options.

Definition status_text (st : TaskStatus) : string :=
  match st with Pending => "pending" | Done => "done" | Failed => "failed" end.

(** ** Running a store operation *)

(** What holds of the answer and of the database after [m]. *)
Definition dwp {A} (m : Dm A) (w : SqlWorld) (Φ : result A string → Sql → Prop) : Prop :=
  Φ (m w).1 (sql (m w).2).

Lemma dwp_ret {A} (a : A) w Φ : Φ (Ok a) (sql w) → dwp (dm_ret a) w Φ.
Proof. done. Qed.

Lemma dwp_now w (Φ : result Z string → Sql → Prop) : Φ (Ok (s_now (sql w))) (sql w) → dwp dm_now w Φ.
Proof. done. Qed.

Lemma dwp_bind {A B} (m : Dm A) (f : A → Dm B) w Φ :
  dwp m w (λ r d, match r with Ok a => ∀ w', sql w' = d → dwp (f a) w' Φ | Err e => Φ (Err e) d end) →
  dwp (dm_bind m f) w Φ.
Proof.
  unfold dwp, dm_bind. destruct (m w) as [[a|e] w1]; cbn [fst snd]; intros H; [by apply H|exact H].
Qed.

Lemma dwp_mono {A} (m : Dm A) w (Φ Ψ : result A string → Sql → Prop) :
  dwp m w Φ → (∀ r d, Φ r d → Ψ r d) → dwp m w Ψ.
Proof. unfold dwp. auto. Qed.

(** A statement that fails changes nothing. *)
Lemma dwp_statement {A} (f : Sql → A * Sql) w (Φ : result A string → Sql → Prop) :
  (∀ e, Φ (Err e) (sql w)) → Φ (Ok (f (sql w)).1) (f (sql w)).2 → dwp (statement f) w Φ.
Proof.
  unfold dwp, statement. intros He Ho.
  destruct (f (sql w)) as [a d]. destruct (outages w) as [|[] o]; [exact Ho|apply He|exact Ho].
Qed.

Lemma dwp_update (f : Sql → Sql) w (Φ : result () string → Sql → Prop) :
  (∀ e, Φ (Err e) (sql w)) → Φ (Ok tt) (f (sql w)) → dwp (update_ f) w Φ.
Proof. intros. by apply dwp_statement. Qed.

Lemma dwp_select {A} (f : Sql → A) w (Φ : result A string → Sql → Prop) :
  (∀ e, Φ (Err e) (sql w)) → Φ (Ok (f (sql w))) (sql w) → dwp (select f) w Φ.
Proof. intros. by apply dwp_statement. Qed.

Section sqlfacts.
Context `{K : StoreCodec}.

(** ** Well-formed tables *)

(** A row of [tasks]: its columns agree with its payload, and only live
    tasks have no expiry. *)
Record row_for (id : string) (t : RegisterTask) (r : TaskRow) : Prop := {
  rf_payload : r_payload r = task_to_json t;
  rf_id : task_id t = id;
  rf_status : r_status r = status_text (status t);
  rf_active : r_active r = bool_decide (status t = Pending);
  rf_hash : r_content_hash r = to_ascii_lowercase (content_hash t);
  rf_created : r_created_at r = created_at t;
  rf_expiry : r_expires_at r = None ↔ status t = Pending;
  rf_admitted : admitted t = true → r_admitted r = true;
}.

Record sql_inv (d : Sql) : Prop := {
  qi_rows id r : s_tasks d !! id = Some r → ∃ t, row_for id t r;
  qi_queue : StronglySorted Z.lt (s_queue d).*1;
  qi_seq : Forall (λ n, n ≤ s_seq d) (s_queue d).*1;
  qi_rates : map_Forall (λ _ row, row.2 ≤ s_now d + 60_000) (s_rates d);
}.

#[export] Instance sql_view : TaskView Sql := {|
  v_get d id := task_row id d ≫= task_of_json;
  v_present d id := is_Some (s_tasks d !! id) ∨ id ∈ s_purged d;
  v_waiting d := (s_queue d).*2;
|}.

Lemma get_row d id r t :
  s_tasks d !! id = Some r → row_for id t r → expired (s_now d) (r_expires_at r) = false →
  v_get d id = Some t.
Proof.
  intros Hr Ht He. unfold v_get, sql_view, task_row. rewrite Hr, He, (rf_payload _ _ _ Ht). simpl.
  apply task_json_roundtrip.
Qed.

Lemma get_row_inv d id t :
  sql_inv d → v_get d id = Some t →
  ∃ r, s_tasks d !! id = Some r ∧ row_for id t r ∧ expired (s_now d) (r_expires_at r) = false.
Proof.
  intros Hi Hg. unfold v_get, sql_view, task_row in Hg. destruct (s_tasks d !! id) as [r|] eqn:Hr; [|done].
  destruct (expired _ _) eqn:He; [done|]. destruct (qi_rows _ Hi id r Hr) as [t' Ht]. simpl in Hg.
  rewrite (rf_payload _ _ _ Ht), task_json_roundtrip in Hg. injection Hg as ->. by exists r.
Qed.

Lemma get_present d id t : sql_inv d → v_get d id = Some t → v_present d id.
Proof. intros Hi (r & Hr & _)%get_row_inv; [|done]. left. by exists r. Qed.

Lemma get_id d id t : sql_inv d → v_get d id = Some t → task_id t = id.
Proof. intros Hi (r & _ & Hr & _)%get_row_inv; [|done]. apply Hr. Qed.

(** ** What a statement may do *)

(** The tables stay well formed and the records move as a request or the
    worker may move them. *)
Record kept (own mark : option string) (d d' : Sql) : Prop := {
  kp_inv : sql_inv d → sql_inv d';
  kp_moves : sql_inv d → moves own mark d d';
  kp_now : s_now d' = s_now d;
}.

Lemma kept_refl own mark d : kept own mark d d.
Proof. split; [done|intros; apply moves_refl|done]. Qed.

Lemma kept_trans own mark d1 d2 d3 : kept own mark d1 d2 → kept own mark d2 d3 → kept own mark d1 d3.
Proof.
  intros [A1 A2 A3] [B1 B2 B3]. split; [auto| |congruence].
  intros Hi. eapply moves_trans; [by apply A2|]. apply B2. auto.
Qed.

(** Records, queue, counters and clock untouched. *)
Definition quiet (d d' : Sql) : Prop :=
  s_tasks d' = s_tasks d ∧ s_queue d' = s_queue d ∧ s_seq d' = s_seq d ∧ s_now d' = s_now d ∧
  s_purged d' = s_purged d ∧ s_rates d' = s_rates d.

Lemma quiet_refl d : quiet d d.
Proof. done. Qed.

Lemma quiet_trans d1 d2 d3 : quiet d1 d2 → quiet d2 d3 → quiet d1 d3.
Proof. unfold quiet. intuition congruence. Qed.

Lemma quiet_get d d' id : quiet d d' → v_get d' id = v_get d id.
Proof. intros (Ht & _ & _ & Hn & _). unfold v_get, sql_view, task_row. by rewrite Ht, Hn. Qed.

Lemma quiet_kept own mark d d' : quiet d d' → kept own mark d d'.
Proof.
  intros Hq. pose proof Hq as (Ht & Hu & Hs & Hn & Hp & Hc). split; [| |done].
  - intros [H1 H2 H3 H4]. split; rewrite ?Ht, ?Hu, ?Hs, ?Hc, ?Hn; done.
  - intros _. apply moves_same.
    + intros id. by apply quiet_get.
    + intros id. unfold v_present, sql_view. by rewrite Ht, Hp.
    + unfold v_waiting, sql_view. by rewrite Hu.
Qed.

(** Counters rewritten. *)
Lemma rates_kept own mark d m :
  (sql_inv d → map_Forall (λ _ row, row.2 ≤ s_now d + 60_000) m) →
  kept own mark d (on_rates (λ _, m) d).
Proof.
  intros Hm. split; [| |done].
  - intros Hi. pose proof Hi as [H1 H2 H3 H4]. split; [exact H1|exact H2|exact H3|]. by apply Hm.
  - intros _. by apply moves_same.
Qed.

(** One row rewritten. *)
Lemma alter_kept mark d id f r t t' :
  s_tasks d !! id = Some r → row_for id t r → row_for id t' (f r) →
  (status t ≠ Pending → status t' ≠ Pending) →
  (awaiting t' → mark = Some id ∨ awaiting t) →
  (status t = Pending ∨ expired (s_now d) (r_expires_at r) = false) →
  kept None mark d (on_tasks (alter f id) d).
Proof.
  intros Hr Ht Ht' Hfin Haw Hlive.
  assert (Hg : v_get d id = Some t).
  { eapply get_row; [done|done|]. destruct Hlive as [Hl|Hl]; [|done]. by rewrite (proj2 (rf_expiry _ _ _ Ht) Hl). }
  assert (Hlook : ∀ i, i ≠ id → v_get (on_tasks (alter f id) d) i = v_get d i).
  { intros i Hi. unfold v_get, sql_view, task_row. cbn. by rewrite lookup_alter_ne. }
  assert (Hself : ∀ x, v_get (on_tasks (alter f id) d) id = Some x → x = t').
  { intros x. unfold v_get, sql_view, task_row. cbn. rewrite lookup_alter_eq, Hr. cbn.
    rewrite (rf_payload _ _ _ Ht'). case_match; [done|]. simpl. rewrite task_json_roundtrip. by intros [= ->]. }
  split; [| |done].
  - intros [H1 H2 H3 H4]. split; [|exact H2|exact H3|exact H4]. intros i ri. cbn.
    destruct (decide (i = id)) as [->|Hne]; [|rewrite lookup_alter_ne by done; apply H1].
    rewrite lookup_alter_eq, Hr. intros [= <-]. by exists t'.
  - intros Hi. split.
    + intros i [[x Hx]|?]; [left|by right]. cbn. destruct (decide (i = id)) as [->|Hne].
      * rewrite lookup_alter_eq, Hr. by eexists.
      * rewrite lookup_alter_ne by done. by eexists.
    + intros i _ [[x Hx]|?]; [left|by right]. cbn in Hx. destruct (decide (i = id)) as [->|Hne].
      * by eexists.
      * rewrite lookup_alter_ne in Hx by done. by eexists.
    + intros i _ Hf x Hx. destruct (decide (i = id)) as [->|Hne].
      * rewrite (Hself x Hx). by apply Hfin, Hf.
      * rewrite Hlook in Hx by done. by apply Hf.
    + intros i x Hx Ha. destruct (decide (i = id)) as [->|Hne].
      * rewrite (Hself x Hx) in Ha. destruct (Haw Ha) as [?|?]; [by left|right]. by exists t.
      * rewrite Hlook in Hx by done. right. by exists x.
    + done.
Qed.

(** A fresh record. *)
Lemma insert_kept mark d t r :
  ¬ v_present d (task_id t) → row_for (task_id t) t r → ¬ awaiting t →
  kept (Some (task_id t)) mark d (on_tasks (<[task_id t := r]>) d).
Proof.
  intros Hn Hr Ha. set (id := task_id t) in *.
  assert (Hlook : ∀ i, i ≠ id → v_get (on_tasks (<[id := r]>) d) i = v_get d i).
  { intros i Hi. unfold v_get, sql_view, task_row. cbn. by rewrite lookup_insert_ne. }
  split; [| |done].
  - intros [H1 H2 H3 H4]. split; [|exact H2|exact H3|exact H4]. intros i ri. cbn. intros [[<- <-]|[_ ?]]%lookup_insert_Some; eauto.
  - intros Hi. split.
    + intros i [[x Hx]|?]; [left|by right]. cbn. destruct (decide (i = id)) as [->|Hne].
      * rewrite lookup_insert_eq. by eexists.
      * rewrite lookup_insert_ne by done. by eexists.
    + intros i Hne [[x Hx]|?]; [left|by right]. cbn in Hx.
      rewrite lookup_insert_ne in Hx by congruence. by eexists.
    + intros i Hne Hf x. rewrite Hlook by congruence. apply Hf.
    + intros i x Hx Haw. destruct (decide (i = id)) as [->|Hne].
      * unfold v_get, sql_view, task_row in Hx. cbn in Hx. rewrite lookup_insert_eq in Hx.
        rewrite (rf_payload _ _ _ Hr) in Hx. case_match; [done|]. simpl in Hx.
        rewrite task_json_roundtrip in Hx. by injection Hx as <-.
      * rewrite Hlook in Hx by done. right. by exists x.
    + done.
Qed.

(** A row appended to the queue. *)
Lemma push_kept own mark d id : kept own mark d (push_queue id d).
Proof.
  split; [| |done].
  - intros [H1 H2 H3 H4]. split; [exact H1| | |exact H4]; cbn; rewrite fmap_app.
    + apply StronglySorted_app_2; [|done|by repeat constructor].
      intros n m Hn Hm%list_elem_of_singleton. rewrite Forall_forall in H3. specialize (H3 n Hn). cbn in Hm. lia.
    + apply Forall_app. split; [eapply Forall_impl; [done|]; cbn; lia|]. constructor; [done|constructor].
  - intros _. apply moves_same; [done..|]. unfold v_waiting, sql_view. cbn. rewrite fmap_app. by eexists.
Qed.

(** ** The operations *)

Lemma quiet_update own mark (f : Sql → Sql) w :
  (∀ d, quiet d (f d)) → dwp (update_ f) w (λ _ d, kept own mark (sql w) d).
Proof. intros Hf. apply dwp_update; [intros; apply kept_refl|by apply quiet_kept]. Qed.

Lemma get_task_same id w :
  dwp (sq_get_task id) w (λ r d, d = sql w ∧ ∀ o, r = Ok o → o = v_get (sql w) id).
Proof.
  unfold sq_get_task. apply dwp_bind, dwp_select; [done|]. intros w' <-. apply dwp_ret.
  split; [done|]. by intros o [= <-].
Qed.

Lemma find_same table value w :
  dwp (sq_find table value) w (λ r d, d = sql w ∧ ∀ t, r = Ok (Some t) → ∃ i, v_get (sql w) i = Some t).
Proof.
  unfold sq_find. apply dwp_bind, dwp_select; [done|]. intros w' <-.
  destruct (live_row _ _) as [i|]; [|by apply dwp_ret].
  eapply dwp_mono; [apply get_task_same|]. intros r d [-> Hr]. split; [done|].
  intros t ->. exists i. by rewrite <-(Hr _ eq_refl).
Qed.

(** A read of the record, then its continuation. *)
Lemma after_get {B} id (f : option RegisterTask → Dm B) w (Φ : result B string → Sql → Prop) :
  (∀ e, Φ (Err e) (sql w)) →
  (∀ w', sql w' = sql w → dwp (f (v_get (sql w) id)) w' Φ) →
  dwp (dm_bind (sq_get_task id) f) w Φ.
Proof.
  intros He Hf. apply dwp_bind. eapply dwp_mono; [apply get_task_same|].
  intros [o|e] d [-> Hr]; [|done]. intros w' Hw. rewrite (Hr o eq_refl). by apply Hf.
Qed.

Lemma claim_keys_quiet id keys w : dwp (claim_keys id keys) w (λ _ d, quiet (sql w) d).
Proof.
  revert w. induction keys as [|key keys IH]; intros w; [apply dwp_ret, quiet_refl|].
  cbn [claim_keys]. apply dwp_bind, dwp_update; [intros; apply quiet_refl|]. intros w' Hw.
  eapply dwp_mono; [apply IH|]. intros r d Hd. eapply quiet_trans; [|exact Hd]. by rewrite Hw.
Qed.

Definition fresh_row (task : RegisterTask) : TaskRow :=
  mkTaskRow (task_to_json task) "pending" false (to_ascii_lowercase (content_hash task))
    (created_at task) true None.

Lemma fresh_row_for task :
  status task = Pending → admitted task = false → row_for (task_id task) task (fresh_row task).
Proof. intros Hs Ha. split; cbn; rewrite ?Hs, ?Ha; done. Qed.

Lemma admit_kept mark task w :
  status task = Pending → admitted task = false → ¬ v_present (sql w) (task_id task) →
  dwp (sq_admit task) w (λ r d, kept (Some (task_id task)) mark (sql w) d ∧
    v_waiting d = v_waiting (sql w) ∧ ∀ i, r = Ok (ANew i) → v_present d (task_id task)).
Proof.
  intros Hs Ha Hn. unfold sq_admit, sq_find_by_content. apply dwp_bind.
  eapply dwp_mono; [apply find_same|]. intros [[t|]|e] d [-> _].
  - intros w' Hw. apply dwp_ret. rewrite Hw. split_and!; [apply kept_refl|done|by intros i [=]].
  - intros w1 H1. apply dwp_bind, dwp_update;
      [intros e; rewrite H1; split_and!; [apply kept_refl|done|by intros i [=]]|].
    rewrite H1. set (d1 := on_tasks _ (sql w)). intros w2 H2.
    assert (Hk : kept (Some (task_id task)) mark (sql w) d1).
    { apply insert_kept; [done|by apply fresh_row_for|]. unfold awaiting. rewrite Ha. by intros [??]. }
    assert (Hfin : ∀ d', quiet d1 d' → kept (Some (task_id task)) mark (sql w) d' ∧
      v_waiting d' = v_waiting (sql w) ∧ v_present d' (task_id task)).
    { intros d' Hd. split; [eapply kept_trans; [exact Hk|by apply quiet_kept]|].
      destruct Hd as (Ht & Hu & _). split; [unfold v_waiting, sql_view; by rewrite Hu|]. left. rewrite Ht. subst d1. cbn. rewrite lookup_insert_eq. by eexists. }
    apply dwp_bind, dwp_update; [intros e; rewrite H2; split_and!; [apply Hfin, quiet_refl|done|by intros i [=]]|].
    rewrite H2. intros w3 H3. apply dwp_bind. eapply dwp_mono; [apply claim_keys_quiet|].
    intros r d Hd. cbn beta in Hd. rewrite H3 in Hd. destruct (Hfin d Hd) as (Hd1 & Hd2 & Hd3).
    destruct r as [[]|e]; [|by split_and!]. intros w4 H4. apply dwp_ret. rewrite H4. split_and!; [done..|].
    by intros i [= <-].
  - split_and!; [apply kept_refl|done|by intros i [=]].
Qed.

Lemma enqueue_kept own mark task w :
  dwp (sq_enqueue task) w (λ r d, kept own mark (sql w) d ∧
    v_waiting d = v_waiting (sql w) ++ (if r is Ok _ then [task_id task] else [])).
Proof.
  apply dwp_update; [intros; split; [apply kept_refl|by rewrite app_nil_r]|].
  split; [apply push_kept|]. unfold v_waiting, sql_view. cbn. by rewrite fmap_app.
Qed.

Lemma mark_admitted_kept id w :
  sql_inv (sql w) →
  dwp (sq_mark_admitted id) w (λ r d, kept None (Some id) (sql w) d ∧ v_waiting d = v_waiting (sql w) ∧
    ∀ t, r = Ok (Some t) → v_get d (task_id t) = Some t ∧ task_id t = id).
Proof.
  intros Hi. unfold sq_mark_admitted. apply after_get; [intros; split; [apply kept_refl|done]|].
  intros w1 H1. destruct (v_get (sql w) id) as [t|] eqn:Hg;
    [|apply dwp_ret; rewrite H1; split; [apply kept_refl|done]].
  pose proof (get_id _ _ _ Hi Hg) as Hid.
  destruct (get_row_inv _ _ _ Hi Hg) as (r & Hr & Hrow & Hlive).
  destruct (is_terminal (status t)) eqn:Ht.
  - apply dwp_ret. rewrite H1. split; [apply kept_refl|]. split; [done|].
    intros t' [= <-]. by rewrite Hid.
  - assert (Hp : status t = Pending) by (by destruct (status t)).
    unfold update_task. apply dwp_bind, dwp_update; [intros e; rewrite H1; split; [apply kept_refl|done]|].
    rewrite H1. intros w2 H2. apply dwp_ret. rewrite H2.
    assert (Hrow' : row_for id (set_admitted true t) (with_admitted (task_to_json (set_admitted true t)) r)).
    { destruct Hrow. split; try done. }
    split; [|split; [done|]].
    + eapply alter_kept; [exact Hr|exact Hrow|exact Hrow'|done|by left|by left].
    + intros t' [= <-]. rewrite (Hid : task_id (set_admitted true t) = id). split; [|done].
      eapply get_row; [|exact Hrow'|]; cbn; [by rewrite lookup_alter_eq, Hr|exact Hlive].
Qed.

(** A terminal transition of the task just read. *)
Lemma transition_kept t t' ttl_ms (failed : bool) w r :
  s_tasks (sql w) !! task_id t' = Some r → row_for (task_id t') t r →
  expired (s_now (sql w)) (r_expires_at r) = false →
  status t' = (if failed then Failed else Done) →
  content_hash t' = content_hash t → created_at t' = created_at t →
  dwp (sq_transition_terminal t' ttl_ms failed) w (λ r d, kept None None (sql w) d ∧
    v_waiting d = v_waiting (sql w) ∧ (∀ u, r = Ok u → finished d (task_id t'))).
Proof.
  intros Hr Hrow Hlive Hs Hc Hcr. unfold sq_transition_terminal, update_task.
  apply dwp_bind, dwp_now. intros w0 H0.
  apply dwp_bind, dwp_update; [intros e; rewrite H0; split; [apply kept_refl|done]|].
  rewrite H0. set (d1 := on_tasks _ (sql w)). intros w1 H1.
  assert (Hrow' : ∀ at_, row_for (task_id t') t'
    (with_terminal (task_to_json t') (if failed then "failed" else "done") at_ r)).
  { intros at_. destruct Hrow. split; cbn; rewrite ?Hc, ?Hcr, ?Hs; try done; by destruct failed. }
  assert (Hk : kept None None (sql w) d1).
  { eapply alter_kept; [exact Hr|exact Hrow|apply Hrow'|..].
    - intros _. rewrite Hs. by destruct failed.
    - unfold awaiting. rewrite Hs. by destruct failed; intros [_ ?].
    - by right. }
  assert (Hf : finished d1 (task_id t')).
  { intros x. unfold v_get, sql_view, task_row. subst d1. cbn. rewrite lookup_alter_eq, Hr. cbn.
    destruct (_ <=? _); simpl; [by intros [=]|]. rewrite task_json_roundtrip. intros [= <-]. rewrite Hs. by destruct failed. }
  assert (Hfin : ∀ d', quiet d1 d' → kept None None (sql w) d' ∧ v_waiting d' = v_waiting (sql w) ∧
    finished d' (task_id t')).
  { intros d' Hd. split; [eapply kept_trans; [exact Hk|by apply quiet_kept]|]. split.
    - destruct Hd as (_ & Hq & _). unfold v_waiting, sql_view. by rewrite Hq.
    - intros x. rewrite (quiet_get d1 d'); [apply Hf|done]. }
  assert (Hend : ∀ d' (r : result () string), quiet d1 d' → kept None None (sql w) d' ∧
    v_waiting d' = v_waiting (sql w) ∧ ∀ u, r = Ok u → finished d' (task_id t')).
  { intros d' r' Hd. destruct (Hfin d' Hd) as (? & ? & ?). auto. }
  destruct failed.
  - apply dwp_bind, dwp_update; [intros e; apply Hend; by rewrite H1|]. intros w2 H2.
    apply dwp_bind, dwp_update; [intros e; apply Hend; by rewrite H2, H1|]. intros w3 H3.
    apply dwp_update; [intros e|]; apply Hend; by rewrite H3, H2, H1.
  - apply dwp_bind, dwp_update; [intros e; apply Hend; by rewrite H1|]. intros w2 H2.
    apply dwp_update; [intros e|]; apply Hend; by rewrite H2, H1.
Qed.

Lemma mark_done_kept id tx on_chain w :
  sql_inv (sql w) →
  dwp (sq_mark_done id tx on_chain) w (λ r d, kept None None (sql w) d ∧
    v_waiting d = v_waiting (sql w) ∧ (∀ o, r = Ok o → finished d id)).
Proof.
  intros Hi. apply after_get; [intros; split; [apply kept_refl|done]|]. intros w1 H1.
  destruct (v_get (sql w) id) as [t|] eqn:Hg.
  - destruct (get_row_inv _ _ _ Hi Hg) as (r & Hr & Hrow & Hlive). pose proof (get_id _ _ _ Hi Hg) as <-.
    rewrite <-H1 in *. generalize TASK_DONE_TTL_MS; intros ttl. apply dwp_bind. eapply dwp_mono.
    + by apply (transition_kept t (done_task tx on_chain t) ttl false w1 r).
    + intros [u|e] d (H2 & H3 & H4); [|by split]. intros w2 <-. apply dwp_ret.
      split_and!; [done..|]. intros _ _. by apply (H4 u).
  - apply dwp_ret. rewrite H1. split_and!; [apply kept_refl|done|]. intros o _ t. by rewrite Hg.
Qed.

Lemma mark_failed_kept id prefix message w :
  sql_inv (sql w) →
  dwp (sq_mark_failed id prefix message) w (λ r d, kept None None (sql w) d ∧
    v_waiting d = v_waiting (sql w) ∧ (∀ o, r = Ok o → finished d id)).
Proof.
  intros Hi. apply after_get; [intros; split; [apply kept_refl|done]|]. intros w1 H1.
  destruct (v_get (sql w) id) as [t|] eqn:Hg.
  - destruct (get_row_inv _ _ _ Hi Hg) as (r & Hr & Hrow & Hlive). pose proof (get_id _ _ _ Hi Hg) as <-.
    rewrite <-H1 in *. generalize TASK_FAILED_TTL_MS; intros ttl. apply dwp_bind. eapply dwp_mono.
    + by apply (transition_kept t (failed_task prefix message t) ttl true w1 r).
    + intros [u|e] d (H2 & H3 & H4); [|by split]. intros w2 <-. apply dwp_ret.
      split_and!; [done..|]. intros _ _. by apply (H4 u).
  - apply dwp_ret. rewrite H1. split_and!; [apply kept_refl|done|]. intros o _ t. by rewrite Hg.
Qed.

Lemma retried_same message t :
  task_id (retried_task message t) = task_id t ∧
  content_hash (retried_task message t) = content_hash t ∧
  created_at (retried_task message t) = created_at t ∧
  admitted (retried_task message t) = admitted t.
Proof. unfold retried_task. by case_match. Qed.

Lemma transient_kept id message w :
  sql_inv (sql w) →
  dwp (sq_record_transient_failure id message) w (λ r d, kept None None (sql w) d ∧
    v_waiting d = v_waiting (sql w)).
Proof.
  intros Hi. apply after_get; [intros; split; [apply kept_refl|done]|]. intros w1 H1.
  destruct (v_get (sql w) id) as [t|] eqn:Hg; [|apply dwp_ret; rewrite H1; split; [apply kept_refl|done]].
  destruct (get_row_inv _ _ _ Hi Hg) as (r & Hr & Hrow & Hlive). pose proof (get_id _ _ _ Hi Hg) as <-.
  rewrite <-H1 in *. destruct (retried_same message t) as (E1 & E2 & E3 & E4).
  destruct (is_terminal (status t)) eqn:Ht; [apply dwp_ret; split; [apply kept_refl|done]|].
  assert (Hp : status t = Pending) by (by destruct (status t)).
  cbv zeta. generalize TASK_FAILED_TTL_MS; intros ttl. destruct (Z.leb_spec 10 (retries (retried_task message t))) as [Hn|Hn].
  - apply dwp_bind. eapply dwp_mono.
    + apply (transition_kept t (retried_task message t) ttl true w1 r); rewrite ?E1; try done.
      by apply retried_failed.
    + intros [u|e] d (H2 & H3 & H4); [|by split]. intros w2 <-. by apply dwp_ret.
  - destruct (retried_pending message t Hp Hn) as (Hs & _ & _).
    apply dwp_bind, dwp_update; [intros; split; [apply kept_refl|done]|].
    intros w2 H2. apply dwp_ret. rewrite H2. split; [|done].
    apply (alter_kept None _ _ _ r t (retried_task message t)); [exact Hr|exact Hrow| |done| |by left].
    + rewrite Hp in *. destruct Hrow as [F1 F2 F3 F4 F5 F6 F7 F8]. rewrite Hp in *.
      split; cbn; rewrite ?E1, ?E2, ?E3, ?E4, ?Hs; done.
    + intros [Ha' _]. right. split; [congruence|done].
Qed.

Lemma record_digest_kept own mark dg id ttl w :
  dwp (sq_record_retry_digest dg id ttl) w (λ _ d, kept own mark (sql w) d ∧ v_waiting d = v_waiting (sql w)).
Proof.
  apply dwp_bind, dwp_now. intros w' Hw. rewrite <-Hw.
  apply dwp_update; [intros; split; [apply kept_refl|done]|]. split; [by apply quiet_kept|done].
Qed.

(** No window ends later than a minute from now. *)
Lemma bump_window key now m :
  map_Forall (λ _ row, row.2 ≤ now + 60_000) m →
  map_Forall (λ _ row, row.2 ≤ now + 60_000) (bump key now m).2.
Proof.
  intros Hm. unfold bump. destruct (m !! key) as [[n e]|] eqn:Hk; cbn [snd]; apply map_Forall_insert_2; try done.
  specialize (Hm key _ Hk). cbn in Hm. destruct (e <=? now); cbn; lia.
Qed.

Lemma bump_kept own mark key w :
  dwp (sq_bump_minute_counter key) w (λ _ d, kept own mark (sql w) d ∧ v_waiting d = v_waiting (sql w)).
Proof.
  apply dwp_bind, dwp_now. intros w' Hw. rewrite <-Hw.
  apply dwp_statement; [intros; split; [apply kept_refl|done]|].
  pose proof (bump_window key (s_now (sql w)) (s_rates (sql w'))) as Hb. rewrite <-Hw in Hb.
  destruct (bump _ _ _) as [n m]. cbn [fst snd] in *. split; [|done]. apply rates_kept.
  intros Hi. apply Hb, Hi.
Qed.

Lemma stats_same w : dwp sq_queue_stats w (λ _ d, d = sql w).
Proof.
  unfold sq_queue_stats. apply dwp_bind, dwp_select; [done|]. intros w1 H1.
  apply dwp_bind, dwp_select; [done|]. intros w2 H2. apply dwp_bind, dwp_select; [by rewrite H2|]. intros w3 H3.
  apply dwp_bind, dwp_now. intros w4 H4. apply dwp_ret. congruence.
Qed.

(** ** Expiry *)

Lemma purge_row d id r :
  s_tasks (purge_tasks d) !! id = Some r ↔
    s_tasks d !! id = Some r ∧ expired (s_now d) (r_expires_at r) = false.
Proof. cbn. by rewrite map_lookup_filter_Some. Qed.

(** An expired record already reads as none. *)
Lemma purge_get d id : v_get (purge_tasks d) id = v_get d id.
Proof.
  unfold v_get, sql_view. f_equal. unfold task_row.
  destruct (s_tasks (purge_tasks d) !! id) as [r|] eqn:Hr.
  - by apply purge_row in Hr as [-> _].
  - destruct (s_tasks d !! id) as [r|] eqn:Hd; [|done].
    destruct (expired (s_now d) (r_expires_at r)) eqn:He; [done|].
    rewrite (proj2 (purge_row d id r)) in Hr; done.
Qed.

Lemma purge_tasks_kept own mark d : kept own mark d (purge_tasks d).
Proof.
  split; [| |done].
  - intros [H1 H2 H3 H4]. split; [|exact H2|exact H3|exact H4].
    intros id r [Hr _]%purge_row. by apply H1.
  - intros _. apply moves_same; [intros id; apply purge_get| |done].
    intros id. unfold v_present, sql_view. cbn [purge_tasks s_purged]. rewrite elem_of_union, elem_of_dom. split.
    + intros [[r [Hr _]%purge_row]|[?|[r [Hr _]%map_lookup_filter_Some]]]; [left; by eexists|by right|left; by eexists].
    + intros [[r Hr]|?]; [|right; by left]. destruct (expired (s_now d) (r_expires_at r)) eqn:He.
      * right; right. exists r. by apply map_lookup_filter_Some.
      * left. exists r. by apply purge_row.
Qed.

Lemma purge_kept own mark w :
  dwp sq_purge_expired w (λ _ d, kept own mark (sql w) d ∧ v_waiting d = v_waiting (sql w)).
Proof.
  assert (Hstep : ∀ f (m : Dm ()) w, (∀ d, kept own mark d (f d) ∧ v_waiting (f d) = v_waiting d) →
    (∀ w, dwp m w (λ _ d, kept own mark (sql w) d ∧ v_waiting d = v_waiting (sql w))) →
    dwp (dm_bind (update_ f) (λ _, m)) w (λ _ d, kept own mark (sql w) d ∧ v_waiting d = v_waiting (sql w))).
  { intros f m w0 Hf Hm. apply dwp_bind, dwp_update; [intros; split; [apply kept_refl|done]|].
    intros w1 H1. eapply dwp_mono; [apply Hm|]. intros r d [Hk Hq]. rewrite H1 in *.
    destruct (Hf (sql w0)) as [Hk0 Hq0]. split; [by eapply kept_trans|congruence]. }
  assert (Hq : ∀ d d', quiet d d' → kept own mark d d' ∧ v_waiting d' = v_waiting d).
  { intros d d' Hd. split; [by apply quiet_kept|]. destruct Hd as (_ & Hu & _).
    unfold v_waiting, sql_view. by rewrite Hu. }
  unfold sq_purge_expired. apply Hstep; [intros d; split; [apply purge_tasks_kept|done]|]. clear w. intros w.
  apply Hstep; [intros d; by apply Hq|]. clear w. intros w.
  apply Hstep; [intros d; by apply Hq|]. clear w. intros w.
  apply Hstep; [intros d; by apply Hq|]. clear w. intros w.
  apply dwp_update; [intros; split; [apply kept_refl|done]|]. split; [|done].
  apply rates_kept. intros Hi k row [Hr _]%map_lookup_filter_Some. by apply (qi_rates _ Hi k row).
Qed.

(** No live record changes. *)
Lemma purge_same w :
  dwp sq_purge_expired w (λ _ d, (∀ id, v_get d id = v_get (sql w) id) ∧ s_queue d = s_queue (sql w)).
Proof.
  assert (Hstep : ∀ f (m : Dm ()) w,
    (∀ d, (∀ id, v_get (f d) id = v_get d id) ∧ s_queue (f d) = s_queue d) →
    (∀ w, dwp m w (λ _ d, (∀ id, v_get d id = v_get (sql w) id) ∧ s_queue d = s_queue (sql w))) →
    dwp (dm_bind (update_ f) (λ _, m)) w
      (λ _ d, (∀ id, v_get d id = v_get (sql w) id) ∧ s_queue d = s_queue (sql w))).
  { intros f m w0 Hf Hm. apply dwp_bind, dwp_update; [done|]. intros w1 H1. eapply dwp_mono; [apply Hm|].
    intros r d [Hg Hq]. rewrite H1 in *. destruct (Hf (sql w0)) as [Hg0 Hq0].
    split; [|congruence]. intros id. by rewrite Hg, Hg0. }
  unfold sq_purge_expired. apply Hstep; [intros d; split; [apply purge_get|done]|]. clear w. intros w.
  do 3 (apply Hstep; [done|]; clear w; intros w). by apply dwp_update.
Qed.

Lemma tick_moves own mark ms d :
  0 ≤ ms → sql_inv d → sql_inv (sql_tick ms d) ∧ moves own mark d (sql_tick ms d).
Proof.
  intros Hms Hi. assert (Hg : ∀ id t, v_get (sql_tick ms d) id = Some t → v_get d id = Some t).
  { intros id t. unfold v_get, sql_view, task_row. cbn. destruct (s_tasks d !! id) as [r|]; [|done].
    assert (He : expired (s_now d + ms) (r_expires_at r) = false → expired (s_now d) (r_expires_at r) = false).
    { destruct (r_expires_at r) as [e|]; [|done]. cbn. rewrite !Z.leb_gt. lia. }
    destruct (expired (s_now d + ms) _); [done|]. by rewrite He. }
  split.
  - destruct Hi as [H1 H2 H3 H4]. split; [exact H1|exact H2|exact H3|].
    intros k row Hk. specialize (H4 k row Hk). cbn in *. lia.
  - split; [done|done| | |done].
    + intros id _ Hf t Ht%Hg. by apply Hf.
    + intros id t Ht%Hg Ha. right. by exists t.
Qed.

(** ** Consuming a polled batch *)

Lemma drop_first seq id (q : list (Z * string)) :
  StronglySorted Z.lt ((seq, id) :: q).*1 → filter (λ row, row.1 ≠ seq) ((seq, id) :: q) = q.
Proof.
  intros Hs. rewrite filter_cons_False by (cbn; by intros []).
  inversion Hs as [|? ? _ Hall]; subst. clear Hs. rewrite Forall_forall in Hall.
  induction q as [|row q IH]; [done|]. cbn in Hall. rewrite filter_cons_True.
  - f_equal. apply IH. intros n Hn. apply Hall. by right.
  - specialize (Hall row.1 ltac:(by left)). lia.
Qed.

Lemma on_queue_drop n m d : on_queue (drop n) (on_queue (drop m) d) = on_queue (drop (m + n)) d.
Proof. unfold on_queue. cbn. by rewrite drop_drop. Qed.

Lemma consume_inv n d : sql_inv d → sql_inv (on_queue (drop n) d).
Proof.
  intros [H1 H2 H3 H4]. split; [exact H1| | |exact H4]; cbn; rewrite fmap_drop.
  - rewrite <-(take_drop n (s_queue d).*1) in H2. by apply StronglySorted_app in H2 as (_ & _ & ?).
  - by apply Forall_drop.
Qed.

(** What it removes is the oldest rows, all of the batch unless a statement
    fails. *)
Lemma delete_batch_drops batch w :
  sql_inv (sql w) → batch `prefix_of` s_queue (sql w) →
  dwp (sq_delete_batch batch) w (λ r d, ∃ n, (n ≤ length batch)%nat ∧
    d = on_queue (drop n) (sql w) ∧ (r = Ok tt → n = length batch)).
Proof.
  assert (H0 : ∀ d, d = on_queue (drop 0) d) by by intros [].
  revert w. induction batch as [|[seq id] batch IH]; intros w Hi Hp.
  - apply dwp_ret. exists O. split_and!; [done|apply H0|done].
  - destruct Hp as [rest Hq]. cbn [sq_delete_batch].
    apply dwp_bind, dwp_update.
    { intros e. exists O. split_and!; [lia|apply H0|done]. }
    assert (Hf : on_queue (filter (λ row, row.1 ≠ seq)) (sql w) = on_queue (drop 1) (sql w)).
    { unfold on_queue. f_equal. rewrite Hq. cbn [app]. cbn [drop]. apply drop_first.
      pose proof (qi_queue _ Hi) as Hs. by rewrite Hq in Hs. }
    cbn [fst]. rewrite Hf. intros w1 H1.
    eapply dwp_mono; [apply IH|].
    + rewrite H1. by apply consume_inv.
    + rewrite H1. cbn. rewrite Hq. by eexists.
    + intros r d (n & Hn & -> & Hr). exists (S n). rewrite H1, on_queue_drop.
      split_and!; [cbn; lia|done|]. intros ->. cbn. f_equal. by apply Hr.
Qed.

(** ** The counts *)

Lemma active_row id t r : row_for id t r → r_active r = true ↔ status t = Pending.
Proof. intros H. rewrite (rf_active _ _ _ H). apply bool_decide_eq_true. Qed.

(** The active rows are the live tasks. *)
Lemma active_ids d id :
  sql_inv d →
  id ∈ (filter (λ kv, r_active kv.2 = true) (map_to_list (s_tasks d))).*1 ↔
  ∃ t, v_get d id = Some t ∧ status t = Pending.
Proof.
  intros Hi. rewrite list_elem_of_fmap. split.
  - intros ([i r] & -> & [Ha Hr]%list_elem_of_filter). apply elem_of_map_to_list in Hr.
    destruct (qi_rows _ Hi i r Hr) as [t Ht]. apply (active_row _ _ _ Ht) in Ha. exists t. split; [|done].
    eapply get_row; [done|done|]. by rewrite (proj2 (rf_expiry _ _ _ Ht) Ha).
  - intros (t & Hg & Hp). destruct (get_row_inv _ _ _ Hi Hg) as (r & Hr & Ht & _).
    exists (id, r). split; [done|]. apply list_elem_of_filter.
    split; [by apply (active_row _ _ _ Ht)|by apply elem_of_map_to_list].
Qed.

Lemma active_rows_keys d :
  length (active_rows d) = length (filter (λ kv, r_active kv.2 = true) (map_to_list (s_tasks d))).*1.
Proof.
  unfold active_rows. rewrite length_fmap. induction (map_to_list (s_tasks d)) as [|[k r] l IH]; [done|].
  rewrite fmap_cons, !filter_cons. cbn. case_decide; cbn; by rewrite IH.
Qed.

Lemma oldest_bound (l : list TaskRow) r :
  r ∈ l → ∃ a, foldr (λ r acc, Some (match acc with
    | Some a => Z.min (r_created_at r) a | None => r_created_at r end)) None l = Some a ∧ a ≤ r_created_at r.
Proof.
  induction l as [|x l IH]; [set_solver|]. cbn [foldr]. intros [->|Hin]%elem_of_cons; eexists; (split; [done|]).
  - case_match; lia.
  - destruct (IH Hin) as (a & -> & Ha). lia.
Qed.

(** The depth and age the Cloudflare shell reports (to [/stats], and to
    the busy gate of admission) are exact: the depth is the number of live
    tasks, the second count the dead letters, and no live task is older than
    the age reported. *)
Theorem sq_stats_exact w stats w' ids :
  sql_inv (sql w) → sq_queue_stats w = (Ok stats, w') → NoDup ids →
  (∀ id, id ∈ ids ↔ ∃ t, v_get (sql w) id = Some t ∧ status t = Pending) →
  q_depth stats = Z.of_nat (length ids) ∧ q_dlq_count stats = Z.of_nat (size (s_dlq (sql w))) ∧
  ∀ id t, v_get (sql w) id = Some t → status t = Pending →
    s_now (sql w) - created_at t ≤ q_oldest_active_age_ms stats.
Proof.
  intros Hi Hs Hnd Hids.
  assert (Hr : ∃ f, stats = mkQueueStats (Z.of_nat (length (active_rows (sql w))))
      (Z.of_nat (size (s_dlq (sql w)))) (default 0 ((λ created, sat_sub (s_now (sql w)) created) <$> f)) ∧
      f = foldr (λ r acc, Some (match acc with
        | Some a => Z.min (r_created_at r) a | None => r_created_at r end)) None (active_rows (sql w))).
  { assert (H : dwp sq_queue_stats w (λ r _, ∀ stats, r = Ok stats → stats = mkQueueStats
      (Z.of_nat (length (active_rows (sql w)))) (Z.of_nat (size (s_dlq (sql w))))
      (default 0 ((λ created, sat_sub (s_now (sql w)) created) <$> foldr (λ r acc, Some (match acc with
        | Some a => Z.min (r_created_at r) a | None => r_created_at r end)) None (active_rows (sql w)))))).
    { unfold sq_queue_stats. apply dwp_bind, dwp_select; [done|]. intros w1 H1.
      apply dwp_bind, dwp_select; [done|]. intros w2 H2. apply dwp_bind, dwp_select; [done|]. intros w3 H3.
      apply dwp_bind, dwp_now. intros w4 H4. apply dwp_ret. rewrite H3, H2, H1. by intros ? [= <-]. }
    unfold dwp in H. rewrite Hs in H. eexists. split; [by apply H|done]. }
  destruct Hr as (f & -> & ->). cbn [q_depth q_dlq_count q_oldest_active_age_ms]. split_and!; [|done|].
  - f_equal. rewrite active_rows_keys. apply Permutation_length, NoDup_Permutation; [|done|].
    + eapply sublist_NoDup; [apply (NoDup_fst_map_to_list (s_tasks (sql w)))|].
      apply fmap_sublist, sublist_filter.
    + intros id. by rewrite active_ids, Hids.
  - intros id t Hg Hp. destruct (get_row_inv _ _ _ Hi Hg) as (r & Hr & Ht & _).
    destruct (oldest_bound (active_rows (sql w)) r) as (a & -> & Ha).
    + apply list_elem_of_filter. split; [by apply (active_row _ _ _ Ht)|].
      apply list_elem_of_fmap. exists (id, r). split; [done|by apply elem_of_map_to_list].
    + cbn. rewrite (rf_created _ _ _ Ht) in Ha. unfold sat_sub. lia.
Qed.
End sqlfacts.

(** ** Evaluation on examples *)
Section sql_examples.
#[local] Existing Instance concrete_crates.
#[local] Existing Instance concrete_codec.

Definition empty_sql : Sql := mkSql ∅ ∅ ∅ ∅ [] 0 ∅ ∅ ∅ ∅ ∅ 1_000 ∅.

Lemma empty_sql_inv : sql_inv empty_sql.
Proof. split; cbn; [done|constructor|constructor|apply map_Forall_empty]. Qed.

Definition one_task : SqlWorld := (sq_admit sample_task (mkSqlWorld empty_sql [])).2.

Lemma one_task_inv : sql_inv (sql one_task).
Proof.
  destruct (admit_kept None sample_task (mkSqlWorld empty_sql [])) as ([Hk _ _] & _); [done|done| |].
  - intros [[r Hr]|Hp]; cbn in *; set_solver.
  - apply Hk, empty_sql_inv.
Qed.

Lemma one_task_rows : s_tasks (sql one_task) = {["t1" := fresh_row sample_task]}.
Proof. vm_compute. reflexivity. Qed.

Lemma sq_stats_exact_witness :
  ∃ stats, (sq_queue_stats one_task).1 = Ok stats ∧
    q_depth stats = Z.of_nat (length ["t1"]) ∧ q_dlq_count stats = Z.of_nat (size (s_dlq (sql one_task))) ∧
    ∀ id t, v_get (sql one_task) id = Some t → status t = Pending →
      s_now (sql one_task) - created_at t ≤ q_oldest_active_age_ms stats.
Proof.
  destruct (sq_queue_stats one_task) as [r w'] eqn:Hs.
  assert (Hr : ∃ stats, r = Ok stats).
  { change r with (r, w').1. rewrite <-Hs. eexists. vm_compute. reflexivity. }
  destruct Hr as [stats ->]. exists stats. split; [done|].
  apply (sq_stats_exact one_task stats w' ["t1"] one_task_inv Hs).
  - apply NoDup_singleton.
  - intros id. rewrite list_elem_of_singleton. split.
    + intros ->. exists sample_task. split; [|done].
      apply (get_row _ _ (fresh_row sample_task)); [|exact (fresh_row_for sample_task eq_refl eq_refl)|done].
      rewrite one_task_rows. apply lookup_singleton_eq.
    + intros (t & (r & Hr & _)%(get_row_inv _ _ _ one_task_inv) & _). rewrite one_task_rows in Hr.
      by apply lookup_singleton_Some in Hr as [].
Defined.
End sql_examples.
