(* ===== verification/Submitter.v ===== *)
(** * The Durable Object ([p256-index-cf/src/submitter.rs])

    One object per deployment is the whole write path of the Cloudflare
    shell: its requests run the admission core and its alarm runs the
    submission core, both on the SQLite store of [SqlStore]; the chain client
    is an interface of arbitrary behaviour, as for the Docker worker.  The
    cron pass ([/maintain]) is [CfMaintenance]. *)
From Stdlib Require Import Ascii String Strings.Byte.
From S2P Require Export SqlStore Worker.
From stdpp Require Import options.

Definition POLL_BATCH_SIZE : nat := 50.
Definition GAS_WAIT_MS : Z := 15_000.
Definition MAX_BATCH_BACKOFF_SECS : Z := 60.

(** What the object asks of its chain client besides the worker's calls. *)
Class DoChain (N : Type) := {
  do_fee_plan : N → result FeeVerdict ChainError * N;
  do_unit_by_group_key : bytes → N → result (option Unit) ChainError * N;
}.

(** [CfConfig] and the client made from it, as far as the object reads them. *)
Record Deployment := mkDeployment {
  dp_global_write_limit : Z;
  dp_has_signer : bool;
  dp_domain_registry_address : string;
}.

(** [SubmitterDo]: the database, the alarm, and what an eviction resets. *)
Record SubmitterDo (N : Type) := mkSubmitter {
  do_sql : SqlWorld;
  do_alarm : option Z;
  do_failures : Z;
  do_nonce : option Z;
  do_chain : N;
}.
Arguments mkSubmitter {N} _ _ _ _ _.
Arguments do_sql {N} _.
Arguments do_alarm {N} _.
Arguments do_failures {N} _.
Arguments do_nonce {N} _.
Arguments do_chain {N} _.

Section submitter.
Context `{C : Crates, K : StoreCodec} {N : Type} `{W : ChainClient N, D : DoChain N}.
(** [CfConfig::from_env] and [Chain::new]. *)
Context (env : result Deployment string).

Abbreviation X := (SubmitterDo N).

Definition Do (A : Type) : Type := X → A * X.
Definition do_ret {A} (a : A) : Do A := λ s, (a, s).
Definition do_bind {A B} (m : Do A) (f : A → Do B) : Do B := λ s, let '(a, s) := m s in f a s.
(** A [?]. *)
Definition do_try {A B} (m : Do (result A string)) (f : A → Do (result B string))
    : Do (result B string) :=
  do_bind m (λ r, match r with Ok a => f a | Err e => do_ret (Err e) end).

Definition on_sql {A} (m : Dm A) : Do (result A string) :=
  λ s, let '(r, w) := m (do_sql s) in
       (r, mkSubmitter w (do_alarm s) (do_failures s) (do_nonce s) (do_chain s)).
Definition ask {A} (m : N → A * N) : Do A :=
  λ s, let '(r, c) := m (do_chain s) in
       (r, mkSubmitter (do_sql s) (do_alarm s) (do_failures s) (do_nonce s) c).
Definition put_nonce (n : option Z) : Do () :=
  λ s, (tt, mkSubmitter (do_sql s) (do_alarm s) (do_failures s) n (do_chain s)).
Definition put_failures (n : Z) : Do () :=
  λ s, (tt, mkSubmitter (do_sql s) (do_alarm s) n (do_nonce s) (do_chain s)).
Definition get_failures : Do Z := λ s, (do_failures s, s).

#[local] Notation "'let*' x := m 'in' k" := (do_bind m (λ x, k))
  (at level 10, x name, m at level 100, k at level 200).
#[local] Notation "'try*' x := m 'in' k" := (do_try m (λ x, k))
  (at level 10, x name, m at level 100, k at level 200).

(** The storage's alarm slot; its calls fail as statements do. *)
Definition alarm_io {A} (f : option Z → A * option Z) : Do (result A string) :=
  λ s, match outages (do_sql s) with
       | true :: o => (Err "storage unavailable", mkSubmitter (mkSqlWorld (sql (do_sql s)) o)
           (do_alarm s) (do_failures s) (do_nonce s) (do_chain s))
       | o => let '(a, slot) := f (do_alarm s) in
           (Ok a, mkSubmitter (mkSqlWorld (sql (do_sql s)) (tail o)) slot (do_failures s)
              (do_nonce s) (do_chain s))
       end.
Definition get_alarm : Do (result (option Z) string) := alarm_io (λ slot, (slot, slot)).
Definition schedule (delay_ms : Z) : Do (result () string) :=
  λ s, alarm_io (λ _, (tt, Some (s_now (sql (do_sql s)) + delay_ms))) s.

Definition ensure_alarm : Do (result () string) :=
  try* armed := get_alarm in
  match armed with None => schedule 0 | Some _ => do_ret (Ok tt) end.

Definition get_chain : Do (result Deployment string) := do_ret env.

(** [CREATE TABLE IF NOT EXISTS] of tables that exist. *)
Definition bootstrap : Do (result () string) := on_sql (update_ (λ d, d)).

(** ** Admission *)

Definition sql_answer {A} (f : A → AdmissionResult) (r : result A string) : AdmissionResult :=
  match r with Ok a => f a | Err _ => Admission.StoreUnavailable end.
Definition chain_answer {A} (f : A → bool) (r : result A ChainError) : AdmissionResult :=
  match r with Ok a => ChainBool (f a) | Err _ => Admission.ChainReadFailed end.

Definition execute_admission (limit : Z) (ip_hash : string) (operation : AdmissionOperation)
    : Do AdmissionResult :=
  match operation with
  | AllowIpCreate =>
      let* r := on_sql (sq_bump_minute_counter ("create:" +:+ ip_hash)) in
      do_ret (sql_answer (λ count, Allowed (count <=? 5)) r)
  | FindTaskByContent content_hash =>
      let* r := on_sql (sq_find_by_content content_hash) in do_ret (sql_answer TaskFound r)
  | FindTaskByRetryDigest digest =>
      let* r := on_sql (sq_find_by_retry_digest digest) in do_ret (sql_answer TaskFound r)
  | RecordRetryDigest digest task_id =>
      let* r := on_sql (sq_record_retry_digest digest task_id RETRY_COALESCE_TTL_SECS) in
      do_ret (sql_answer (λ _, Admission.Persisted) r)
  | Admission.CheckContentRegistered content_hash =>
      match parse_b256 content_hash with
      | Err _ => do_ret Admission.ChainReadFailed
      | Ok h => let* r := ask (is_content_registered h) in do_ret (chain_answer id r)
      end
  | Admission.CheckReferenced group_public_key member_public_key =>
      match parse_hex_bytes group_public_key, parse_hex_bytes member_public_key with
      | Ok group, Ok member =>
          let* r := ask (is_referenced group member) in do_ret (chain_answer id r)
      | _, _ => do_ret Admission.ChainReadFailed
      end
  | CheckGroupExists group_public_key =>
      match parse_hex_bytes group_public_key with
      | Err _ => do_ret Admission.ChainReadFailed
      | Ok group =>
          let* r := ask (do_unit_by_group_key group) in
          do_ret (chain_answer (λ u : option Unit, bool_decide (is_Some u)) r)
      end
  | FindTaskByKey key_hash =>
      let* r := on_sql (sq_find_by_public_key key_hash) in do_ret (sql_answer TaskFound r)
  | QueueDepth =>
      let* r := on_sql sq_queue_stats in do_ret (sql_answer (λ stats, Depth (q_depth stats)) r)
  | AllowGlobalCreate =>
      let* r := on_sql (sq_bump_minute_counter "create:global") in
      do_ret (sql_answer (λ count, Allowed (count <=? limit)) r)
  | Admit task =>
      let* r := on_sql (sq_admit task) in
      do_ret (sql_answer (λ a, match a with ANew _ => AdmittedAs New
        | AExisting id => AdmittedAs (Existing id) end) r)
  | LoadTask id => let* r := on_sql (sq_get_task id) in do_ret (sql_answer TaskFound r)
  | Enqueue task =>
      let* r := on_sql (sq_enqueue task) in
      do_ret (match r with Ok _ => Enqueued | Err _ => QueueUnavailable end)
  | MarkAdmitted id => let* r := on_sql (sq_mark_admitted id) in do_ret (sql_answer TaskFound r)
  end.

(** The core's run, its operations executed in turn; [id] is the fresh uuid. *)
Definition run_admission (ip_hash id : string) (submitted : AdmissionRequest)
    : Do (result AdmissionOutcome string) :=
  try* deployment := get_chain in
  λ s, let '(s', _, m) := run (execute_admission (dp_global_write_limit deployment) ip_hash)
         (drive_admission submitted id (s_now (sql (do_sql s))) CHAIN_ID
            (dp_domain_registry_address deployment)) s in
       (Ok (settle m), s').

(** ** Submission *)

Definition do_acquire_nonce : Do (result Z ()) :=
  λ s, match do_nonce s with
       | Some nonce => (let* u := put_nonce (Some (sat_add U64_MAX nonce 1)) in do_ret (Ok nonce)) s
       | None =>
           (let* synced := ask pending_nonce in
            match synced with
            | Ok nonce => let* u := put_nonce (Some (sat_add U64_MAX nonce 1)) in do_ret (Ok nonce)
            | Err _ => do_ret (Err tt)
            end) s
       end.

(** The ledger writes' answers are ignored. *)
Definition do_submit (task : RegisterTask) : Do TxOutcome :=
  let* acquired := do_acquire_nonce in
  match acquired with
  | Err _ => do_ret NoncePoolUnavailable
  | Ok nonce =>
      let* sent := ask (chain_register task nonce) in
      match sent with
      | Ok b =>
          let* u := on_sql (sq now := dm_now in
            sq_record_pending_tx REGISTER_ROLE nonce (bc_hash b) now 0 (bc_fees_wei b)) in
          let* receipt := ask (wait_for_receipt (bc_hash b)) in
          match receipt with
          | Ok (Success on_chain_id) =>
              let* u := on_sql (sq_delete_pending_tx REGISTER_ROLE nonce) in
              do_ret (Confirmed (bc_hash b) on_chain_id)
          | Ok RReverted =>
              let* u := on_sql (sq_delete_pending_tx REGISTER_ROLE nonce) in
              let* u := put_nonce None in do_ret (TxReverted (bc_hash b))
          | Err error => let* u := put_nonce None in do_ret (ReceiptUncertain error)
          end
      | Err error => let* u := put_nonce None in do_ret (SendFailed error)
      end
  end.

Fixpoint sq_load_tasks (ids : list string) : Dm (list (option RegisterTask)) :=
  match ids with
  | [] => dm_ret []
  | id :: ids => sq task := sq_get_task id in sq tasks := sq_load_tasks ids in dm_ret (task :: tasks)
  end.

Definition execute_submission (operation : SubmissionOperation) : Do SubmissionResult :=
  match operation with
  | LoadTasks ids =>
      let* r := on_sql (sq_load_tasks ids) in
      do_ret (match r with Ok tasks => TasksLoaded tasks | Err _ => StoreUnavailable end)
  | CheckContentRegistered content_hash =>
      match parse_b256 content_hash with
      | Ok h => let* r := ask (is_content_registered h) in do_ret (content_checked r)
      | Err _ => do_ret ChainReadFailed
      end
  | CheckReferenced group_public_key member_public_key =>
      match parse_hex_bytes group_public_key, parse_hex_bytes member_public_key with
      | Ok group, Ok member =>
          let* r := ask (is_referenced group member) in do_ret (content_checked r)
      | _, _ => do_ret ChainReadFailed
      end
  | SubmitRegister task => let* o := do_submit task in do_ret (Tx o)
  | MarkDone task_id tx_hash on_chain_id =>
      let* r := on_sql (sq_mark_done task_id tx_hash on_chain_id) in do_ret (store_ack r)
  | MarkFailed task_id kind message =>
      let* r := on_sql (sq_mark_failed task_id (as_store_class kind) message) in do_ret (store_ack r)
  | RecordTransientFailure task_id message =>
      let* r := on_sql (sq_record_transient_failure task_id message) in do_ret (store_ack r)
  end.

Definition do_process_batch (envelope_ids : list string) : Do (result () string) :=
  λ s, let '(s', _, m) := run execute_submission (drive_batch envelope_ids) s in
       (match settle_batch m with
        | Some Advance => Ok tt
        | Some (Retry reason) => Err reason
        | None => Err "submission batch never settled"
        end, s').

(** ** The alarm *)

(** The text of the alarm's response. *)
Inductive AlarmReport :=
| NoSigner
| GasAboveCap
| QueueEmpty
| BatchAdvanced
| BatchRetry (backoff_secs : Z) (reason : string).

Definition alarm_batch (batch : list (Z * string)) : Do (result AlarmReport string) :=
  let* r := do_process_batch batch.*2 in
  match r with
  | Ok _ =>
      let* u := put_failures 0 in
      try* u := on_sql (sq_delete_batch batch) in
      try* len := on_sql sq_queue_len in
      try* u := (if 0 <? len then schedule 0 else do_ret (Ok tt)) in
      do_ret (Ok BatchAdvanced)
  | Err reason =>
      let* failures := get_failures in
      let failures := sat_add U32_MAX failures 1 in
      let* u := put_failures failures in
      let backoff := Z.min (backoff_delay failures) MAX_BATCH_BACKOFF_SECS in
      try* u := schedule (backoff * 1000) in
      do_ret (Ok (BatchRetry backoff reason))
  end.

Definition alarm : Do (result AlarmReport string) :=
  try* u := bootstrap in
  try* u := on_sql sq_purge_expired in
  try* deployment := get_chain in
  if negb (dp_has_signer deployment) then do_ret (Ok NoSigner) else
  let* fee := ask do_fee_plan in
  match fee with
  | Ok (TooExpensive _ _) => try* u := schedule GAS_WAIT_MS in do_ret (Ok GasAboveCap)
  | _ =>
      try* batch := on_sql (sq_poll_batch POLL_BATCH_SIZE) in
      match batch with
      | [] => do_ret (Ok QueueEmpty)
      | _ => alarm_batch batch
      end
  end.

(** ** Requests *)

Inductive DoRequest :=
| RAdmit (request : AdmissionRequest) (ip_hash : string)
| RTask (id : string)
| RFindByKey (key : string)
| RAllowRead (ip_hash : string)
| RStats
| RUnknown.

Inductive DoResponse :=
| Outcome (outcome : AdmissionOutcome)
| TaskBody (task : option RegisterTask)
| AllowedBody (allowed : bool)
| StatsBody (depth dlq oldest_job_age_ms : Z) (worker_stalled : bool)
| NotARoute.

Definition needs_alarm (outcome : AdmissionOutcome) : bool :=
  match outcome with Queued _ st => negb (is_terminal st) | _ => false end.

Definition fetch (id : string) (req : DoRequest) : Do (result DoResponse string) :=
  try* u := bootstrap in
  try* u := on_sql sq_purge_expired in
  match req with
  | RAdmit request ip_hash =>
      try* outcome := run_admission ip_hash id request in
      try* u := (if needs_alarm outcome then ensure_alarm else do_ret (Ok tt)) in
      do_ret (Ok (Outcome outcome))
  | RTask id => try* task := on_sql (sq_get_task id) in do_ret (Ok (TaskBody task))
  | RFindByKey key => try* task := on_sql (sq_find_by_public_key key) in do_ret (Ok (TaskBody task))
  | RAllowRead ip_hash =>
      try* n := on_sql (sq_bump_minute_counter ("read:" +:+ ip_hash)) in
      do_ret (Ok (AllowedBody (n <=? 120)))
  | RStats =>
      try* stats := on_sql sq_queue_stats in
      try* armed := get_alarm in
      try* deployment := get_chain in
      do_ret (Ok (StatsBody (q_depth stats) (q_dlq_count stats) (q_oldest_active_age_ms stats)
        (dp_has_signer deployment && (0 <? q_depth stats) && negb (bool_decide (is_Some armed)))))
  | RUnknown => do_ret (Ok NotARoute)
  end.
End submitter.
