(* ===== verification/SubmitterFacts.v ===== *)
(** * The Cloudflare shell as a whole ([p256-index-cf])

    The Durable Object's operations keep its tables well formed and are a
    [Shell], so what holds of any shell holds of this one; and what its alarm
    and its requests leave behind, whichever statements fail. *)
From Stdlib Require Import Ascii String Strings.Byte.
From S2P Require Export SqlFacts Submitter.
From stdpp Require Import options.

Create HintDb quiet.
Create HintDb idle.

Section laws.
Context `{C : Crates, K : StoreCodec} {N : Type} `{W : ChainClient N, D : DoChain N}.

Abbreviation X := (SubmitterDo N).
Abbreviation xsql s := (sql (do_sql s)).

#[export] Instance do_view : TaskView X := {|
  v_get s id := v_get (xsql s) id;
  v_present s id := v_present (xsql s) id;
  v_waiting s := v_waiting (xsql s);
|}.

(** ** Laws, from the database to the object *)

Lemma lift_moves own mark (s s' : X) : moves own mark (xsql s) (xsql s') → moves own mark s s'.
Proof. intros [H1 H2 H3 H4 H5]. by split. Qed.

Lemma lift_admission op r (s s' : X) :
  admission_law op r (xsql s) (xsql s') → admission_law op r s s'.
Proof. intros [H1 H2 H3 H4 H5]. split; try done. by apply lift_moves. Qed.

Lemma lift_submission op r (s s' : X) :
  submission_law op r (xsql s) (xsql s') → submission_law op r s s'.
Proof. intros [H1 H2 H3 H4]. split; try done. by apply lift_moves. Qed.

(** ** Requests *)

Definition admits (op : AdmissionOperation) (d : Sql) (r : AdmissionResult) (d' : Sql) : Prop :=
  sql_inv d' ∧ admission_law op r d d'.

(** An operation that is not [Enqueue]. *)
Lemma admits_kept op r d d' :
  sql_inv d → kept (own_of op) (mark_of op) d d' → v_waiting d' = v_waiting d →
  (∀ task, op ≠ Enqueue task) →
  (∀ t, r = TaskFound (Some t) → v_get d' (task_id t) = Some t ∧ ∀ i, op = MarkAdmitted i → task_id t = i) →
  (∀ task, op = Admit task → r = AdmittedAs New → v_present d' (task_id task)) →
  admits op d r d'.
Proof.
  intros Hi Hk Hw Hq Hf Hn. split; [by apply Hk|]. split; [by apply Hk| | |done|done].
  - exists []. rewrite app_nil_r. split; [done|set_solver].
  - intros task ->. by destruct (Hq task).
Qed.

(** One that changes nothing. *)
Lemma admits_same op r d :
  sql_inv d → own_of op = None → mark_of op = None → (∀ task, op ≠ Enqueue task) →
  (∀ t, r = TaskFound (Some t) → v_get d (task_id t) = Some t) → admits op d r d.
Proof.
  intros Hi Ho Hm Hq Hf. apply admits_kept; try done; [apply kept_refl| |].
  - intros t Ht. split; [by apply Hf|]. by intros i ->.
  - by intros task ->.
Qed.

Lemma on_sql_admits {A} op (m : Dm A) (f : result A string → AdmissionResult) (s : X) r s' :
  dwp m (do_sql s) (λ a d, admits op (xsql s) (f a) d) →
  do_bind (on_sql m) (λ a, do_ret (f a)) s = (r, s') → sql_inv (xsql s') ∧ admission_law op r s s'.
Proof.
  unfold dwp, do_bind, on_sql, do_ret. destruct (m (do_sql s)) as [a w]; cbn [fst snd].
  intros [H1 H2] [= <- <-]. split; [done|]. by apply lift_admission.
Qed.

Lemma ask_admits {A} op (m : N → A * N) (f : A → AdmissionResult) (s : X) r s' :
  sql_inv (xsql s) → own_of op = None → mark_of op = None → (∀ task, op ≠ Enqueue task) →
  (∀ a t, f a ≠ TaskFound t) →
  do_bind (ask m) (λ a, do_ret (f a)) s = (r, s') → sql_inv (xsql s') ∧ admission_law op r s s'.
Proof.
  unfold do_bind, ask, do_ret. intros Hi Ho Hm Hq Hf. destruct (m (do_chain s)) as [a c].
  intros [= <- <-]. destruct (admits_same op (f a) (xsql s) Hi Ho Hm Hq) as [H1 H2].
  { intros t Ht. by destruct (Hf a (Some t)). }
  split; [done|]. by apply lift_admission.
Qed.

Lemma ret_admits op r0 (s : X) r s' :
  sql_inv (xsql s) → own_of op = None → mark_of op = None → (∀ task, op ≠ Enqueue task) →
  (∀ t, r0 ≠ TaskFound t) →
  do_ret r0 s = (r, s') → sql_inv (xsql s') ∧ admission_law op r s s'.
Proof.
  intros Hi Ho Hm Hq Hf [= <- <-]. destruct (admits_same op r0 (xsql s) Hi Ho Hm Hq) as [H1 H2].
  { intros t Ht. by destruct (Hf (Some t)). }
  split; [done|]. by apply lift_admission.
Qed.

Lemma find_admits op table value w :
  sql_inv (sql w) → own_of op = None → mark_of op = None → (∀ task, op ≠ Enqueue task) →
  dwp (sq_find table value) w (λ a d, admits op (sql w) (sql_answer TaskFound a) d).
Proof.
  intros Hi Ho Hm Hq. eapply dwp_mono; [apply find_same|]. intros r d [-> Hr]. apply admits_same; try done.
  intros t Ht. destruct r as [[x|]|e]; try done. injection Ht as ->.
  destruct (Hr t eq_refl) as [i Hg]. by rewrite (get_id _ _ _ Hi Hg).
Qed.

Lemma bump_admits op key (f : Z → bool) w :
  sql_inv (sql w) → own_of op = None → mark_of op = None → (∀ task, op ≠ Enqueue task) →
  dwp (sq_bump_minute_counter key) w (λ a d, admits op (sql w) (sql_answer (λ n, Allowed (f n)) a) d).
Proof.
  intros Hi Ho Hm Hq. eapply dwp_mono; [apply (bump_kept (own_of op) (mark_of op))|].
  intros r d [Hk Hw]. apply admits_kept; try done; [intros t Ht; by destruct r|by intros task ->].
Qed.

Lemma enqueue_admits task w :
  sql_inv (sql w) →
  dwp (sq_enqueue task) w (λ a d, admits (Enqueue task) (sql w)
    (match a with Ok _ => Enqueued | Err _ => QueueUnavailable end) d).
Proof.
  intros Hi. eapply dwp_mono; [apply (enqueue_kept None None)|]. intros r d [Hk Hw].
  split; [by apply Hk|]. split.
  - by apply Hk.
  - eexists. split; [exact Hw|]. intros i Hin. destruct r; [|set_solver].
    exists task. split; [done|]. by apply list_elem_of_singleton in Hin.
  - intros t [= <-] Hr. destruct r; [|done]. rewrite Hw. set_solver.
  - intros t Ht. by destruct r.
  - done.
Qed.

Lemma execute_admission_ok limit ip op (s : X) r s' :
  sql_inv (xsql s) →
  (∀ task, op = Admit task → wf_task task ∧ ¬ v_present s (task_id task)) →
  execute_admission limit ip op s = (r, s') → sql_inv (xsql s') ∧ admission_law op r s s'.
Proof.
  intros Hi Had. destruct op as [|h|dg|dg i|h|g m|g|k| | |task|i|task|i]; cbn [execute_admission].
  - apply on_sql_admits. by apply (bump_admits _ _ (λ n, n <=? 5)).
  - apply on_sql_admits. by apply find_admits.
  - apply on_sql_admits. by apply find_admits.
  - generalize RETRY_COALESCE_TTL_SECS; intros ttl. apply on_sql_admits.
    eapply dwp_mono; [apply (record_digest_kept None None)|]. intros r' d [Hk Hw].
    apply admits_kept; try done. intros t. by destruct r'.
  - destruct (parse_b256 h); [|by apply ret_admits]. apply ask_admits; try done. by intros [].
  - destruct (parse_hex_bytes g); [|by apply ret_admits].
    destruct (parse_hex_bytes m); [|by apply ret_admits]. apply ask_admits; try done. by intros [].
  - destruct (parse_hex_bytes g); [|by apply ret_admits]. apply ask_admits; try done. by intros [].
  - apply on_sql_admits. by apply find_admits.
  - apply on_sql_admits. eapply dwp_mono; [apply stats_same|]. intros r' d ->. apply admits_same; try done.
    intros t. by destruct r'.
  - apply on_sql_admits. by apply (bump_admits _ _ (λ n, n <=? limit)).
  - destruct (Had task eq_refl) as [Hwf Hn]. destruct (wt_pending _ Hwf) as (Hs & Ha & _).
    apply on_sql_admits. eapply dwp_mono; [by apply (admit_kept None task)|]. intros a d (Hk & Hw & Hnew).
    apply admits_kept; try done.
    + intros t. by destruct a as [[]|].
    + intros t [= <-] Hr. destruct a as [[i|i]|]; try done. by apply (Hnew i).
  - apply on_sql_admits. eapply dwp_mono; [apply get_task_same|]. intros a d [-> Ha]. apply admits_same; try done.
    intros t Ht. destruct a as [[x|]|e]; try done. injection Ht as ->.
    pose proof (Ha _ eq_refl) as Hg. symmetry in Hg. by rewrite (get_id _ _ _ Hi Hg).
  - apply on_sql_admits. by apply enqueue_admits.
  - apply on_sql_admits. eapply dwp_mono; [by apply mark_admitted_kept|]. intros a d (Hk & Hw & Hf).
    apply admits_kept; try done. intros t Ht. destruct a as [[x|]|e]; try done. injection Ht as ->.
    destruct (Hf t eq_refl) as [H1 H2]. split; [done|]. by intros j [= <-].
Qed.

(** ** The worker *)

Definition submits (op : SubmissionOperation) (d : Sql) (r : SubmissionResult) (d' : Sql) : Prop :=
  sql_inv d' ∧ submission_law op r d d'.

Lemma submits_kept op r d d' :
  sql_inv d → kept None None d d' → v_waiting d' = v_waiting d →
  (∀ id, settled1 (op, r) = Some id → finished d' id) → (∀ ids, op ≠ LoadTasks ids) → submits op d r d'.
Proof.
  intros Hi Hk Hw Hs Hl. split; [by apply Hk|]. split; [by apply Hk|done|done|].
  intros ids loaded id ->. by destruct (Hl ids).
Qed.

Lemma on_sql_submits {A} op (m : Dm A) (f : result A string → SubmissionResult) (s : X) r s' :
  dwp m (do_sql s) (λ a d, submits op (xsql s) (f a) d) →
  do_bind (on_sql m) (λ a, do_ret (f a)) s = (r, s') → sql_inv (xsql s') ∧ submission_law op r s s'.
Proof.
  unfold dwp, do_bind, on_sql, do_ret. destruct (m (do_sql s)) as [a w]; cbn [fst snd].
  intros [H1 H2] [= <- <-]. split; [done|]. by apply lift_submission.
Qed.

Lemma quiet_submits op r (s s' : X) :
  sql_inv (xsql s) → quiet (xsql s) (xsql s') → settled1 (op, r) = None → (∀ ids, op ≠ LoadTasks ids) →
  sql_inv (xsql s') ∧ submission_law op r s s'.
Proof.
  intros Hi Hq Hs Hl. destruct (submits_kept op r (xsql s) (xsql s')) as [H1 H2]; try done.
  - by apply quiet_kept.
  - destruct Hq as (_ & Hu & _). unfold v_waiting, sql_view. by rewrite Hu.
  - intros id. by rewrite Hs.
  - split; [done|]. by apply lift_submission.
Qed.

Lemma ask_submits {A} op (m : N → A * N) (f : A → SubmissionResult) (s : X) r s' :
  sql_inv (xsql s) → (∀ a, settled1 (op, f a) = None) → (∀ ids, op ≠ LoadTasks ids) →
  do_bind (ask m) (λ a, do_ret (f a)) s = (r, s') → sql_inv (xsql s') ∧ submission_law op r s s'.
Proof.
  unfold do_bind, ask, do_ret. intros Hi Hs Hl. destruct (m (do_chain s)) as [a c].
  intros [= <- <-]. by apply quiet_submits.
Qed.

Lemma ret_submits op r0 (s : X) r s' :
  sql_inv (xsql s) → settled1 (op, r0) = None → (∀ ids, op ≠ LoadTasks ids) →
  do_ret r0 s = (r, s') → sql_inv (xsql s') ∧ submission_law op r s s'.
Proof. intros Hi Hs Hl [= <- <-]. by apply quiet_submits. Qed.

(** Writing the chain touches the ledger only. *)
Definition quietly {A} (m : Do A) : Prop := ∀ s : X, quiet (xsql s) (xsql (m s).2).

Lemma quietly_ret {A} (a : A) : quietly (do_ret a).
Proof. done. Qed.
Lemma quietly_bind {A B} (m : Do A) (f : A → Do B) :
  quietly m → (∀ a, quietly (f a)) → quietly (do_bind m f).
Proof.
  intros Hm Hf s. unfold do_bind. specialize (Hm s). destruct (m s) as [a s1].
  eapply quiet_trans; [exact Hm|apply Hf].
Qed.
Lemma quietly_ask {A} (m : N → A * N) : quietly (ask m).
Proof. intros s. unfold ask. by destruct (m (do_chain s)). Qed.
Lemma quietly_nonce n : quietly (put_nonce n).
Proof. done. Qed.
Lemma quietly_update f : (∀ d, quiet d (f d)) → quietly (on_sql (update_ f)).
Proof.
  intros Hf s. unfold on_sql. pose proof (dwp_update f (do_sql s) (λ _ d, quiet (xsql s) d)) as H.
  unfold dwp in H. destruct (update_ f (do_sql s)) as [r w]. cbn in *. by apply H.
Qed.
#[local] Hint Resolve quietly_ret quietly_bind quietly_ask quietly_nonce quietly_update : quiet.

Lemma submit_quiet task : quietly (do_submit task).
Proof.
  assert (Hrec : ∀ nonce b, quietly (on_sql (sq now := dm_now in
    sq_record_pending_tx REGISTER_ROLE nonce (bc_hash b) now 0 (bc_fees_wei b)))).
  { intros nonce b s. apply (quietly_update (on_ledger _)). done. }
  assert (Hdel : ∀ nonce, quietly (on_sql (sq_delete_pending_tx REGISTER_ROLE nonce))).
  { intros nonce. by apply quietly_update. }
  assert (Hacq : quietly do_acquire_nonce).
  { intros s. unfold do_acquire_nonce. destruct (do_nonce s); [done|].
    apply quietly_bind; [apply quietly_ask|]. intros []; eauto with quiet. }
  unfold do_submit. apply quietly_bind; [done|]. intros [nonce|]; [|apply quietly_ret].
  apply quietly_bind; [apply quietly_ask|]. intros [b|e]; [|by apply quietly_bind].
  apply quietly_bind; [apply Hrec|]. intros _. apply quietly_bind; [apply quietly_ask|].
  intros [[o|]|e]; (apply quietly_bind; [by eauto with quiet|]); intros _; auto with quiet.
Qed.

Lemma load_tasks_same ids w :
  dwp (sq_load_tasks ids) w (λ r d, d = sql w ∧
    ∀ loaded, r = Ok loaded → loaded = v_get (sql w) <$> ids).
Proof.
  revert w. induction ids as [|id ids IH]; intros w; [apply dwp_ret; split; [done|]; by intros l [= <-]|].
  cbn [sq_load_tasks]. apply after_get; [done|]. intros w1 H1. apply dwp_bind.
  eapply dwp_mono; [apply IH|]. rewrite H1. intros [l|e] d [-> Hr]; [|done].
  intros w2 H2. apply dwp_ret. split; [done|]. intros l' [= <-]. by rewrite (Hr l eq_refl).
Qed.

Lemma execute_submission_ok op (s : X) r s' :
  sql_inv (xsql s) → execute_submission op s = (r, s') → sql_inv (xsql s') ∧ submission_law op r s s'.
Proof.
  intros Hi. destruct op as [ids|h|g m|t|id tx n|id k msg|id msg]; cbn [execute_submission].
  - apply on_sql_submits. eapply dwp_mono; [apply load_tasks_same|]. intros a d [-> Ha].
    split; [done|]. split; [apply moves_refl|done|by destruct a|].
    intros ids' loaded id [= <-] Hr Hid. destruct a as [l|]; [|done]. injection Hr as <-.
    rewrite (Ha l eq_refl). destruct (v_get (xsql s) id) as [t|] eqn:Hg.
    + destruct (decide (status t = Pending)) as [Hp|Hp].
      * right. exists t. split; [|split; [by apply (get_id _ _ _ Hi Hg)|done]].
        apply list_elem_of_fmap. by exists id.
      * left. intros t'. rewrite Hg. by intros [= <-].
    + left. intros t'. by rewrite Hg.
  - destruct (parse_b256 h); [|by apply ret_submits]. by apply ask_submits.
  - destruct (parse_hex_bytes g); [|by apply ret_submits].
    destruct (parse_hex_bytes m); [|by apply ret_submits]. by apply ask_submits.
  - unfold do_bind. pose proof (submit_quiet t s) as Hq. destruct (do_submit t s) as [o s1].
    intros [= <- <-]. by apply quiet_submits.
  - apply on_sql_submits. eapply dwp_mono; [by apply mark_done_kept|]. intros a d (Hk & Hw & Hf).
    apply submits_kept; try done. intros j. destruct a as [o|]; [|done]. intros [= <-]. by apply (Hf o).
  - apply on_sql_submits. eapply dwp_mono; [by apply mark_failed_kept|]. intros a d (Hk & Hw & Hf).
    apply submits_kept; try done. intros j. destruct a as [o|]; [|done]. intros [= <-]. by apply (Hf o).
  - apply on_sql_submits. eapply dwp_mono; [by apply transient_kept|]. intros a d [Hk Hw].
    by apply submits_kept.
Qed.

(** ** The shell *)

Definition with_sql (f : Sql → Sql) (s : X) : X :=
  mkSubmitter (mkSqlWorld (f (xsql s)) (outages (do_sql s))) (do_alarm s) (do_failures s)
    (do_nonce s) (do_chain s).

(** [delete_batch] of the [n] oldest rows. *)
Definition do_consume (n : nat) (s : X) : X := with_sql (on_queue (drop n)) s.

Lemma do_consume_ok n (s : X) :
  sql_inv (xsql s) → (n ≤ length (v_waiting s))%nat →
  sql_inv (xsql (do_consume n s)) ∧ (∀ id, v_get (do_consume n s) id = v_get s id) ∧
  (∀ id, v_present (do_consume n s) id ↔ v_present s id) ∧
  v_waiting (do_consume n s) = drop n (v_waiting s).
Proof.
  intros Hi _. split_and!; try done; [by apply consume_inv|].
  unfold v_waiting, do_view, v_waiting, sql_view. cbn. by rewrite fmap_drop.
Qed.

(** Time, expiry, reads and their counters, the ledger, the alert log. *)
Inductive store_other (d : Sql) : Sql → Prop :=
| other_tick ms : 0 ≤ ms → store_other d (sql_tick ms d)
| other_purge o r w : sq_purge_expired (mkSqlWorld d o) = (r, w) → store_other d (sql w)
| other_bump key o r w : sq_bump_minute_counter key (mkSqlWorld d o) = (r, w) → store_other d (sql w)
| other_quiet d' : quiet d d' → store_other d d'.

(** An eviction also loses the object's memory. *)
Inductive do_other (s : X) : X → Prop :=
| do_environment d o slot failures nonce chain :
    store_other (xsql s) d →
    do_other s (mkSubmitter (mkSqlWorld d o) slot failures nonce chain).

Lemma do_other_ok (s s' : X) :
  sql_inv (xsql s) → do_other s s' →
  sql_inv (xsql s') ∧ moves None None s s' ∧ v_waiting s' = v_waiting s.
Proof.
  intros Hi [d o slot failures nonce chain Hd].
  assert (H : sql_inv d ∧ moves None None (xsql s) d ∧ v_waiting d = v_waiting (xsql s)).
  { destruct Hd as [ms Hms|o1 r w Hr|key o1 r w Hr|d' Hq].
    - destruct (tick_moves None None ms (xsql s) Hms Hi). by split_and!.
    - destruct (purge_kept None None (mkSqlWorld (xsql s) o1)) as [Hk Hw]. rewrite Hr in Hk, Hw.
      split_and!; [by apply Hk..|done].
    - destruct (bump_kept None None key (mkSqlWorld (xsql s) o1)) as [Hk Hw]. rewrite Hr in Hk, Hw.
      split_and!; [by apply Hk..|done].
    - destruct (quiet_kept None None _ _ Hq) as [H1 H2 _]. destruct Hq as (_ & Hu & _).
      split_and!; [auto..|]. unfold v_waiting, sql_view. by rewrite Hu. }
  destruct H as (H1 & H2 & H3). split_and!; [done|by apply lift_moves|done].
Qed.

Definition do_initial (s : X) : Prop :=
  s_tasks (xsql s) = ∅ ∧ s_queue (xsql s) = [] ∧ s_rates (xsql s) = ∅ ∧ s_purged (xsql s) = ∅.

Lemma do_initial_ok (s : X) :
  do_initial s → sql_inv (xsql s) ∧ v_waiting s = [] ∧ ∀ id, v_get s id = None.
Proof.
  intros (H1 & H2 & H3 & _). split_and!.
  - split; rewrite ?H1, ?H2, ?H3; [done|constructor|constructor|apply map_Forall_empty].
  - unfold v_waiting, do_view, v_waiting, sql_view. by rewrite H2.
  - intros id. unfold v_get, do_view, v_get, sql_view, task_row. by rewrite H1, lookup_empty.
Qed.

Lemma do_get_present (s : X) id t : sql_inv (xsql s) → v_get s id = Some t → v_present s id.
Proof. apply get_present. Qed.

Definition do_shell (cfg : Deployment) : Shell X := {|
  sh_chain_id := CHAIN_ID;
  sh_registry := dp_domain_registry_address cfg;
  sh_now s := s_now (xsql s);
  sh_admission := execute_admission (dp_global_write_limit cfg);
  sh_submission := execute_submission;
  sh_consume := do_consume;
  sh_other := do_other;
  sh_initial := do_initial;
  sh_inv s := sql_inv (xsql s);
  sh_inv_initial := do_initial_ok;
  sh_get_present := do_get_present;
  sh_admission_ok := execute_admission_ok (dp_global_write_limit cfg);
  sh_submission_ok := execute_submission_ok;
  sh_consume_ok := do_consume_ok;
  sh_other_ok := do_other_ok;
|}.
End laws.

(** ** The alarm *)

Section alarm.
Context `{C : Crates, K : StoreCodec} {N : Type} `{W : ChainClient N, D : DoChain N}.

Abbreviation X := (SubmitterDo N).
Abbreviation xsql s := (sql (do_sql s)).

Lemma try_split {A B} (m : Do (result A string)) (f : A → Do (result B string)) (s : X) r s' :
  do_try m f s = (r, s') →
  (∃ e, m s = (Err e, s') ∧ r = Err e) ∨ (∃ a s1, m s = (Ok a, s1) ∧ f a s1 = (r, s')).
Proof.
  unfold do_try, do_bind. destruct (m s) as [[a|e] s1]; intros He; [right; eauto|left].
  injection He as <- <-. eauto.
Qed.

Lemma on_sql_dwp {A} (m : Dm A) (s s' : X) r Φ :
  on_sql m s = (r, s') → dwp m (do_sql s) Φ →
  Φ r (xsql s') ∧ do_alarm s' = do_alarm s ∧ do_failures s' = do_failures s.
Proof. unfold on_sql, dwp. destruct (m (do_sql s)) as [a w]. intros [= <- <-] H. by split. Qed.

(** Records and queue as before. *)
Definition calm (s s' : X) : Prop :=
  (sql_inv (xsql s) → sql_inv (xsql s') ∧ ∀ id, finished s id → finished s' id) ∧
  v_waiting s' = v_waiting s ∧ do_failures s' = do_failures s.

Lemma calm_refl s : calm s s.
Proof. done. Qed.
Lemma calm_trans s1 s2 s3 : calm s1 s2 → calm s2 s3 → calm s1 s3.
Proof.
  intros (A1 & A2 & A3) (B1 & B2 & B3). split_and!; [|congruence..].
  intros Hi. destruct (A1 Hi) as [Hi2 Hf2], (B1 Hi2) as [Hi3 Hf3]. split; [done|auto].
Qed.

Lemma calm_sql {A} (m : Dm A) (s s' : X) r :
  on_sql m s = (r, s') →
  dwp m (do_sql s) (λ _ d, kept None None (xsql s) d ∧ v_waiting d = v_waiting (xsql s)) → calm s s'.
Proof. intros He Hm. destruct (on_sql_dwp _ _ _ _ _ He Hm) as ([Hk Hw] & _ & Hf).
  split_and!; [|done..]. intros Hi. split; [by apply Hk|]. intros id. by apply (kp_moves _ _ _ _ Hk Hi).
Qed.

Lemma calm_bootstrap (s s' : X) r : bootstrap s = (r, s') → calm s s'.
Proof.
  intros He. eapply calm_sql; [exact He|]. apply dwp_update; [intros; split; [apply kept_refl|done]|].
  split; [apply kept_refl|done].
Qed.

Lemma calm_purge (s s' : X) r : on_sql sq_purge_expired s = (r, s') → calm s s'.
Proof. intros He. eapply calm_sql; [exact He|]. apply purge_kept. Qed.

(** As [calm], with the alarm slot left alone. *)
Definition still (s s' : X) : Prop := calm s s' ∧ do_alarm s' = do_alarm s.

Lemma sql_slot {A} (m : Dm A) (s s' : X) r : on_sql m s = (r, s') → do_alarm s' = do_alarm s.
Proof. unfold on_sql. destruct (m (do_sql s)) as [a w]. by intros [= _ <-]. Qed.

Lemma alarm_io_spec {A} (f : option Z → A * option Z) (s s' : X) r :
  alarm_io f s = (r, s') →
  xsql s' = xsql s ∧ do_failures s' = do_failures s ∧
  (∀ a, r = Ok a → (a, do_alarm s') = f (do_alarm s)) ∧ (∀ e, r = Err e → do_alarm s' = do_alarm s).
Proof.
  unfold alarm_io. destruct (outages (do_sql s)) as [|[] o]; [|intros [= <- <-]; by split_and!|];
    destruct (f (do_alarm s)) as [a slot]; intros [= <- <-]; (split_and!; [done|done| |done]); by intros ? [= <-].
Qed.

Lemma schedule_spec delay (s s' : X) r :
  schedule delay s = (r, s') →
  calm s s' ∧ xsql s' = xsql s ∧ (∀ u, r = Ok u → do_alarm s' = Some (s_now (xsql s) + delay)) ∧
  (∀ e, r = Err e → do_alarm s' = do_alarm s).
Proof.
  intros (Hx & Hf & Ho & He)%alarm_io_spec. split_and!; [|done| |done].
  - split_and!; [|unfold v_waiting, do_view; by rewrite Hx|done].
    unfold finished, v_get, do_view. by rewrite Hx.
  - intros u Hu. specialize (Ho u Hu). by injection Ho.
Qed.

(** The [n] oldest envelopes are gone, their tasks finished. *)
Definition settled_prefix (n : nat) (s s' : X) : Prop :=
  sql_inv (xsql s') ∧ v_waiting s' = drop n (v_waiting s) ∧
  (∀ id, finished s id → finished s' id) ∧
  ∀ id, id ∈ take n (v_waiting s) → finished s' id.

Lemma settled_calm (s s' : X) : sql_inv (xsql s) → calm s s' → settled_prefix 0 s s'.
Proof.
  intros Hi (H1 & H2 & _). destruct (H1 Hi) as [Hi' Hf].
  split_and!; [done|by rewrite drop_0|done|]. intros id. rewrite take_0. set_solver.
Qed.

Lemma settled_before n (s s1 s' : X) :
  sql_inv (xsql s) → calm s s1 → settled_prefix n s1 s' → settled_prefix n s s'.
Proof.
  intros Hi (Hc & Hw & _) (H1 & H2 & H3 & H4). destruct (Hc Hi) as [_ Hf].
  unfold settled_prefix. rewrite <-Hw. split_and!; auto.
Qed.

Lemma settled_after n (s s1 s' : X) : settled_prefix n s s1 → xsql s' = xsql s1 → settled_prefix n s s'.
Proof.
  intros (H1 & H2 & H3 & H4) Hx. unfold settled_prefix, v_waiting, finished, v_get, do_view.
  rewrite Hx. by split_and!.
Qed.

(** What a batch polled from [s] leaves. *)
Definition batch_left (k : nat) (s : X) (r : result AlarmReport string) (s' : X) : Prop :=
  ∃ n, settled_prefix n s s' ∧ (n ≤ k)%nat ∧
  match r with
  | Ok BatchAdvanced => n = k ∧ do_failures s' = 0 ∧
      (v_waiting s' = [] ∨ do_alarm s' = Some (s_now (xsql s')))
  | Ok (BatchRetry backoff reason) => n = O ∧ do_failures s' = sat_add U32_MAX (do_failures s) 1 ∧
      backoff = Z.min (backoff_delay (do_failures s')) 60 ∧
      do_alarm s' = Some (s_now (xsql s') + backoff * 1000)
  | Ok _ => False
  | Err _ => do_alarm s' = do_alarm s
  end.

Lemma prefix_snd (q batch : list (Z * string)) :
  batch `prefix_of` q → take (length batch) q.*2 = batch.*2.
Proof. intros [rest ->]. by rewrite fmap_app, take_app_length'; [|by rewrite length_fmap]. Qed.

Lemma queue_len_spec (s s' : X) r :
  on_sql sq_queue_len s = (r, s') →
  xsql s' = xsql s ∧ do_alarm s' = do_alarm s ∧ do_failures s' = do_failures s ∧
  (∀ n, r = Ok n → n = Z.of_nat (length (v_waiting s))).
Proof.
  intros He. destruct (on_sql_dwp sq_queue_len _ _ _
    (λ r d, d = xsql s ∧ ∀ n, r = Ok n → n = Z.of_nat (length (v_waiting s))) He) as ([H1 H2] & H3 & H4).
  - apply dwp_select; [done|]. split; [done|]. intros n [= <-].
    unfold v_waiting, do_view, v_waiting, sql_view. by rewrite length_fmap.
  - by split_and!.
Qed.

(** No operation of the worker writes the queue. *)
Definition keeps_queue {A} (m : Dm A) : Prop := ∀ w, s_queue (sql (m w).2) = s_queue (sql w).

Lemma queue_ret {A} (a : A) : keeps_queue (dm_ret a).
Proof. done. Qed.
Lemma queue_now : keeps_queue dm_now.
Proof. done. Qed.
Lemma queue_bind {A B} (m : Dm A) (f : A → Dm B) :
  keeps_queue m → (∀ a, keeps_queue (f a)) → keeps_queue (dm_bind m f).
Proof.
  intros Hm Hf w. specialize (Hm w). unfold dm_bind. destruct (m w) as [[a|e] w1]; [|done].
  rewrite (Hf a w1). apply Hm.
Qed.
Lemma queue_statement {A} (f : Sql → A * Sql) : (∀ d, s_queue (f d).2 = s_queue d) → keeps_queue (statement f).
Proof.
  intros Hf w. unfold statement. specialize (Hf (sql w)). destruct (f (sql w)) as [a d].
  by destruct (outages w) as [|[] o].
Qed.
Lemma queue_update f : (∀ d, s_queue (f d) = s_queue d) → keeps_queue (update_ f).
Proof. intros Hf. by apply queue_statement. Qed.
Lemma queue_select {A} (f : Sql → A) : keeps_queue (select f).
Proof. by apply queue_statement. Qed.
#[local] Hint Resolve queue_ret queue_now queue_bind queue_update queue_select : idle.

Lemma queue_get id : keeps_queue (sq_get_task id).
Proof. unfold sq_get_task. auto with idle. Qed.
Lemma queue_terminal t ttl failed : keeps_queue (sq_transition_terminal t ttl failed).
Proof. unfold sq_transition_terminal, update_task. destruct failed; auto 10 with idle. Qed.
#[local] Hint Resolve queue_get queue_terminal : idle.

Lemma queue_done id tx n : keeps_queue (sq_mark_done id tx n).
Proof. apply queue_bind; [apply queue_get|]. intros [t|]; auto with idle. Qed.
Lemma queue_failed id p msg : keeps_queue (sq_mark_failed id p msg).
Proof. apply queue_bind; [apply queue_get|]. intros [t|]; auto with idle. Qed.
Lemma queue_transient id msg : keeps_queue (sq_record_transient_failure id msg).
Proof.
  apply queue_bind; [apply queue_get|]. intros [t|]; [|apply queue_ret].
  unfold update_task. repeat case_match; auto with idle.
Qed.
Lemma queue_load ids : keeps_queue (sq_load_tasks ids).
Proof. induction ids; cbn [sq_load_tasks]; auto with idle. Qed.
Lemma queue_record role n h t a f : keeps_queue (sq_record_pending_tx role n h t a f).
Proof. by apply queue_update. Qed.
Lemma queue_delete role n : keeps_queue (sq_delete_pending_tx role n).
Proof. by apply queue_update. Qed.
#[local] Hint Resolve queue_done queue_failed queue_transient queue_load queue_record queue_delete : idle.

(** Nor the alarm, nor the failure count. *)
Definition idle {A} (m : Do A) : Prop :=
  ∀ s : X, do_failures (m s).2 = do_failures s ∧ do_alarm (m s).2 = do_alarm s ∧
    s_queue (xsql (m s).2) = s_queue (xsql s).

Lemma idle_ret {A} (a : A) : idle (do_ret a).
Proof. done. Qed.
Lemma idle_bind {A B} (m : Do A) (f : A → Do B) : idle m → (∀ a, idle (f a)) → idle (do_bind m f).
Proof.
  intros Hm Hf s. unfold do_bind. specialize (Hm s). destruct (m s) as [a s1]. cbn in Hm.
  destruct (Hf a s1) as (? & ? & ?), Hm as (? & ? & ?). split_and!; congruence.
Qed.
Lemma idle_sql {A} (m : Dm A) : keeps_queue m → idle (on_sql m).
Proof. intros Hm s. specialize (Hm (do_sql s)). unfold on_sql. by destruct (m (do_sql s)). Qed.
Lemma idle_ask {A} (m : N → A * N) : idle (ask m).
Proof. intros s. unfold ask. by destruct (m (do_chain s)). Qed.
Lemma idle_nonce n : idle (put_nonce n).
Proof. done. Qed.
#[local] Hint Resolve idle_ret idle_bind idle_sql idle_ask idle_nonce : idle.

Lemma idle_submit task : idle (do_submit task).
Proof.
  assert (Hacq : idle do_acquire_nonce).
  { intros s. unfold do_acquire_nonce. destruct (do_nonce s); [done|].
    apply idle_bind; [apply idle_ask|]. intros []; auto with idle. }
  unfold do_submit. apply idle_bind; [done|]. intros [nonce|]; [|apply idle_ret].
  apply idle_bind; [apply idle_ask|]. intros [b|e]; [|auto with idle].
  apply idle_bind; [auto with idle|]. intros _. apply idle_bind; [apply idle_ask|].
  intros [[o|]|e]; auto with idle.
Qed.

Lemma idle_execute op : idle (execute_submission op).
Proof.
  destruct op; cbn [execute_submission]; repeat case_match; auto using idle_submit with idle.
Qed.

Lemma idle_run {A} (p : SFlow A) (s s' : X) t a :
  run execute_submission p s = (s', t, a) → do_failures s' = do_failures s ∧
    do_alarm s' = do_alarm s ∧ s_queue (xsql s') = s_queue (xsql s).
Proof.
  revert s t. induction p as [a0|op k IH]; intros s t; cbn [run]; [by intros [= <- _ _]|].
  pose proof (idle_execute op s) as (H1 & H2 & H3). destruct (execute_submission op s) as [r s1].
  destruct (run execute_submission (k r) s1) as [[s2 t2] a2] eqn:E. intros [= <- _ <-].
  destruct (IH r s1 t2 E) as (? & ? & ?). cbn in *. split_and!; congruence.
Qed.

Lemma batch_settles batch (s s1 : X) r :
  sql_inv (xsql s) → do_process_batch batch s = (r, s1) →
  still s s1 ∧ s_queue (xsql s1) = s_queue (xsql s) ∧ (∀ u, r = Ok u → ∀ id, id ∈ batch → finished s1 id).
Proof using C D K N W.
  intros Hi. unfold do_process_batch. destruct (run _ _ s) as [[s2 t] m] eqn:Hr. intros [= <- <-].
  destruct (idle_run _ _ _ _ _ Hr) as (Hf & Ha & Hq).
  destruct (@Shell.batch_run X _ _ (do_shell (mkDeployment 0 true "")) _ _ _ _ _ Hi Hr) as (Hi1 & Hm & Hw & Hadv).
  split_and!; [split; [split_and!; [|done..]|done]| |].
  - intros _. split; [done|]. intros id. by apply Hm.
  - done.
  - intros u Hu. apply Hadv. destruct (settle_batch m) as [[]|]; done.
Qed.

(** Deleting an advanced batch, then the next alarm. *)
Lemma delete_left batch (s s' : X) r :
  sql_inv (xsql s) → batch `prefix_of` s_queue (xsql s) → (∀ id, id ∈ batch.*2 → finished s id) →
  on_sql (sq_delete_batch batch) s = (r, s') →
  ∃ n, (n ≤ length batch)%nat ∧ settled_prefix n s s' ∧ do_failures s' = do_failures s ∧
    (r = Ok tt → n = length batch).
Proof.
  intros Hi Hp Hfin He.
  destruct (on_sql_dwp _ _ _ _ _ He (delete_batch_drops batch _ Hi Hp)) as ((n & Hn & Hd & Hr) & _ & Hf).
  assert (Hg : ∀ id, v_get s' id = v_get s id) by (intros id; unfold v_get, do_view; by rewrite Hd).
  exists n. split_and!; try done. split_and!.
  - rewrite Hd. by apply consume_inv.
  - unfold v_waiting, do_view, v_waiting, sql_view. rewrite Hd. cbn. by rewrite fmap_drop.
  - intros id Hf' t. rewrite Hg. apply Hf'.
  - intros id Hid t Ht. apply (Hfin id); [|by rewrite <-Ht].
    unfold v_waiting, do_view, v_waiting, sql_view in Hid.
    rewrite <-(prefix_snd _ _ Hp). rewrite <-(Nat.min_l _ _ Hn), <-take_take in Hid.
    by apply elem_of_take in Hid as (i & Hi' & _); eapply list_elem_of_lookup_2.
Qed.

Lemma alarm_batch_left batch (s s' : X) r :
  sql_inv (xsql s) → batch `prefix_of` s_queue (xsql s) → alarm_batch batch s = (r, s') →
  batch_left (length batch) s r s'.
Proof using C D K N W.
  intros Hi Hp. unfold alarm_batch, do_bind at 1.
  destruct (do_process_batch batch.*2 s) as [v s1] eqn:Hb.
  destruct (batch_settles _ _ _ _ Hi Hb) as (Hc & Hq & Hfin).
  destruct Hc as [Hc Ha1]. pose proof Hc as (Hi1 & Hw1 & Hf1). destruct (Hi1 Hi) as [Hi2 Hfs]. clear Hi1. destruct v as [u|reason].
  - unfold do_bind at 1, put_failures. set (s2 := mkSubmitter _ _ 0 _ _).
    intros [(e & He & ->)|(u1 & s3 & He & Hrest)]%try_split;
      (destruct (delete_left batch s2 _ _ Hi2 ltac:(by cbn; rewrite Hq) (Hfin u eq_refl) He)
        as (n & Hn & Hs3 & Hf3 & Hall)); (assert (Ha3 := sql_slot _ _ _ _ He)); (assert (Hs : ∀ x : X, settled_prefix n s2 x → settled_prefix n s x)
        by (intros x; exact (settled_before n s s1 x Hi Hc))).
    { exists n. split_and!; auto. by rewrite Ha3. }
    destruct u1. specialize (Hall eq_refl) as ->. apply try_split in Hrest as [(e & He4 & ->)|(len & s4 & He4 & Hrest)];
      destruct (queue_len_spec _ _ _ He4) as (Hx4 & Ha4 & Hf4 & Hlen).
    { eexists. split_and!; [by apply Hs; eapply settled_after|done|by rewrite Ha4, Ha3]. }
    specialize (Hlen len eq_refl).
    apply try_split in Hrest as [(e & He5 & ->)|(u5 & s5 & He5 & Hrest)].
    + destruct (0 <? len); [|done]. destruct (schedule_spec _ _ _ _ He5) as (_ & Hx5 & _ & Ha5).
      eexists. split_and!; [apply Hs; eapply settled_after; [exact Hs3|by etrans]|done|by rewrite (Ha5 e eq_refl), Ha4, Ha3].
    + injection Hrest as <- <-. exists (length batch). destruct (Z.ltb_spec 0 len) as [Hl|Hl].
      * destruct (schedule_spec _ _ _ _ He5) as ((_ & _ & Hf5) & Hx5 & Ha & _).
        split_and!; [apply Hs; eapply settled_after; [exact Hs3|by etrans]|done|done|by rewrite Hf5, Hf4, Hf3|].
        right. rewrite (Ha u5 eq_refl), Hx5. by rewrite Z.add_0_r.
      * injection He5 as _ <-. split_and!; [by apply Hs; eapply settled_after|done|done|by rewrite Hf4, Hf3|].
        left. unfold v_waiting, do_view. rewrite Hx4. apply length_zero_iff_nil.
        unfold v_waiting, do_view in Hlen. lia.
  - unfold do_bind, get_failures, put_failures. set (s2 := mkSubmitter _ _ _ _ _).
    pose proof (settled_calm s s1 Hi Hc : settled_prefix 0 s s2) as Hs2.
    intros [(e & He & ->)|(u & s3 & He & Hrest)]%try_split; destruct (schedule_spec _ _ _ _ He) as (Hc3 & Hx3 & Ha & Hn).
    + exists O. split_and!; [by eapply settled_after|lia|]. by rewrite (Hn e eq_refl).
    + injection Hrest as <- <-. exists O. pose proof Hc3 as (_ & _ & Hf3).
      split_and!; [by eapply settled_after|lia|done|by rewrite Hf3, <-Hf1|by rewrite Hf3|].
      by rewrite (Ha u eq_refl), Hx3.
Qed.

Lemma poll_spec limit (s s' : X) r :
  on_sql (sq_poll_batch limit) s = (r, s') →
  xsql s' = xsql s ∧ do_failures s' = do_failures s ∧ ∀ b, r = Ok b → b = take limit (s_queue (xsql s)).
Proof.
  intros He. destruct (on_sql_dwp _ _ _ _ (λ r d, d = xsql s ∧
    ∀ b, r = Ok b → b = take limit (s_queue (xsql s))) He) as ([H1 H2] & _ & H4); [|by split_and!].
  apply dwp_select; [done|]. split; [done|]. by intros b [= <-].
Qed.

(** The queue after an alarm, and the next alarm, by what the handler
    reports. *)
Definition alarm_post (cfg : Deployment) (s : X) (r : result AlarmReport string) (s' : X) : Prop :=
  ∃ n, settled_prefix n s s' ∧ (n ≤ POLL_BATCH_SIZE)%nat ∧
  match r with
  | Ok NoSigner => n = O ∧ dp_has_signer cfg = false
  | Ok GasAboveCap => n = O ∧ do_alarm s' = Some (s_now (xsql s') + 15_000)
  | Ok QueueEmpty => v_waiting s = [] ∧ v_waiting s' = []
  | Ok BatchAdvanced => n = Nat.min POLL_BATCH_SIZE (length (v_waiting s)) ∧ do_failures s' = 0 ∧
      (v_waiting s' = [] ∨ do_alarm s' = Some (s_now (xsql s')))
  | Ok (BatchRetry backoff reason) => n = O ∧ do_failures s' = sat_add U32_MAX (do_failures s) 1 ∧
      backoff = Z.min (backoff_delay (do_failures s')) 60 ∧
      do_alarm s' = Some (s_now (xsql s') + backoff * 1000)
  | Err _ => do_alarm s' = do_alarm s
  end.

Lemma alarm_post_still cfg (s s' : X) e : sql_inv (xsql s) → still s s' → alarm_post cfg s (Err e) s'.
Proof. intros Hi [Hc Ha]. exists O. split_and!; [by apply settled_calm|lia|done]. Qed.

Lemma alarm_post_before cfg (s s1 s' : X) r :
  sql_inv (xsql s) → still s s1 → alarm_post cfg s1 r s' → alarm_post cfg s r s'.
Proof.
  intros Hi [Hc Ha] (n & H1 & H2 & H3). exists n. split_and!; [by eapply settled_before|done|].
  destruct Hc as (_ & Hw & Hf). destruct r as [[]|]; rewrite ?Hw, ?Hf, ?Ha in H3; done.
Qed.

Lemma poll_post cfg (s s' : X) r :
  sql_inv (xsql s) →
  do_try (on_sql (sq_poll_batch POLL_BATCH_SIZE)) (λ batch,
    match batch with [] => do_ret (Ok QueueEmpty) | _ => alarm_batch batch end) s = (r, s') →
  alarm_post cfg s r s'.
Proof using C D K N W.
  intros Hi [(e & He & ->)|(batch & s1 & He & Hrest)]%try_split; destruct (poll_spec _ _ _ _ He) as (Hx & Hf & Hb).
  { apply alarm_post_still; [done|]. split; [|by eapply sql_slot].
    split_and!; [|unfold v_waiting, do_view; by rewrite Hx|done].
    unfold finished, v_get, do_view. by rewrite Hx. }
  specialize (Hb batch eq_refl).
  assert (Hc : calm s s1).
  { split_and!; [|unfold v_waiting, do_view; by rewrite Hx|done].
    unfold finished, v_get, do_view. by rewrite Hx. }
  assert (Hlen : length batch = Nat.min POLL_BATCH_SIZE (length (v_waiting s))).
  { rewrite Hb, length_take. unfold v_waiting, do_view, v_waiting, sql_view. by rewrite length_fmap. }
  destruct batch as [|row batch].
  - injection Hrest as <- <-. assert (Hw : v_waiting s = []).
    { apply length_zero_iff_nil. rewrite length_nil in Hlen. unfold POLL_BATCH_SIZE in Hlen. lia. }
    exists O. split_and!; [by apply settled_calm|lia|done|by rewrite (proj1 (proj2 Hc))].
  - apply alarm_batch_left in Hrest as (n & Hs & Hn & Hr); cycle 1.
    + by apply Hc.
    + rewrite Hx, Hb. eexists. by rewrite take_drop.
    + exists n. split_and!; [by eapply settled_before|lia|]. rewrite (proj2 (proj2 Hc)) in Hr.
      rewrite (sql_slot _ _ _ _ He) in Hr. destruct r as [[]|]; try done. by rewrite <-Hlen.
Qed.

Lemma alarm_posts cfg (s s' : X) r :
  sql_inv (xsql s) → alarm (Ok cfg) s = (r, s') → alarm_post cfg s r s'.
Proof using C D K N W.
  intros Hi. unfold alarm.
  intros [(e & He & ->)|(u & s1 & He & Hr)]%try_split; 
    pose proof (conj (calm_bootstrap _ _ _ He) (sql_slot _ _ _ _ He) : still s _) as H1; [by apply alarm_post_still|].
  apply (alarm_post_before cfg s s1); [done..|]. destruct (proj1 (proj1 H1) Hi) as [Hi1 _]. clear He H1.
  apply try_split in Hr as [(e & He & ->)|(u2 & s2 & He & Hr)]; 
    pose proof (conj (calm_purge _ _ _ He) (sql_slot _ _ _ _ He) : still s1 _) as H1; [by apply alarm_post_still|].
  apply (alarm_post_before cfg s1 s2); [done..|]. destruct (proj1 (proj1 H1) Hi1) as [Hi2 _]. clear He H1.
  unfold get_chain, do_try, do_bind, do_ret in Hr. destruct (dp_has_signer cfg) eqn:Hsg; cbn [negb] in Hr.
  2:{ injection Hr as <- <-. exists O. split_and!; [by apply settled_calm|lia|done|done]. }
  unfold ask in Hr. destruct (do_fee_plan (do_chain s2)) as [fee c]. set (s3 := mkSubmitter _ _ _ _ c) in Hr.
  apply (alarm_post_before cfg s2 s3); [done..|].
  assert (Hpoll : ∀ r s', do_try (on_sql (sq_poll_batch POLL_BATCH_SIZE)) (λ batch,
    match batch with [] => do_ret (Ok QueueEmpty) | _ => alarm_batch batch end) s3 = (r, s') →
    alarm_post cfg s3 r s') by (intros ??; by apply poll_post).
  destruct fee as [[fees|required cap]|e]; [by apply Hpoll| |by apply Hpoll].
  apply try_split in Hr as [(e & He & ->)|(u4 & s4 & He & Hr)]; destruct (schedule_spec _ _ _ _ He) as (Hc & Hx & Ha & Hn).
  - apply alarm_post_still; [done|]. split; [done|by apply (Hn e)].
  - injection Hr as <- <-. exists O. split_and!; [by apply settled_calm|lia|done|]. by rewrite (Ha u4 eq_refl), Hx.
Qed.

(** C12. What the Durable Object's alarm does, whichever statements fail and
    whatever the chain answers.  The envelopes it removes from the queue are
    the [n] oldest, and every one of them belongs to a task that is
    finished: nothing is consumed that still has to be written, even when
    the handler fails half way.  A batch that advanced consumed all that was
    polled (at most 50); a fee above the cap or a failed batch consumed
    nothing, and a failed batch counts one more failure and backs off by it,
    at most a minute.  A handler that succeeds with a signer configured arms
    the next alarm unless nothing is left waiting.  A handler that fails arms
    nothing: the alarm slot is as it found it, and another firing is then up
    to the runtime's retry of a failed alarm, or to the next admission of a
    live task, which arms it. *)
Theorem alarm_settles cfg (s s' : X) r :
  sql_inv (xsql s) → alarm (Ok cfg) s = (r, s') → alarm_post cfg s r s'.
Proof using C D K N W. apply alarm_posts. Qed.

(** ** Alarms until the queue is empty *)

Definition clear_alarm (s : X) : X :=
  mkSubmitter (do_sql s) None (do_failures s) (do_nonce s) (do_chain s).

(** The runtime fires an armed alarm, at most [k] times. *)
Fixpoint keep_firing (cfg : Deployment) (k : nat) (s : X) : list (result AlarmReport string) * X :=
  match k, do_alarm s with
  | S k, Some _ =>
      let '(r, s) := alarm (Ok cfg) (clear_alarm s) in
      let '(l, s) := keep_firing cfg k s in (r :: l, s)
  | _, _ => ([], s)
  end.

(** The batch advanced, or there was none. *)
Definition progress (r : result AlarmReport string) : Prop :=
  r = Ok BatchAdvanced ∨ r = Ok QueueEmpty.

Lemma firing_drains cfg k (s s' : X) l :
  sql_inv (xsql s) → is_Some (do_alarm s) ∨ v_waiting s = [] → keep_firing cfg k s = (l, s') →
  Forall progress l → (length (v_waiting s) ≤ POLL_BATCH_SIZE * k)%nat →
  v_waiting s' = [] ∧ (∀ id, id ∈ v_waiting s → finished s' id) ∧ ∀ id, finished s id → finished s' id.
Proof using C D K N W.
  assert (Hend : ∀ s : X, v_waiting s = [] →
    v_waiting s = [] ∧ (∀ id, id ∈ v_waiting s → finished s id) ∧ ∀ id, finished s id → finished s id).
  { intros x ->. split_and!; [done|set_solver|done]. }
  revert s l. induction k as [|k IH]; intros s l Hi Hat Hk Hl Hlen; cbn [keep_firing] in Hk.
  { injection Hk as <- <-. apply Hend, length_zero_iff_nil. lia. }
  destruct (do_alarm s) as [at_|]; cycle 1.
  { injection Hk as <- <-. apply Hend. by destruct Hat as [[]|]. }
  destruct (alarm (Ok cfg) (clear_alarm s)) as [r s1] eqn:Ha.
  destruct (keep_firing cfg k s1) as [l1 s2] eqn:Hk1. injection Hk as <- <-.
  apply Forall_cons in Hl as [Hr Hl1].
  destruct (alarm_posts cfg (clear_alarm s) s1 r Hi Ha) as (n & (Hi1 & Hw & Hkeep & Hfin) & Hn & Hpost).
  change (v_waiting (clear_alarm s)) with (v_waiting s) in *.
  assert (Hnext : (is_Some (do_alarm s1) ∨ v_waiting s1 = []) ∧ (length (v_waiting s1) ≤ POLL_BATCH_SIZE * k)%nat).
  { destruct Hr as [-> | ->].
    - destruct Hpost as (-> & _ & Hor). split; [destruct Hor as [?|Hs]; [by right|left; rewrite Hs; by eexists]|].
      rewrite Hw, length_drop. lia.
    - destruct Hpost as [_ He]. split; [by right|]. rewrite He. cbn. lia. }
  destruct (IH s1 l1 Hi1 (proj1 Hnext) Hk1 Hl1 (proj2 Hnext)) as (H1 & H2 & H3).
  split_and!; [done| |].
  - intros id Hid. rewrite <-(take_drop n (v_waiting s)) in Hid. apply elem_of_app in Hid as [Hid|Hid].
    + by apply H3, Hfin.
    + apply H2. by rewrite Hw.
  - intros id Hf. apply H3. by apply Hkeep.
Qed.

(** The alarm chain drains the queue.  As long as every alarm finds a
    fee and its batch advances, one armed alarm is enough: each handler arms
    the next, and after one firing per 50 envelopes the queue is empty and
    every task that was waiting is finished. *)
Theorem alarms_drain cfg k (s s' : X) l :
  sql_inv (xsql s) → is_Some (do_alarm s) → keep_firing cfg k s = (l, s') → Forall progress l →
  (length (v_waiting s) ≤ POLL_BATCH_SIZE * k)%nat →
  v_waiting s' = [] ∧ ∀ id, id ∈ v_waiting s → finished s' id.
Proof using C D K N W.
  intros Hi Ha Hk Hl Hlen. destruct (firing_drains cfg k s s' l Hi (or_introl Ha) Hk Hl Hlen) as (H1 & H2 & _).
  by split.
Qed.
End alarm.

(** ** Requests *)

Section requests.
Context `{C : Crates, K : StoreCodec} {N : Type} `{W : ChainClient N, D : DoChain N}.
Context (cfg : Deployment).
#[local] Instance this_submitter : Shell (SubmitterDo N) := do_shell cfg.

Abbreviation X := (SubmitterDo N).
Abbreviation xsql s := (sql (do_sql s)).

Lemma other_bootstrap (s s' : X) r : bootstrap s = (r, s') → do_other s s'.
Proof using K N.
  unfold bootstrap, on_sql, update_, statement. destruct (outages (do_sql s)) as [|[] o];
    intros [= <- <-]; apply do_environment, other_quiet, quiet_refl.
Qed.

Lemma other_purged (s s' : X) r : on_sql sq_purge_expired s = (r, s') → do_other s s'.
Proof using K N.
  unfold on_sql. destruct (sq_purge_expired (do_sql s)) as [a w] eqn:Hp. intros [= <- <-].
  destruct w as [d o]. apply do_environment. change d with (sql (mkSqlWorld d o)).
  eapply other_purge with (o := outages (do_sql s)). rewrite <-Hp. by destruct (do_sql s).
Qed.

Lemma ensure_armed (s s' : X) r :
  ensure_alarm s = (r, s') → xsql s' = xsql s ∧ (∀ u, r = Ok u → is_Some (do_alarm s')).
Proof using K N.
  intros [(e & He & ->)|(armed & s1 & He & Hr)]%try_split; destruct (alarm_io_spec _ _ _ _ He) as (Hx & _ & Ha & _);
    [done|].
  specialize (Ha armed eq_refl). injection Ha as -> Ha. destruct (do_alarm s) as [at_|] eqn:Hat.
  - injection Hr as <- <-. split; [done|]. intros _ _. rewrite Ha. by eexists.
  - destruct (schedule_spec _ _ _ _ Hr) as (_ & Hx1 & Hs & _). split; [congruence|].
    intros u Hu. rewrite (Hs u Hu). by eexists.
Qed.

(** A request that answers [Queued]: its task is accounted for, and the
    alarm is armed if the task is live. *)
Lemma fetch_queued id sub ip i st (s s' : X) :
  shell_ok s → ¬ v_present s id →
  fetch (Ok cfg) id (RAdmit sub ip) s = (Ok (Outcome (Queued i st)), s') →
  sql_inv (xsql s') ∧ accounted s' i ∧ (is_terminal st = false → is_Some (do_alarm s')).
Proof.
  intros Hs Hn He.
  apply try_split in He as [(e & _ & [=])|(u & s1 & H1%other_bootstrap & He)].
  apply try_split in He as [(e & _ & [=])|(u2 & s2 & H2%other_purged & He)].
  assert (Hi2 : sys_inv (mkSys s2 [] None)).
  { assert (Hi : sys_inv (mkSys s [] None)) by (split; [done|constructor|set_solver|done]).
    eapply step_inv_sys; [|by apply (sys_environment (mkSys s1 [] None))].
    eapply step_inv_sys; [exact Hi|by apply (sys_environment (mkSys s [] None))]. }
  assert (Hn2 : ¬ v_present s2 id).
  { destruct (do_other_ok _ _ (so_inv _ Hs) H1) as (Hi1 & Hm1 & _).
    destruct (do_other_ok _ _ Hi1 H2) as (_ & Hm2 & _).
    intros Hp. apply Hn. eapply (mv_absent _ _ _ _ Hm1); [done|]. by eapply (mv_absent _ _ _ _ Hm2). }
  apply try_split in He as [(e & _ & [=])|(o & s3 & Hrun & He)].
  unfold run_admission, get_chain, do_try, do_bind, do_ret in Hrun.
  destruct (run _ _ s2) as [[s4 t] m] eqn:Hr. injection Hrun as <- ->.
  apply try_split in He as [(e & _ & [=])|(u5 & s5 & Ha & He)]. injection He as Hm ->.
  assert (Hi3 : sys_inv (mkSys s2 [new_request id ip sub (s_now (xsql s2))] None)).
  { eapply step_inv_sys; [exact Hi2|]. exact (sys_request (mkSys s2 [] None) id ip sub Hn2 (not_elem_of_nil _)). }
  pose proof (run_request _ _ _ _ _ Hi3 Hr) as Hi4. cbn [new_request rq_trace] in Hi4.
  assert (Hacc : accounted s3 i).
  { eapply (queued_accounted _ _ m i st Hi4); [by left|done|done]. }
  assert (Hx : xsql s' = xsql s3 ∧ (is_terminal st = false → is_Some (do_alarm s'))).
  { rewrite Hm in Ha. cbn [needs_alarm] in Ha. destruct (is_terminal st).
    - by injection Ha as _ <-.
    - destruct (ensure_armed _ _ _ Ha) as [? Har]. split; [done|]. intros _. by apply (Har u5). }
  destruct Hx as [Hx Harm]. split_and!; [rewrite Hx; apply (so_inv _ (si_shell _ Hi4))| |done].
  destruct Hacc as [Hp Hf]. unfold accounted, v_present, finished, v_waiting, v_get, do_view in *.
  by rewrite Hx.
Qed.
(** A "queued" answer of the Cloudflare shell is acted on.  From any
    reachable state of the service, a submission that is answered [Queued]
    with a live task leaves the task finished or waiting and the alarm
    armed; and once the alarms that follow have advanced, one per 50
    envelopes waiting, the task is finished. *)
Theorem queued_is_settled (y : Sys X) id sub ip i st s1 k l s2 :
  sys_reachable y → ¬ v_present (y_shell y) id →
  fetch (Ok cfg) id (RAdmit sub ip) (y_shell y) = (Ok (Outcome (Queued i st)), s1) →
  is_terminal st = false →
  keep_firing cfg k s1 = (l, s2) → Forall progress l → (length (v_waiting s1) ≤ POLL_BATCH_SIZE * k)%nat →
  accounted s1 i ∧ is_Some (do_alarm s1) ∧ finished s2 i.
Proof.
  intros Hy%inv_sys Hn He Hst Hk Hl Hlen.
  destruct (fetch_queued _ _ _ _ _ _ _ (si_shell _ Hy) Hn He) as (Hi & Ha & Harm). specialize (Harm Hst).
  destruct (firing_drains cfg k s1 s2 l Hi (or_introl Harm) Hk Hl Hlen) as (_ & H2 & H3).
  split_and!; [done..|]. destruct Ha as [_ [Hf|Hw]]; [by apply H3|by apply H2].
Qed.

(** C10. No admitted task is ever lost by the Cloudflare shell.  However
    requests, the alarm's operations, evictions, failing statements, expiry
    and the chain interleave: a stored task that is marked admitted and
    still pending has a row in the queue. *)
Theorem cf_no_task_lost (y : Sys X) id t :
  sys_reachable y → v_get (xsql (y_shell y)) id = Some t → admitted t = true → status t = Pending →
  id ∈ (s_queue (xsql (y_shell y))).*2.
Proof. intros Hy Hg Ha Hp. apply (awaiting_waits y id t Hy); [done|by split]. Qed.

(** C38. The object's tables stay well formed: in every reachable state,
    whichever statements failed, each row of [tasks] holds the serialized
    task of its own id, its [status], [active], [content_hash] and
    [created_at] columns agree with that payload, and it has an expiry
    exactly when the task is finished. *)
Theorem cf_rows_agree (y : Sys X) id r :
  sys_reachable y → s_tasks (xsql (y_shell y)) !! id = Some r → ∃ t, row_for id t r.
Proof. intros Hy%inv_sys. apply (qi_rows _ (so_inv _ (si_shell _ Hy))). Qed.

(** What a client of the Cloudflare shell was told is kept.  When a
    request has been answered [Queued] with a task id, then in every later
    state of the service the task was admitted, and it is finished (done,
    failed, or its finished record expired) or has a row in the queue. *)
Theorem cf_queued_is_kept (y y' : Sys X) q m id st :
  sys_reachable y → q ∈ y_requests y → rq_prog q = Ret m → settle m = Queued id st →
  rtc sys_step y y' → accounted (y_shell y') id.
Proof. apply queued_stays. Qed.

(** ** Counters *)

(** What a counter answers after its window has passed. *)
Lemma bump_after key w n w' :
  map_Forall (λ _ row, row.2 ≤ s_now (sql w)) (s_rates (sql w)) →
  sq_bump_minute_counter key w = (Ok n, w') → n = 1.
Proof using K N.
  intros Hw. unfold sq_bump_minute_counter, dm_bind, dm_now, statement.
  assert (Hb : ∀ m, (bump key (s_now (sql w)) (s_rates (sql w))) = (m, (bump key (s_now (sql w)) (s_rates (sql w))).2) → m = 1).
  { intros m. unfold bump. destruct (s_rates (sql w) !! key) as [[c e]|] eqn:Hk; [|by intros [= <-]].
    specialize (Hw key _ Hk). cbn in Hw. rewrite (proj2 (Z.leb_le _ _) Hw). by intros [= <-]. }
  destruct (bump _ _ _) as [c m]. specialize (Hb c eq_refl) as ->.
  by destruct (outages w) as [|[] o]; intros [= <- _].
Qed.

(** A client of the Cloudflare shell is never locked out by its own
    counter.  From any reachable state, whatever statements failed before: a
    minute later the counter of any key starts over, so the per-client limit
    lets the next request through.  (The Redis counter of the Docker shell
    can stick: [rate_counter_can_stick].) *)
Theorem cf_rate_recovers (y : Sys X) ms key o n w' :
  sys_reachable y → 60_000 ≤ ms →
  sq_bump_minute_counter key (mkSqlWorld (sql_tick ms (xsql (y_shell y))) o) = (Ok n, w') → n = 1.
Proof.
  intros Hy%inv_sys Hms. apply bump_after. intros k row Hk.
  pose proof (qi_rates _ (so_inv _ (si_shell _ Hy)) k row Hk) as Hr. cbn in *. lia.
Qed.
End requests.

(** ** Evaluation on examples *)
Section submitter_examples.
#[local] Existing Instance concrete_crates.
#[local] Existing Instance concrete_codec.
#[local] Existing Instance confirming_chain.

(** A fee below the cap; no group is registered. *)
#[local] Instance cheap_chain : DoChain Z := {|
  do_fee_plan c := (Ok (Send (mkFeePlan 7 3)), c);
  do_unit_by_group_key _ c := (Ok None, c);
|}.

Definition sample_deployment : Deployment := mkDeployment 100 true sample_registry_hex.
#[local] Instance sample_do : Shell (SubmitterDo Z) := do_shell sample_deployment.

Definition quiet_do : SubmitterDo Z := mkSubmitter (mkSqlWorld empty_sql []) None 0 None 0.
Definition quiet_service : Sys (SubmitterDo Z) := mkSys quiet_do [] None.
Definition asked_service : Sys (SubmitterDo Z) :=
  mkSys quiet_do [new_request "t1" "peer" sample_submission 1_000] None.
Definition answered_service : Sys (SubmitterDo Z) := turns 20 asked_service.

Lemma quiet_reachable : sys_reachable quiet_service.
Proof. exists quiet_service. split; [done|apply rtc_refl]. Qed.

Lemma quiet_absent : ¬ v_present quiet_do "t1".
Proof. intros [[r Hr]|Hp]; cbn in *; set_solver. Qed.

Lemma asked_service_step : sys_step quiet_service asked_service.
Proof. exact (sys_request quiet_service "t1" "peer" sample_submission quiet_absent (not_elem_of_nil _)). Qed.

Lemma answered_service_reachable : sys_reachable answered_service.
Proof.
  exists quiet_service. split; [done|]. eapply rtc_l; [apply asked_service_step|]. apply turns_steps.
Qed.

(** The whole life of a task: admitted by a request, written by one alarm. *)
Definition fetched : result DoResponse string * SubmitterDo Z :=
  fetch (Ok sample_deployment) "t1" (RAdmit sample_submission "peer") quiet_do.
Definition fired : list (result AlarmReport string) * SubmitterDo Z :=
  keep_firing sample_deployment 1 fetched.2.

#[local] Strategy -10 [fetched fired].

Lemma pair_of {A B} (p : A * B) a : p.1 = a → p = (a, p.2).
Proof. by destruct p as [x y]; intros <-. Qed.

Lemma fetched_queued :
  fetch (Ok sample_deployment) "t1" (RAdmit sample_submission "peer") quiet_do =
    (Ok (Outcome (Queued "t1" Pending)), fetched.2).
Proof. fold fetched. apply pair_of. vm_compute. reflexivity. Qed.
Lemma fired_advanced : keep_firing sample_deployment 1 fetched.2 = ([Ok BatchAdvanced], fired.2).
Proof. fold fired. apply pair_of. vm_compute. reflexivity. Qed.
Lemma fetched_waiting : v_waiting fetched.2 = ["t1"] ∧ do_alarm fetched.2 = Some 1_000.
Proof. vm_compute. done. Qed.

Lemma queued_is_settled_witness :
  accounted fetched.2 "t1" ∧ is_Some (do_alarm fetched.2) ∧ finished fired.2 "t1".
Proof.
  apply (queued_is_settled sample_deployment quiet_service "t1" sample_submission "peer" "t1" Pending
    fetched.2 1 [Ok BatchAdvanced] fired.2 quiet_reachable quiet_absent fetched_queued eq_refl fired_advanced).
  - repeat constructor.
  - rewrite (proj1 fetched_waiting). cbn. unfold POLL_BATCH_SIZE. lia.
Defined.

Lemma fetched_inv : sql_inv (sql (do_sql fetched.2)).
Proof.
  apply (fetch_queued sample_deployment "t1" sample_submission "peer" "t1" Pending quiet_do fetched.2
    (si_shell _ (inv_sys _ quiet_reachable)) quiet_absent fetched_queued).
Qed.

Lemma alarms_drain_witness :
  v_waiting fired.2 = [] ∧ ∀ id, id ∈ v_waiting fetched.2 → finished fired.2 id.
Proof.
  apply (alarms_drain sample_deployment 1 fetched.2 fired.2 [Ok BatchAdvanced] fetched_inv).
  - rewrite (proj2 fetched_waiting). by eexists.
  - exact fired_advanced.
  - repeat constructor.
  - rewrite (proj1 fetched_waiting). cbn. unfold POLL_BATCH_SIZE. lia.
Defined.

(** The runtime has fired the alarm, and the first statement fails. *)
Definition failing (s : SubmitterDo Z) : SubmitterDo Z :=
  mkSubmitter (mkSqlWorld (sql (do_sql s)) [true]) None (do_failures s) (do_nonce s) (do_chain s).

Lemma failing_inv s : sql_inv (sql (do_sql s)) → sql_inv (sql (do_sql (failing s))).
Proof. done. Qed.

Lemma alarm_settles_witness :
  alarm_post sample_deployment fetched.2 (Ok BatchAdvanced) (alarm (Ok sample_deployment) fetched.2).2 ∧
  do_alarm (alarm (Ok sample_deployment) (failing fetched.2)).2 = None ∧
  v_waiting (alarm (Ok sample_deployment) (failing fetched.2)).2 = ["t1"].
Proof.
  split.
  { apply (alarm_settles sample_deployment fetched.2 _ (Ok BatchAdvanced) fetched_inv).
    apply pair_of. vm_compute. reflexivity. }
  assert (Ha : alarm (Ok sample_deployment) (failing fetched.2) =
    (Err "SQL statement failed", (alarm (Ok sample_deployment) (failing fetched.2)).2))
    by (apply pair_of; vm_compute; reflexivity).
  destruct (alarm_settles sample_deployment (failing fetched.2) _ _ (failing_inv _ fetched_inv) Ha) as (_ & _ & _ & Hslot).
  split; [exact Hslot|]. vm_compute. reflexivity.
Defined.

Lemma cf_no_task_lost_witness :
  v_get (sql (do_sql (y_shell answered_service))) "t1" = Some (set_admitted true sample_task) ∧
  "t1" ∈ (s_queue (sql (do_sql (y_shell answered_service)))).*2.
Proof.
  assert (Hg : v_get (sql (do_sql (y_shell answered_service))) "t1" = Some (set_admitted true sample_task))
    by (vm_compute; reflexivity).
  split; [exact Hg|].
  apply (cf_no_task_lost sample_deployment answered_service "t1" (set_admitted true sample_task)
    answered_service_reachable Hg eq_refl eq_refl).
Defined.

Lemma cf_queued_is_kept_witness :
  ∃ q m, y_requests answered_service = [q] ∧ rq_prog q = Ret m ∧ settle m = Queued "t1" Pending ∧
    accounted (y_shell answered_service) "t1".
Proof.
  destruct (y_requests answered_service) as [|q [|]] eqn:Hl; [by vm_compute in Hl| |by vm_compute in Hl].
  assert (Ha : answer_of <$> y_requests answered_service = [Some (Queued "t1" Pending)])
    by (vm_compute; reflexivity).
  rewrite Hl in Ha. injection Ha as Ha. unfold answer_of in Ha.
  destruct (rq_prog q) as [m|] eqn:Hp; [|done]. injection Ha as Hm.
  exists q, m. split; [done|]. split; [done|]. split; [done|].
  apply (cf_queued_is_kept sample_deployment answered_service answered_service q m "t1" Pending
    answered_service_reachable); [rewrite Hl; by left|done|done|apply rtc_refl].
Defined.

Lemma cf_rate_recovers_witness :
  ∃ n w', sq_bump_minute_counter "create:peer"
    (mkSqlWorld (sql_tick 60_000 (sql (do_sql (y_shell answered_service)))) []) = (Ok n, w') ∧ n = 1.
Proof.
  destruct (sq_bump_minute_counter "create:peer"
    (mkSqlWorld (sql_tick 60_000 (sql (do_sql (y_shell answered_service)))) [])) as [r w'] eqn:Hb.
  assert (Hr : ∃ n, r = Ok n).
  { change r with (r, w').1. rewrite <-Hb. eexists. vm_compute. reflexivity. }
  destruct Hr as [n ->]. exists n, w'. split; [done|].
  by apply (cf_rate_recovers sample_deployment answered_service 60_000 "create:peer" [] n w'
    answered_service_reachable).
Defined.
Lemma cf_rows_agree_witness :
  ∃ r t, s_tasks (sql (do_sql (y_shell answered_service))) !! "t1" = Some r ∧ row_for "t1" t r.
Proof.
  destruct (s_tasks (sql (do_sql (y_shell answered_service))) !! "t1") as [r|] eqn:Hr;
    [|by vm_compute in Hr].
  destruct (cf_rows_agree sample_deployment answered_service "t1" r answered_service_reachable Hr) as [t Ht].
  exists r, t. split; [reflexivity|exact Ht].
Defined.
End submitter_examples.
