(* ===== verification/Maintenance.v ===== *)
(** * Maintenance ([p256-index-server/src/maintenance.rs])

    The executor of the rescue plan (the broadcast ledger is read, each
    planned action is carried out against the store and the chain), the
    operator alerts, each kind at most once per throttle window, and the
    daily heartbeat.  Messages sent are kept in order. *)
From Stdlib Require Import Ascii String Strings.Byte.
From S2P Require Export Worker Rescue.
From stdpp Require Import options.

(** What the loop asks of the chain client ([Chain]), and its cap. *)
Class SweepChain (S : Type) := {
  base_fee : S → result Z ChainError * S;
  confirmed_nonce : S → result Z ChainError * S;
  cancel_stuck_nonce : Z → FeePlan → S → result string ChainError * S;
  sc_circuit_state : S → string * S;
  sc_balance : S → result Z ChainError * S;
  sc_gas_price : S → result Z ChainError * S;
  sc_wallet_address : option string;
  max_gas_price_wei : Z;
}.

Inductive AlertKind := AlertStuck | AlertGasCapped | AlertRpc | AlertDlq | AlertLowRunway.

#[export] Instance alert_kind_eq_dec : EqDecision AlertKind.
Proof. solve_decision. Defined.

(** A message to the operators: an alert's kind, or [None] for a heartbeat. *)
Record Message := mkMessage {
  msg_kind : option AlertKind;
  msg_at : Z;
  msg_text : string;
}.

(** [last_alert] is the five [last_*_alert] fields. *)
Record Maintenance (S : Type) := mkMaintenance {
  m_store : World;
  m_chain : S;
  last_alert : AlertKind → option Z;
  last_heartbeat : option Z;
  m_started : Z;
  m_release : option string;
  m_telegram : bool;
  m_sent : list Message;
}.
Arguments mkMaintenance {S} _ _ _ _ _ _ _ _.
Arguments m_store {S} _.
Arguments m_chain {S} _.
Arguments last_alert {S} _ _.
Arguments last_heartbeat {S} _.
Arguments m_started {S} _.
Arguments m_release {S} _.
Arguments m_telegram {S} _.
Arguments m_sent {S} _.

Definition ledger_row_of (row : PendingTx) : LedgerRow :=
  mkLedgerRow (p_role row) (p_nonce row) (p_hash row) (p_sent_at_ms row) (p_attempts row)
    (f ← p_max_fee_wei row; p ← p_max_priority_fee_wei row; Some (f, p)).

Definition gas_capped_alert (role : string) (nonce required cap : Z) : string :=
  "🛑 [webauthnp256-publickey-index] stuck " +:+ role +:+ " nonce " +:+ fmt nonce +:+
  " needs " +:+ fmt required +:+ " wei to replace, above the " +:+ fmt cap +:+
  " wei cap. Raise P256_INDEX_MAX_GAS_PRICE_WEI or intervene manually.".

(** ** Operators are not flooded *)

(** The least time between two messages of a kind, in milliseconds. *)
Definition spacing (kind : option AlertKind) : Z :=
  match kind with Some _ => ALERT_THROTTLE * 1_000 | None => HEARTBEAT_INTERVAL * 1_000 end.

Definition spaced (l : list Message) : Prop :=
  ∀ i j a b, (i < j)%nat → l !! i = Some a → l !! j = Some b → msg_kind a = msg_kind b →
    msg_at a + spacing (msg_kind a) ≤ msg_at b.

(** What both shells keep: the messages sent are spaced, and the slot of a
    kind is never before the last message of that kind. *)
Record messages_ok (slot : option AlertKind → option Z) (now_ms : Z) (sent : list Message) : Prop := {
  mo_spaced : spaced sent;
  mo_slots a : a ∈ sent → ∃ t, slot (msg_kind a) = Some t ∧ msg_at a ≤ t ≤ now_ms;
}.

Lemma messages_none slot now_ms : messages_ok slot now_ms [].
Proof. split; [by intros ? ? ? ? ? ?|set_solver]. Qed.

Lemma messages_later slot slot' now_ms now' sent :
  messages_ok slot now_ms sent → (∀ k, slot' k = slot k) → now_ms ≤ now' → messages_ok slot' now' sent.
Proof.
  intros [H1 H2] Hk Hn. split; [done|].
  intros a (t & Ht & Hb)%H2. exists t. rewrite Hk. split; [done|lia].
Qed.

Lemma spaced_snoc l m :
  spaced l → (∀ a, a ∈ l → msg_kind a = msg_kind m → msg_at a + spacing (msg_kind m) ≤ msg_at m) →
  spaced (l ++ [m]).
Proof.
  intros Hl Hm i j a b Hij Ha Hb Hk. pose proof (lookup_lt_Some _ _ _ Hb) as Hj.
  rewrite length_app in Hj. cbn in Hj. rewrite lookup_app_l in Ha by lia.
  apply lookup_app_Some in Hb as [Hb|[_ Hb]]; [exact (Hl i j a b Hij Ha Hb Hk)|].
  apply list_lookup_singleton_Some in Hb as [_ <-]. rewrite Hk. apply Hm; [|done].
  by eapply list_elem_of_lookup_2.
Qed.

(** A message of a kind whose slot is far enough back; it may get lost. *)
Lemma messages_send slot slot' sent sent' m :
  messages_ok slot (msg_at m) sent →
  (∀ t, slot (msg_kind m) = Some t → spacing (msg_kind m) ≤ sat_sub (msg_at m) t) →
  (sent' = sent ∨ sent' = sent ++ [m]) → slot' (msg_kind m) = Some (msg_at m) →
  (∀ k, k ≠ msg_kind m → slot' k = slot k) → messages_ok slot' (msg_at m) sent'.
Proof.
  intros [H1 H2] Hdue Hs Hslot Hother.
  assert (Hgap : 0 < spacing (msg_kind m)) by by destruct (msg_kind m).
  assert (Hold : ∀ a, a ∈ sent → msg_kind a = msg_kind m → msg_at a + spacing (msg_kind m) ≤ msg_at m).
  { intros a Ha Hk. destruct (H2 a Ha) as (t & Ht & Hb). rewrite Hk in Ht. specialize (Hdue t Ht).
    unfold sat_sub in Hdue. lia. }
  assert (Hslots : ∀ a, a ∈ sent → ∃ t, slot' (msg_kind a) = Some t ∧ msg_at a ≤ t ≤ msg_at m).
  { intros a Ha. destruct (decide (msg_kind a = msg_kind m)) as [Hk|Hk].
    - exists (msg_at m). rewrite Hk, Hslot. split; [done|]. specialize (Hold a Ha Hk). lia.
    - rewrite Hother by done. by apply H2. }
  split.
  - destruct Hs as [-> | ->]; [done|]. by apply spaced_snoc.
  - intros a Ha. destruct Hs as [Hs|Hs]; rewrite Hs in Ha; [by apply Hslots|].
    apply elem_of_app in Ha as [Ha| ->%list_elem_of_singleton]; [by apply Hslots|].
    exists (msg_at m). split; [done|]. lia.
Qed.

Section sweep.
Context `{K : StoreCodec} {S : Type} `{SweepChain S}.

Definition with_world (w : World) (s : Maintenance S) : Maintenance S :=
  mkMaintenance w (m_chain s) (last_alert s) (last_heartbeat s) (m_started s) (m_release s)
    (m_telegram s) (m_sent s).
Definition with_chain (c : S) (s : Maintenance S) : Maintenance S :=
  mkMaintenance (m_store s) c (last_alert s) (last_heartbeat s) (m_started s) (m_release s)
    (m_telegram s) (m_sent s).

(** The clock is the store's; the kind's slot remembers when it last fired.
    Without Telegram the alert goes to the log. *)
Definition alert_throttled (kind : AlertKind) (message : string) (s : Maintenance S) : Maintenance S :=
  let t := now (db (m_store s)) in
  if match last_alert s kind with Some at_ => sat_sub t at_ <? ALERT_THROTTLE * 1_000 | None => false end
  then s else
  mkMaintenance (m_store s) (m_chain s)
    (λ k, if bool_decide (k = kind) then Some t else last_alert s k) (last_heartbeat s) (m_started s)
    (m_release s) (m_telegram s) (m_sent s ++ [mkMessage (Some kind) t message]).

(** [record_pending_tx] and [delete_pending_tx], their answers ignored. *)
Definition write_row (nonce : Z) (hash : string) (sent_at attempts : Z) (bid : option (Z * Z))
    (s : Maintenance S) : Maintenance S :=
  with_world (record_pending_tx REGISTER_ROLE nonce hash sent_at attempts bid (m_store s)).2 s.
Definition drop_row (nonce : Z) (s : Maintenance S) : Maintenance S :=
  with_world (delete_pending_tx REGISTER_ROLE nonce (m_store s)).2 s.

Definition replacement_verdict (base attempts_after : Z) (previous_fees_wei : option (Z * Z)) : FeeVerdict :=
  plan_replacement ((λ '(max_fee, priority), mkFeePlan max_fee priority) <$> previous_fees_wei)
    base DEFAULT_TIP_WEI max_gas_price_wei (sat_sub attempts_after 1).

Definition bid_of (fees : FeePlan) : option (Z * Z) :=
  f ← try_u128 (max_fee_per_gas fees); p ← try_u128 (max_priority_fee_per_gas fees); Some (f, p).

Definition row_identity (rows : list LedgerRow) (nonce_ now_ms : Z) : string * Z :=
  match list_find (λ row, role row = REGISTER_ROLE ∧ nonce row = nonce_) rows with
  | Some (_, row) => (hash row, sent_at_ms row)
  | None => (EmptyString, now_ms)
  end.

Definition run_action (rows : list LedgerRow) (base now_ms : Z) (s : Maintenance S)
    (action : RescueAction) : Maintenance S :=
  match action with
  | DropConsumedRow nonce => drop_row nonce s
  | Escalate message => alert_throttled AlertStuck message s
  | Replace nonce attempts_after previous_fees_wei =>
      match replacement_verdict base attempts_after previous_fees_wei with
      | TooExpensive required cap =>
          alert_throttled AlertGasCapped (gas_capped_alert REGISTER_ROLE nonce required cap) s
      | Send fees =>
          let '(row_hash, sent_at) := row_identity rows nonce now_ms in
          let '(r, c) := cancel_stuck_nonce nonce fees (m_chain s) in
          let s := with_chain c s in
          match r with
          | Ok cancel_hash => write_row nonce cancel_hash now_ms attempts_after (bid_of fees) s
          | Err error =>
              if is_replacement_underpriced error
              then write_row nonce row_hash sent_at attempts_after (bid_of fees) s
              else s
          end
      end
  end.

Definition unstick_sweep (s : Maintenance S) : Maintenance S :=
  let now_ms := now (db (m_store s)) in
  let '(r, w) := list_pending_txs (sat_sub now_ms STUCK_TX_AGE_MS) (m_store s) in
  let s := with_world w s in
  match r with
  | Err _ => s
  | Ok txs =>
      let rows := ledger_row_of <$> txs in
      match rows with
      | [] => s
      | _ =>
          let '(b, c) := base_fee (m_chain s) in
          let s := with_chain c s in
          match b with
          | Err _ => s
          | Ok base =>
              let '(n, c) := confirmed_nonce (m_chain s) in
              let s := with_chain c s in
              match n with
              | Err _ => s
              | Ok confirmed =>
                  foldl (run_action rows base now_ms) s
                    (plan_role_sweep REGISTER_ROLE confirmed rows now_ms)
              end
          end
      end
  end.

(** ** Alerts and the heartbeat *)

Definition try_u128_or_max (n : Z) : Z := default U128_MAX (try_u128 n).

Definition check_alerts (s : Maintenance S) : Maintenance S :=
  let '(circuit, c) := sc_circuit_state (m_chain s) in
  let s := with_chain c s in
  let s := if bool_decide (circuit = "open") then alert_throttled AlertRpc rpc_circuit_alert s else s in
  let '(stats, w) := queue_stats (m_store s) in
  let s := with_world w s in
  let s := match stats with
    | Ok stats =>
        if DLQ_ALERT_THRESHOLD <=? q_dlq_count stats
        then alert_throttled AlertDlq (dlq_alert (q_dlq_count stats)) s else s
    | Err _ => s
    end in
  let '(balance, c) := sc_balance (m_chain s) in
  let '(price, c) := sc_gas_price c in
  let s := with_chain c s in
  match balance, price with
  | Ok balance, Ok price =>
      let balance := wei_to_xdai (try_u128_or_max balance) in
      let price := wei_to_gwei (try_u128_or_max price) in
      let runway := estimate_create_runway balance price in
      if f64_is_finite runway && SpecFloat.SFltb runway LOW_RUNWAY_CREATES
      then alert_throttled AlertLowRunway (low_runway_alert runway balance price) s else s
  | _, _ => s
  end.

Definition heartbeat_due (s : Maintenance S) : bool :=
  match last_heartbeat s with
  | Some at_ => HEARTBEAT_INTERVAL * 1_000 <=? sat_sub (now (db (m_store s))) at_
  | None => true
  end.

Definition maybe_heartbeat (s : Maintenance S) : Maintenance S :=
  if negb (heartbeat_due s) then s else
  let t := now (db (m_store s)) in
  let '(stats, w) := queue_stats (m_store s) in
  let '(gas_price, c) := sc_gas_price (m_chain s) in
  let '(wallet_balance, c) := sc_balance c in
  let message := build_heartbeat_message (mkHeartbeatInput "Rust"
    (match stats with Ok st => q_depth st | Err _ => 0 end)
    (match stats with Ok st => q_dlq_count st | Err _ => 0 end)
    (default "" sc_wallet_address)
    (match wallet_balance with Ok b => wei_to_xdai (try_u128_or_max b) | Err _ => f64_of_Z 0 end)
    (match gas_price with Ok p => wei_to_gwei (try_u128_or_max p) | Err _ => f64_of_Z 0 end)
    (sat_sub t (m_started s) / 1_000) (m_release s)) in
  mkMaintenance w c (last_alert s) (Some t) (m_started s) (m_release s) (m_telegram s)
    (if m_telegram s then m_sent s ++ [mkMessage None t message] else m_sent s).

(** One pass of the loop. *)
Definition tick_ (s : Maintenance S) : Maintenance S :=
  maybe_heartbeat (check_alerts (unstick_sweep s)).

(** ** What a sweep may do to the ledger *)

(** The chain judged the bid [fees] at [nonce]: it took it, with this hash,
    or refused it as underpriced. *)
Definition bid_judged (nonce : Z) (fees : FeePlan) (h : option string) : Prop :=
  ∃ c, match (cancel_stuck_nonce nonce fees c).1 with
       | Ok hash => h = Some hash
       | Err e => is_replacement_underpriced e = true ∧ h = None
       end.

(** The rows a [Replace] of the plan may write: the chain judged a bid that
    [plan_replacement] made from the recorded one; a taken bid gets the new
    hash and time, an underpriced one keeps the row's. *)
Definition replaced_row (rows : list LedgerRow) (base now_ms nonce attempts : Z)
    (previous : option (Z * Z)) (v : string) : Prop :=
  ∃ fees h, replacement_verdict base attempts previous = Send fees ∧ bid_judged nonce fees h ∧
    let '(hash, sent_at) :=
      match h with Some hash => (hash, now_ms) | None => row_identity rows nonce now_ms end in
    v = pending_to_json (mkPendingTxEntry hash sent_at attempts
      ((λ f : Z * Z, fmt f.1) <$> bid_of fees) ((λ f : Z * Z, fmt f.2) <$> bid_of fees)).

Definition allowed_row (rows : list LedgerRow) (base confirmed now_ms : Z) (old : gmap string string)
    (k : string) (v : option string) : Prop :=
  v = old !! k ∨
  ∃ row, row ∈ rows ∧ role row = REGISTER_ROLE ∧ k = ledger_field REGISTER_ROLE (nonce row) ∧
    if nonce row <? confirmed then v = None
    else ∃ e, v = Some e ∧ replaced_row rows base now_ms (nonce row) (wrap32 (attempts row + 1)) (fees_wei row) e.

(** ** Lemmas *)

Lemma ledger_field_inj n m : ledger_field REGISTER_ROLE n = ledger_field REGISTER_ROLE m → n = m.
Proof. intros [= E]. unfold fmt in E. by apply (inj pretty). Qed.

(** Where the actions of a plan come from. *)
Lemma plan_action rows confirmed now_ms action :
  action ∈ plan_role_sweep REGISTER_ROLE confirmed rows now_ms →
  match action with
  | DropConsumedRow n => ∃ row, row ∈ rows ∧ role row = REGISTER_ROLE ∧ n = nonce row ∧ n < confirmed
  | Escalate _ => True
  | Replace n k f => ∃ row, row ∈ rows ∧ role row = REGISTER_ROLE ∧ n = nonce row ∧ confirmed ≤ n ∧
      k = wrap32 (attempts row + 1) ∧ f = fees_wei row
  end.
Proof.
  unfold plan_role_sweep. set (l := sort_by_nonce _).
  assert (Hl : ∀ row, row ∈ l → row ∈ rows ∧ role row = REGISTER_ROLE).
  { intros row. subst l. rewrite sort_by_nonce_perm, list_elem_of_filter. tauto. }
  revert Hl. generalize 0%nat. induction l as [|row l IH]; intros j Hl; cbn [sweep_rows]; [set_solver|].
  destruct (Hl row) as [Hin Hrole]; [by left|].
  assert (Hl' : ∀ r, r ∈ l → r ∈ rows ∧ role r = REGISTER_ROLE) by (intros; apply Hl; by right).
  destruct (Z.ltb_spec (nonce row) confirmed).
  - intros [->|Ha]%elem_of_cons; [by exists row|by eapply IH].
  - intros [Ha|Ha]%elem_of_app.
    + destruct (_ || _); [apply list_elem_of_singleton in Ha as ->|apply elem_of_nil in Ha]; done.
    + destruct (_ <=? _)%nat; [by eapply IH|].
      apply elem_of_cons in Ha as [->|Ha]; [by exists row; auto 10|by eapply IH].
Qed.

Lemma write_row_ledger n h t a b (s : Maintenance S) :
  let d := db (m_store s) in let d' := db (m_store (write_row n h t a b s)) in
  d' = d ∨ d' = with_row n (pending_to_json (mkPendingTxEntry h t a
    ((λ f : Z * Z, fmt f.1) <$> b) ((λ f : Z * Z, fmt f.2) <$> b))) d.
Proof. unfold write_row, record_pending_tx. simpl. apply query_db. Qed.

Lemma drop_row_ledger n (s : Maintenance S) :
  let d := db (m_store s) in let d' := db (m_store (drop_row n s)) in
  d' = d ∨ d' = without_row n d.
Proof. unfold drop_row, delete_pending_tx. simpl. apply query_db. Qed.

Lemma alert_store kind msg (s : Maintenance S) : m_store (alert_throttled kind msg s) = m_store s.
Proof. unfold alert_throttled. by case_match. Qed.

(** One action: a step of the store that touches at most its own row. *)
Lemma action_step rows base confirmed now_ms action (s : Maintenance S) old :
  action ∈ plan_role_sweep REGISTER_ROLE confirmed rows now_ms →
  let d := db (m_store s) in let d' := db (m_store (run_action rows base now_ms s action)) in
  same_tasks d d' ∧
  ∀ k, allowed_row rows base confirmed now_ms old k (ledger d !! k) →
       allowed_row rows base confirmed now_ms old k (ledger d' !! k).
Proof.
  intros Ha%plan_action. assert (Hrefl : ∀ d, same_tasks d d) by done.
  assert (Hw : ∀ n v d, same_tasks d (with_row n v d)) by done.
  assert (Hwrite : ∀ row h bid c hash sent, row ∈ rows → role row = REGISTER_ROLE → confirmed ≤ nonce row →
    replacement_verdict base (wrap32 (attempts row + 1)) (fees_wei row) = Send bid → bid_judged (nonce row) bid h →
    (hash, sent) = (match h with Some hash => (hash, now_ms) | None => row_identity rows (nonce row) now_ms end) →
    let d' := db (m_store (write_row (nonce row) hash sent (wrap32 (attempts row + 1)) (bid_of bid) (with_chain c s))) in
    same_tasks (db (m_store s)) d' ∧
    ∀ k, allowed_row rows base confirmed now_ms old k (ledger (db (m_store s)) !! k) →
         allowed_row rows base confirmed now_ms old k (ledger d' !! k)).
  { intros row h bid c hash sent Hin Hrole Hn Hv Hj Hh d'.
    destruct (write_row_ledger (nonce row) hash sent (wrap32 (attempts row + 1)) (bid_of bid) (with_chain c s))
      as [E|E]; cbn [with_chain m_store] in E; subst d'; rewrite E; [done|]. split; [done|]. intros k Hk.
    rewrite ledger_with. destruct (decide (k = ledger_field REGISTER_ROLE (nonce row))) as [->|Hne];
      [|by rewrite lookup_insert_ne]. rewrite lookup_insert_eq. right. exists row. split_and!; try done.
    rewrite (proj2 (Z.ltb_ge _ _)) by done. eexists. split; [done|]. exists bid, h. by rewrite <-Hh. }
  destruct action as [n|msg|n a f]; cbn [run_action].
  - destruct Ha as (row & Hin & Hrole & -> & Hn). destruct (drop_row_ledger (nonce row) s) as [-> | ->]; [done|].
    split; [done|]. intros k Hk. rewrite ledger_without.
    destruct (decide (k = ledger_field REGISTER_ROLE (nonce row))) as [->|Hne]; [|by rewrite lookup_delete_ne].
    rewrite lookup_delete_eq. right. exists row. by rewrite (proj2 (Z.ltb_lt _ _)).
  - by rewrite alert_store.
  - destruct Ha as (row & Hin & Hrole & -> & Hn & -> & ->).
    destruct (replacement_verdict base _ (fees_wei row)) as [bid|rq cp] eqn:Hv; [|by rewrite alert_store].
    destruct (row_identity rows (nonce row) now_ms) as [rh st] eqn:Hid.
    destruct (cancel_stuck_nonce (nonce row) bid (m_chain s)) as [[h|e] c] eqn:Hc.
    + apply (Hwrite row (Some h)); try done. exists (m_chain s). by rewrite Hc.
    + destruct (is_replacement_underpriced e) eqn:He; [|done].
      apply (Hwrite row None); try done. exists (m_chain s). by rewrite Hc.
Qed.

Lemma actions_steps rows base confirmed now_ms actions (s : Maintenance S) old :
  (∀ a, a ∈ actions → a ∈ plan_role_sweep REGISTER_ROLE confirmed rows now_ms) →
  let d := db (m_store s) in let d' := db (m_store (foldl (run_action rows base now_ms) s actions)) in
  same_tasks d d' ∧
  ∀ k, allowed_row rows base confirmed now_ms old k (ledger d !! k) →
       allowed_row rows base confirmed now_ms old k (ledger d' !! k).
Proof.
  revert s. induction actions as [|a actions IH]; intros s Hin; [done|]. cbn [foldl].
  destruct (action_step rows base confirmed now_ms a s old) as [H1 H2]; [apply Hin; by left|].
  destruct (IH (run_action rows base now_ms s a)) as [H3 H4]; [intros; apply Hin; by right|].
  split; [by eapply same_tasks_trans|]. auto.
Qed.

(** On a working store a consumed row is dropped, and stays dropped. *)
Definition working (s : Maintenance S) : Prop := faults (m_store s) = [].

Lemma action_working rows base now_ms s a : working s → working (run_action rows base now_ms s a).
Proof.
  unfold working. intros Hw. destruct s as [[d fs] c al hb st rel tg sent]. simpl in Hw. subst fs.
  destruct a as [n|msg|n k f]; cbn [run_action]; [done|by rewrite alert_store|].
  destruct (replacement_verdict _ _ _); [|by rewrite alert_store].
  destruct (row_identity _ _ _). destruct (cancel_stuck_nonce _ _ _) as [[|] ?]; [done|]. by case_match.
Qed.

Lemma action_gone rows base confirmed now_ms s a n :
  working s → a ∈ plan_role_sweep REGISTER_ROLE confirmed rows now_ms → n < confirmed →
  a = DropConsumedRow n ∨ ledger (db (m_store s)) !! ledger_field REGISTER_ROLE n = None →
  ledger (db (m_store (run_action rows base now_ms s a))) !! ledger_field REGISTER_ROLE n = None.
Proof.
  intros Hw Ha%plan_action Hn Hor. destruct s as [[d fs] c al hb st rel tg sent]. unfold working in Hw. simpl in Hw. subst fs.
  destruct a as [m|msg|m k f]; cbn [run_action].
  - change (db (m_store (drop_row m _))) with (without_row m d). rewrite ledger_without.
    destruct (decide (n = m)) as [->|Hne]; [apply lookup_delete_eq|].
    rewrite lookup_delete_ne by (by intros <-%ledger_field_inj). by destruct Hor as [[= ->]|].
  - rewrite alert_store. by destruct Hor.
  - destruct Hor as [|Hor]; [done|]. destruct Ha as (row & _ & _ & -> & Hm & _ & _).
    assert (Hkeep : ∀ v, ledger (with_row (nonce row) v d) !! ledger_field REGISTER_ROLE n = None).
    { intros v. rewrite ledger_with, lookup_insert_ne; [done|]. intros E%ledger_field_inj. lia. }
    destruct (replacement_verdict _ _ _); [|by rewrite alert_store].
    destruct (row_identity _ _ _). destruct (cancel_stuck_nonce _ _ _) as [[|] ?]; [apply Hkeep|].
    case_match; [apply Hkeep|done].
Qed.

Lemma actions_gone rows base confirmed now_ms actions s n :
  working s → (∀ a, a ∈ actions → a ∈ plan_role_sweep REGISTER_ROLE confirmed rows now_ms) → n < confirmed →
  DropConsumedRow n ∈ actions ∨ ledger (db (m_store s)) !! ledger_field REGISTER_ROLE n = None →
  ledger (db (m_store (foldl (run_action rows base now_ms) s actions))) !! ledger_field REGISTER_ROLE n = None.
Proof.
  revert s. induction actions as [|a actions IH]; intros s Hw Hin Hn Hor; cbn [foldl].
  { destruct Hor as [?%elem_of_nil|]; done. }
  apply IH; [by apply action_working|intros; apply Hin; by right|done|].
  destruct Hor as [[<-|Hd]%elem_of_cons|Hnone]; [right|by left|right]; eapply action_gone;
    try done; [apply Hin; by left|by left|apply Hin; by left|by right].
Qed.

Lemma consumed_dropped rows confirmed now_ms row :
  row ∈ rows → role row = REGISTER_ROLE → nonce row < confirmed →
  DropConsumedRow (nonce row) ∈ plan_role_sweep REGISTER_ROLE confirmed rows now_ms.
Proof.
  intros Hin Hrole Hn.
  assert (Hd : nonce row ∈ drops (plan_role_sweep REGISTER_ROLE confirmed rows now_ms)).
  { unfold plan_role_sweep. rewrite sweep_rows_drops. apply list_elem_of_fmap_2, list_elem_of_filter.
    split; [done|]. by rewrite sort_by_nonce_perm, list_elem_of_filter. }
  apply list_elem_of_omap in Hd as (a & Ha & Hsome). by destruct a; simplify_eq.
Qed.

Lemma list_pending_run before w :
  db (list_pending_txs before w).2 = db w ∧
  (faults w = [] → faults (list_pending_txs before w).2 = []) ∧
  (∀ l, (list_pending_txs before w).1 = Ok l →
     l = omap (ledger_row before) (map_to_list (ledger (db w)))).
Proof.
  unfold list_pending_txs, st_bind.
  pose proof (read_db (λ d, default ∅ (hashes d !! broadcast_ledger_key)) w) as Hd.
  destruct (query _ w) as [[m|e] w'] eqn:E; simpl in Hd.
  - apply query_ok in E as E'. injection E' as <- _. split; [done|]. split.
    + intros Hf. unfold query in E. rewrite Hf in E. by injection E as <-.
    + by intros l [= <-].
  - split; [done|]. split; [|done]. intros Hf. unfold query in E. by rewrite Hf in E.
Qed.

(** The rows a sweep at [now_ms] considers: the stored ones, readable and
    older than two minutes. *)
Definition stuck_rows (d : Redis) (now_ms : Z) : list LedgerRow :=
  ledger_row_of <$> omap (ledger_row (sat_sub now_ms STUCK_TX_AGE_MS)) (map_to_list (ledger d)).

(** The possible runs of a sweep. *)
Lemma sweep_cases (s : Maintenance S) :
  let d := db (m_store s) in let s' := unstick_sweep s in
  db (m_store s') = d ∨
  ∃ base confirmed c1 c2 s1, (base_fee c1).1 = Ok base ∧ (confirmed_nonce c2).1 = Ok confirmed ∧
    db (m_store s1) = d ∧ (working s → working s1) ∧
    s' = foldl (run_action (stuck_rows d (now d)) base (now d)) s1
           (plan_role_sweep REGISTER_ROLE confirmed (stuck_rows d (now d)) (now d)).
Proof.
  cbv zeta. set (d := db (m_store s)). unfold unstick_sweep. fold d.
  destruct (list_pending_run (sat_sub (now d) STUCK_TX_AGE_MS) (m_store s)) as (Hd & Hf & Hl). fold d in Hd |- *.
  destruct (list_pending_txs _ _) as [[txs|e] w]; simpl in Hd, Hf, Hl; [|by left].
  specialize (Hl txs eq_refl). assert (Hrows : ledger_row_of <$> txs = stuck_rows d (now d)).
  { unfold stuck_rows, d. by rewrite Hl. }
  rewrite Hrows. destruct (stuck_rows d (now d)) as [|r rs] eqn:Er; [by left|].
  destruct (base_fee (m_chain (with_world w s))) as [[base|e] c1] eqn:Eb; [|by left].
  destruct (confirmed_nonce (m_chain (with_chain c1 (with_world w s)))) as [[confirmed|e] c2] eqn:En; [|by left].
  right. exists base, confirmed, (m_chain (with_world w s)),
    (m_chain (with_chain c1 (with_world w s))), (with_chain c2 (with_chain c1 (with_world w s))). rewrite Eb, En. do 3 (split; [done|]).
  split; [|done]. intros Hw. by apply Hf.
Qed.

(** C27. A sweep moves a ledger row only for cause.  Whatever the chain
    answers and whichever store commands are lost, tasks are untouched and
    each ledger entry after the sweep is the one before it, unless it belongs
    to a readable row older than two minutes: a row whose nonce the chain has
    consumed may only be dropped, and any other only be rewritten with one
    more attempt, at a bid that [plan_replacement] allows for it and that the
    chain judged - taken (with the new hash and time) or refused as
    underpriced (keeping the row's).  A bid that never reached the mempool
    leaves its row alone.  On a working store, either nothing was decided or
    every consumed row is gone. *)
Theorem sweep_moves_rows_for_cause (s : Maintenance S) :
  let d := db (m_store s) in let d' := db (m_store (unstick_sweep s)) in
  same_tasks d d' ∧
  (d' = d ∨
   ∃ base confirmed c1 c2, (base_fee c1).1 = Ok base ∧ (confirmed_nonce c2).1 = Ok confirmed ∧
     (∀ k, allowed_row (stuck_rows d (now d)) base confirmed (now d) (ledger d) k (ledger d' !! k)) ∧
     (working s → ∀ row, row ∈ stuck_rows d (now d) → role row = REGISTER_ROLE → nonce row < confirmed →
        ledger d' !! ledger_field REGISTER_ROLE (nonce row) = None)).
Proof.
  intros d d'. destruct (sweep_cases s) as [E|(base & confirmed & c1 & c2 & s1 & Hb & Hn & Hd & Hw & Hs)].
  { fold d d' in E. rewrite E. by split; [|left]. }
  subst d'. rewrite Hs. fold d in Hd, Hs |- *.
  destruct (actions_steps (stuck_rows d (now d)) base confirmed (now d) _ s1 (ledger d)
    (λ a (Ha : a ∈ plan_role_sweep REGISTER_ROLE confirmed (stuck_rows d (now d)) (now d)), Ha)) as [H1 H2].
  rewrite Hd in H1, H2. split; [done|]. right. exists base, confirmed, c1, c2. split_and!; try done.
  - intros k. apply H2. by left.
  - intros Hwork row Hin Hrole Hlt. eapply actions_gone; [by apply Hw|done|done|].
    left. by apply consumed_dropped.
Qed.

(** ** The loop's messages *)

Definition slot_of (s : Maintenance S) (kind : option AlertKind) : option Z :=
  match kind with Some k => last_alert s k | None => last_heartbeat s end.
Definition quiet_ops (s : Maintenance S) : Prop :=
  messages_ok (slot_of s) (now (db (m_store s))) (m_sent s).

Lemma quiet_later s s' :
  quiet_ops s → m_sent s' = m_sent s → (∀ k, slot_of s' k = slot_of s k) →
  now (db (m_store s)) ≤ now (db (m_store s')) → quiet_ops s'.
Proof. intros Hok Hs Hk Hn. unfold quiet_ops. rewrite Hs. by eapply messages_later. Qed.

Lemma alert_ok kind message s : quiet_ops s → quiet_ops (alert_throttled kind message s).
Proof using Type*.
  intros Hok. unfold alert_throttled. set (t := now (db (m_store s))).
  destruct (match last_alert s kind with Some at_ => _ | None => _ end) eqn:Hd; [done|].
  apply (messages_send (slot_of s) _ (m_sent s) _ (mkMessage (Some kind) t message)); try done.
  - cbn. intros at_ Ha. rewrite Ha in Hd. by apply Z.ltb_ge in Hd.
  - by right.
  - cbn. by rewrite bool_decide_true.
  - intros [k|] Hk; [|done]. cbn. rewrite bool_decide_false; [done|]. intros ->. by destruct Hk.
Qed.

Lemma world_ok w s : quiet_ops s → now (db (m_store s)) ≤ now (db w) → quiet_ops (with_world w s).
Proof using Type*. intros Hok Hn. by eapply quiet_later. Qed.
Lemma chain_ok c s : quiet_ops s → quiet_ops (with_chain c s).
Proof using Type*. intros Hok. by eapply quiet_later. Qed.

Lemma drop_row_ok n s : quiet_ops s → quiet_ops (drop_row n s).
Proof using Type*.
  intros Hok. eapply quiet_later; [exact Hok|done|by intros []|].
  by destruct (drop_row_ledger n s) as [-> | ->].
Qed.
Lemma write_row_ok n h t a b s : quiet_ops s → quiet_ops (write_row n h t a b s).
Proof using Type*.
  intros Hok. eapply quiet_later; [exact Hok|done|by intros []|].
  by destruct (write_row_ledger n h t a b s) as [-> | ->].
Qed.

Lemma action_messages rows base now_ms action s : quiet_ops s → quiet_ops (run_action rows base now_ms s action).
Proof using Type*.
  intros Hok. destruct action as [n|msg|n k f]; cbn [run_action].
  - by apply drop_row_ok.
  - by apply alert_ok.
  - destruct (replacement_verdict _ _ _) as [bid|]; [|by apply alert_ok].
    destruct (row_identity _ _ _) as [h t]. destruct (cancel_stuck_nonce _ _ _) as [[hash|e] c].
    + by apply write_row_ok, chain_ok.
    + case_match; [by apply write_row_ok, chain_ok|by apply chain_ok].
Qed.

Lemma sweep_messages s : quiet_ops s → quiet_ops (unstick_sweep s).
Proof using Type*.
  intros Hok. unfold unstick_sweep.
  destruct (list_pending_run (sat_sub (now (db (m_store s))) STUCK_TX_AGE_MS) (m_store s)) as (Hd & _).
  destruct (list_pending_txs _ _) as [[txs|e] w]; cbn [snd] in Hd;
    (assert (Hw : quiet_ops (with_world w s)) by (apply world_ok; [done|by rewrite Hd])); [|done].
  destruct (ledger_row_of <$> txs) as [|r rows]; [done|].
  destruct (base_fee _) as [[base|e] c1]; [|by apply chain_ok].
  destruct (confirmed_nonce _) as [[confirmed|e] c2]; [|by do 2 apply chain_ok].
  assert (Hc : quiet_ops (with_chain c2 (with_chain c1 (with_world w s)))) by by do 2 apply chain_ok.
  revert Hc. generalize (with_chain c2 (with_chain c1 (with_world w s))).
  generalize (plan_role_sweep REGISTER_ROLE confirmed (r :: rows) (now (db (m_store s)))).
  intros actions. induction actions as [|a actions IH]; intros s1 Hs1; [done|]. by apply IH, action_messages.
Qed.

Lemma bind_same {A B} (m : St A) (f : A → St B) w :
  db (m w).2 = db w → (∀ a w', db (f a w').2 = db w') → db (st_bind m f w).2 = db w.
Proof.
  intros Hm Hf. unfold st_bind. destruct (m w) as [[a|e] w1]; [|done]. rewrite Hf. exact Hm.
Qed.

Lemma stats_db w : db (queue_stats w).2 = db w.
Proof.
  unfold queue_stats. repeat (apply bind_same; [first [apply read_db|done]|intros ? ?]). done.
Qed.

Lemma check_alerts_messages s : quiet_ops s → quiet_ops (check_alerts s).
Proof using Type*.
  intros Hok. unfold check_alerts. destruct (sc_circuit_state (m_chain s)) as [circuit c].
  assert (H1 : quiet_ops (if bool_decide (circuit = "open")
    then alert_throttled AlertRpc rpc_circuit_alert (with_chain c s) else with_chain c s)).
  { case_match; [apply alert_ok|]; by apply chain_ok. }
  revert H1. generalize (if bool_decide (circuit = "open")
    then alert_throttled AlertRpc rpc_circuit_alert (with_chain c s) else with_chain c s).
  clear. intros s Hok. pose proof (stats_db (m_store s)) as Hd. destruct (queue_stats (m_store s)) as [stats w].
  cbn [snd] in Hd. assert (Hw : quiet_ops (with_world w s)) by (apply world_ok; [done|by rewrite Hd]).
  set (s2 := match stats with Ok _ => _ | Err _ => _ end).
  assert (H2 : quiet_ops s2) by (subst s2; destruct stats; [case_match; [by apply alert_ok|]|]; done).
  clearbody s2. destruct (sc_balance (m_chain s2)) as [balance c1]. destruct (sc_gas_price c1) as [price c2].
  assert (H3 : quiet_ops (with_chain c2 s2)) by by apply chain_ok.
  destruct balance as [b|]; [|done]. destruct price as [p|]; [|done]. case_match; [by apply alert_ok|done].
Qed.

Lemma heartbeat_messages s : quiet_ops s → quiet_ops (maybe_heartbeat s).
Proof using Type*.
  intros Hok. unfold maybe_heartbeat. destruct (heartbeat_due s) eqn:Hd; [|done]. cbn [negb].
  set (t := now (db (m_store s))). pose proof (stats_db (m_store s)) as Hdb.
  destruct (queue_stats (m_store s)) as [stats w]. cbn [snd] in Hdb.
  destruct (sc_gas_price (m_chain s)) as [price c1]. destruct (sc_balance c1) as [bal c2].
  set (message := build_heartbeat_message _). clearbody message.
  unfold quiet_ops. cbn [m_store]. rewrite Hdb.
  apply (messages_send (slot_of s) _ (m_sent s) _ (mkMessage None t message)); try done.
  - cbn. intros at_ Ha. unfold heartbeat_due in Hd. rewrite Ha in Hd. by apply Z.leb_le in Hd.
  - cbn. destruct (m_telegram s); [by right|by left].
  - by intros [k|] Hk.
Qed.

(** The loop, and everything else: the store and the chain move on, time
    does not go back. *)
Inductive loop_step (s : Maintenance S) : Maintenance S → Prop :=
| loop_tick : loop_step s (tick_ s)
| loop_environment w c :
    now (db (m_store s)) ≤ now (db w) → loop_step s (with_world w (with_chain c s)).

(** The operators are not flooded.  However the chain and the store
    behave and for as long as the loop runs: two alerts of the same kind are
    at least six hours apart, and two heartbeats at least a day. *)
Theorem messages_are_spaced (s s' : Maintenance S) i j a b :
  m_sent s = [] → rtc loop_step s s' →
  (i < j)%nat → m_sent s' !! i = Some a → m_sent s' !! j = Some b → msg_kind a = msg_kind b →
  msg_at a + match msg_kind a with Some _ => 21_600_000 | None => 86_400_000 end ≤ msg_at b.
Proof using Type*.
  intros H0 Hs Hij Ha Hb Hk.
  assert (Hok : quiet_ops s').
  { assert (Hok0 : quiet_ops s) by (unfold quiet_ops; rewrite H0; apply messages_none).
    clear -Hs Hok0. induction Hs as [|s1 s2 s3 Hstep _ IH]; [done|]. apply IH.
    destruct Hstep as [|w c Hn]; [by apply heartbeat_messages, check_alerts_messages, sweep_messages|].
    apply world_ok; [by apply chain_ok|done]. }
  pose proof (mo_spaced _ _ _ Hok i j a b Hij Ha Hb Hk) as Hsp. by destruct (msg_kind a).
Qed.
End sweep.

(** ** Runs *)

Section maintenance_examples.
#[local] Existing Instance concrete_codec.

(** A chain that has confirmed every nonce below 6 and finds every bid too
    low. *)
#[local] Instance refusing_chain : SweepChain Z := {|
  base_fee c := (Ok 9_255, c);
  confirmed_nonce c := (Ok 6, c);
  cancel_stuck_nonce _ _ c := (Err (Rejected "replacement transaction underpriced"), c);
  sc_circuit_state c := ("closed", c);
  sc_balance c := (Ok (10 ^ 18), c);
  sc_gas_price c := (Ok 0, c);
  sc_wallet_address := Some "0xAAA";
  max_gas_price_wei := 50_000_000_000;
|}.

Definition stuck_redis : Redis :=
  db (record_pending_tx REGISTER_ROLE 6 "0xb" 2_000 0 (Some (20_000, 1_000))
       (record_pending_tx REGISTER_ROLE 5 "0xa" 1_000 0 (Some (20_000, 1_000))
         (mkWorld (tick 600_000 empty_redis) [])).2).2.

Definition demo_maintenance : Maintenance Z := 
  mkMaintenance (mkWorld stuck_redis []) 0 (λ _, None) None 0 None true [].

Definition consumed_row : LedgerRow := mkLedgerRow REGISTER_ROLE 5 "0xa" 1_000 0 (Some (20_000, 1_000)).

Lemma sweep_moves_rows_for_cause_witness :
  ledger (db (m_store (unstick_sweep demo_maintenance))) !! ledger_field REGISTER_ROLE 5 = None ∧
  db (m_store (unstick_sweep demo_maintenance)) ≠ stuck_redis.
Proof.
  destruct (sweep_moves_rows_for_cause demo_maintenance) as [_ [E|(base & confirmed & c1 & c2 & _ & Hn & _ & Hgone)]].
  - exfalso. apply (f_equal (λ d, ledger d !! ledger_field REGISTER_ROLE 5)) in E.
    revert E. vm_compute. done.
  - injection Hn as <-. assert (H5 : ledger (db (m_store (unstick_sweep demo_maintenance))) !!
      ledger_field REGISTER_ROLE 5 = None).
    { apply (Hgone eq_refl consumed_row); [|done|done].
      apply list_elem_of_In. vm_compute. auto. }
    split; [done|]. intros E. rewrite E in H5. revert H5. vm_compute. done.
Defined.

(** A day between two passes. *)
Definition next_day (s : Maintenance Z) : Maintenance Z :=
  with_world (mkWorld (tick 86_400_000 (db (m_store s))) []) (with_chain (m_chain s) s).
Definition two_days : Maintenance Z := tick_ (next_day (tick_ demo_maintenance)).

Lemma next_day_step s : loop_step s (next_day s).
Proof. apply loop_environment. cbn [db]. unfold tick. cbn [now]. lia. Qed.

Lemma two_days_steps : rtc loop_step demo_maintenance two_days.
Proof.
  eapply rtc_l; [apply loop_tick|]. eapply rtc_l; [apply next_day_step|].
  eapply rtc_l; [apply loop_tick|]. apply rtc_refl.
Qed.

Lemma messages_are_spaced_witness :
  ∃ a b, m_sent two_days !! 0%nat = Some a ∧ m_sent two_days !! 2%nat = Some b ∧
    msg_kind a = msg_kind b ∧
    msg_at a + match msg_kind a with Some _ => 21_600_000 | None => 86_400_000 end ≤ msg_at b.
Proof.
  destruct (m_sent two_days !! 0%nat) as [a|] eqn:Ha; [|by vm_compute in Ha].
  destruct (m_sent two_days !! 2%nat) as [b|] eqn:Hb; [|by vm_compute in Hb].
  assert (Hk : (msg_kind <$> m_sent two_days !! 0%nat) = (msg_kind <$> m_sent two_days !! 2%nat))
    by (vm_compute; reflexivity).
  rewrite Ha, Hb in Hk. injection Hk as Hk. exists a, b.
  split; [reflexivity|]. split; [reflexivity|]. split; [exact Hk|].
  apply (messages_are_spaced demo_maintenance two_days 0 2 a b eq_refl two_days_steps); [lia|exact Ha|exact Hb|exact Hk].
Defined.
End maintenance_examples.
