(* ===== verification/CfMaintenance.v ===== *)
(** * The Durable Object's cron pass ([p256-index-cf/src/submitter.rs])

    [/maintain]: the unstick sweep, the alerts and the heartbeat, on the
    ledger and the wallet of the object.  Unlike the Docker loop, what was
    last sent is kept in the database, since the object is evicted between
    passes. *)
From Stdlib Require Import Ascii String Strings.Byte.
From S2P Require Export SubmitterFacts Maintenance.
From stdpp Require Import options.

(** The object and the messages it sent. *)
Record Keeper (N : Type) := mkKeeper { k_do : SubmitterDo N; k_sent : list Message }.
Arguments mkKeeper {N} _ _.
Arguments k_do {N} _.
Arguments k_sent {N} _.

Definition kind_name (kind : AlertKind) : string :=
  match kind with
  | AlertStuck => "stuck"
  | AlertGasCapped => "gas-capped"
  | AlertRpc => "rpc"
  | AlertDlq => "dlq"
  | AlertLowRunway => "low-runway"
  end.

#[export] Instance kind_name_inj : Inj (=) (=) kind_name.
Proof. by intros [] []. Qed.

Definition ok_or {A} (a : A) (r : result A string) : A := match r with Ok a => a | Err _ => a end.

Section keeper.
Context `{K : StoreCodec} {N : Type} `{M : SweepChain N}.
(** [config.telegram_bot_token] and [telegram_chat_id], and the release. *)
Context (telegram : bool) (release : option string).

Abbreviation Y := (Keeper N).
Abbreviation ksql s := (sql (do_sql (k_do s))).
Abbreviation clock s := (s_now (ksql s)).

Definition k_run {A} (m : Dm A) (s : Y) : result A string * Y :=
  let '(r, d) := on_sql m (k_do s) in (r, mkKeeper d (k_sent s)).
Definition k_ask {A} (m : N → A * N) (s : Y) : A * Y :=
  let '(r, d) := ask m (k_do s) in (r, mkKeeper d (k_sent s)).
Definition k_send (m : Message) (s : Y) : Y := mkKeeper (k_do s) (k_sent s ++ [m]).

(** Fires unless this kind fired within six hours; an unreadable log counts
    as never. *)
Definition cf_alert_throttled (kind : AlertKind) (message : string) (s : Y) : Y :=
  let now := clock s in
  let '(last_fired, s) := k_run (sq_alert_last_fired (kind_name kind)) s in
  if negb (alert_due (ok_or None last_fired) now) then s else
  let '(fired, s) := k_run (sq_alert_fired (kind_name kind) now) s in
  match fired with
  | Ok _ => k_send (mkMessage (Some kind) now message) s
  | Err _ => s
  end.

Definition cf_row_identity (rows : list LedgerRow) (nonce_ now : Z) : string * Z :=
  match list_find (λ row, role row = REGISTER_ROLE ∧ nonce row = nonce_) rows with
  | Some (_, row) => (hash row, sent_at_ms row)
  | None => (EmptyString, now)
  end.

Definition cf_run_action (rows : list LedgerRow) (base now : Z) (s : Y) (action : RescueAction) : Y :=
  match action with
  | DropConsumedRow nonce => (k_run (sq_delete_pending_tx REGISTER_ROLE nonce) s).2
  | Escalate message => cf_alert_throttled AlertStuck message s
  | Replace nonce attempts_after previous_fees_wei =>
      match replacement_verdict base attempts_after previous_fees_wei with
      | TooExpensive required cap =>
          cf_alert_throttled AlertGasCapped (gas_capped_alert REGISTER_ROLE nonce required cap) s
      | Send fees =>
          let '(row_hash, sent_at) := cf_row_identity rows nonce now in
          let '(r, s) := k_ask (cancel_stuck_nonce nonce fees) s in
          match r with
          | Ok cancel_hash =>
              (k_run (sq_record_pending_tx REGISTER_ROLE nonce cancel_hash now attempts_after (bid_of fees)) s).2
          | Err error =>
              if is_replacement_underpriced error
              then (k_run (sq_record_pending_tx REGISTER_ROLE nonce row_hash sent_at attempts_after
                      (bid_of fees)) s).2
              else s
          end
      end
  end.

Definition cf_unstick_sweep (s : Y) : Y :=
  let now := clock s in
  let '(ledger, s) := k_run (sq_list_pending_txs (Z.max (- 2 ^ 63) (now - STUCK_TX_AGE_MS))) s in
  match ledger with
  | Err _ | Ok [] => s
  | Ok rows =>
      let '(b, s) := k_ask base_fee s in
      match b with
      | Err _ => s
      | Ok base =>
          let '(c, s) := k_ask confirmed_nonce s in
          match c with
          | Err _ => s
          | Ok confirmed =>
              foldl (cf_run_action rows base now) s (plan_role_sweep REGISTER_ROLE confirmed rows now)
          end
      end
  end.

Definition cf_check_alerts (s : Y) : Y :=
  let '(circuit, s) := k_ask sc_circuit_state s in
  let s := if bool_decide (circuit = "open") then cf_alert_throttled AlertRpc rpc_circuit_alert s else s in
  let '(stats, s) := k_run sq_queue_stats s in
  let s := match stats with
    | Ok stats =>
        if DLQ_ALERT_THRESHOLD <=? q_dlq_count stats
        then cf_alert_throttled AlertDlq (dlq_alert (q_dlq_count stats)) s else s
    | Err _ => s
    end in
  let '(balance, s) := k_ask sc_balance s in
  let '(price, s) := k_ask sc_gas_price s in
  match balance, price with
  | Ok balance, Ok price =>
      let balance := wei_to_xdai (try_u128_or_max balance) in
      let price := wei_to_gwei (try_u128_or_max price) in
      let runway := estimate_create_runway balance price in
      if f64_is_finite runway && SpecFloat.SFltb runway LOW_RUNWAY_CREATES
      then cf_alert_throttled AlertLowRunway (low_runway_alert runway balance price) s else s
  | _, _ => s
  end.

Definition cf_heartbeat (now started_at : Z) (s : Y) : Y :=
  let '(stats, s) := k_run sq_queue_stats s in
  let '(gas_price, s) := k_ask sc_gas_price s in
  let '(wallet_balance, s) := k_ask sc_balance s in
  let message := build_heartbeat_message (mkHeartbeatInput "Rust/Workers"
    (match stats with Ok st => q_depth st | Err _ => 0 end)
    (match stats with Ok st => q_dlq_count st | Err _ => 0 end)
    (default "" sc_wallet_address)
    (match wallet_balance with Ok b => wei_to_xdai (try_u128_or_max b) | Err _ => f64_of_Z 0 end)
    (match gas_price with Ok p => wei_to_gwei (try_u128_or_max p) | Err _ => f64_of_Z 0 end)
    (Z.max 0 (now - started_at) / 1_000) release) in
  if telegram then k_send (mkMessage None now message) s else s.

Definition cf_maybe_heartbeat (s : Y) : Y :=
  let now := clock s in
  let '(started_at, s) := k_run (sq_meta_get_or_insert "started_at" now) s in
  let '(last, s) := k_run (sq_meta_get "last_heartbeat") s in
  let due := match ok_or None last with
    | Some at_ => HEARTBEAT_INTERVAL * 1_000 <=? now - at_
    | None => true
    end in
  if negb due then s else
  let '(set_, s) := k_run (sq_meta_set "last_heartbeat" now) s in
  match set_ with
  | Err _ => s
  | Ok _ => cf_heartbeat now (ok_or now started_at) s
  end.

Definition run_maintenance (has_signer : bool) (s : Y) : Y :=
  if negb has_signer then s else
  cf_maybe_heartbeat (cf_check_alerts (cf_unstick_sweep s)).

(** ** What a pass leaves alone *)

Definition passes (s s' : Y) : Prop := quiet (ksql s) (ksql s').

Lemma passes_trans s1 s2 s3 : passes s1 s2 → passes s2 s3 → passes s1 s3.
Proof. apply quiet_trans. Qed.

Lemma passes_refl s : passes s s.
Proof. apply quiet_refl. Qed.

Lemma passes_run {A} (m : Dm A) s r s' :
  k_run m s = (r, s') → (∀ w, dwp m w (λ _ d, quiet (sql w) d)) → passes s s'.
Proof.
  unfold k_run, on_sql, passes. intros He Hm. specialize (Hm (do_sql (k_do s))). unfold dwp in Hm.
  destruct (m (do_sql (k_do s))). by injection He as _ <-.
Qed.

Lemma passes_ask {A} (m : N → A * N) s r s' : k_ask m s = (r, s') → passes s s'.
Proof. unfold passes, k_ask, ask. destruct (m (do_chain (k_do s))). by intros [= _ <-]. Qed.

Lemma quiet_select {A} (f : Sql → A) w : dwp (select f) w (λ _ d, quiet (sql w) d).
Proof. apply dwp_select; [intros|]; apply quiet_refl. Qed.
Lemma quiet_update' (f : Sql → Sql) w : (∀ d, quiet d (f d)) → dwp (update_ f) w (λ _ d, quiet (sql w) d).
Proof. intros Hf. apply dwp_update; [intros; apply quiet_refl|apply Hf]. Qed.
Lemma quiet_stats w : dwp sq_queue_stats w (λ _ d, quiet (sql w) d).
Proof. eapply dwp_mono; [apply stats_same|]. intros r d ->. apply quiet_refl. Qed.
Lemma quiet_meta key v w : dwp (sq_meta_get_or_insert key v) w (λ _ d, quiet (sql w) d).
Proof.
  apply dwp_bind, dwp_select; [intros; apply quiet_refl|]. intros w' Hw.
  destruct (s_meta (sql w) !! key); [apply dwp_ret; rewrite Hw; apply quiet_refl|].
  apply dwp_bind, dwp_update; [intros; rewrite Hw; apply quiet_refl|].
  intros w2 H2. apply dwp_ret. by rewrite H2, Hw.
Qed.

Lemma alert_passes kind message s : passes s (cf_alert_throttled kind message s).
Proof.
  unfold cf_alert_throttled. destruct (k_run (sq_alert_last_fired _) s) as [last s1] eqn:E1.
  apply passes_run in E1; [|intros; apply quiet_select]. destruct (negb _); [done|].
  destruct (k_run (sq_alert_fired _ _) s1) as [fired s2] eqn:E2.
  apply passes_run in E2; [|intros; by apply quiet_update']. pose proof (passes_trans _ _ _ E1 E2).
  by destruct fired.
Qed.

Lemma row_passes {A} (m : Dm A) s : (∀ w, dwp m w (λ _ d, quiet (sql w) d)) → passes s (k_run m s).2.
Proof. intros Hm. destruct (k_run m s) as [r s'] eqn:E. by eapply passes_run. Qed.

Lemma action_passes rows base now s action : passes s (cf_run_action rows base now s action).
Proof.
  destruct action as [n|msg|n k f]; cbn [cf_run_action].
  - apply row_passes. intros. by apply quiet_update'.
  - apply alert_passes.
  - destruct (replacement_verdict _ _ _) as [fees|]; [|apply alert_passes].
    destruct (cf_row_identity _ _ _) as [h t]. destruct (k_ask _ s) as [[hash|e] s1] eqn:E1;
      apply passes_ask in E1; [|case_match; [|done]]; (eapply passes_trans; [exact E1|]);
      apply row_passes; intros; by apply quiet_update'.
Qed.

Lemma actions_pass rows base now actions s : passes s (foldl (cf_run_action rows base now) s actions).
Proof.
  revert s. induction actions as [|a actions IH]; intros s; [apply passes_refl|].
  eapply passes_trans; [apply action_passes|apply IH].
Qed.

Lemma sweep_passes s : passes s (cf_unstick_sweep s).
Proof.
  unfold cf_unstick_sweep. destruct (k_run (sq_list_pending_txs _) s) as [ledger s1] eqn:E1.
  apply passes_run in E1; [|intros; apply quiet_select]. destruct ledger as [[|row rows]|e]; [done| |done].
  destruct (k_ask base_fee s1) as [b s2] eqn:E2. apply passes_ask in E2.
  pose proof (passes_trans _ _ _ E1 E2) as H2. destruct b as [base|]; [|done].
  destruct (k_ask confirmed_nonce s2) as [c s3] eqn:E3. apply passes_ask in E3.
  pose proof (passes_trans _ _ _ H2 E3) as H3. destruct c as [confirmed|]; [|done].
  eapply passes_trans; [exact H3|apply actions_pass].
Qed.

Lemma alerts_pass s : passes s (cf_check_alerts s).
Proof.
  unfold cf_check_alerts. destruct (k_ask sc_circuit_state s) as [circuit s1] eqn:E1. apply passes_ask in E1.
  set (s2 := if bool_decide _ then _ else s1).
  assert (H2 : passes s s2).
  { eapply passes_trans; [exact E1|]. subst s2. case_match; [apply alert_passes|apply passes_refl]. }
  clearbody s2. destruct (k_run sq_queue_stats s2) as [stats s3] eqn:E3.
  apply passes_run in E3; [|apply quiet_stats]. set (s4 := match stats with Ok _ => _ | Err _ => s3 end).
  assert (H4 : passes s s4).
  { eapply passes_trans; [exact H2|]. eapply passes_trans; [exact E3|]. subst s4.
    destruct stats; [case_match; [apply alert_passes|]|]; apply passes_refl. }
  clearbody s4. destruct (k_ask sc_balance s4) as [balance s5] eqn:E5. apply passes_ask in E5.
  destruct (k_ask sc_gas_price s5) as [price s6] eqn:E6. apply passes_ask in E6.
  pose proof (passes_trans _ _ _ H4 (passes_trans _ _ _ E5 E6)) as H6.
  destruct balance; [|done]. destruct price; [|done].
  case_match; [|done]. eapply passes_trans; [exact H6|apply alert_passes].
Qed.

Lemma heartbeat_passes s : passes s (cf_maybe_heartbeat s).
Proof.
  unfold cf_maybe_heartbeat. destruct (k_run (sq_meta_get_or_insert _ _) s) as [started s1] eqn:E1.
  apply passes_run in E1; [|intros; apply quiet_meta].
  destruct (k_run (sq_meta_get _) s1) as [last s2] eqn:E2. apply passes_run in E2; [|intros; apply quiet_select].
  pose proof (passes_trans _ _ _ E1 E2) as H2. destruct (negb _); [done|].
  destruct (k_run (sq_meta_set _ _) s2) as [set_ s3] eqn:E3. apply passes_run in E3; [|intros; by apply quiet_update'].
  pose proof (passes_trans _ _ _ H2 E3) as H3. destruct set_; [|done]. unfold cf_heartbeat.
  destruct (k_run sq_queue_stats s3) as [stats s4] eqn:E4. apply passes_run in E4; [|apply quiet_stats].
  destruct (k_ask sc_gas_price s4) as [price s5] eqn:E5. apply passes_ask in E5.
  destruct (k_ask sc_balance s5) as [bal s6] eqn:E6. apply passes_ask in E6.
  pose proof (passes_trans _ _ _ H3 (passes_trans _ _ _ E4 (passes_trans _ _ _ E5 E6))).
  by destruct telegram.
Qed.

(** The pass is one of the environment's steps of the shell: it touches no
    task, no queue row and no counter, whichever statements fail. *)
Theorem maintenance_is_other has_signer s :
  do_other (k_do s) (k_do (run_maintenance has_signer s)).
Proof using Type*.
  assert (H : passes s (run_maintenance has_signer s)).
  { unfold run_maintenance. destruct has_signer; [|apply passes_refl]. cbn [negb].
    eapply passes_trans; [apply sweep_passes|]. eapply passes_trans; [apply alerts_pass|apply heartbeat_passes]. }
  unfold passes in H. destruct (k_do (run_maintenance has_signer s)) as [[d o] slot failures nonce chain].
  by apply do_environment, other_quiet.
Qed.

(** ** The operators are not flooded by this shell either *)

Definition cf_slot (s : Y) (kind : option AlertKind) : option Z :=
  match kind with
  | Some k => s_alerts (ksql s) !! kind_name k
  | None => s_meta (ksql s) !! "last_heartbeat"
  end.

(** The storage works, and the messages are spaced so far. *)
Definition working_keeper (s : Y) : Prop :=
  outages (do_sql (k_do s)) = [] ∧ messages_ok (cf_slot s) (clock s) (k_sent s).

(** A call that sends nothing and leaves the slots and the clock. *)
Definition same_slots (s s' : Y) : Prop :=
  outages (do_sql (k_do s')) = [] ∧ (∀ k, cf_slot s' k = cf_slot s k) ∧ clock s' = clock s ∧
  k_sent s' = k_sent s.

Lemma same_slots_working s s' : working_keeper s → same_slots s s' → working_keeper s'.
Proof using Type*.
  intros [_ Hm] (Ho & Hk & Hn & Hs). split; [done|]. rewrite Hn, Hs. by eapply messages_later.
Qed.

(** The statement [m] succeeds, with this answer and this database. *)
Lemma run_working {A} (m : Dm A) s r s' :
  outages (do_sql (k_do s)) = [] → k_run m s = (r, s') →
  m (mkSqlWorld (ksql s) []) = (r, do_sql (k_do s')) ∧ k_sent s' = k_sent s.
Proof.
  unfold k_run, on_sql. intros Ho He. destruct (do_sql (k_do s)) as [d o] eqn:Hd. cbn in *. subst o.
  destruct (m (mkSqlWorld d [])) as [a w]. by injection He as <- <-.
Qed.

Lemma ask_working {A} (m : N → A * N) s r s' : working_keeper s → k_ask m s = (r, s') → working_keeper s'.
Proof. unfold k_ask, ask. destruct (m (do_chain (k_do s))). by intros Hw [= _ <-]. Qed.

Lemma update_working f s :
  working_keeper s → (∀ d, s_alerts (f d) = s_alerts d ∧ s_meta (f d) = s_meta d ∧ s_now (f d) = s_now d) →
  working_keeper (k_run (update_ f) s).2.
Proof using Type*.
  intros Hw Hf. destruct (k_run (update_ f) s) as [r s'] eqn:E.
  destruct (run_working _ _ _ _ (proj1 Hw) E) as [[= _ Hd] Hs]. cbn [snd].
  destruct (Hf (ksql s)) as (H1 & H2 & H3). eapply same_slots_working; [exact Hw|].
  unfold same_slots, cf_slot. rewrite <-Hd, Hs. cbn. rewrite H1, H2, H3. by split_and!.
Qed.

Lemma select_working {A} (f : Sql → A) s r s' :
  working_keeper s → k_run (select f) s = (r, s') → r = Ok (f (ksql s)) ∧ working_keeper s' ∧ ksql s' = ksql s.
Proof using Type*.
  intros Hw E. destruct (run_working _ _ _ _ (proj1 Hw) E) as [[= <- Hd] Hs].
  split; [done|]. rewrite <-Hd. split; [|done]. eapply same_slots_working; [exact Hw|].
  unfold same_slots, cf_slot. rewrite <-Hd, Hs. by split_and!.
Qed.

Lemma stats_slots s r s' : working_keeper s → k_run sq_queue_stats s = (r, s') → same_slots s s'.
Proof using Type*.
  intros Hw E. destruct (run_working _ _ _ _ (proj1 Hw) E) as [Hm Hs].
  unfold sq_queue_stats in Hm. cbv [dm_bind dm_now dm_ret select statement outages sql] in Hm.
  injection Hm as _ Hd. unfold same_slots, cf_slot. rewrite <-Hd, Hs. by split_and!.
Qed.

Lemma stats_working s r s' : working_keeper s → k_run sq_queue_stats s = (r, s') → working_keeper s'.
Proof using Type*. intros Hw E. eapply same_slots_working; [exact Hw|by eapply stats_slots]. Qed.

Lemma ask_slots {A} (m : N → A * N) s r s' : working_keeper s → k_ask m s = (r, s') → same_slots s s'.
Proof using Type*.
  unfold k_ask, ask. intros [Ho _]. destruct (m (do_chain (k_do s))). intros [= _ <-]. by split_and!.
Qed.

Lemma alert_working kind message s : working_keeper s → working_keeper (cf_alert_throttled kind message s).
Proof using Type*.
  intros Hw. unfold cf_alert_throttled, sq_alert_last_fired.
  destruct (k_run (select _) s) as [last s1] eqn:E1.
  destruct (select_working _ _ _ _ Hw E1) as (-> & Hw1 & Hd1). cbn [ok_or].
  destruct (alert_due _ _) eqn:Hdue; [|done]. cbn [negb].
  destruct (k_run (sq_alert_fired _ _) s1) as [fired s2] eqn:E2.
  destruct (run_working _ _ _ _ (proj1 Hw1) E2) as [[= <- Hd2] Hs2]. unfold k_send.
  destruct Hw1 as [_ Hm]. rewrite Hd1 in *. split; cbn [k_do]; [by rewrite <-Hd2|].
  rewrite <-Hd2, Hs2. cbn.
  apply (messages_send (cf_slot s1) _ (k_sent s1) _ (mkMessage (Some kind) (clock s) message)).
  - by rewrite <-Hd1, Hd1.
  - cbn [msg_kind msg_at spacing cf_slot]. rewrite Hd1. intros t Ht. rewrite Ht in Hdue. cbn in Hdue.
    apply Z.leb_le in Hdue. unfold sat_sub in *. lia.
  - by right.
  - cbn [cf_slot k_do msg_kind]. rewrite <-Hd2. cbn. by rewrite lookup_insert_eq.
  - intros [k|] Hk; cbn [cf_slot k_do]; rewrite <-Hd2, Hd1; cbn; [|done].
    rewrite lookup_insert_ne; [done|]. intros Hkk. apply Hk. cbn. f_equal. by apply (inj kind_name).
Qed.

Lemma action_working_k rows base now s action :
  working_keeper s → working_keeper (cf_run_action rows base now s action).
Proof using Type*.
  intros Hw. destruct action as [n|msg|n k f]; cbn [cf_run_action].
  - by apply update_working.
  - by apply alert_working.
  - destruct (replacement_verdict _ _ _) as [fees|]; [|by apply alert_working].
    destruct (cf_row_identity _ _ _) as [h t]. destruct (k_ask _ s) as [[hash|e] s1] eqn:E1;
      pose proof (ask_working _ _ _ _ Hw E1); [by apply update_working|].
    case_match; [by apply update_working|done].
Qed.

Lemma sweep_working s : working_keeper s → working_keeper (cf_unstick_sweep s).
Proof using Type*.
  intros Hw. unfold cf_unstick_sweep, sq_list_pending_txs. destruct (k_run (select _) s) as [ledger s1] eqn:E1.
  destruct (select_working _ _ _ _ Hw E1) as (-> & Hw1 & _). destruct (_ <$> _) as [|row rows]; [done|].
  destruct (k_ask base_fee s1) as [b s2] eqn:E2. pose proof (ask_working _ _ _ _ Hw1 E2) as Hw2.
  destruct b as [base|]; [|done].
  destruct (k_ask confirmed_nonce s2) as [c s3] eqn:E3. pose proof (ask_working _ _ _ _ Hw2 E3) as Hw3.
  destruct c as [confirmed|]; [|done]. clear E3. revert s3 Hw3.
  induction (plan_role_sweep REGISTER_ROLE confirmed (row :: rows) (clock s)) as [|a actions IH]; intros s3 Hw3; [done|].
  by apply IH, action_working_k.
Qed.

Lemma alerts_working s : working_keeper s → working_keeper (cf_check_alerts s).
Proof using Type*.
  intros Hw. unfold cf_check_alerts. destruct (k_ask sc_circuit_state s) as [circuit s1] eqn:E1.
  pose proof (ask_working _ _ _ _ Hw E1) as Hw1. set (s2 := if bool_decide _ then _ else s1).
  assert (Hw2 : working_keeper s2) by (subst s2; case_match; [by apply alert_working|done]).
  clearbody s2. destruct (k_run sq_queue_stats s2) as [stats s3] eqn:E3.
  pose proof (stats_working _ _ _ Hw2 E3) as Hw3. set (s4 := match stats with Ok _ => _ | Err _ => s3 end).
  assert (Hw4 : working_keeper s4) by (subst s4; destruct stats; [case_match; [by apply alert_working|]|]; done).
  clearbody s4. destruct (k_ask sc_balance s4) as [balance s5] eqn:E5. pose proof (ask_working _ _ _ _ Hw4 E5) as Hw5.
  destruct (k_ask sc_gas_price s5) as [price s6] eqn:E6. pose proof (ask_working _ _ _ _ Hw5 E6).
  destruct balance; [|done]. destruct price; [|done]. case_match; [by apply alert_working|done].
Qed.

Lemma started_working now s r s' :
  working_keeper s → k_run (sq_meta_get_or_insert "started_at" now) s = (r, s') →
  working_keeper s' ∧ clock s' = clock s.
Proof using Type*.
  intros Hw E. destruct (run_working _ _ _ _ (proj1 Hw) E) as [Hm Hs].
  unfold sq_meta_get_or_insert, sq_meta_get, sq_meta_set, dm_bind, dm_ret, select, update_, statement in Hm.
  cbn [outages sql] in Hm. destruct (s_meta (ksql s) !! "started_at"); injection Hm as _ Hd;
    (split; [|by rewrite <-Hd]); (eapply same_slots_working; [exact Hw|]);
    unfold same_slots, cf_slot; rewrite <-Hd, Hs; split_and!; try done.
  intros [k|]; [done|]. cbn. by rewrite lookup_insert_ne.
Qed.

Lemma heartbeat_working s : working_keeper s → working_keeper (cf_maybe_heartbeat s).
Proof using Type*.
  intros Hw. unfold cf_maybe_heartbeat. destruct (k_run (sq_meta_get_or_insert _ _) s) as [started s1] eqn:E1.
  destruct (started_working _ _ _ _ Hw E1) as [Hw1 Hc1]. unfold sq_meta_get.
  destruct (k_run (select _) s1) as [last s2] eqn:E2. destruct (select_working _ _ _ _ Hw1 E2) as (-> & Hw2 & Hd2).
  cbn [ok_or]. destruct (match s_meta (ksql s1) !! _ with Some _ => _ | None => true end) eqn:Hdue; [|done].
  cbn [negb]. destruct (k_run (sq_meta_set _ _) s2) as [set_ s3] eqn:E3.
  destruct (run_working _ _ _ _ (proj1 Hw2) E3) as [[= <- Hd3] Hs3].
  assert (Hsend : ∀ sent, sent = k_sent s2 ∨ (∃ text, sent = k_sent s2 ++ [mkMessage None (clock s) text]) →
    messages_ok (cf_slot s3) (clock s3) sent).
  { intros sent Hsent. destruct Hw2 as [_ Hm].
    assert (Hn : clock s3 = clock s) by (rewrite <-Hd3; cbn; by rewrite Hd2). rewrite Hn.
    assert (Hn2 : clock s2 = clock s) by by rewrite Hd2. rewrite Hn2 in Hm.
    assert (Hm' : ∀ text, sent = k_sent s2 ∨ sent = k_sent s2 ++ [mkMessage None (clock s) text] →
      messages_ok (cf_slot s3) (clock s) sent).
    { intros text Hor. apply (messages_send (cf_slot s2) _ (k_sent s2) _ (mkMessage None (clock s) text)); try done.
      - cbn [msg_kind msg_at spacing cf_slot]. rewrite Hd2. intros t Ht. rewrite Ht in Hdue.
        apply Z.leb_le in Hdue. unfold sat_sub. lia.
      - cbn [cf_slot msg_kind]. rewrite <-Hd3. cbn. by rewrite lookup_insert_eq.
      - intros [k|] Hk; [|done]. cbn [cf_slot]. by rewrite <-Hd3. }
    destruct Hsent as [->|[text ->]]; [by apply (Hm' ""); left|by apply (Hm' text); right]. }
  assert (Hw3 : working_keeper s3).
  { split; [by rewrite <-Hd3|]. rewrite Hs3. apply Hsend. by left. }
  unfold cf_heartbeat. destruct (k_run sq_queue_stats s3) as [stats s4] eqn:E4.
  pose proof (stats_slots _ _ _ Hw3 E4) as S4. pose proof (same_slots_working _ _ Hw3 S4) as Hw4.
  destruct (k_ask sc_gas_price s4) as [price s5] eqn:E5. pose proof (ask_slots _ _ _ _ Hw4 E5) as S5.
  pose proof (same_slots_working _ _ Hw4 S5) as Hw5.
  destruct (k_ask sc_balance s5) as [bal s6] eqn:E6. pose proof (ask_slots _ _ _ _ Hw5 E6) as S6.
  destruct telegram; [|by eapply same_slots_working]. set (message := build_heartbeat_message _). clearbody message.
  destruct S4 as (O4 & K4 & N4 & T4), S5 as (O5 & K5 & N5 & T5), S6 as (O6 & K6 & N6 & T6).
  split; [done|]. unfold k_send. cbn [k_do k_sent]. rewrite N6, N5, N4, T6, T5, T4, Hs3.
  eapply messages_later; [apply Hsend; right; by eexists| |done].
  intros k. transitivity (cf_slot s6 k); [by destruct k|]. by rewrite K6, K5, K4.
Qed.

(** The cron passes, and everything else the object does meanwhile: the
    database and the chain move on, but not the alert log and the [meta]
    table; time does not go back. *)
Inductive keeper_step (s : Y) : Y → Prop :=
| keeper_pass has_signer : keeper_step s (run_maintenance has_signer s)
| keeper_environment d slot failures nonce chain :
    clock s ≤ s_now d → s_alerts d = s_alerts (ksql s) → s_meta d = s_meta (ksql s) →
    keeper_step s (mkKeeper (mkSubmitter (mkSqlWorld d []) slot failures nonce chain) (k_sent s)).

(** The operators are not flooded by the Cloudflare shell either.
    Although the object is evicted between passes, as long as its storage
    answers: two alerts of the same kind are at least six hours apart, and
    two heartbeats at least a day. *)
Theorem cf_messages_are_spaced (s s' : Y) i j a b :
  outages (do_sql (k_do s)) = [] → k_sent s = [] → rtc keeper_step s s' →
  (i < j)%nat → k_sent s' !! i = Some a → k_sent s' !! j = Some b → msg_kind a = msg_kind b →
  msg_at a + match msg_kind a with Some _ => 21_600_000 | None => 86_400_000 end ≤ msg_at b.
Proof using Type*.
  intros Ho H0 Hs Hij Ha Hb Hk.
  assert (Hok : working_keeper s').
  { assert (Hok0 : working_keeper s) by (split; [done|]; rewrite H0; apply messages_none).
    clear -Hs Hok0. induction Hs as [|s1 s2 s3 Hstep _ IH]; [done|]. apply IH.
    destruct Hstep as [hs|d slot failures nonce chain Hn Hal Hme].
    - unfold run_maintenance. destruct hs; [|done]. by apply heartbeat_working, alerts_working, sweep_working.
    - destruct Hok0 as [_ Hm]. split; [done|]. eapply messages_later; [exact Hm| |done].
      intros [k|]; cbn [cf_slot k_do do_sql sql]; by rewrite ?Hal, ?Hme. }
  pose proof (mo_spaced _ _ _ (proj2 Hok) i j a b Hij Ha Hb Hk) as Hsp. by destruct (msg_kind a).
Qed.
End keeper.
