(* ===== verification/ChainWorker.v ===== *)
(** * The worker over the chain client

    The worker's and the sweep's chain interfaces implemented by [Chain] over
    a shared roster and a network, and what a whole batch then puts on the
    wire. *)
From Stdlib Require Import Ascii String Strings.Byte.
From S2P Require Export Maintenance Chain.
From stdpp Require Import options.

Definition RECEIPT_TIMEOUT : Z := 60_000.

(** ** The interfaces, implemented *)

Section client.
Context `{C : Crates, J : JsonCrate, E : EthCrates} (cfg : ChainConfig) {N : Type} `{Network N}.

(** One call of the client, as a function of the process's RPC state. *)
Definition run_flow {A} (p : CProg A) (s : RpcState N) : A * RpcState N :=
  let '(s', _, a) := run rpc_shell p s in (a, s').

(** The fuel of the receipt loop never runs out ([wait_for_receipt] always
    returns), so its default is never used. *)
Definition run_receipt (hash : string) (s : RpcState N)
    : result ReceiptOutcome ChainError * RpcState N :=
  let '(r, s') := run_flow (Chain.wait_for_receipt hash RECEIPT_TIMEOUT) s in
  (default (Err Unavailable) r, s').

Definition chain_client : ChainClient (RpcState N) := {|
  Worker.pending_nonce := run_flow (Chain.pending_nonce cfg RegisterWallet);
  chain_register task nonce := run_flow (Chain.register cfg task nonce);
  Worker.wait_for_receipt := run_receipt;
  Worker.is_content_registered h := run_flow (Chain.is_content_registered cfg h);
  Worker.is_referenced g m := run_flow (Chain.is_referenced cfg g m);
|}.

Definition sweep_client : SweepChain (RpcState N) := {|
  Maintenance.base_fee := run_flow Chain.base_fee;
  Maintenance.confirmed_nonce := run_flow (Chain.confirmed_nonce cfg RegisterWallet);
  Maintenance.cancel_stuck_nonce nonce fees :=
    run_flow (Chain.cancel_stuck_nonce cfg RegisterWallet nonce fees);
  sc_circuit_state := run_flow Chain.rpc_circuit_state;
  sc_balance := run_flow (Chain.balance cfg RegisterWallet);
  sc_gas_price := run_flow Chain.gas_price;
  sc_wallet_address := match Chain.wallet_address cfg RegisterWallet with
    | Ok a => Some (address_to_string a) | Err _ => None end;
  max_gas_price_wei := cfg_max_gas_price_wei cfg;
|}.
End client.

(** ** A network that remembers what it was sent *)

Record Logged (N : Type) := mkLogged { l_net : N; wire : list (string * string * Json) }.
Arguments mkLogged {N} _ _.
Arguments l_net {N} _.
Arguments wire {N} _.

#[refine] Instance logged_network {N} `{Network N} : Network (Logged N) := {|
  post url method params n :=
    let '(r, ms, n') := post url method params (l_net n) in
    (r, ms, mkLogged n' (wire n ++ [(url, method, params)]))
|}.
Proof.
  intros url method params n. pose proof (post_time url method params (l_net n)) as Ht.
  by destruct (post url method params (l_net n)) as [[r ms] n'].
Defined.

Section wire.
Context `{C : Crates, J : JsonCrate, E : EthCrates} (cfg : ChainConfig) {N : Type} `{Network N}.

(** The raw transactions sent so far. *)
Definition raw_sent (s : RpcState (Logged N)) : list (string * string * Json) :=
  filter (λ p, p.1.2 = SEND) (wire (rpc_net s)).

(** [p] is the wallet's signature over [task]'s own calldata, priced and
    bounded, sent to one endpoint. *)
Definition signed_for (task : RegisterTask) (p : string * string * Json) : Prop :=
  ∃ key data nonce gas fees url signed,
    cfg_signer_key cfg = Some key ∧ write_calldata task = Ok data ∧
    gas ≤ MAX_GAS_LIMIT ∧ max_fee_per_gas fees ≤ cfg_max_gas_price_wei cfg ∧
    sign_transaction key (mkTxEip1559 100 nonce gas (max_fee_per_gas fees)
      (max_priority_fee_per_gas fees) (cfg_registry_address cfg) 0 data) = Some signed ∧
    p = (url, SEND, JArr [hex_param signed]).

Lemma run_wire {A} (p : CProg A) (s s' : RpcState (Logged N)) t a :
  run rpc_shell p s = (s', t, a) → wire (rpc_net s') = wire (rpc_net s) ++ posts t.
Proof.
  revert s t. induction p as [a0|op k IH]; intros s t; cbn [run].
  - intros [= <- <- _]. by rewrite app_nil_r.
  - assert (Hop : wire (rpc_net (rpc_shell op s).2) = wire (rpc_net s) ++ posts [(op, RDone)]).
    { destruct op; cbn [rpc_shell posts omap list_omap fst]; rewrite ?app_nil_r; try done.
      - by destruct (select lane _ _).
      - by destruct (circuit_state _ _).
      - unfold post, logged_network. by destruct (post url method params _) as [[??]?]. }
    destruct (rpc_shell op s) as [r s1]. destruct (run rpc_shell (k r) s1) as [[s2 t2] a2] eqn:Er.
    intros [= <- <- <-]. rewrite (IH _ _ _ Er). cbn [snd] in Hop. rewrite Hop, <-app_assoc.
    change ((op, r) :: t2) with ([(op, r)] ++ t2). rewrite posts_app. by destruct op.
Qed.

Lemma run_flow_wire {A} (p : CProg A) (s : RpcState (Logged N)) :
  ∃ t, exec p t (run_flow p s).1 ∧ raw_sent (run_flow p s).2 = raw_sent s ++ sends t.
Proof.
  unfold run_flow. destruct (run rpc_shell p s) as [[s' t] a] eqn:Er. exists t. split; [by eapply run_exec|].
  unfold raw_sent, sends. cbn [snd]. by rewrite (run_wire _ _ _ _ _ Er), filter_app.
Qed.

(** A flow that never sends leaves the wire's sends alone. *)
Lemma run_flow_quiet {A} (p : CProg A) (s : RpcState (Logged N)) :
  (∀ t m, exec p t m → sends t = []) → raw_sent (run_flow p s).2 = raw_sent s.
Proof. intros Hp. destruct (run_flow_wire p s) as (t & He & ->). by rewrite (Hp _ _ He), app_nil_r. Qed.

Lemma quiet_bind {A B} (p : CFlow A) (f : A → CFlow B) t m :
  (∀ t m, exec p t m → sends t = []) → (∀ a t m, exec (f a) t m → sends t = []) →
  exec (fbind p f) t m → sends t = [].
Proof.
  intros Hp Hf [(e&H1&_)|(t1&t2&a&->&H1&H2)]%exec_fbind; [by eapply Hp|].
  rewrite sends_app. by rewrite (Hp _ _ H1), (Hf _ _ _ H2).
Qed.

Lemma quiet_Ret {A} (a : A) t m : exec (Ret (Op := RpcOp) (Res := RpcRes) a) t m → sends t = [].
Proof. by intros [-> _]%exec_ret_inv. Qed.

Lemma quiet_call method params t m :
  method ≠ SEND → exec (rpc_call method params) t m → sends t = [].
Proof. intros Hm [Hp _]%exec_rpc_call. by eapply sends_none. Qed.

Lemma quiet_registry a d t m : exec (call_contract a d) t m → sends t = [].
Proof.
  apply quiet_bind; [intros ??; by apply quiet_call|intros v ? ?].
  apply quiet_bind; [apply quiet_Ret|intros ???; apply quiet_Ret].
Qed.

Lemma quiet_receipt fuel hash started timeout t m :
  exec (receipt_loop fuel hash started timeout) t m → sends t = [].
Proof.
  revert t. induction fuel as [|fuel IH]; intros t; cbn [receipt_loop]; [apply quiet_Ret|].
  intros (r&t'&->&H')%exec_req_inv. change (sends t' = []). destruct (negb _); [by eapply quiet_Ret|].
  apply exec_bind in H' as (t1&t2&m1&->&H1&H2). rewrite sends_app.
  apply quiet_call in H1 as ->; [|done].
  destruct m1 as [v|e]; [|by eapply quiet_Ret]. destruct (is_null v); [|by eapply quiet_Ret].
  apply exec_req_inv in H2 as (r'&t3&->&H2%IH). done.
Qed.
End wire.

#[export] Hint Resolve quiet_Ret quiet_registry : registry.

(** ** Whole batches on the wire *)

Section batch_wire.
Context `{C : Crates, K : StoreCodec, J : JsonCrate, E : EthCrates} (cfg : ChainConfig).
Context {N : Type} `{Network N}.
#[local] Existing Instance chain_client.
#[local] Instance worker_client : ChainClient (RpcState (Logged N)) := chain_client cfg.

Lemma quiet_nonce role t m : exec (Chain.pending_nonce cfg role) t m → sends t = [].
Proof.
  apply quiet_bind; [apply quiet_Ret|intros a ??].
  apply quiet_bind; [intros ??; by apply quiet_call|intros ???; apply quiet_Ret].
Qed.

Lemma quiet_bool d t m :
  exec (fbind (read_registry cfg d) (λ b, decoded (decode_bool b))) t m → sends t = [].
Proof. apply quiet_bind; [apply quiet_registry|intros ???; apply quiet_Ret]. Qed.

(** At most one transaction of [task] went out between two states. *)
Definition at_most_one (task : RegisterTask) (s s' : RpcState (Logged N)) : Prop :=
  raw_sent s' = raw_sent s ∨ ∃ p, raw_sent s' = raw_sent s ++ [p] ∧ signed_for cfg task p.

Lemma at_most_one_eq task s1 s1' s2 s2' :
  at_most_one task s1 s1' → raw_sent s2 = raw_sent s1 → raw_sent s2' = raw_sent s1' →
  at_most_one task s2 s2'.
Proof. unfold at_most_one. by intros Ho -> ->. Qed.

Lemma register_wire task n (s : RpcState (Logged N)) :
  at_most_one task s (run_flow (Chain.register cfg task n) s).2.
Proof.
  destruct (run_flow_wire (Chain.register cfg task n) s) as (t & He & Hs).
  unfold at_most_one. rewrite Hs.
  apply exec_register in He as [[-> _]|(key&data&gas&fees&signed&url&t1&t2&?&?&->&Hs1&Hs2&Hg&?&_)];
    [left; by rewrite app_nil_r|right].
  rewrite sends_app, Hs1, Hs2. eexists. split; [done|].
  exists key, data, n, gas, fees, url, signed.
  split_and!; [done|done|apply Hg|apply Hg|done|done].
Qed.

Lemma submit_wire task (s : Worker (RpcState (Logged N))) :
  at_most_one task (w_chain s) (w_chain (submit task s).2).
Proof.
  unfold submit, wk_bind at 1.
  assert (Ha : raw_sent (w_chain (acquire s).2) = raw_sent (w_chain s)).
  { unfold acquire. destruct (w_nonce s); [done|]. cbn [Worker.pending_nonce worker_client chain_client].
    pose proof (run_flow_quiet (Chain.pending_nonce cfg RegisterWallet) (w_chain s) (quiet_nonce _)) as Hq.
    by destruct (run_flow _ _) as [[|] c]. }
  destruct (acquire s) as [[n|e] s1]; cbn [snd] in Ha; [|by left].
  symmetry in Ha.
  unfold wk_bind at 1, on_chain at 1. cbn [chain_register worker_client chain_client].
  pose proof (at_most_one_eq _ _ _ (w_chain s) _ (register_wire task n (w_chain s1)) Ha eq_refl) as Hr.
  destruct (run_flow _ (w_chain s1)) as [[b|e] c]; cbn [snd] in Hr; [|exact Hr].
  unfold wk_bind at 1. assert (Hrec : ∀ st : Worker (RpcState (Logged N)), w_chain (record_pending n (bc_hash b) (bc_fees_wei b) st).2 = w_chain st).
  { intros st. unfold record_pending, wk_bind, on_store. by destruct (st_bind _ _ (w_store st)). }
  assert (Hclr : ∀ st : Worker (RpcState (Logged N)), w_chain (clear_pending n st).2 = w_chain st).
  { intros st. unfold clear_pending, wk_bind, on_store. by destruct (delete_pending_tx _ _ _). }
  specialize (Hrec (mkWorker (w_store s1) (w_nonce s1) c)).
  destruct (record_pending _ _ _ _) as [u s2]. cbn [snd w_chain] in Hrec.
  unfold wk_bind at 1, on_chain at 1. cbn [Worker.wait_for_receipt worker_client chain_client].
  assert (Hw : raw_sent (run_receipt (bc_hash b) (w_chain s2)).2 = raw_sent c).
  { rewrite <-Hrec. unfold run_receipt.
    pose proof (run_flow_quiet (Chain.wait_for_receipt (bc_hash b) RECEIPT_TIMEOUT) (w_chain s2)) as Hq.
    destruct (run_flow _ _) as [r c']. apply Hq. intros t m (r'&t'&->&H2)%exec_req_inv.
    change (sends t' = []). by eapply quiet_receipt. }
  destruct (run_receipt _ _) as [[o|e] c']; cbn [snd] in Hw; [|by eapply at_most_one_eq].
  specialize (Hclr (mkWorker (w_store s2) (w_nonce s2) c')).
  destruct o; unfold wk_bind; destruct (clear_pending _ _) as [u' s3]; cbn [snd w_chain] in Hclr;
    (eapply at_most_one_eq; [exact Hr|done|by rewrite <-Hw, <-Hclr]).
Qed.

Lemma execute_wire op (s : Worker (RpcState (Logged N))) :
  (∃ task, op = SubmitRegister task ∧ at_most_one task (w_chain s) (w_chain (execute op s).2)) ∨
  (∀ task, op ≠ SubmitRegister task) ∧
    raw_sent (w_chain (execute op s).2) = raw_sent (w_chain s).
Proof.
  destruct op as [ids|h|g k|task|id tx n|id k msg|id msg]; cbn [execute].
  - right. split; [done|]. unfold wk_bind, on_store. by destruct (load_tasks ids _).
  - right. split; [done|]. destruct (parse_b256 h) as [b|]; [|done]. unfold wk_bind, on_chain.
    pose proof (run_flow_quiet (Chain.is_content_registered cfg b) (w_chain s) (quiet_bool _)) as Hq.
    cbn [Worker.is_content_registered worker_client chain_client]. by destruct (run_flow _ _).
  - right. split; [done|]. destruct (parse_hex_bytes g) as [gb|]; [|done].
    destruct (parse_hex_bytes k) as [kb|]; [|done]. unfold wk_bind, on_chain.
    pose proof (run_flow_quiet (Chain.is_referenced cfg gb kb) (w_chain s) (quiet_bool _)) as Hq.
    cbn [Worker.is_referenced worker_client chain_client]. by destruct (run_flow _ _).
  - left. exists task. split; [done|]. unfold wk_bind. pose proof (submit_wire task s) as Hs.
    by destruct (submit task s).
  - right. split; [done|]. unfold wk_bind, on_store. by destruct (Store.mark_done _ _ _ _).
  - right. split; [done|]. unfold wk_bind, on_store. by destruct (Store.mark_failed _ _ _ _).
  - right. split; [done|]. unfold wk_bind, on_store. by destruct (record_transient_failure _ _ _).
Qed.

(** The transactions of a run belong to its broadcasts, in order. *)
Lemma run_wire_tasks {A} (p : SProg A) (s s' : Worker (RpcState (Logged N))) t a :
  run execute p s = (s', t, a) →
  ∃ xs ps, raw_sent (w_chain s') = raw_sent (w_chain s) ++ ps ∧
    xs `sublist_of` broadcasts t ∧ Forall2 (signed_for cfg) xs ps.
Proof.
  revert s t. induction p as [a0|op k IH]; intros s t; cbn [run].
  - intros [= <- <- _]. exists [], []. rewrite app_nil_r. split; [done|]. split; [done|constructor].
  - pose proof (execute_wire op s) as Hop. destruct (execute op s) as [r s1]; cbn [snd] in Hop.
    destruct (run execute (k r) s1) as [[s2 t2] a2] eqn:E2. intros [= <- <- <-].
    destruct (IH r s1 t2 E2) as (xs & ps & Hraw & Hsub & HF).
    destruct Hop as [(task & -> & [H1|(p & H1 & Hp)])|[Hne H1]]; rewrite H1 in Hraw.
    + exists xs, ps. split; [done|]. split; [by apply sublist_cons|done].
    + exists (task :: xs), (p :: ps). split; [by rewrite Hraw, <-app_assoc|].
      split; [by apply sublist_skip|by constructor].
    + exists xs, ps. split; [done|]. split; [|done].
      by destruct op; try done; destruct (Hne task).
Qed.

Lemma load_tasks_stored ids w loaded :
  (load_tasks ids w).1 = Ok loaded → store_inv (db w) →
  ∀ t, Some t ∈ loaded → task_id t ∈ ids ∧ stored (db w) (task_id t) t.
Proof.
  revert w loaded. induction ids as [|id ids IH]; intros w loaded; [intros [= <-] _ t; set_solver|].
  cbn [load_tasks]. unfold st_bind at 1. destruct (get_task id w) as [[o|e] w1] eqn:Hg; [|done].
  pose proof (get_task_db id w) as Hdb. rewrite Hg in Hdb. cbn [snd] in Hdb.
  unfold st_bind. destruct (load_tasks ids w1) as [[l|e] w2] eqn:Hl; [|done].
  intros [= <-] Hi t [<-|Hin]%elem_of_cons.
  - destruct (get_task_exact _ _ _ _ Hg Hi) as [_ Hs]. pose proof (proj2 Hs) as Hid.
    rewrite Hid. split; [by left|done].
  - destruct (IH w1 l) with (t := t) as [? ?]; [by rewrite Hl|by rewrite Hdb|done|].
    rewrite Hdb in *. split; [by right|done].
Qed.

(** C5. What a batch puts on the wire.  Whatever the endpoints answer and
    whichever store commands are lost, the raw transactions that handling a
    polled batch sends are, in order, the wallet's own signatures over the
    calldata of tasks that were pending in the store under an id of the
    batch, within the gas and fee caps, to the registry on chain 100; at most
    two per id. *)
Theorem batch_on_the_wire queue_tasks (s s' : Worker (RpcState (Logged N))) m :
  reachable (db (w_store s)) → process_batch queue_tasks s = (m, s') →
  ∃ xs ps, raw_sent (w_chain s') = raw_sent (w_chain s) ++ ps ∧
    Forall2 (signed_for cfg) xs ps ∧
    (∀ x, x ∈ xs → status x = Pending ∧ task_id x ∈ task_id <$> queue_tasks ∧
       stored (db (w_store s)) (task_id x) x) ∧
    ∀ id, (length (filter (λ y, task_id y = id) xs) ≤ 2)%nat.
Proof.
  intros Hr Hp. unfold process_batch in Hp. destruct queue_tasks as [|q qs] eqn:Hq.
  { injection Hp as <- <-. exists [], []. rewrite app_nil_r. split; [done|].
    split; [constructor|]. split; [set_solver|simpl; lia]. }
  rewrite <-Hq in *. clear Hq.
  destruct (run execute (drive_batch (task_id <$> queue_tasks)) s) as [[s1 t] o] eqn:Er.
  injection Hp as _ <-. destruct (run_wire_tasks _ _ _ _ _ Er) as (xs & ps & Hraw & Hsub & HF).
  exists xs, ps. split; [done|]. split; [done|].
  enough (Hb : (∀ x, x ∈ broadcasts t → status x = Pending ∧ task_id x ∈ task_id <$> queue_tasks ∧
       stored (db (w_store s)) (task_id x) x) ∧
    ∀ id, (length (filter (λ y, task_id y = id) (broadcasts t)) ≤ 2)%nat).
  { destruct Hb as [H1 H2]. split; [intros x Hx; apply H1; by eapply elem_of_sublist|].
    intros id. etransitivity; [|apply H2]. apply sublist_length, sublist_filter_mono, Hsub. }
  assert (Hload : ∀ loaded t', t = (LoadTasks (task_id <$> queue_tasks), TasksLoaded loaded) :: t' →
    (load_tasks (task_id <$> queue_tasks) (w_store s)).1 = Ok loaded).
  { intros loaded t' ->. unfold drive_batch in Er. destruct (task_id <$> queue_tasks) as [|i ids]; [done|].
    cbn [run execute] in Er. unfold wk_bind, on_store in Er.
    destruct (load_tasks (i :: ids) (w_store s)) as [[l|e] w]; cbn [wk_ret] in Er; [|by injection Er].
    destruct (run execute _ _) as [[s2 t2] a2]. by injection Er as _ -> _ _. }
  apply run_exec, drive_batch_exec in Er as [(-> & _)|[(r & reason & -> & _)|(loaded&t'&m'&->&He&_)]].
  - split; [set_solver|simpl; lia].
  - split; [intros x Hx; by apply elem_of_nil in Hx|simpl; lia].
  - pose proof (load_tasks_stored _ _ _ (Hload _ _ eq_refl) (inv_reachable _ Hr)) as Hst.
    apply process_exec in He as [HQ (ext & -> & _ & Hb & _)]. rewrite app_nil_l in *.
    change (broadcasts ((LoadTasks (task_id <$> queue_tasks), TasksLoaded loaded) :: ext))
      with (broadcasts ext).
    destruct (canonical_tasks_spec [] loaded) as (Hin & Hnd & _). split.
    + intros x (e & He & Hx)%list_elem_of_omap. apply list_elem_of_split in He as (pre & post & Ht).
      destruct e as [[] r]; try done. injection Hx as ->.
      destruct (HQ pre _ post Ht) as [(Hx & Hp & _)%Hin _]. split; [done|by apply Hst].
    + intros id. specialize (Hb id). pose proof (NoDup_filter_id _ id Hnd). lia.
Qed.
End batch_wire.

(** ** Evaluation on examples *)

Lemma stored_same `{K : StoreCodec} d t x :
  stored d (task_id x) x → task_id x = task_id t →
  redis_get (task_key (task_id t)) d = Some (task_to_json t) → x = t.
Proof. intros [Hx _] Hid Ht. rewrite Hid, Ht in Hx. by injection Hx as <-%task_to_json_inj. Qed.

Section wire_examples.
#[local] Existing Instance concrete_crates.
#[local] Existing Instance concrete_codec.
#[local] Existing Instance concrete_json.
#[local] Existing Instance concrete_eth.
#[local] Existing Instance node_network.
#[local] Existing Instance chain_client.

Definition wired_redis : Redis := (admit_script sample_task empty_redis).2.

Lemma wired_reachable : reachable wired_redis.
Proof.
  exists empty_redis. split; [done|]. apply rtc_once. apply step_admit; [done|].
  vm_compute. reflexivity.
Qed.

Definition wired_worker : Worker (RpcState (Logged nat)) :=
  mkWorker (mkWorld wired_redis []) None (mkRpcState (new ["down"; "up"] ["up"]) 0 (mkLogged O [])).

Lemma batch_on_the_wire_witness :
  ∃ p, raw_sent (w_chain (process_batch (H := chain_client sample_cfg) [sample_task] wired_worker).2) = [p] ∧
    signed_for sample_cfg sample_task p.
Proof.
  destruct (process_batch (H := chain_client sample_cfg) [sample_task] wired_worker) as [m s'] eqn:E.
  destruct (batch_on_the_wire sample_cfg [sample_task] wired_worker s' m wired_reachable E)
    as (xs & ps & Hraw & HF & Hx & _).
  assert (Hl : length (raw_sent (w_chain s')) = 1%nat).
  { apply (f_equal snd) in E. cbn [snd] in E. rewrite <-E. vm_compute. reflexivity. }
  cbn [snd]. change (raw_sent (w_chain wired_worker)) with (@nil (string * string * Json)) in Hraw.
  rewrite app_nil_l in Hraw. rewrite Hraw in *.
  destruct HF as [|x p xs ps Hxp HF]; [done|]. destruct ps; [|done]. exists p. split; [done|].
  destruct (Hx x) as (_ & Hin & Hst); [by left|]. apply list_elem_of_singleton in Hin.
  assert (x = sample_task) as ->; [|done].
  eapply stored_same; [exact Hst|exact Hin|]. vm_compute. reflexivity.
Defined.
End wire_examples.
