(* ===== verification/CfClient.v ===== *)
(** * The Cloudflare shell's configuration and chain client
      ([p256-index-cf/src/config.rs], [p256-index-cf/src/chain.rs])

    The configuration read from the Worker's variables and secrets, the
    client made from it, and the POST over [fetch] with its abort timer.  The
    client is a port of the Docker shell's: its operations, from the pool up
    to the writes, are written out here after the text of this shell, and
    each is proved to be the same program as its namesake of [Chain].  The
    interfaces of the Durable Object and of the edge's reads are implemented
    by them. *)
From Stdlib Require Import Ascii String Strings.Byte.
From S2P Require Export Submitter Maintenance ChainWorker Http.
From stdpp Require Import options.
#[local] Set Warnings "-register-all".

(** ** Configuration *)

(** The Worker's bindings: text variables, and secrets. *)
Record Env := mkEnv { env_var : string → option string; env_secret : string → option string }.

Definition DEFAULT_WRITE_LIMIT : Z := 40.

Record CfConfig := mkCfConfig {
  cf_contract_address : string;
  cf_domain_registry : string;
  cf_private_key : option string;
  cf_global_write_limit : Z;
  cf_max_gas_price_wei : Z;
  cf_read_rpcs : list string;
  cf_write_rpcs : list string;
  cf_telegram_bot_token : option string;
  cf_telegram_chat_id : option string;
  cf_release : option string;
}.

Definition nonempty (v : option string) : option string :=
  s ← v; if String.eqb s EmptyString then None else Some s.

Definition secret (env : Env) (name : string) : option string := nonempty (env_secret env name).

(** The variable, else the secret, then the test for emptiness. *)
Definition optional (env : Env) (name : string) : option string :=
  nonempty match env_var env name with Some v => Some v | None => secret env name end.

Definition required (env : Env) (name : string) : result string string :=
  ok_or ("missing required variable: " +:+ name) (optional env name).

(** [raw.split(',')] *)
Fixpoint split_on (sep : ascii) (s : string) : list string :=
  match s with
  | EmptyString => [EmptyString]
  | String c s =>
      if Ascii.eqb c sep then EmptyString :: split_on sep s
      else match split_on sep s with
           | [] => [String c EmptyString]
           | part :: parts => String c part :: parts
           end
  end.

Definition env_list (env : Env) (name : string) : option (list string) :=
  raw ← optional env name;
  match filter (λ url, url ≠ EmptyString) (trim <$> split_on "," raw) with
  | [] => None
  | urls => Some urls
  end.

Definition from_env (env : Env) : result CfConfig string :=
  try contract_address := required env "P256_INDEX_CONTRACT_ADDRESS" in
  let write_rpcs := default WRITE_RPCS (env_list env "P256_INDEX_WRITE_RPCS") in
  Ok (mkCfConfig contract_address
    (default contract_address (optional env "P256_INDEX_DOMAIN_REGISTRY"))
    (secret env "PRIVATE_KEY")
    (default DEFAULT_WRITE_LIMIT (optional env "GLOBAL_WRITE_LIMIT" ≫= parse_u64))
    (default DEFAULT_MAX_FEE_WEI (optional env "P256_INDEX_MAX_GAS_PRICE_WEI" ≫= parse_u128))
    (default FALLBACK_RPCS (env_list env "P256_INDEX_READ_RPCS"))
    match secret env "ALCHEMY_API_KEY" with
    | Some key => ("https://gnosis-mainnet.g.alchemy.com/v2/" +:+ key) :: write_rpcs
    | None => write_rpcs
    end
    (secret env "TELEGRAM_BOT_TOKEN") (secret env "TELEGRAM_CHAT_ID") (optional env "RELEASE")).

(** ** The POST *)

Definition RPC_TIMEOUT : Z := 10_000.

(** A response's head, then its body: the time its bytes take, and the JSON
    they are, if they are. *)
Record FetchResponse := mkFetchResponse {
  fr_status : Z;
  fr_body_ms : Z;
  fr_json : option Json;
}.

(** [Fetch::send_with_signal]: an error (of the headers, the request or the
    connection), or a response whose head arrived after so long. *)
Class Fetcher (N : Type) := {
  fetch_send : string → string → Json → N → option FetchResponse * Z * N;
  fetch_send_time url method params n : 0 ≤ (fetch_send url method params n).1.2;
  fetch_body_time url method params n r : (fetch_send url method params n).1.1 = Some r → 0 ≤ fr_body_ms r;
}.

Section post.
Context {N : Type} `{Fetcher N}.

(** The head races the timer ([select] asks it first); the body does not. *)
Definition post_json (url method : string) (params : Json) (n : N) : HttpReply * Z * N :=
  let '(response, ms, n) := fetch_send url method params n in
  if RPC_TIMEOUT <? ms then (NoAnswer, RPC_TIMEOUT, n) else
  match response with
  | None => (NoAnswer, ms, n)
  | Some r =>
      if 400 <=? fr_status r then (NoAnswer, ms, n)
      else (match fr_json r with Some v => Answer v | None => BadBody end, ms + fr_body_ms r, n)
  end.

(** The client's transport. *)
#[export, refine] Instance fetch_network : Network N := {| post := post_json |}.
Proof using H.
  intros url method params n. unfold post_json.
  pose proof (fetch_send_time url method params n) as Ht.
  pose proof (fetch_body_time url method params n) as Hb.
  destruct (fetch_send _ _ _ _) as [[r ms] n']. cbn [fst snd] in *.
  destruct (RPC_TIMEOUT <? ms); [done|]. destruct r as [r|]; [|done].
  specialize (Hb r eq_refl). destruct (400 <=? fr_status r); cbn; lia.
Defined.

(** A POST takes no longer than the timer and the body. *)
Lemma post_json_time url method params n (limit : Z) :
  (∀ r, (fetch_send url method params n).1.1 = Some r → fr_body_ms r ≤ limit) → 0 ≤ limit →
  (post_json url method params n).1.2 ≤ RPC_TIMEOUT + limit.
Proof.
  intros Hb Hl. unfold post_json. destruct (fetch_send _ _ _ _) as [[r ms] n'].
  destruct (Z.ltb_spec RPC_TIMEOUT ms); [cbn; lia|]. destruct r as [r|]; [|cbn; lia].
  specialize (Hb r eq_refl). destruct (400 <=? fr_status r); cbn; lia.
Qed.
End post.

(** ** The client *)

Section client.
Context `{C : Crates, J : JsonCrate, E : EthCrates}.

Definition cf_parse_secret_key (v : string) : result SecretKey string :=
  try b := ok_or "PRIVATE_KEY is not valid hex" (hex_decode (strip_0x v)) in
  ok_or "PRIVATE_KEY is not a valid secp256k1 key" (secret_key_from_slice b).

(** [Chain::new]; [rpc] is made of the two lists. *)
Definition cf_new_chain (config : CfConfig) : result ChainConfig string :=
  try signer_key := match cf_private_key config with
    | Some v => try k := cf_parse_secret_key v in Ok (Some k)
    | None => Ok None
    end in
  try registry := ok_or "P256_INDEX_CONTRACT_ADDRESS is not a valid address"
    (address_parse (cf_contract_address config)) in
  try domain := ok_or "P256_INDEX_DOMAIN_REGISTRY is not a valid address"
    (address_parse (cf_domain_registry config)) in
  Ok (mkChainConfig _ registry domain signer_key (cf_max_gas_price_wei config)).
Definition cf_roster (config : CfConfig) : Roster :=
  Roster.new (cf_read_rpcs config) (cf_write_rpcs config).

(** What the Durable Object reads of its configuration. *)
Definition cf_deployment (env : Env) : result Deployment string :=
  try config := from_env env in
  try chain := cf_new_chain config in
  Ok (mkDeployment (cf_global_write_limit config) (has_signer chain) (domain_registry_address chain)).

(** *** Values *)

(** [PrivateKeySigner::from(key.clone()).address()] *)
Definition cf_signer_address (key : SecretKey) : bytes := signer_address key.

Definition cf_sign_eip1559 (key : SecretKey) (nonce gas_limit : Z) (fees : FeePlan) (to : bytes)
    (value : Z) (input : bytes) : result bytes ChainError :=
  try max_fee := ok_or (Rejected "gas price exceeds u128") (try_u128 (max_fee_per_gas fees)) in
  try priority := ok_or (Rejected "priority fee exceeds u128")
    (try_u128 (max_priority_fee_per_gas fees)) in
  ok_or (Rejected "could not sign transaction")
    (sign_transaction key (mkTxEip1559 CHAIN_ID nonce gas_limit max_fee priority to value input)).

Definition cf_parse_u256_value (v : Json) : result Z ChainError :=
  try s := ok_or InvalidResponse (as_str v) in
  ok_or InvalidResponse (u256_from_hex (strip_0x s)).
Definition cf_parse_quantity_value (v : Json) : result Z ChainError :=
  try n := cf_parse_u256_value v in ok_or InvalidResponse (try_u64 n).
Definition cf_decode_rpc_bytes (v : string) : result bytes ChainError :=
  ok_or InvalidResponse (hex_decode (strip_0x v)).

(** The loop over the logs: a [?] ends it with [None]. *)
Fixpoint cf_logs_id (logs : list Json) : option Z :=
  match logs with
  | [] => None
  | log :: logs =>
      topics ← json_get "topics" log ≫= as_array;
      event ← head topics ≫= as_str;
      if negb (bool_decide (event = GROUP_CREATED_TOPIC))
         && negb (bool_decide (event = REFERENCE_CREATED_TOPIC)) then cf_logs_id logs else
      id ← topics !! 1%nat ≫= as_str;
      Some (default 0 (u64_from_hex (trim_start_matches "0" (strip_0x id))))
  end.
Definition cf_parse_on_chain_id (receipt : Json) : option Z :=
  logs ← json_get "logs" receipt ≫= as_array; cf_logs_id logs.

(** *** The RPC pool *)

Definition cf_read_available : CProg bool :=
  await r := CircuitState in Ret (bool_decide (circuit_of r = "closed")).
Definition cf_select_write : CProg (option string) :=
  await r := Select Write in Ret (url_of r).

(** The answer of [post_json] and its reading. *)
Definition cf_call_on (url method : string) (params : Json) : CFlow Json :=
  await r := Post url method params in
  match reply_of r with
  | NoAnswer => Ret (Err Unavailable)
  | BadBody => Ret (Err InvalidResponse)
  | Answer body =>
      match json_get "error" body with
      | Some error =>
          let message := default "RPC rejected request" (json_get "message" error ≫= as_str) in
          let detail := default "" (json_to_string <$> json_get "data" error) in
          let text := message +:+ " " +:+ detail in
          if is_revert text then Ret (Err (Reverted text)) else Ret (Err (Rejected text))
      | None =>
          match json_get "result" body with
          | None => Ret (Err InvalidResponse)
          | Some result => await _r := MarkHealthy url in Ret (Ok result)
          end
      end
  end.

Fixpoint cf_call_loop (attempts : nat) (method : string) (params : Json) : CFlow Json :=
  match attempts with
  | O => Ret (Err Unavailable)
  | S attempts =>
      await r := Select Read in
      match url_of r with
      | None => Ret (Err Unavailable)
      | Some url =>
          pbind (cf_call_on url method params) (λ m,
            match m with
            | Ok v => Ret (Ok v)
            | Err (Reverted error) => Ret (Err (Reverted error))
            | Err _ => await _r := MarkFailed url in cf_call_loop attempts method params
            end)
      end
  end.
Definition cf_call (method : string) (params : Json) : CFlow Json :=
  await r := ReadAttempts in cf_call_loop (attempts_of r) method params.

Context (cfg : ChainConfig).

(** *** Reads *)

Definition cf_rpc_circuit_state : CProg string :=
  pbind cf_read_available (λ b, Ret (if b then "closed" else "open")).
Definition cf_has_signer : bool := bool_decide (is_Some (cfg_signer_key cfg)).
Definition cf_registry_address : string := address_to_string (cfg_registry_address cfg).
Definition cf_domain_registry_address : string := address_to_string (cfg_domain_registry_address cfg).
(** [max_gas_price_wei()] *)
Definition cf_price_cap : Z := cfg_max_gas_price_wei cfg.

Definition cf_call_contract (to data : bytes) : CFlow bytes :=
  call result := cf_call "eth_call"
    (JArr [JObj [("to", address_param to); ("data", hex_param data)]; JStr "latest"]) in
  call v := Ret (ok_or InvalidResponse (as_str result)) in
  Ret (cf_decode_rpc_bytes v).

Definition cf_entry (entry_id : Z) : CFlow (option Entry) :=
  pbind (cf_call_contract (cfg_registry_address cfg) (get_entry_calldata entry_id)) (λ r,
    match r with
    | Ok b => Ret (match decode_entry entry_id b with Ok e => Ok (Some e) | Err _ => Err InvalidResponse end)
    | Err (Reverted _) => Ret (Ok None)
    | Err error => Ret (Err error)
    end).

Definition cf_unit (unit_id : Z) : CFlow (option Unit) :=
  pbind (cf_call_contract (cfg_registry_address cfg) (get_unit_calldata unit_id)) (λ r,
    match r with
    | Ok b => Ret (match decode_unit unit_id b with Ok u => Ok (Some u) | Err _ => Err InvalidResponse end)
    | Err (Reverted _) => Ret (Ok None)
    | Err error => Ret (Err error)
    end).

Definition cf_key_profile (public_key : string) (page page_size : Z) (descending : bool)
    : CFlow (option KeyProfile) :=
  call key := Ret (ok_or InvalidResponse (hex_decode (strip_0x public_key))) in
  call b := cf_call_contract (cfg_registry_address cfg) (get_entry_by_key_calldata key) in
  call found := decoded (decode_entry_by_key b) in
  match found with
  | None => Ret (Ok None)
  | Some entry =>
      let offset := sat_mul U64_MAX (sat_sub page 1) page_size in
      call b := cf_call_contract (cfg_registry_address cfg)
        (groups_of_key_calldata key offset page_size descending) in
      call groups := decoded (decode_id_page b) in
      call b := cf_call_contract (cfg_registry_address cfg)
        (references_of_key_calldata key offset page_size descending) in
      call references := decoded (decode_id_page b) in
      Ret (Ok (Some (mkKeyProfile entry groups.1 groups.2 references.1 references.2)))
  end.

(** The loop over the page's ids, pushing onto [items]. *)
Fixpoint cf_push_units (ids : list Z) (items : list Unit) : CFlow (list Unit) :=
  match ids with
  | [] => Ret (Ok items)
  | unit_id :: ids =>
      call b := cf_call_contract (cfg_registry_address cfg) (get_unit_calldata unit_id) in
      call u := decoded (decode_unit unit_id b) in
      cf_push_units ids (items ++ [u])
  end.

Definition cf_groups_by_rp_id (rp_id : string) (page page_size : Z) (descending : bool)
    : CFlow (Page Unit) :=
  let offset := sat_mul U64_MAX (sat_sub page 1) page_size in
  call b := cf_call_contract (cfg_registry_address cfg)
    (groups_by_rp_id_calldata rp_id offset page_size descending) in
  call ids := decoded (decode_id_page b) in
  call items := cf_push_units ids.2 [] in
  Ret (Ok (mkPage ids.1 page page_size items)).

Definition cf_rp_ids (page page_size : Z) (descending : bool) : CFlow (Page SiteItem) :=
  let offset := sat_mul U64_MAX (sat_sub page 1) page_size in
  call b := cf_call_contract (cfg_registry_address cfg) (rp_ids_calldata offset page_size descending) in
  call sites := decoded (decode_rp_ids b) in
  Ret (Ok (mkPage sites.1 page page_size
    ((λ '(rp_id, entry_count, created_at), mkSiteItem rp_id entry_count created_at) <$> sites.2))).

Definition cf_unit_by_group_key (public_key : bytes) : CFlow (option Unit) :=
  call b := cf_call_contract (cfg_registry_address cfg) (get_unit_by_group_key_calldata public_key) in
  decoded (decode_unit_by_group_key b).

Definition cf_group_detail_for (u : Unit) (group_key : bytes) (page page_size : Z)
    (descending : bool) : CFlow GroupDetail :=
  let offset := sat_mul U64_MAX (sat_sub page 1) page_size in
  call b := cf_call_contract (cfg_registry_address cfg)
    (get_group_members_calldata (u_unit_id u) offset page_size descending) in
  call members := decoded (decode_group_members b) in
  call b := cf_call_contract (cfg_registry_address cfg)
    (references_to_group_calldata group_key offset page_size descending) in
  call references := decoded (decode_id_page b) in
  Ret (Ok (mkGroupDetail u members.1 members.2 references.1 references.2)).

(** [.await.map(Some)] *)
Definition some_of {A} (m : CFlow A) : CFlow (option A) := call a := m in Ret (Ok (Some a)).

Definition cf_group_detail_by_key (public_key : bytes) (page page_size : Z) (descending : bool)
    : CFlow (option GroupDetail) :=
  call found := cf_unit_by_group_key public_key in
  match found with
  | None => Ret (Ok None)
  | Some u => some_of (cf_group_detail_for u public_key page page_size descending)
  end.

Definition cf_group_detail_by_id (unit_id page page_size : Z) (descending : bool)
    : CFlow (option GroupDetail) :=
  call found := cf_unit unit_id in
  match found with
  | None => Ret (Ok None)
  | Some u =>
      call group_key := Ret (ok_or InvalidResponse (hex_decode (u_group_public_key u))) in
      some_of (cf_group_detail_for u group_key page page_size descending)
  end.

Definition cf_is_referenced (group_public_key member_public_key : bytes) : CFlow bool :=
  call b := cf_call_contract (cfg_registry_address cfg)
    (is_referenced_calldata group_public_key member_public_key) in
  decoded (decode_bool b).

Definition cf_totals : CFlow Totals :=
  let read calldata := pbind (cf_call_contract (cfg_registry_address cfg) calldata) (λ r,
    Ret (try b := r in map_err (λ _, InvalidResponse) (decode_total b))) in
  call entries := read total_entries_calldata in
  call units := read total_units_calldata in
  call references := read total_references_calldata in
  call rps := read total_rp_ids_calldata in
  Ret (Ok (mkTotals entries units references rps)).

Definition cf_is_content_registered (content_hash : bytes) : CFlow bool :=
  call b := cf_call_contract (cfg_registry_address cfg) (is_content_registered_calldata content_hash) in
  decoded (decode_bool b).

(** *** The node's state *)

Definition cf_wallet_key (role : WalletRole) : result SecretKey ChainError :=
  match role with RegisterWallet => ok_or MissingSigner (cfg_signer_key cfg) end.
Definition cf_wallet_address (role : WalletRole) : result bytes ChainError :=
  try key := cf_wallet_key role in Ok (cf_signer_address key).

Definition cf_pending_nonce (role : WalletRole) : CFlow Z :=
  call address := Ret (cf_wallet_address role) in
  call v := cf_call "eth_getTransactionCount" (JArr [address_param address; JStr "pending"]) in
  Ret (cf_parse_quantity_value v).
Definition cf_confirmed_nonce (role : WalletRole) : CFlow Z :=
  call address := Ret (cf_wallet_address role) in
  call v := cf_call "eth_getTransactionCount" (JArr [address_param address; JStr "latest"]) in
  Ret (cf_parse_quantity_value v).
Definition cf_gas_price : CFlow Z :=
  call v := cf_call "eth_gasPrice" (JArr []) in Ret (cf_parse_u256_value v).
Definition cf_balance (role : WalletRole) : CFlow Z :=
  call address := Ret (cf_wallet_address role) in
  call v := cf_call "eth_getBalance" (JArr [address_param address; JStr "latest"]) in
  Ret (cf_parse_u256_value v).

(** *** Writes *)

Definition cf_fee_plan_from (base_fee : Z) : FeeVerdict :=
  plan_fees base_fee DEFAULT_TIP_WEI (cfg_max_gas_price_wei cfg).

Definition cf_estimate_gas_on (url : string) (from to : bytes) (data : bytes) : CFlow Z :=
  call v := cf_call_on url "eth_estimateGas"
    (JArr [JObj [("from", address_param from); ("to", address_param to); ("data", hex_param data)]]) in
  Ret (cf_parse_quantity_value v).

Definition cf_gas_price_on (url : string) : CFlow Z :=
  call v := cf_call_on url "eth_gasPrice" (JArr []) in Ret (cf_parse_u256_value v).

Definition cf_base_fee_on (url : string) : CFlow Z :=
  call v := cf_call_on url "eth_getBlockByNumber" (JArr [JStr "latest"; JBool false]) in
  match json_get "baseFeePerGas" v with
  | Some base_fee => Ret (cf_parse_u256_value base_fee)
  | None => cf_gas_price_on url
  end.

(** The balance is read on the failover lane. *)
Definition cf_balance_on (address : bytes) : CFlow Z :=
  call v := cf_call "eth_getBalance" (JArr [address_param address; JStr "latest"]) in
  Ret (cf_parse_u256_value v).

(** [self.rpc.select_write().ok_or(ChainError::Unavailable)?] *)
Definition cf_write_url : CFlow string :=
  pbind cf_select_write (λ url, Ret (ok_or Unavailable url)).

Definition cf_base_fee : CFlow Z := call url := cf_write_url in cf_base_fee_on url.

Definition cf_fee_plan : CFlow FeeVerdict :=
  call url := cf_write_url in
  call b := cf_base_fee_on url in Ret (Ok (cf_fee_plan_from b)).

Definition cf_send_transaction_on (url : string) (key : SecretKey) (t : Transaction) : CFlow string :=
  call signed := Ret (cf_sign_eip1559 key (nonce t) (gas_limit t) (fees t) (to t) (value t) (data t)) in
  call result := cf_call_on url "eth_sendRawTransaction" (JArr [hex_param signed]) in
  Ret (ok_or InvalidResponse (as_str result)).

Definition cf_send_contract_transaction (role : WalletRole) (to : bytes) (data : bytes) (nonce : Z)
    : CFlow Broadcast :=
  call key := Ret (cf_wallet_key role) in
  let from := cf_signer_address key in
  call url := cf_write_url in
  call estimate := cf_estimate_gas_on url from to data in
  let gas_limit := sat_mul U64_MAX estimate 120 / 100 in
  if negb (gas_limit_within_bounds gas_limit) then
    Ret (Err (Rejected ("gas limit " +:+ fmt gas_limit +:+ " exceeds the " +:+
      fmt MAX_GAS_LIMIT +:+ " cap"))) else
  call base_fee := cf_base_fee_on url in
  match cf_fee_plan_from base_fee with
  | TooExpensive required cap => Ret (Err (Rejected (too_expensive_reason required cap)))
  | Send fees =>
      let required := required_balance gas_limit (max_fee_per_gas fees) in
      call balance := cf_balance_on from in
      if balance <? required then
        Ret (Err (Rejected ("wallet " +:+ address_to_string from +:+ " holds " +:+ fmt balance
          +:+ " wei, below the " +:+ fmt required +:+ " wei this write may cost"))) else
      call hash := cf_send_transaction_on url key (mkTransaction to data 0 nonce gas_limit fees) in
      Ret (Ok (mkBroadcast hash
        (f ← try_u128 (max_fee_per_gas fees); p ← try_u128 (max_priority_fee_per_gas fees);
         Some (f, p))))
  end.

Definition cf_register (task : RegisterTask) (nonce : Z) : CFlow Broadcast :=
  call data := Ret (map_err (λ _, Rejected "could not encode a register call")
    (write_calldata task)) in
  cf_send_contract_transaction RegisterWallet (cfg_registry_address cfg) data nonce.

(** The key is asked for once. *)
Definition cf_cancel_stuck_nonce (role : WalletRole) (nonce : Z) (fees : FeePlan) : CFlow string :=
  call key := Ret (cf_wallet_key role) in
  let address := cf_signer_address key in
  call url := cf_write_url in
  cf_send_transaction_on url key (mkTransaction address [] 0 nonce 21_000 fees).

(** [while Date::now() < deadline] *)
Fixpoint cf_receipt_loop (fuel : nat) (hash : string) (deadline : Z)
    : CProg (option (result ReceiptOutcome ChainError)) :=
  match fuel with
  | O => Ret None
  | S fuel =>
      await now_ := Elapsed in
      if negb (elapsed_of now_ <? deadline) then Ret (Some (Err Unavailable)) else
      pbind (cf_call "eth_getTransactionReceipt" (JArr [JStr hash])) (λ r,
        match r with
        | Err error => Ret (Some (Err error))
        | Ok v =>
            if is_null v
            then await _u := Sleep 2_000 in cf_receipt_loop fuel hash deadline
            else Ret (Some (
              try status := ok_or InvalidResponse (json_get "status" v ≫= as_str) in
              if bool_decide (status = "0x1") || bool_decide (status = "0x01")
              then Ok (Success (cf_parse_on_chain_id v)) else Ok RReverted))
        end)
  end.

Definition cf_wait_for_receipt (hash : string) (timeout : Z)
    : CProg (option (result ReceiptOutcome ChainError)) :=
  await now_ := Elapsed in
  cf_receipt_loop (receipt_fuel timeout) hash (elapsed_of now_ + timeout).
End client.

(** ** The port is the same client *)

(** Programs that no shell can tell apart: the same operations in the same
    order, the same result. *)
Definition same_runs {A} (p q : CProg A) : Prop :=
  ∀ (S : Type) (h : RpcOp → S → RpcRes * S) (s : S), run h p s = run h q s.

#[export] Instance same_runs_equivalence A : Equivalence (@same_runs A).
Proof.
  split; [by intros p S h s|by intros p q H S h s; rewrite H|].
  intros p q r H1 H2 S h s. by rewrite H1, H2.
Qed.

#[export] Instance pbind_same {A B} :
  Proper (same_runs ==> pointwise_relation A same_runs ==> @same_runs B) pbind.
Proof.
  intros p q Hp f g Hf S h s. rewrite !run_bind, Hp.
  destruct (run h q s) as [[s1 t1] a]. by rewrite (Hf a S h s1).
Qed.

Lemma request_same {A} op (k k' : RpcRes → CProg A) :
  pointwise_relation RpcRes same_runs k k' → same_runs (Req op k) (Req op k').
Proof. intros Hk S h s. cbn [run]. destruct (h op s) as [r s1]. by rewrite (Hk r S h s1). Qed.

(** A run that some shell can have is a run of the other program. *)
Fixpoint replies (t : trace RpcOp RpcRes) : list RpcRes :=
  match t with [] => [] | (_, r) :: t => r :: replies t end.
Definition replay_shell (_ : RpcOp) (rs : list RpcRes) : RpcRes * list RpcRes :=
  match rs with [] => (RDone, []) | r :: rs => (r, rs) end.

Lemma exec_replays {A} (p : CProg A) t a : exec p t a → run replay_shell p (replies t) = ([], t, a).
Proof. induction 1 as [a|op k r t a _ IH]; [done|]. cbn [run replies replay_shell]. by rewrite IH. Qed.

Lemma same_exec {A} (p q : CProg A) t a : same_runs p q → exec p t a → exec q t a.
Proof.
  intros Hpq He. pose proof (exec_replays _ _ _ He) as Hr. rewrite (Hpq _ replay_shell) in Hr. by eapply run_exec.
Qed.

Lemma fbind_same {A B} (p q : CFlow A) (f g : A → CFlow B) :
  same_runs p q → (∀ a, same_runs (f a) (g a)) → same_runs (fbind p f) (fbind q g).
Proof. intros Hp Hf. apply pbind_same; [done|]. intros [a|e]; [apply Hf|done]. Qed.

Lemma fbind_assoc {A B D} (p : CFlow A) (f : A → CFlow B) (g : B → CFlow D) :
  same_runs (fbind (fbind p f) g) (fbind p (λ a, fbind (f a) g)).
Proof.
  intros S h s. unfold fbind. rewrite !run_bind. destruct (run h p s) as [[s1 t1] [a|e]].
  - rewrite run_bind. destruct (run h (f a) s1) as [[s2 t2] m].
    destruct (run h _ s2) as [[s3 t3] r]. by rewrite app_assoc.
  - cbn [run]. by rewrite !app_nil_r.
Qed.

Lemma fbind_ok {A} (p : CFlow A) : same_runs (fbind p (λ a, Ret (Ok a))) p.
Proof.
  intros S h s. unfold fbind. rewrite run_bind. destruct (run h p s) as [[s1 t1] [a|e]]; cbn [run]; by rewrite app_nil_r.
Qed.

(** Two texts of one operation, compared step by step. *)
Create HintDb port.
Ltac port_step :=
  first [ reflexivity | solve [auto with port nocore]
        | apply fbind_same; [|intros ?] | apply request_same; intros ?
        | apply pbind_same; [|intros ?] ].
Ltac port := repeat port_step.

Section port.
Context `{C : Crates, J : JsonCrate, E : EthCrates} (cfg : ChainConfig).

(** *** The pool *)

Lemma call_on_same url method params : same_runs (cf_call_on url method params) (call_on url method params).
Proof.
  apply request_same. intros r. unfold read_reply, rpc_error. destruct (reply_of r) as [| |body]; [done..|].
  destruct (json_get "error" body) as [error|]; [by destruct (is_revert _)|]. by destruct (json_get "result" body).
Qed.
#[local] Hint Resolve call_on_same : port.

Lemma call_loop_same n method params : same_runs (cf_call_loop n method params) (call_loop n method params).
Proof.
  induction n as [|n IH]; [done|]. cbn [cf_call_loop call_loop]. apply request_same. intros r.
  destruct (url_of r) as [url|]; [|done]. apply pbind_same; [apply call_on_same|].
  intros [v|[]]; try done; apply request_same; intros _; exact IH.
Qed.

Lemma call_same method params : same_runs (cf_call method params) (rpc_call method params).
Proof. apply request_same. intros r. apply call_loop_same. Qed.
#[local] Hint Resolve call_same : port.

Lemma call_contract_same to data : same_runs (cf_call_contract to data) (call_contract to data).
Proof. unfold cf_call_contract, call_contract. port. Qed.
Lemma read_registry_same d : same_runs (cf_call_contract (cfg_registry_address cfg) d) (read_registry cfg d).
Proof. apply call_contract_same. Qed.
#[local] Hint Resolve call_contract_same read_registry_same : port.

(** *** Reads *)

Lemma entry_same i : same_runs (cf_entry cfg i) (entry cfg i).
Proof.
  apply pbind_same; [apply read_registry_same|]. intros [b|[]]; try done. unfold decoded. by destruct (decode_entry i b).
Qed.
Lemma unit_same i : same_runs (cf_unit cfg i) (unit_ cfg i).
Proof.
  apply pbind_same; [apply read_registry_same|]. intros [b|[]]; try done. unfold decoded. by destruct (decode_unit i b).
Qed.
Lemma unit_by_group_key_same k : same_runs (cf_unit_by_group_key cfg k) (unit_by_group_key cfg k).
Proof. unfold cf_unit_by_group_key, unit_by_group_key. port. Qed.
Lemma group_detail_for_same u k p n d :
  same_runs (cf_group_detail_for cfg u k p n d) (group_detail_for cfg u k p n d).
Proof. unfold cf_group_detail_for, group_detail_for. port. Qed.
#[local] Hint Resolve entry_same unit_same unit_by_group_key_same group_detail_for_same : port.

Lemma key_profile_same k p n d : same_runs (cf_key_profile cfg k p n d) (key_profile cfg k p n d).
Proof.
  unfold cf_key_profile, key_profile. do 3 (apply fbind_same; [auto with port nocore; done|intros ?]).
  case_match; port.
Qed.

Lemma push_units_same ids items :
  same_runs (cf_push_units cfg ids items) (call us := units_of cfg ids in Ret (Ok (items ++ us))).
Proof.
  revert items. induction ids as [|i ids IH]; intros items; cbn [cf_push_units units_of].
  { cbn. by rewrite app_nil_r. }
  rewrite fbind_assoc. apply fbind_same; [apply read_registry_same|]. intros b.
  rewrite fbind_assoc. apply fbind_same; [done|]. intros u. rewrite (IH (items ++ [u])), fbind_assoc.
  apply fbind_same; [done|]. intros us. cbn. by rewrite <-app_assoc.
Qed.
Lemma groups_by_rp_id_same r p n d : same_runs (cf_groups_by_rp_id cfg r p n d) (groups_by_rp_id cfg r p n d).
Proof.
  unfold cf_groups_by_rp_id, groups_by_rp_id. do 2 (apply fbind_same; [auto with port nocore; done|intros ?]).
  apply fbind_same; [|done]. rewrite push_units_same. apply fbind_ok.
Qed.

Lemma rp_ids_same p n d : same_runs (cf_rp_ids cfg p n d) (rp_ids cfg p n d).
Proof.
  unfold cf_rp_ids, rp_ids. do 2 (apply fbind_same; [auto with port nocore; done|intros ?]).
  erewrite list_fmap_ext; [reflexivity|]. by intros _ [[r k] c] _.
Qed.
Lemma group_detail_by_key_same k p n d :
  same_runs (cf_group_detail_by_key cfg k p n d) (group_detail_by_key cfg k p n d).
Proof. unfold cf_group_detail_by_key, group_detail_by_key, some_of. port. case_match; port. Qed.
Lemma group_detail_by_id_same u p n d :
  same_runs (cf_group_detail_by_id cfg u p n d) (group_detail_by_id cfg u p n d).
Proof. unfold cf_group_detail_by_id, group_detail_by_id, some_of. port. case_match; port. Qed.
Lemma is_referenced_same g m : same_runs (cf_is_referenced cfg g m) (is_referenced cfg g m).
Proof. unfold cf_is_referenced, is_referenced. port. Qed.
Lemma is_content_registered_same h : same_runs (cf_is_content_registered cfg h) (is_content_registered cfg h).
Proof. unfold cf_is_content_registered, is_content_registered. port. Qed.
Lemma totals_same : same_runs (cf_totals cfg) (totals cfg).
Proof.
  unfold cf_totals, totals, read_total, decoded.
  do 4 (apply fbind_same; [apply pbind_same; [apply read_registry_same|by intros [b|e]]|intros ?]). done.
Qed.

(** *** The node's state and the wallet *)

Lemma wallet_key_same role : cf_wallet_key cfg role = wallet_key cfg role.
Proof. by destruct role. Qed.
Lemma wallet_address_same role : cf_wallet_address cfg role = wallet_address cfg role.
Proof. by destruct role. Qed.
Lemma pending_nonce_same role : same_runs (cf_pending_nonce cfg role) (pending_nonce cfg role).
Proof. unfold cf_pending_nonce, pending_nonce. rewrite wallet_address_same. port. Qed.
Lemma confirmed_nonce_same role : same_runs (cf_confirmed_nonce cfg role) (confirmed_nonce cfg role).
Proof. unfold cf_confirmed_nonce, confirmed_nonce. rewrite wallet_address_same. port. Qed.
Lemma gas_price_same : same_runs cf_gas_price gas_price.
Proof. unfold cf_gas_price, gas_price. port. Qed.
Lemma balance_same role : same_runs (cf_balance cfg role) (balance cfg role).
Proof. unfold cf_balance, balance. rewrite wallet_address_same. port. Qed.

(** *** Writes *)

Lemma write_url_same : same_runs cf_write_url write_url.
Proof. done. Qed.
Lemma estimate_gas_on_same url from to data :
  same_runs (cf_estimate_gas_on url from to data) (estimate_gas_on url from to data).
Proof. unfold cf_estimate_gas_on, estimate_gas_on. port. Qed.
Lemma gas_price_on_same url : same_runs (cf_gas_price_on url) (gas_price_on url).
Proof. unfold cf_gas_price_on, gas_price_on. port. Qed.
#[local] Hint Resolve write_url_same estimate_gas_on_same gas_price_on_same : port.
Lemma base_fee_on_same url : same_runs (cf_base_fee_on url) (base_fee_on url).
Proof. unfold cf_base_fee_on, base_fee_on. port. case_match; port. Qed.
Lemma balance_on_same url address : same_runs (cf_balance_on address) (balance_on url address).
Proof. unfold cf_balance_on, balance_on. port. Qed.
Lemma send_transaction_on_same url key t :
  same_runs (cf_send_transaction_on url key t) (send_transaction_on url key t).
Proof. unfold cf_send_transaction_on, send_transaction_on. port. Qed.
#[local] Hint Resolve base_fee_on_same balance_on_same send_transaction_on_same : port.

Lemma base_fee_same : same_runs cf_base_fee base_fee.
Proof. unfold cf_base_fee, base_fee. port. Qed.
Lemma fee_plan_same : same_runs (cf_fee_plan cfg) (fee_plan cfg).
Proof. unfold fee_plan, base_fee. rewrite fbind_assoc. unfold cf_fee_plan. port. Qed.

Lemma send_contract_transaction_same role to data nonce :
  same_runs (cf_send_contract_transaction cfg role to data nonce) (send_contract_transaction cfg role to data nonce).
Proof.
  unfold cf_send_contract_transaction, send_contract_transaction. rewrite wallet_key_same.
  do 3 (apply fbind_same; [auto with port nocore; done|intros ?]). case_match; [done|].
  apply fbind_same; [auto with port nocore; done|intros ?]. unfold cf_fee_plan_from, fee_plan_from. case_match; [|done].
  apply fbind_same; [apply balance_on_same|intros ?]. case_match; port.
Qed.
#[local] Hint Resolve send_contract_transaction_same : port.
Lemma register_same task nonce : same_runs (cf_register cfg task nonce) (register cfg task nonce).
Proof. unfold cf_register, register. port. Qed.

Lemma cancel_same role nonce fees :
  same_runs (cf_cancel_stuck_nonce cfg role nonce fees) (cancel_stuck_nonce cfg role nonce fees).
Proof.
  unfold cf_cancel_stuck_nonce, cancel_stuck_nonce, send_transaction, wallet_address. rewrite wallet_key_same.
  destruct (wallet_key cfg role) as [key|e]; [|done]. set (t := mkTransaction (signer_address key) [] 0 nonce 21_000 fees).
  change (same_runs (call url := cf_write_url in cf_send_transaction_on url key t)
    (call url := write_url in send_transaction_on url key t)). port.
Qed.

Lemma on_chain_id_same v : cf_parse_on_chain_id v = parse_on_chain_id v.
Proof.
  unfold cf_parse_on_chain_id, parse_on_chain_id. destruct (json_get "logs" v ≫= as_array) as [logs|]; [|done]. cbn.
  induction logs as [|log logs IH]; [done|]. cbn [cf_logs_id logs_id]. unfold log_id.
  destruct (json_get "topics" log ≫= as_array) as [topics|]; [|done]. cbn.
  destruct (head topics ≫= as_str) as [event|]; [|done]. cbn. destruct (negb _ && negb _); [done|].
  destruct (topics !! 1%nat ≫= as_str) as [id|]; [|done]. cbn. by destruct (u64_from_hex _).
Qed.

Lemma receipt_same fuel hash started timeout :
  same_runs (cf_receipt_loop fuel hash (started + timeout)) (receipt_loop fuel hash started timeout).
Proof.
  induction fuel as [|fuel IH]; [done|]. cbn [cf_receipt_loop receipt_loop].
  apply request_same. intros r.
  assert (Hb : (elapsed_of r <? started + timeout) = (elapsed_of r - started <? timeout)).
  { destruct (Z.ltb_spec (elapsed_of r) (started + timeout)), (Z.ltb_spec (elapsed_of r - started) timeout); lia. }
  rewrite Hb. destruct (negb _); [done|]. apply pbind_same; [apply call_same|]. intros [v|e]; [|done].
  destruct (is_null v); [apply request_same; intros _; exact IH|]. unfold receipt_outcome. by rewrite on_chain_id_same.
Qed.
Lemma wait_same hash timeout : same_runs (cf_wait_for_receipt hash timeout) (wait_for_receipt hash timeout).
Proof. apply request_same. intros r. apply receipt_same. Qed.

(** The two clients, operation by operation: the pool, the reads, the node's
    state, the wallet and the writes. *)
Record same_client : Prop := {
  sc_circuit : same_runs cf_rpc_circuit_state rpc_circuit_state;
  sc_call_on url method params : same_runs (cf_call_on url method params) (call_on url method params);
  sc_call method params : same_runs (cf_call method params) (rpc_call method params);
  sc_select_write : same_runs cf_select_write select_write;
  sc_addresses : cf_registry_address cfg = registry_address cfg ∧
    cf_domain_registry_address cfg = domain_registry_address cfg ∧ cf_has_signer cfg = has_signer cfg ∧
    cf_price_cap cfg = cfg_max_gas_price_wei cfg;
  sc_entry i : same_runs (cf_entry cfg i) (entry cfg i);
  sc_unit i : same_runs (cf_unit cfg i) (unit_ cfg i);
  sc_key_profile k p n d : same_runs (cf_key_profile cfg k p n d) (key_profile cfg k p n d);
  sc_groups r p n d : same_runs (cf_groups_by_rp_id cfg r p n d) (groups_by_rp_id cfg r p n d);
  sc_rp_ids p n d : same_runs (cf_rp_ids cfg p n d) (rp_ids cfg p n d);
  sc_unit_by_group_key k : same_runs (cf_unit_by_group_key cfg k) (unit_by_group_key cfg k);
  sc_detail_by_key k p n d : same_runs (cf_group_detail_by_key cfg k p n d) (group_detail_by_key cfg k p n d);
  sc_detail_by_id u p n d : same_runs (cf_group_detail_by_id cfg u p n d) (group_detail_by_id cfg u p n d);
  sc_is_referenced g m : same_runs (cf_is_referenced cfg g m) (is_referenced cfg g m);
  sc_totals : same_runs (cf_totals cfg) (totals cfg);
  sc_is_registered h : same_runs (cf_is_content_registered cfg h) (is_content_registered cfg h);
  sc_pending_nonce role : same_runs (cf_pending_nonce cfg role) (pending_nonce cfg role);
  sc_confirmed_nonce role : same_runs (cf_confirmed_nonce cfg role) (confirmed_nonce cfg role);
  sc_gas : same_runs cf_gas_price gas_price;
  sc_base_fee : same_runs cf_base_fee base_fee;
  sc_wallet_balance role : same_runs (cf_balance cfg role) (balance cfg role);
  sc_fee_plan : same_runs (cf_fee_plan cfg) (fee_plan cfg);
  sc_wallet role : cf_wallet_key cfg role = wallet_key cfg role ∧ cf_wallet_address cfg role = wallet_address cfg role;
  sc_sign key nonce gas_limit fees to value input :
    cf_sign_eip1559 key nonce gas_limit fees to value input =
    sign_eip1559 key (mkTransaction to input value nonce gas_limit fees);
  sc_send url key t : same_runs (cf_send_transaction_on url key t) (send_transaction_on url key t);
  sc_register task nonce : same_runs (cf_register cfg task nonce) (register cfg task nonce);
  sc_cancel role nonce fees :
    same_runs (cf_cancel_stuck_nonce cfg role nonce fees) (cancel_stuck_nonce cfg role nonce fees);
  sc_receipt hash timeout : same_runs (cf_wait_for_receipt hash timeout) (wait_for_receipt hash timeout);
}.

(** C37. The Cloudflare shell's chain client is the Docker shell's: whatever
    answers the requests and however the clock moves, every operation of the
    two - circuit state, pool call, each read, nonce, price, balance, fee
    plan, signature, send, register, cancel and receipt wait - issues the
    same requests in the same order and ends with the same result. *)
Theorem port_is_faithful : same_client.
Proof.
  constructor; intros; try (by split_and!); auto using call_on_same, call_same, entry_same, unit_same, key_profile_same,
    groups_by_rp_id_same, rp_ids_same, unit_by_group_key_same, group_detail_by_key_same, group_detail_by_id_same,
    is_referenced_same, totals_same, is_content_registered_same, pending_nonce_same, confirmed_nonce_same,
    gas_price_same, base_fee_same, balance_same, fee_plan_same, wallet_key_same, wallet_address_same,
    send_transaction_on_same, register_same, cancel_same, wait_same.
  all: first [done | split; auto using wallet_key_same, wallet_address_same].
Qed.
End port.

(** ** The interfaces, implemented *)

Section interfaces.
Context `{C : Crates, J : JsonCrate, E : EthCrates} (cfg : ChainConfig) {N : Type} `{Network N}.

(** One call of the client, as a function of the isolate's RPC state. *)
Definition cf_run_receipt (hash : string) (s : RpcState N)
    : result ReceiptOutcome ChainError * RpcState N :=
  let '(r, s') := run_flow (cf_wait_for_receipt hash RECEIPT_TIMEOUT) s in
  (default (Err Unavailable) r, s').

Definition cf_worker_chain : ChainClient (RpcState N) := {|
  Worker.pending_nonce := run_flow (cf_pending_nonce cfg RegisterWallet);
  chain_register task nonce := run_flow (cf_register cfg task nonce);
  Worker.wait_for_receipt := cf_run_receipt;
  Worker.is_content_registered h := run_flow (cf_is_content_registered cfg h);
  Worker.is_referenced g m := run_flow (cf_is_referenced cfg g m);
|}.

Definition cf_do_chain : DoChain (RpcState N) := {|
  do_fee_plan := run_flow (cf_fee_plan cfg);
  do_unit_by_group_key k := run_flow (cf_unit_by_group_key cfg k);
|}.

Definition cf_sweep_chain : SweepChain (RpcState N) := {|
  Maintenance.base_fee := run_flow cf_base_fee;
  Maintenance.confirmed_nonce := run_flow (cf_confirmed_nonce cfg RegisterWallet);
  Maintenance.cancel_stuck_nonce nonce fees :=
    run_flow (cf_cancel_stuck_nonce cfg RegisterWallet nonce fees);
  sc_circuit_state := run_flow cf_rpc_circuit_state;
  sc_balance := run_flow (cf_balance cfg RegisterWallet);
  sc_gas_price := run_flow cf_gas_price;
  sc_wallet_address := match cf_wallet_address cfg RegisterWallet with
    | Ok a => Some (address_to_string a) | Err _ => None end;
  max_gas_price_wei := cf_price_cap cfg;
|}.

(** The read surface of the HTTP API, of either shell. *)
Definition read_chain : ReadChain (RpcState N) := {|
  rc_circuit_state := run_flow rpc_circuit_state;
  rc_registry_address := registry_address cfg;
  rc_domain_registry_address := domain_registry_address cfg;
  rc_entry id := run_flow (entry cfg id);
  rc_key_profile k p n d := run_flow (key_profile cfg k p n d);
  rc_groups_by_rp_id r p n d := run_flow (groups_by_rp_id cfg r p n d);
  rc_rp_ids p n d := run_flow (rp_ids cfg p n d);
  rc_totals := run_flow (totals cfg);
  rc_is_content_registered h := run_flow (is_content_registered cfg h);
  rc_is_referenced g m := run_flow (is_referenced cfg g m);
  rc_unit_by_group_key k := run_flow (unit_by_group_key cfg k);
  rc_group_detail_by_key k p n d := run_flow (group_detail_by_key cfg k p n d);
  rc_group_detail_by_id u p n d := run_flow (group_detail_by_id cfg u p n d);
|}.

(** The read surface over the port. *)
Definition cf_read_chain : ReadChain (RpcState N) := {|
  rc_circuit_state := run_flow cf_rpc_circuit_state;
  rc_registry_address := cf_registry_address cfg;
  rc_domain_registry_address := cf_domain_registry_address cfg;
  rc_entry id := run_flow (cf_entry cfg id);
  rc_key_profile k p n d := run_flow (cf_key_profile cfg k p n d);
  rc_groups_by_rp_id r p n d := run_flow (cf_groups_by_rp_id cfg r p n d);
  rc_rp_ids p n d := run_flow (cf_rp_ids cfg p n d);
  rc_totals := run_flow (cf_totals cfg);
  rc_is_content_registered h := run_flow (cf_is_content_registered cfg h);
  rc_is_referenced g m := run_flow (cf_is_referenced cfg g m);
  rc_unit_by_group_key k := run_flow (cf_unit_by_group_key cfg k);
  rc_group_detail_by_key k p n d := run_flow (cf_group_detail_by_key cfg k p n d);
  rc_group_detail_by_id u p n d := run_flow (cf_group_detail_by_id cfg u p n d);
|}.

Lemma run_flow_same {A} (p q : CProg A) (s : RpcState N) : same_runs p q → run_flow p s = run_flow q s.
Proof. intros Hpq. unfold run_flow. by rewrite Hpq. Qed.

(** Every fetch of the lookup core is answered alike by the two shells. *)
Lemma fetches_same fetch (s : RpcState N) :
  fetch_chain (R := cf_read_chain) fetch s = fetch_chain (R := read_chain) fetch s.
Proof.
  destruct fetch as [k o n d|i|u o n d|g o n d| |o n d|r o n d]; cbn [fetch_chain]; unfold reading;
    cbn [rc_key_profile rc_entry rc_group_detail_by_id rc_group_detail_by_key rc_totals rc_rp_ids
      rc_groups_by_rp_id cf_read_chain read_chain].
  - erewrite run_flow_same; [done|apply key_profile_same].
  - erewrite run_flow_same; [done|apply entry_same].
  - erewrite run_flow_same; [done|apply group_detail_by_id_same].
  - destruct (hex_decode g); [|done]. cbn [rc_group_detail_by_key cf_read_chain read_chain].
    erewrite run_flow_same; [done|apply group_detail_by_key_same].
  - erewrite run_flow_same; [done|apply totals_same].
  - erewrite run_flow_same; [done|apply rp_ids_same].
  - erewrite run_flow_same; [done|apply groups_by_rp_id_same].
Qed.
End interfaces.

(** ** What a configuration gives *)

Section config.
Context `{C : Crates, E : EthCrates}.

Lemma cf_new_chain_same config c :
  cf_new_chain config = Ok c ↔
  new_chain (cf_private_key config) (cf_contract_address config) (cf_domain_registry config)
    (cf_max_gas_price_wei config) = Some c.
Proof.
  unfold cf_new_chain, new_chain, cf_parse_secret_key, parse_secret_key.
  destruct (cf_private_key config) as [v|]; cbn.
  - destruct (hex_decode _) as [b|]; cbn; [|done]. destruct (secret_key_from_slice b); cbn; [|done].
    destruct (address_parse _); cbn; [|done]. destruct (address_parse _); cbn; [|done]. naive_solver.
  - destruct (address_parse _); cbn; [|done]. destruct (address_parse _); cbn; [|done]. naive_solver.
Qed.

Lemma env_list_nonempty env name urls :
  env_list env name = Some urls → urls ≠ [] ∧ Forall (λ url, url ≠ EmptyString) urls.
Proof.
  unfold env_list. destruct (optional env name) as [raw|]; cbn; [|done].
  destruct (filter _ _) as [|u us] eqn:Hf; [done|]. intros [= <-]. split; [done|].
  rewrite <-Hf. apply Forall_forall. intros x [? _]%list_elem_of_filter. done.
Qed.

(** A configuration that the Worker accepts gives a usable client: both
    lanes have an endpoint and no endpoint is empty, an Alchemy key heads the
    write lane, the client is the one the Docker shell makes of the same
    values, and the object signs exactly when the secret PRIVATE_KEY is set
    and not empty. *)
Theorem deployment_of_env env dp :
  cf_deployment env = Ok dp →
  ∃ config c, from_env env = Ok config ∧
    new_chain (secret env "PRIVATE_KEY") (cf_contract_address config) (cf_domain_registry config)
      (cf_max_gas_price_wei config) = Some c ∧
    dp_has_signer dp = bool_decide (is_Some (secret env "PRIVATE_KEY")) ∧
    dp_domain_registry_address dp = domain_registry_address c ∧
    Forall (λ lane : list string, lane ≠ [] ∧ Forall (λ url, url ≠ EmptyString) lane)
      [cf_read_rpcs config; cf_write_rpcs config] ∧
    ∀ key, secret env "ALCHEMY_API_KEY" = Some key →
      head (cf_write_rpcs config) = Some ("https://gnosis-mainnet.g.alchemy.com/v2/" +:+ key).
Proof.
  intros (config & Hc & (c & Hn%cf_new_chain_same & [= <-])%rbind_ok)%rbind_ok.
  exists config, c. split; [done|]. unfold from_env in Hc. apply rbind_ok in Hc as (contract & _ & [= <-]).
  cbn in Hn. split; [done|]. cbn [dp_has_signer dp_domain_registry_address].
  assert (Hkey : cfg_signer_key c = None ↔ secret env "PRIVATE_KEY" = None).
  { unfold new_chain in Hn. destruct (secret env "PRIVATE_KEY") as [k|]; cbn in Hn.
    - destruct (parse_secret_key k); cbn in Hn; [|done]. do 2 (destruct (address_parse _); cbn in Hn; try done).
      injection Hn as <-. cbn. naive_solver.
    - do 2 (destruct (address_parse _); cbn in Hn; try done). injection Hn as <-. cbn. naive_solver. }
  split. { unfold has_signer. apply bool_decide_ext. destruct (cfg_signer_key c), (secret env "PRIVATE_KEY"); naive_solver. }
  split; [done|].
  assert (Hdef : ∀ l o, l ≠ [] → Forall (λ url, url ≠ EmptyString) l →
    (∀ urls, o = Some urls → urls ≠ [] ∧ Forall (λ url, url ≠ EmptyString) urls) →
    default l o ≠ [] ∧ Forall (λ url, url ≠ EmptyString) (default l o)).
  { intros l [urls|] Hl Hf Ho; [by apply Ho|done]. }
  destruct (Hdef FALLBACK_RPCS (env_list env "P256_INDEX_READ_RPCS")) as [Hr1 Hr2];
    [done|by repeat constructor|intros urls; apply env_list_nonempty|].
  destruct (Hdef WRITE_RPCS (env_list env "P256_INDEX_WRITE_RPCS")) as [Hw1 Hw2];
    [done|by repeat constructor|intros urls; apply env_list_nonempty|].
  split; [|by intros key ->]. cbn [cf_read_rpcs cf_write_rpcs]. constructor; [done|]. constructor; [|constructor].
  destruct (secret env "ALCHEMY_API_KEY"); [|done]. split; [done|]. by constructor.
Qed.
End config.

(** ** Evaluation on an example *)
Section config_examples.
#[local] Existing Instance concrete_crates.
#[local] Existing Instance concrete_eth.

Definition sample_env : Env := {|
  env_var name :=
    if String.eqb name "P256_INDEX_CONTRACT_ADDRESS" then Some sample_registry_hex else
    if String.eqb name "P256_INDEX_READ_RPCS" then Some "https://a.example, ,https://b.example " else
    if String.eqb name "GLOBAL_WRITE_LIMIT" then Some "many" else None;
  env_secret name := if String.eqb name "ALCHEMY_API_KEY" then Some "k3y" else None;
|}.

Lemma deployment_of_env_witness :
  ∃ config, from_env sample_env = Ok config ∧
    cf_read_rpcs config = ["https://a.example"; "https://b.example"] ∧
    cf_global_write_limit config = 40 ∧
    head (cf_write_rpcs config) = Some "https://gnosis-mainnet.g.alchemy.com/v2/k3y".
Proof.
  destruct (cf_deployment sample_env) as [dp|e] eqn:He; [|by vm_compute in He].
  destruct (deployment_of_env sample_env dp He) as (config & c & Hc & _ & _ & _ & _ & Hk).
  exists config. split; [done|]. split; [|split; [|by apply Hk]].
  - vm_compute in Hc. injection Hc as <-. reflexivity.
  - vm_compute in Hc. injection Hc as <-. reflexivity.
Defined.
End config_examples.
