(* ===== verification/CfWire.v ===== *)
(** * What the Durable Object puts on the wire

    The object of [Submitter] over the chain client of [CfClient]: the raw
    transactions that one alarm sends. *)
From Stdlib Require Import Ascii String Strings.Byte.
From S2P Require Export CfClient SubmitterFacts.
From stdpp Require Import options.
#[local] Set Warnings "-register-all".

Section do_wire.
Context `{C : Crates, K : StoreCodec, J : JsonCrate, E : EthCrates} (cfg : ChainConfig).
Context {N : Type} `{Network N}.
#[local] Instance wire_client : ChainClient (RpcState (Logged N)) := cf_worker_chain cfg.
#[local] Instance wire_do : DoChain (RpcState (Logged N)) := cf_do_chain cfg.

Abbreviation X := (SubmitterDo (RpcState (Logged N))).
Abbreviation xsql s := (sql (do_sql s)).

(** Steps of the object that send nothing. *)
Definition unsent_do {A} (m : Do A) : Prop :=
  ∀ s : X, raw_sent (do_chain (m s).2) = raw_sent (do_chain s).

Lemma unsent_do_ret {A} (a : A) : unsent_do (do_ret a).
Proof. done. Qed.
Lemma unsent_bind {A B} (m : Do A) (f : A → Do B) :
  unsent_do m → (∀ a, unsent_do (f a)) → unsent_do (do_bind m f).
Proof.
  intros Hm Hf s. unfold do_bind. specialize (Hm s). destruct (m s) as [a s1]. cbn in Hm.
  by rewrite (Hf a s1), Hm.
Qed.
Lemma unsent_try {A B} (m : Do (result A string)) (f : A → Do (result B string)) :
  unsent_do m → (∀ a, unsent_do (f a)) → unsent_do (do_try m f).
Proof. intros Hm Hf. apply unsent_bind; [done|]. intros [a|e]; [done|apply unsent_do_ret]. Qed.
Lemma unsent_sql {A} (m : Dm A) : unsent_do (on_sql m).
Proof. intros s. unfold on_sql. by destruct (m (do_sql s)). Qed.
Lemma unsent_nonce n : unsent_do (put_nonce n).
Proof. done. Qed.
Lemma unsent_failures n : unsent_do (put_failures n).
Proof. done. Qed.
Lemma unsent_alarm {A} (f : option Z → A * option Z) : unsent_do (alarm_io f).
Proof. intros s. unfold alarm_io. by destruct (outages (do_sql s)) as [|[] ?]; [destruct (f _)|..|destruct (f _)]. Qed.
Lemma unsent_schedule n : unsent_do (schedule n).
Proof. intros s. apply unsent_alarm. Qed.
Lemma unsent_ask {A} (p : CProg A) :
  (∀ t m, exec p t m → sends t = []) → unsent_do (ask (run_flow p)).
Proof. intros Hp s. unfold ask. pose proof (run_flow_quiet p (do_chain s) Hp). by destruct (run_flow p _). Qed.
Create HintDb unsent.
#[local] Hint Resolve unsent_do_ret unsent_bind unsent_try unsent_sql unsent_nonce unsent_failures
  unsent_schedule unsent_ask : unsent.

Lemma quiet_same {A} (p q : CProg A) :
  same_runs p q → (∀ t m, exec q t m → sends t = []) → ∀ t m, exec p t m → sends t = [].
Proof. intros Hpq Hq t m He. eapply Hq, same_exec; [exact Hpq|exact He]. Qed.

Lemma quiet_write_url t m : exec write_url t m → sends t = [].
Proof. intros Hw%exec_write_url. unfold sends. by rewrite Hw. Qed.

Lemma quiet_fee_plan t m : exec (cf_fee_plan cfg) t m → sends t = [].
Proof.
  revert t m. apply (quiet_same _ (call url := write_url in call b := base_fee_on url in Ret (Ok (fee_plan_from cfg b)))).
  { rewrite fee_plan_same. apply fbind_assoc. }
  intros t m. apply quiet_bind; [apply quiet_write_url|intros url t1 m1].
  apply quiet_bind; [intros t2 m2 Hb; by apply exec_base_fee_on in Hb as [? _]|intros b ??; apply quiet_Ret].
Qed.

Lemma unsent_receipt hash : unsent_do (ask (cf_run_receipt hash)).
Proof.
  intros s. unfold ask, cf_run_receipt.
  pose proof (run_flow_quiet (cf_wait_for_receipt hash RECEIPT_TIMEOUT) (do_chain s)) as Hq.
  destruct (run_flow _ _) as [r c]. cbn in *. apply Hq. apply (quiet_same _ _ (wait_same hash RECEIPT_TIMEOUT)).
  intros t m (r'&t'&->&H2)%exec_req_inv. change (sends t' = []). by eapply quiet_receipt.
Qed.

Lemma unsent_acquire : unsent_do do_acquire_nonce.
Proof.
  intros s. unfold do_acquire_nonce. destruct (do_nonce s); [done|].
  apply unsent_bind; [|intros []; auto with unsent].
  apply unsent_ask, (quiet_same _ _ (pending_nonce_same cfg RegisterWallet)), quiet_nonce.
Qed.

(** A step, then steps that send nothing. *)
Lemma wire_then {A B} task (m : Do A) (f : A → Do B) (s : X) :
  at_most_one cfg task (do_chain s) (do_chain (m s).2) → (∀ a, unsent_do (f a)) →
  at_most_one cfg task (do_chain s) (do_chain (do_bind m f s).2).
Proof.
  intros Hm Hf. unfold do_bind. destruct (m s) as [a s1]. cbn in Hm.
  eapply at_most_one_eq; [exact Hm|done|apply Hf].
Qed.
Lemma wire_after {A B} task (m : Do A) (f : A → Do B) (s : X) :
  unsent_do m → (∀ a s1, at_most_one cfg task (do_chain s1) (do_chain (f a s1).2)) →
  at_most_one cfg task (do_chain s) (do_chain (do_bind m f s).2).
Proof.
  intros Hm Hf. unfold do_bind. specialize (Hm s). destruct (m s) as [a s1]. cbn in Hm.
  eapply at_most_one_eq; [apply Hf|by symmetry|done].
Qed.

Lemma do_submit_wire task (s : X) : at_most_one cfg task (do_chain s) (do_chain (do_submit task s).2).
Proof.
  unfold do_submit. apply wire_after; [apply unsent_acquire|]. intros [n|] s1; [|by left].
  apply wire_then.
  - unfold ask. cbn [chain_register wire_client cf_worker_chain].
    pose proof (register_wire cfg task n (do_chain s1)) as Hr.
    rewrite (run_flow_same _ _ _ (register_same cfg task n)). by destruct (run_flow _ _).
  - intros [b|e]; [|auto with unsent]. apply unsent_bind; [auto with unsent|]. intros _.
    apply unsent_bind; [apply unsent_receipt|]. intros [[o|]|e]; auto with unsent.
Qed.

Lemma do_execute_wire op (s : X) :
  (∃ task, op = SubmitRegister task ∧ at_most_one cfg task (do_chain s) (do_chain (execute_submission op s).2)) ∨
  (∀ task, op ≠ SubmitRegister task) ∧
    raw_sent (do_chain (execute_submission op s).2) = raw_sent (do_chain s).
Proof.
  destruct op as [ids|h|g k|task|id tx n|id k msg|id msg]; cbn [execute_submission];
    try (right; split; [done|]; apply unsent_bind; [apply unsent_sql|intros; apply unsent_do_ret]).
  - right. split; [done|]. destruct (parse_b256 h) as [b|]; [|done].
    apply unsent_bind; [|intros; apply unsent_do_ret].
    apply unsent_ask, (quiet_same _ _ (is_content_registered_same cfg b)), quiet_bool.
  - right. split; [done|]. destruct (parse_hex_bytes g) as [gb|]; [|done].
    destruct (parse_hex_bytes k) as [kb|]; [|done].
    apply unsent_bind; [|intros; apply unsent_do_ret].
    apply unsent_ask, (quiet_same _ _ (is_referenced_same cfg gb kb)), quiet_bool.
  - left. exists task. split; [done|]. apply wire_then; [apply do_submit_wire|intros; apply unsent_do_ret].
Qed.

(** The transactions of a run belong to its broadcasts, in order. *)
Lemma do_run_wire {A} (p : SProg A) (s s' : X) t a :
  run execute_submission p s = (s', t, a) →
  ∃ xs ps, raw_sent (do_chain s') = raw_sent (do_chain s) ++ ps ∧
    xs `sublist_of` broadcasts t ∧ Forall2 (signed_for cfg) xs ps.
Proof.
  revert s t. induction p as [a0|op k IH]; intros s t; cbn [run].
  - intros [= <- <- _]. exists [], []. rewrite app_nil_r. split; [done|]. split; [done|constructor].
  - pose proof (do_execute_wire op s) as Hop. destruct (execute_submission op s) as [r s1]; cbn [snd] in Hop.
    destruct (run execute_submission (k r) s1) as [[s2 t2] a2] eqn:E2. intros [= <- <- <-].
    destruct (IH r s1 t2 E2) as (xs & ps & Hraw & Hsub & HF).
    destruct Hop as [(task & -> & [H1|(p & H1 & Hp)])|[Hne H1]]; rewrite H1 in Hraw.
    + exists xs, ps. split; [done|]. split; [by apply sublist_cons|done].
    + exists (task :: xs), (p :: ps). split; [by rewrite Hraw, <-app_assoc|].
      split; [by apply sublist_skip|by constructor].
    + exists xs, ps. split; [done|]. split; [|done].
      by destruct op; try done; destruct (Hne task).
Qed.

(** ** One alarm *)

(** Steps before the batch: nothing sent, no live record changed. *)
Definition before_batch (s s' : X) : Prop :=
  raw_sent (do_chain s') = raw_sent (do_chain s) ∧
  (∀ id, v_get s' id = v_get s id) ∧ s_queue (xsql s') = s_queue (xsql s).

Lemma before_trans s1 s2 s3 : before_batch s1 s2 → before_batch s2 s3 → before_batch s1 s3.
Proof.
  intros (A1 & A2 & A3) (B1 & B2 & B3). split_and!; [congruence| |congruence].
  intros id. by rewrite B2, A2.
Qed.

Lemma before_sql {A} (m : Dm A) (s s' : X) r :
  on_sql m s = (r, s') →
  dwp m (do_sql s) (λ _ d, (∀ id, v_get d id = v_get (xsql s) id) ∧ s_queue d = s_queue (xsql s)) →
  before_batch s s'.
Proof.
  intros He Hm. destruct (on_sql_dwp _ _ _ _ _ He Hm) as ([Hg Hq] & _). split_and!; [|done..].
  pose proof (unsent_sql m s) as Hu. by rewrite He in Hu.
Qed.

(** What an alarm sends: signatures over the calldata of pending tasks that
    the queue's front names, at most two for each. *)
Record alarm_sends (s s' : X) (xs : list RegisterTask) (ps : list (string * string * Json)) : Prop := {
  al_raw : raw_sent (do_chain s') = raw_sent (do_chain s) ++ ps;
  al_signed : Forall2 (signed_for cfg) xs ps;
  al_tasks x : x ∈ xs → status x = Pending ∧ task_id x ∈ take POLL_BATCH_SIZE (v_waiting s) ∧
    v_get s (task_id x) = Some x;
  al_two id : (length (filter (λ y, task_id y = id) xs) ≤ 2)%nat;
}.

Lemma sends_nothing (s s' : X) : raw_sent (do_chain s') = raw_sent (do_chain s) → alarm_sends s s' [] [].
Proof.
  intros Hs. constructor; [by rewrite Hs, app_nil_r|constructor|by intros x ?%elem_of_nil|simpl; lia].
Qed.

Lemma sends_before s s1 s' xs ps : before_batch s s1 → alarm_sends s1 s' xs ps → alarm_sends s s' xs ps.
Proof.
  intros (Hr & Hg & Hq) [H1 H2 H3 H4]. constructor; [by rewrite <-Hr|done| |done].
  intros x Hx. destruct (H3 x Hx) as (Hp & Hin & Hv). rewrite Hg in Hv. split_and!; [done| |done].
  unfold v_waiting, do_view, v_waiting, sql_view in *. by rewrite <-Hq.
Qed.

Lemma sends_after s s1 s' xs ps :
  raw_sent (do_chain s') = raw_sent (do_chain s1) → alarm_sends s s1 xs ps → alarm_sends s s' xs ps.
Proof. intros Hr [H1 H2 H3 H4]. constructor; [by rewrite Hr|done..]. Qed.

Lemma do_load_stored ids (s s' : X) loaded :
  sql_inv (xsql s) → execute_submission (LoadTasks ids) s = (TasksLoaded loaded, s') →
  ∀ x, Some x ∈ loaded → task_id x ∈ ids ∧ v_get s (task_id x) = Some x.
Proof.
  intros Hi. cbn [execute_submission]. unfold do_bind, do_ret.
  destruct (on_sql (sq_load_tasks ids) s) as [[l|e] s1] eqn:He; [|done]. intros [= <- _] x Hx.
  destruct (on_sql_dwp _ _ _ _ _ He (load_tasks_same ids (do_sql s))) as ([_ Hl] & _).
  rewrite (Hl l eq_refl) in Hx. apply list_elem_of_fmap in Hx as (id & Hid & Hin). symmetry in Hid.
  pose proof (get_id _ _ _ Hi Hid) as <-. split; [done|]. exact Hid.
Qed.

Lemma batch_sends ids (s s' : X) r :
  sql_inv (xsql s) → do_process_batch ids s = (r, s') →
  ∃ xs ps, raw_sent (do_chain s') = raw_sent (do_chain s) ++ ps ∧ Forall2 (signed_for cfg) xs ps ∧
    (∀ x, x ∈ xs → status x = Pending ∧ task_id x ∈ ids ∧ v_get s (task_id x) = Some x) ∧
    ∀ id, (length (filter (λ y, task_id y = id) xs) ≤ 2)%nat.
Proof.
  intros Hi. unfold do_process_batch. destruct (run execute_submission (drive_batch ids) s) as [[s1 t] o] eqn:Er.
  intros [= _ <-]. destruct (do_run_wire _ _ _ _ _ Er) as (xs & ps & Hraw & Hsub & HF).
  exists xs, ps. split; [done|]. split; [done|].
  enough (Hb : (∀ x, x ∈ broadcasts t → status x = Pending ∧ task_id x ∈ ids ∧ v_get s (task_id x) = Some x) ∧
    ∀ id, (length (filter (λ y, task_id y = id) (broadcasts t)) ≤ 2)%nat).
  { destruct Hb as [H1 H2]. split; [intros x Hx; apply H1; by eapply elem_of_sublist|].
    intros id. etransitivity; [|apply H2]. apply sublist_length, sublist_filter_mono, Hsub. }
  assert (Hload : ∀ loaded t', t = (LoadTasks ids, TasksLoaded loaded) :: t' →
    ∃ s2, execute_submission (LoadTasks ids) s = (TasksLoaded loaded, s2)).
  { intros loaded t' ->. unfold drive_batch in Er. destruct ids as [|i ids]; [done|].
    cbn [run] in Er. destruct (execute_submission (LoadTasks (i :: ids)) s) as [r0 s2].
    destruct (run execute_submission _ _) as [[s3 t3] a3]. injection Er as _ -> _ _. by exists s2. }
  apply run_exec, drive_batch_exec in Er as [(-> & _)|[(r0 & reason & -> & _)|(loaded&t'&m'&->&He&_)]].
  - split; [set_solver|simpl; lia].
  - split; [intros x Hx; by apply elem_of_nil in Hx|simpl; lia].
  - destruct (Hload _ _ eq_refl) as [s2 Hl]. pose proof (do_load_stored _ _ _ _ Hi Hl) as Hst.
    apply process_exec in He as [HQ (ext & -> & _ & Hb & _)]. rewrite app_nil_l in *.
    change (broadcasts ((LoadTasks ids, TasksLoaded loaded) :: ext)) with (broadcasts ext).
    destruct (canonical_tasks_spec [] loaded) as (Hin & Hnd & _). split.
    + intros x (e & He & Hx)%list_elem_of_omap. apply list_elem_of_split in He as (pre & post & Ht).
      destruct e as [[] r1]; try done. injection Hx as ->.
      destruct (HQ pre _ post Ht) as [(Hx & Hp & _)%Hin _]. split; [done|by apply Hst].
    + intros id. specialize (Hb id). pose proof (NoDup_filter_id _ id Hnd). lia.
Qed.

Lemma alarm_batch_sends batch (s s' : X) r :
  sql_inv (xsql s) → batch = take POLL_BATCH_SIZE (s_queue (xsql s)) → alarm_batch batch s = (r, s') →
  ∃ xs ps, alarm_sends s s' xs ps.
Proof.
  intros Hi Hb. unfold alarm_batch, do_bind at 1.
  destruct (do_process_batch batch.*2 s) as [v s1] eqn:Hp.
  destruct (batch_sends _ _ _ _ Hi Hp) as (xs & ps & Hraw & HF & Hin & Hl). intros Hr. exists xs, ps.
  apply (sends_after _ s1).
  - assert (Hu : unsent_do (match v with
      | Ok _ => do_bind (put_failures 0) (λ _, do_try (on_sql (sq_delete_batch batch)) (λ _,
          do_try (on_sql sq_queue_len) (λ len, do_try (if 0 <? len then schedule 0 else do_ret (Ok tt))
            (λ _, do_ret (Ok BatchAdvanced)))))
      | Err reason => do_bind get_failures (λ failures,
          do_bind (put_failures (sat_add U32_MAX failures 1)) (λ _,
          do_try (schedule (Z.min (backoff_delay (sat_add U32_MAX failures 1)) MAX_BATCH_BACKOFF_SECS * 1000))
            (λ _, do_ret (Ok (BatchRetry (Z.min (backoff_delay (sat_add U32_MAX failures 1)) MAX_BATCH_BACKOFF_SECS) reason)))))
      end)).
    { destruct v as [u|reason].
      - apply unsent_bind; [done|]. intros _. apply unsent_try; [apply unsent_sql|]. intros _.
        apply unsent_try; [apply unsent_sql|]. intros len. apply unsent_try; [|auto with unsent].
        destruct (0 <? len); auto with unsent.
      - apply unsent_bind; [done|]. intros failures. apply unsent_bind; [done|]. intros _.
        apply unsent_try; auto with unsent. }
    specialize (Hu s1). by destruct v as [u|reason]; rewrite Hr in Hu.
  - constructor; [done..| |done]. intros x Hx. destruct (Hin x Hx) as (? & Hi' & ?). split_and!; [done| |done].
    rewrite Hb, fmap_take in Hi'. exact Hi'.
Qed.

Lemma alarm_sent env (s s' : X) r :
  sql_inv (xsql s) → alarm env s = (r, s') → ∃ xs ps, alarm_sends s s' xs ps.
Proof.
  intros Hi. unfold alarm.
  intros [(e & He & ->)|(u & s1 & He & Hr)]%try_split;
    pose proof (unsent_sql (update_ (λ d, d)) s) as Hu; unfold bootstrap in He; rewrite He in Hu;
    [exists [], []; by apply sends_nothing|].
  assert (H1 : before_batch s s1) by (eapply before_sql; [exact He|]; by apply dwp_update).
  destruct (proj1 (calm_bootstrap _ _ _ He) Hi) as [Hi1 _]. clear He Hu.
  apply try_split in Hr as [(e & He & ->)|(u2 & s2 & He & Hr)]; pose proof (before_sql _ _ _ _ He (purge_same _)) as H2.
  { exists [], []. apply sends_nothing. by rewrite (proj1 H2), (proj1 H1). }
  destruct (proj1 (calm_purge _ _ _ He) Hi1) as [Hi2 _]. pose proof (before_trans _ _ _ H1 H2) as H3. clear He H1 H2.
  unfold get_chain, do_try, do_bind, do_ret in Hr. destruct env as [dp|e].
  2:{ injection Hr as <- <-. exists [], []. apply sends_nothing. apply H3. }
  destruct (negb (dp_has_signer dp)).
  { injection Hr as <- <-. exists [], []. apply sends_nothing. apply H3. }
  pose proof (unsent_ask (cf_fee_plan cfg) quiet_fee_plan s2) as Hf.
  change (run_flow (cf_fee_plan cfg)) with (do_fee_plan (DoChain := wire_do)) in Hf.
  unfold ask in Hr, Hf. destruct (do_fee_plan (do_chain s2)) as [fee c]. cbn [snd do_chain] in Hf.
  set (s3 := mkSubmitter _ _ _ _ c) in Hr.
  assert (H4 : before_batch s s3) by (eapply before_trans; [exact H3|]; split_and!; done).
  assert (Hpoll : ∀ r s', do_try (on_sql (sq_poll_batch POLL_BATCH_SIZE)) (λ batch,
    match batch with [] => do_ret (Ok QueueEmpty) | _ => alarm_batch batch end) s3 = (r, s') →
    ∃ xs ps, alarm_sends s s' xs ps).
  { intros r0 s0 [(e & He & ->)|(batch & s4 & He & Hr0)]%try_split.
    - exists [], []. apply sends_nothing. pose proof (unsent_sql (sq_poll_batch POLL_BATCH_SIZE) s3) as Hu.
      rewrite He in Hu. rewrite <-(proj1 H4). exact Hu.
    - assert (H5 : before_batch s3 s4) by (eapply before_sql; [exact He|]; by apply dwp_select).
      destruct (poll_spec _ _ _ _ He) as (Hx & _ & Hb). specialize (Hb batch eq_refl).
      pose proof (before_trans _ _ _ H4 H5) as H6. destruct batch as [|row batch].
      + injection Hr0 as <- <-. exists [], []. apply sends_nothing, H6.
      + destruct (alarm_batch_sends (row :: batch) s4 s0 r0) as (xs & ps & Hs);
          [by rewrite Hx|by rewrite Hx|done|]. exists xs, ps. by eapply sends_before. }
  destruct fee as [[fees|required cap]|e]; [by apply (Hpoll r s')| |by apply (Hpoll r s')].
  apply try_split in Hr as [(e & He & ->)|(u4 & s4 & He & Hr)];
    pose proof (unsent_schedule GAS_WAIT_MS s3) as Hu; rewrite He in Hu.
  - exists [], []. apply sends_nothing. rewrite <-(proj1 H4). exact Hu.
  - injection Hr as <- <-. exists [], []. apply sends_nothing. rewrite <-(proj1 H4). exact Hu.
Qed.

(** C11. What an alarm of the Durable Object puts on the wire.  Whatever the
    endpoints answer and whichever statements fail, the raw transactions it
    sends are, in order, the wallet's own signatures over the calldata of
    tasks that were pending in the object's tables and among the oldest
    queued envelopes, within the gas and fee caps, to the registry on chain
    100; at most two per task. *)
Theorem alarm_on_the_wire env (s s' : X) r :
  sql_inv (xsql s) → alarm env s = (r, s') → ∃ xs ps, alarm_sends s s' xs ps.
Proof. apply alarm_sent. Qed.
End do_wire.

(** ** Evaluation on an example *)
Section wire_examples.
#[local] Existing Instance concrete_crates.
#[local] Existing Instance concrete_codec.
#[local] Existing Instance concrete_json.
#[local] Existing Instance concrete_eth.
#[local] Existing Instance node_network.
#[local] Existing Instance confirming_chain.
#[local] Existing Instance cheap_chain.

(** The task of [fetched], its object now over the node of [Chain]. *)
Definition wired_db : SqlWorld := do_sql fetched.2.
Definition wired_do : SubmitterDo (RpcState (Logged nat)) :=
  mkSubmitter wired_db (Some 1_000) 0 None
    (mkRpcState (new ["down"; "up"] ["up"]) 0 (mkLogged O [])).
Definition wired_alarm := alarm (W := wire_client sample_cfg) (D := wire_do sample_cfg)
  (Ok sample_deployment) wired_do.
#[local] Strategy expand [wired_alarm wired_do].

Lemma wired_inv : sql_inv (sql wired_db).
Proof. exact fetched_inv. Qed.
Lemma wired_waiting : (s_queue (sql wired_db)).*2 = ["t1"].
Proof. exact (proj1 fetched_waiting). Qed.
#[local] Strategy opaque [wired_db].

Lemma alarm_on_the_wire_witness :
  ∃ x p, raw_sent (do_chain wired_alarm.2) = [p] ∧ signed_for sample_cfg x p ∧ task_id x = "t1".
Proof.
  destruct (alarm_on_the_wire sample_cfg (Ok sample_deployment) wired_do wired_alarm.2 wired_alarm.1
    wired_inv) as (xs & ps & [Hraw HF Hin _]); [by apply pair_of|].
  assert (Hl : length (raw_sent (do_chain wired_alarm.2)) = 1%nat) by (vm_compute; reflexivity).
  change (raw_sent (do_chain wired_do)) with (@nil (string * string * Json)) in Hraw.
  rewrite app_nil_l in Hraw. rewrite Hraw in *.
  destruct HF as [|x p xs ps Hxp HF]; [done|]. destruct ps; [|done]. exists x, p.
  split; [done|]. split; [done|]. destruct (Hin x) as (_ & Hw & _); [by left|].
  change (v_waiting wired_do) with (s_queue (sql wired_db)).*2 in Hw. rewrite wired_waiting in Hw.
  apply list_elem_of_singleton in Hw. done.
Defined.
End wire_examples.
