(* ===== verification/Edge.v ===== *)
(** * The Cloudflare shell's edge ([p256-index-cf/src/edge.rs], [src/lib.rs])

    The stateless layer in front of the Durable Object: the routes, the
    transport limits, the response cache, and the execution of the lookup
    core's operations.  A call to the object may be lost before it arrives
    or after it ran.  The handlers return [result Response string]: an [Err]
    is the [?] of a platform call, answered by [worker_fetch]. *)
From Stdlib Require Import Ascii String Strings.Byte.
From S2P Require Export Chain Submitter Http Challenge.
From stdpp Require Import options.
#[local] Set Warnings "-register-all".

Definition MAX_BODY_SIZE : Z := 128 * 1024.
Definition CACHE_FRESH_TTL_MS : Z := 5 * 60 * 1000.
Definition CACHE_NEGATIVE_TTL_MS : Z := 60 * 1000.
Definition CACHE_RETENTION_SECS : Z := 24 * 60 * 60.

(** ** Text *)

Definition is_alphanumeric (c : ascii) : bool :=
  in_range 48 57 c || in_range 65 90 c || in_range 97 122 c.

Definition upper_hex (n : Z) : ascii :=
  ascii_of_N (Z.to_N (if n <? 10 then 48 + n else 55 + n)).

Definition unreserved (c : ascii) : bool :=
  is_alphanumeric c || Ascii.eqb c "-" || Ascii.eqb c "_" || Ascii.eqb c "." || Ascii.eqb c "~".

(** [format!("%{byte:02X}")] of the bytes that are not unreserved. *)
Fixpoint urlencode (s : string) : string :=
  match s with
  | EmptyString => EmptyString
  | String c s =>
      if unreserved c then String c (urlencode s)
      else String "%" (String (upper_hex (code c / 16)) (String (upper_hex (code c mod 16)) (urlencode s)))
  end.

(** Percent-decoding, of text with no other escape. *)
Fixpoint percent_decode (s : string) : option string :=
  match s with
  | EmptyString => Some EmptyString
  | String c s =>
      if unreserved c then s ← percent_decode s; Some (String c s)
      else if Ascii.eqb c "%" then
        match s with
        | String h (String l s) =>
            h ← hex_digit_value h; l ← hex_digit_value l; s ← percent_decode s;
            Some (String (ascii_of_N (Z.to_N (h * 16 + l))) s)
        | _ => None
        end
      else None
  end.

(** The [url] crate, as the object reads its one-parameter queries. *)
Class UrlCrate := {
  (** [url.query_pairs()] of the text after the question mark *)
  query_pairs : string → list (string * string);
  (** One pair: its value is percent-decoded (ASCII decodes to itself). *)
  query_pairs_one k e v : str_all is_alphanumeric k = true →
    percent_decode e = Some v → str_all (in_range 0 127) v = true →
    query_pairs (k +:+ "=" +:+ e) = [(k, v)];
}.

Definition query_param (pairs : list (string * string)) (name : string) : option string :=
  snd <$> (snd <$> list_find (λ kv : string * string, kv.1 = name) pairs).

(** The last value of a parameter counts; one that does not parse unsets it. *)
Definition lookup_param (params : LookupParams) (kv : string * string) : LookupParams :=
  let '(mkLookupParams key entry unit_ group page size order) := params in
  let '(name, v) := kv in
  if String.eqb name "publicKey" then mkLookupParams (Some v) entry unit_ group page size order else
  if String.eqb name "entryId" then mkLookupParams key (Some v) unit_ group page size order else
  if String.eqb name "unitId" then mkLookupParams key entry (Some v) group page size order else
  if String.eqb name "groupPublicKey" then mkLookupParams key entry unit_ (Some v) page size order else
  if String.eqb name "page" then mkLookupParams key entry unit_ group (parse_u64 v) size order else
  if String.eqb name "pageSize" then mkLookupParams key entry unit_ group page (parse_u64 v) order else
  if String.eqb name "order" then mkLookupParams key entry unit_ group page size (Some v) else
  params.
Definition lookup_params (pairs : list (string * string)) : LookupParams :=
  foldl lookup_param (mkLookupParams None None None None None None None) pairs.

(** ** Requests *)

Inductive Method := Get | PostM | Options_ | OtherMethod.
#[export] Instance method_eq_dec : EqDecision Method.
Proof. solve_decision. Defined.

(** A request as the platform hands it over: the URL's path and parameters
    (reading either may fail), two headers, and the body's bytes. *)
Record EdgeRequest := mkEdgeRequest {
  eq_method : Method;
  eq_url : option (string * list (string * string));
  eq_content_length : option string;
  eq_connecting_ip : option string;
  eq_bytes : option bytes;
}.

(** [None] is "too large". *)
Definition bounded_body (req : EdgeRequest) : result (option bytes) string :=
  let declared_ok := match eq_content_length req with
    | Some length => match parse_u64 length with Some n => n <=? MAX_BODY_SIZE | None => false end
    | None => true
    end in
  if negb declared_ok then Ok None else
  try b := ok_or "could not read the body" (eq_bytes req) in
  Ok (if MAX_BODY_SIZE <? Z.of_nat (length b) then None else Some b).

(** ** The platform's cache *)

Class CacheApi (P : Type) := {
  cache_match : string → P → result (option string) string * P;
  cache_store : string → string → Z → P → result () string * P;
  (** What may still be served. *)
  cached : P → string → option string;
  (** A hit is what is held under the URL; entries only disappear. *)
  cache_match_ok url p t p' : cache_match url p = (Ok (Some t), p') → cached p url = Some t;
  cache_match_keeps url p r p' u t :
    cache_match url p = (r, p') → cached p' u = Some t → cached p u = Some t;
  (** A store that succeeds replaces what was held; one that fails holds the
      new entry or none of it. *)
  cache_store_ok url text age p p' t :
    cache_store url text age p = (Ok tt, p') → cached p' url = Some t → t = text;
  cache_store_keeps url text age p r p' u t :
    cache_store url text age p = (r, p') → cached p' u = Some t →
    (u = url ∧ t = text) ∨ cached p u = Some t;
}.

Section edge.
Context `{C : Crates, K : StoreCodec, U : UrlCrate}.
Context {S N P : Type} `{R : ReadChain S, W : ChainClient N, D : DoChain N, CA : CacheApi P}.
(** [URL_SAFE_NO_PAD], and serde's readings of a body. *)
Context (url_safe_encode : bytes → string).
Context (json_of_bytes : bytes → option Json) (register_of_bytes : bytes → option RegisterRequest)
  (refer_of_bytes : bytes → option ReferRequest).

(** [CfConfig], as the edge reads it. *)
Record EdgeConfig := mkEdgeConfig { ec_private_key : option string; ec_telegram_configured : bool }.
Context (cfg : EdgeConfig).
(** The object's own configuration. *)
Context (env : result Deployment string).

(** What becomes of a call to the object. *)
Inductive CallFate := Reached | Unreached | AnswerLost.

(** The isolate and what it talks to. *)
Record EdgeWorld := mkEdge {
  e_chain : S;
  e_do : SubmitterDo N;
  e_cache : P;
  e_now : Z;
  e_fates : list CallFate;
}.

Definition Ed (A : Type) : Type := EdgeWorld → A * EdgeWorld.
Definition ed_ret {A} (a : A) : Ed A := λ w, (a, w).
Definition ed_bind {A B} (m : Ed A) (f : A → Ed B) : Ed B := λ w, let '(a, w) := m w in f a w.
Definition ed_chain {A} (m : S → A * S) : Ed A :=
  λ w, let '(a, c) := m (e_chain w) in (a, mkEdge c (e_do w) (e_cache w) (e_now w) (e_fates w)).
Definition ed_cache {A} (m : P → A * P) : Ed A :=
  λ w, let '(a, p) := m (e_cache w) in (a, mkEdge (e_chain w) (e_do w) p (e_now w) (e_fates w)).
Definition ed_now : Ed Z := λ w, (e_now w, w).

#[local] Notation "'let*' x := m 'in' k" := (ed_bind m (λ x, k))
  (at level 10, x name, m at level 100, k at level 200).

Definition OBJECT_ERROR : string := "durable object error".

(** [do_get] and [do_post]: an error of the object, or of the way to it and
    back, is one error here.  [id] is the uuid an admission draws. *)
Definition do_call (id : string) (req : DoRequest) : Ed (result DoResponse string) :=
  λ w,
    let after fates d := mkEdge (e_chain w) d (e_cache w) (e_now w) fates in
    match e_fates w with
    | Unreached :: fates => (Err OBJECT_ERROR, after fates (e_do w))
    | AnswerLost :: fates => (Err OBJECT_ERROR, after fates (fetch env id req (e_do w)).2)
    | fates =>
        let '(r, d) := fetch env id req (e_do w) in
        (map_err (λ _, OBJECT_ERROR) r, after (tail fates) d)
    end.

(** The query a GET carries, as the object reads it back. *)
Definition sent_param (name v : string) : string :=
  default EmptyString (query_param (query_pairs (name +:+ "=" +:+ v)) name).

Definition derive_ip_salt (secret : option string) : string :=
  hex_encode (sha256 (as_bytes ("ip-salt" +:+ String (ascii_of_nat 0) EmptyString +:+
    default "webauthnp256-index" secret))).
Definition ip_hash (req : EdgeRequest) : string :=
  hash_ip (derive_ip_salt (ec_private_key cfg)) (default EmptyString (eq_connecting_ip req)).

(** ** Health *)

Definition edge_health_base (rpc_circuit : string) : list (string * Json) :=
  [("service", JStr "webauthn-p256-publickey-registry"); ("version", JStr VERSION);
   ("shell", JStr "cloudflare-workers"); ("chainId", JNum CHAIN_ID);
   ("registry", JStr rc_registry_address); ("domainRegistry", JStr rc_domain_registry_address);
   ("rpcCircuit", JStr rpc_circuit); ("telegramConfigured", JBool (ec_telegram_configured cfg))].

Definition edge_health (id : string) : Ed (result Response string) :=
  let* circuit := ed_chain rc_circuit_state in
  let base := edge_health_base circuit in
  let* r := do_call id RStats in
  ed_ret (Ok match r with
  | Ok (StatsBody depth dlq oldest_job_age_ms worker_stalled) =>
      let reasons := health_reasons (mkQueueHealth depth dlq oldest_job_age_ms) ++
        (if worker_stalled then ["queue-worker-stalled"] else []) in
      json_response (if worker_stalled : bool then 503 else 200) (JObj (base ++
        [("status", JStr (health_status worker_stalled reasons));
         ("queue", JObj [("depth", JNum depth); ("dlq", JNum dlq);
                         ("oldestJobAgeMs", JNum oldest_job_age_ms)])] ++
        match reasons with [] => [] | _ => [("reasons", JArr (JStr <$> reasons))] end))
  | _ =>
      json_response 200 (JObj (base ++ [("status", JStr "degraded");
        ("reasons", JArr [JStr "stats-unavailable"]);
        ("queue", JObj [("error", JStr "queue stats unavailable")])]))
  end).

(** ** Challenge *)

(** A panic ends the request as an exception. *)
Definition edge_challenge (req : EdgeRequest) : result Response string :=
  try body := bounded_body req in
  match challenge url_safe_encode CHAIN_ID rc_domain_registry_address
    match body with
    | None => TooLarge
    | Some b => match json_of_bytes b with Some v => Parsed v | None => NotJson end
    end with
  | Ok r => Ok r
  | Err (Reply r) => Ok r
  | Err (Panic message) => Err message
  end.

(** ** Writes *)

Definition edge_render_admission : AdmissionOutcome → Response := render_admission.

Definition edge_admit (id : string) (request : AdmissionRequest) (ip_hash : string) : Ed Response :=
  let* r := do_call id (RAdmit request ip_hash) in
  ed_ret match r with
  | Ok (Outcome outcome) => edge_render_admission outcome
  | _ => error_response 503 "store temporarily unavailable, please retry"
  end.

(** The checks that run at the edge; the task they build is dropped. *)
Definition prevalidate (request : AdmissionRequest) (now_ms : Z) : result () VError :=
  try task := validate request "edge-validate" now_ms CHAIN_ID rc_domain_registry_address in Ok tt.

(** An invalid request is answered here, a panic ends it, the others go to
    the object. *)
Definition validate_then_admit (id : string) (request : AdmissionRequest) (ip_hash : string)
    : Ed (result Response string) :=
  let* now := ed_now in
  match prevalidate request now with
  | Err (Msg message) => ed_ret (Ok (edge_render_admission (Invalid message)))
  | Err (Panicked message) => ed_ret (Err message)
  | Ok _ => let* r := edge_admit id request ip_hash in ed_ret (Ok r)
  end.

Definition edge_register (id : string) (req : EdgeRequest) : Ed (result Response string) :=
  match bounded_body req with
  | Err e => ed_ret (Err e)
  | Ok None => ed_ret (Ok (error_response 413 "request body too large"))
  | Ok (Some b) =>
      match register_of_bytes b with
      | None => ed_ret (Ok (error_response 400 "invalid JSON body"))
      | Some body => validate_then_admit id (ARegister body) (ip_hash req)
      end
  end.

(** The fail-open cross-check of the claimed rpId. *)
Definition edge_refer_mismatch (body : ReferRequest) : Ed bool :=
  match fr_rp_id body, fr_group_public_key body with
  | Some rp_id, Some group_key =>
      match parse_hex_bytes group_key with
      | Err _ => ed_ret false
      | Ok b =>
          let* r := ed_chain (rc_unit_by_group_key b) in
          ed_ret match r with
                 | Ok (Some u) => negb (bool_decide (u_rp_id u = rp_id))
                 | _ => false
                 end
      end
  | _, _ => ed_ret false
  end.

Definition edge_refer (id : string) (req : EdgeRequest) : Ed (result Response string) :=
  match bounded_body req with
  | Err e => ed_ret (Err e)
  | Ok None => ed_ret (Ok (error_response 413 "request body too large"))
  | Ok (Some b) =>
      match refer_of_bytes b with
      | None => ed_ret (Ok (error_response 400 "invalid JSON body"))
      | Some body =>
          let* mismatch := edge_refer_mismatch body in
          if mismatch : bool
          then ed_ret (Ok (error_response 400 "rpId does not match the group's frozen record"))
          else validate_then_admit id (ARefer body) (ip_hash req)
      end
  end.

Definition edge_task_status (id : string) (task_id : string) : Ed Response :=
  let* r := do_call id (RTask (sent_param "id" (urlencode task_id))) in
  ed_ret match r with
  | Ok (TaskBody (Some task)) => json_response 200 (task_status_body task)
  | Ok (TaskBody None) => error_response 404 "not found"
  | _ => error_response 503 "store temporarily unavailable, please retry"
  end.

(** ** The response cache *)

Definition cache_url (key : string) : string :=
  "https://p256-index-cache.internal/" +:+ hex_encode (sha256 (as_bytes key)).

(** The reading of a hit at a time; an entry that does not parse is a miss. *)
Definition read_entry (entry : CacheEntry) (now stale_limit_ms : Z) : CacheRead :=
  match ce_value entry with
  | None => if now <=? ce_fresh_until_ms entry then CNegative else CMiss
  | Some v =>
      if now <=? ce_fresh_until_ms entry then CFresh v else
      let age := sat_sub now (ce_stored_at_ms entry) in
      if age <=? stale_limit_ms then CStale v age else CMiss
  end.

Definition edge_cache_get (key : string) (stale_limit_ms : Z) : Ed (result CacheRead string) :=
  let* hit := ed_cache (cache_match (cache_url key)) in
  let* now := ed_now in
  ed_ret (try hit := hit in
    Ok match hit ≫= cache_of_json with
       | None => CMiss
       | Some entry => read_entry entry now stale_limit_ms
       end).

Definition edge_cache_set (key : string) (v : option Json) : Ed (result () string) :=
  let negative := bool_decide (v = None) in
  let* stored_at_ms := ed_now in
  let fresh_ttl_ms := if negative then CACHE_NEGATIVE_TTL_MS else CACHE_FRESH_TTL_MS in
  let payload := cache_to_json (mkCacheEntry v stored_at_ms (wrap64 (stored_at_ms + fresh_ttl_ms))) in
  ed_cache (cache_store (cache_url key) payload (if negative then 60 else CACHE_RETENTION_SECS)).

(** ** Lookups *)

Definition edge_stale_limit : LookupCacheKey → Z := stale_limit.
Definition edge_cache_key_string : LookupCacheKey → string := cache_key_string.
Definition edge_group_detail_json := group_detail_json.
Definition edge_execute_fetch (fetch : ChainFetch) : Ed LookupResult := ed_chain (fetch_chain fetch).

Definition edge_execute_lookup (id ip_hash : string) (operation : LookupOperation) : Ed LookupResult :=
  match operation with
  | ReadCache key =>
      let* r := edge_cache_get (edge_cache_key_string key) (edge_stale_limit key) in
      ed_ret (cache_result r)
  | WriteCache key v negative =>
      let k := edge_cache_key_string key in
      let* r := (if negative : bool then edge_cache_set k None else edge_cache_set k (Some v)) in
      ed_ret (match r with Ok _ => LPersisted | Err _ => LStoreUnavailable end)
  | AllowRead =>
      let* r := do_call id (RAllowRead (sent_param "ip" ip_hash)) in
      ed_ret match r with Ok (AllowedBody allowed) => LAllowed allowed | _ => LStoreUnavailable end
  | FetchChain fetch => edge_execute_fetch fetch
  | LFindTaskByKey key_hash =>
      let* r := do_call id (RFindByKey (sent_param "key" (urlencode key_hash))) in
      ed_ret match r with Ok (TaskBody task) => LTaskFound task | _ => LStoreUnavailable end
  end.

Definition edge_render_lookup : LookupOutcome → Response := render_lookup.

Definition edge_run_lookup (id : string) (req : EdgeRequest) (endpoint : LookupEndpoint) : Ed Response :=
  λ w,
    let '(w', _, m) := run (edge_execute_lookup id (ip_hash req)) (drive_lookup endpoint) w in
    (edge_render_lookup (settle_lookup m), w').

(** ** Routing *)

Inductive EdgeReply := NoContent | RootPage | Reply_ (r : Response).

Definition TASK_PATH : string := "/api/task/".

Definition edge_route (id : string) (req : EdgeRequest) : Ed (result EdgeReply string) :=
  let reply (m : Ed (result Response string)) : Ed (result EdgeReply string) :=
    let* r := m in ed_ret (try r := r in Ok (Reply_ r)) in
  let answer (m : Ed Response) : Ed (result EdgeReply string) :=
    let* r := m in ed_ret (Ok (Reply_ r)) in
  match eq_url req with
  | None => ed_ret (Err "request URL")
  | Some (path, pairs) =>
      match eq_method req with
      | Get =>
          if String.eqb path "/" then ed_ret (Ok RootPage) else
          if String.eqb path "/api/health" then reply (edge_health id) else
          if String.eqb path TASK_PATH
          then answer (ed_ret (error_response 400 "task id is required")) else
          if starts_with TASK_PATH path
          then answer (edge_task_status id (trim_start_str TASK_PATH path)) else
          if String.eqb path "/api/query"
          then answer (edge_run_lookup id req (Query (lookup_params pairs))) else
          if String.eqb path "/api/stats/total" then answer (edge_run_lookup id req StatsTotalE) else
          if String.eqb path "/api/stats/sites"
          then answer (edge_run_lookup id req (StatsSites (lookup_params pairs))) else
          if String.eqb path "/api/stats/keys" then
            match query_param pairs "rpId" with
            | None => answer (ed_ret (error_response 400 "rpId is required"))
            | Some rp_id => answer (edge_run_lookup id req (StatsKeys rp_id (lookup_params pairs)))
            end
          else answer (ed_ret (error_response 404 "not found"))
      | PostM =>
          if String.eqb path "/api/challenge" then reply (ed_ret (edge_challenge req)) else
          if String.eqb path "/api/register" then reply (edge_register id req) else
          if String.eqb path "/api/refer" then reply (edge_refer id req) else
          answer (ed_ret (error_response 404 "not found"))
      | _ => answer (ed_ret (error_response 404 "not found"))
      end
  end.

(** [lib.rs]: every reply leaves with the CORS headers; [misconfigured] is
    the error of [Edge::new]. *)
Definition worker_fetch (misconfigured : option string) (id : string) (req : EdgeRequest) : Ed EdgeReply :=
  if bool_decide (eq_method req = Options_) then ed_ret NoContent else
  match misconfigured with
  | Some error => ed_ret (Reply_ (error_response 500 ("service misconfigured: " +:+ error)))
  | None =>
      let* r := edge_route id req in
      ed_ret match r with
             | Ok reply => reply
             | Err _ => Reply_ (error_response 500 "internal error")
             end
  end.
End edge.
