(* ===== verification/EdgeFacts.v ===== *)
(** * What the edge guarantees *)
From Stdlib Require Import Ascii String Strings.Byte.
From S2P Require Export Edge SubmitterFacts.
From stdpp Require Import options.
#[local] Set Warnings "-register-all".

(** ** Percent-encoding *)

Lemma upper_hex_value d : 0 ≤ d < 16 → hex_digit_value (upper_hex d) = Some d.
Proof.
  intros Hd. assert (Hin : d ∈ seqZ 0 16) by by apply elem_of_seqZ.
  clear Hd. revert d Hin. apply Forall_forall. by repeat constructor.
Qed.

Lemma code_range c : 0 ≤ code c < 256.
Proof. unfold code. pose proof (N_ascii_bounded c). lia. Qed.

Lemma ascii_of_code c : ascii_of_N (Z.to_N (code c)) = c.
Proof. unfold code. by rewrite N2Z.id, ascii_N_embedding. Qed.

Lemma percent_roundtrip s : percent_decode (urlencode s) = Some s.
Proof.
  induction s as [|c s IH]; [done|]. cbn [urlencode]. destruct (unreserved c) eqn:Hc.
  - cbn [percent_decode]. by rewrite Hc, IH.
  - pose proof (code_range c). cbn [percent_decode]. change (unreserved "%") with false. cbn [Ascii.eqb Bool.eqb].
    rewrite !upper_hex_value, IH by (Z.div_mod_to_equations; lia). cbn. do 2 f_equal.
    rewrite Z.mul_comm, <-Z.div_mod by lia. apply ascii_of_code.
Qed.

Section params.
Context `{U : UrlCrate}.

(** A task id or key that the edge puts into the object's URL is the
    one the object reads back, whatever (ASCII) characters it has: reserved
    characters cannot end the parameter or add another. *)
Theorem sent_param_exact name v :
  str_all is_alphanumeric name = true → str_all (in_range 0 127) v = true →
  sent_param name (urlencode v) = v.
Proof.
  intros Hn Hv. unfold sent_param. rewrite (query_pairs_one name _ v); [|done|apply percent_roundtrip|done].
  unfold query_param. cbn. by rewrite decide_True.
Qed.

(** Unreserved text needs no encoding. *)
Lemma urlencode_plain s : str_all unreserved s = true → urlencode s = s.
Proof.
  induction s as [|c s IH]; [done|]. cbn [str_all urlencode]. intros [-> Hs]%andb_true_iff. by rewrite IH.
Qed.
End params.

(** ** Validation depends on neither the id nor the clock *)

Section validation.
Context `{C : Crates}.

Definition verdict {A} (r : result A VError) : result () VError := try a := r in Ok tt.

Lemma verdict_bind {A B} (m : result A VError) (f g : A → result B VError) :
  (∀ a, m = Ok a → verdict (f a) = verdict (g a)) → verdict (rbind m f) = verdict (rbind m g).
Proof. destruct m as [a|e]; [|done]. cbn. auto. Qed.

Lemma validate_register_stamp req id now id' now' chain reg :
  verdict (validate_register req id now chain reg) = verdict (validate_register req id' now' chain reg).
Proof.
  unfold validate_register. do 3 (apply verdict_bind; intros ? _). apply verdict_bind. intros ms _.
  destruct (_ <? _); [done|]. do 3 (apply verdict_bind; intros ? _). apply verdict_bind. intros h _.
  do 3 (apply verdict_bind; intros ? _). done.
Qed.

Lemma validate_refer_stamp req id now id' now' chain reg :
  verdict (validate_refer req id now chain reg) = verdict (validate_refer req id' now' chain reg).
Proof.
  unfold validate_refer. do 6 (apply verdict_bind; intros ? _). destruct (bool_decide _); [done|].
  apply verdict_bind. intros h _. do 4 (apply verdict_bind; intros ? _). apply verdict_bind. done.
Qed.

Lemma validate_stamp sub id now id' now' chain reg :
  verdict (validate sub id now chain reg) = verdict (validate sub id' now' chain reg).
Proof. destruct sub; [apply validate_register_stamp|apply validate_refer_stamp]. Qed.
End validation.

Section edge_facts.
Context `{C : Crates, K : StoreCodec, U : UrlCrate}.
Context {S N P : Type} `{R : ReadChain S, W : ChainClient N, D : DoChain N, CA : CacheApi P}.
Context (url_safe_encode : bytes → string).
Context (json_of_bytes : bytes → option Json) (register_of_bytes : bytes → option RegisterRequest)
  (refer_of_bytes : bytes → option ReferRequest).
Context (cfg : EdgeConfig) (dp : Deployment).

Abbreviation EW := (EdgeWorld (S := S) (N := N) (P := P)).
Abbreviation object w := (sql (do_sql (e_do w))).
Abbreviation route := (worker_fetch url_safe_encode json_of_bytes register_of_bytes refer_of_bytes cfg (Ok dp)).

(** ** Pre-validation *)

(** The object answers an admission [Invalid] exactly when the request does
    not validate, whatever its id, its clock and its tables. *)
Lemma fetch_invalid id request ip (s s' : SubmitterDo N) o :
  dp_domain_registry_address dp = rc_domain_registry_address →
  fetch (Ok dp) id (RAdmit request ip) s = (Ok (Outcome o), s') → ∀ now,
  ((∃ msg, o = Invalid msg) ↔ is_ok (prevalidate request now) = false) ∧
  (∀ msg, prevalidate request now = Err (Msg msg) → o = Invalid msg).
Proof.
  intros Hdp He now.
  apply try_split in He as [(e & _ & [=])|(u & s1 & _ & He)].
  apply try_split in He as [(e & _ & [=])|(u2 & s2 & _ & He)].
  apply try_split in He as [(e & _ & [=])|(o1 & s3 & Hrun & He)].
  apply try_split in He as [(e & _ & [=])|(u5 & s5 & _ & He)]. injection He as -> _.
  unfold run_admission, get_chain, do_try, do_bind, do_ret in Hrun.
  destruct (run _ _ s2) as [[s4 t] m] eqn:Hr. injection Hrun as <- _.
  apply run_exec, admission_invalid in Hr as [Hiff Hmsg]. rewrite Hdp in Hiff, Hmsg.
  pose proof (validate_stamp request id (s_now (sql (do_sql s2))) "edge-validate" now CHAIN_ID
    rc_domain_registry_address) as Hv.
  change (verdict (validate request "edge-validate" now CHAIN_ID rc_domain_registry_address))
    with (prevalidate request now) in Hv. rewrite <-Hv. unfold verdict.
  destruct (validate request id _ _ _) as [a|e]; cbn [rbind is_ok] in *; [by split|].
  split; [done|]. intros msg [= ->]. by apply Hmsg.
Qed.

(** C36. Validating at the edge changes no verdict.  A request that the edge
    refuses is answered 400 with the message that the object's own validation
    gives, and the object is not asked at all; a request that it forwards is
    never answered "invalid" by the object. *)
Theorem prevalidation_transparent id request ip (w : EW) :
  dp_domain_registry_address dp = rc_domain_registry_address →
  (∀ msg, prevalidate request (e_now w) = Err (Msg msg) →
     validate_then_admit (Ok dp) id request ip w = (Ok (edge_render_admission (Invalid msg)), w) ∧
     ∀ (s : SubmitterDo N) o s', fetch (Ok dp) id (RAdmit request ip) s = (Ok (Outcome o), s') →
       o = Invalid msg) ∧
  (is_ok (prevalidate request (e_now w)) = true →
     validate_then_admit (Ok dp) id request ip w =
       (λ p, (Ok p.1, p.2)) (edge_admit (Ok dp) id request ip w) ∧
     ∀ (s : SubmitterDo N) o s' msg, fetch (Ok dp) id (RAdmit request ip) s = (Ok (Outcome o), s') →
       o ≠ Invalid msg).
Proof.
  intros Hdp. split.
  - intros msg Hp. split; [unfold validate_then_admit, ed_bind, ed_now; by rewrite Hp|].
    intros s o s' He. by apply (fetch_invalid _ _ _ _ _ _ Hdp He (e_now w)).
  - intros Hp. split.
    + unfold validate_then_admit, ed_bind, ed_now. destruct (prevalidate request (e_now w)) as [[]|]; [|done].
      by destruct (edge_admit _ _ _ _ w).
    + intros s o s' msg He ->. destruct (fetch_invalid _ _ _ _ _ _ Hdp He (e_now w)) as [[Hi _] _].
      rewrite Hi in Hp; [done|by eexists].
Qed.

(** ** An accepted write *)

Lemma do_call_ok id req (w w' : EW) r :
  do_call (Ok dp) id req w = (Ok r, w') →
  fetch (Ok dp) id req (e_do w) = (Ok r, e_do w').
Proof.
  unfold do_call. destruct (e_fates w) as [|[] fates];
    try (destruct (fetch (Ok dp) id req (e_do w)) as [[r1|] d]; cbn; by intros [= -> <-]); by intros [=].
Qed.

Lemma admit_accepted id request ip (w w' : EW) r :
  edge_admit (Ok dp) id request ip w = (r, w') → code_ r = 202 →
  ∃ i st, status_json st ≠ status_json Done ∧ r = edge_render_admission (Queued i st) ∧
    fetch (Ok dp) id (RAdmit request ip) (e_do w) = (Ok (Outcome (Queued i st)), e_do w').
Proof.
  unfold edge_admit, ed_bind, ed_ret. destruct (do_call (Ok dp) id _ w) as [a w1] eqn:Hc.
  intros [= <- <-] Hcode. destruct a as [[o| | | |]|e]; try done. apply do_call_ok in Hc.
  destruct o as [msg| |i st| | | |dep]; try done. exists i, st. split; [|done].
  destruct st; done.
Qed.

Lemma bounded_admit id request ip (w w' : EW) r :
  validate_then_admit (Ok dp) id request ip w = (Ok r, w') → code_ r = 202 →
  edge_admit (Ok dp) id request ip w = (r, w').
Proof.
  unfold validate_then_admit, ed_bind, ed_now, ed_ret. destruct (prevalidate _ _) as [[]|[msg|msg]].
  - destruct (edge_admit _ _ _ _ w) as [r1 w1]. by intros [= -> ->].
  - by intros [= <- _].
  - done.
Qed.

(** A write that the edge answers 202 came from the object. *)
Lemma write_accepted id req path pairs (w w' : EW) r :
  eq_method req = PostM → eq_url req = Some (path, pairs) → path = "/api/register" ∨ path = "/api/refer" →
  route None id req w = (Reply_ r, w') → code_ r = 202 →
  ∃ i st request ip, r = edge_render_admission (Queued i st) ∧
    fetch (Ok dp) id (RAdmit request ip) (e_do w) = (Ok (Outcome (Queued i st)), e_do w').
Proof.
  intros Hm Hu Hpath. unfold worker_fetch. rewrite bool_decide_eq_false_2 by congruence.
  unfold ed_bind at 1, ed_ret. unfold edge_route. rewrite Hu, Hm.
  destruct Hpath as [-> | ->]; cbn [String.eqb Ascii.eqb Bool.eqb]; unfold ed_bind at 1, ed_ret.
  - unfold edge_register. destruct (bounded_body req) as [[b|]|e]; [|by intros [= <- _]..].
    destruct (register_of_bytes b) as [body|]; [|by intros [= <- _]].
    destruct (validate_then_admit _ _ _ _ w) as [[r1|e] w1] eqn:Hv; [|by intros [= <- _]].
    cbn. intros [= -> <-] Hc. apply bounded_admit in Hv; [|done].
    apply admit_accepted in Hv as (i & st & _ & ? & ?); [|done]. by eexists i, st, _, _.
  - unfold edge_refer. destruct (bounded_body req) as [[b|]|e]; [|by intros [= <- _]..].
    destruct (refer_of_bytes b) as [body|]; [|by intros [= <- _]].
    unfold ed_bind at 1, ed_ret. destruct (edge_refer_mismatch body w) as [mis w0] eqn:Hmis.
    assert (Hdo : e_do w0 = e_do w).
    { revert Hmis. unfold edge_refer_mismatch. destruct (fr_rp_id body), (fr_group_public_key body) as [g|];
        try (by intros [= _ <-]). destruct (parse_hex_bytes g) as [gb|]; [|by intros [= _ <-]].
      unfold ed_bind, ed_chain, ed_ret. destruct (rc_unit_by_group_key _ _). by intros [= _ <-]. }
    destruct mis; [by intros [= <- _]|].
    destruct (validate_then_admit _ _ _ _ w0) as [[r1|e] w1] eqn:Hv; [|by intros [= <- _]].
    cbn. intros [= -> <-] Hc. apply bounded_admit in Hv; [|done].
    apply admit_accepted in Hv as (i & st & _ & ? & Hf); [|done]. rewrite Hdo in Hf. by eexists i, st, _, _.
Qed.

(** C7. A write the edge answers 202 is acted on.  From any reachable state
    of the service, behind whatever loses calls between the edge and the
    object: a register or refer that is answered 202 names a task that is
    stored, and is finished or waiting; a live one has the alarm armed, and
    once the alarms that follow have advanced, one per 50 envelopes waiting,
    it is finished. *)
Theorem accepted_is_settled (y : Sys (SubmitterDo N)) id req path pairs (w w' : EW) r :
  sys_reachable (SH := do_shell dp) y → e_do w = y_shell y → ¬ v_present (y_shell y) id →
  eq_method req = PostM → eq_url req = Some (path, pairs) → path = "/api/register" ∨ path = "/api/refer" →
  route None id req w = (Reply_ r, w') → code_ r = 202 →
  ∃ i st, r = edge_render_admission (Queued i st) ∧ accounted (e_do w') i ∧
    (is_terminal st = false → is_Some (do_alarm (e_do w')) ∧
     ∀ k l s2, keep_firing dp k (e_do w') = (l, s2) → Forall progress l →
       (length (v_waiting (e_do w')) ≤ POLL_BATCH_SIZE * k)%nat → finished s2 i).
Proof.
  intros Hy%inv_sys Hw Hn Hm Hu Hpath Hr Hc.
  destruct (write_accepted _ _ _ _ _ _ _ Hm Hu Hpath Hr Hc) as (i & st & request & ip & -> & He).
  rewrite Hw in He. exists i, st. split; [done|].
  destruct (fetch_queued dp _ _ _ _ _ _ _ (si_shell _ Hy) Hn He) as (Hi & Ha & Harm). split; [done|].
  intros Hst. specialize (Harm Hst). split; [done|]. intros k l s2 Hk Hl Hlen.
  destruct (firing_drains dp k (e_do w') s2 l Hi (or_introl Harm) Hk Hl Hlen) as (_ & H2 & H3).
  destruct Ha as [_ [Hf|Hwait]]; [by apply H3|by apply H2].
Qed.

(** ** Reads *)

(** No record and no queued envelope changes. *)
Definition records_same (s s' : SubmitterDo N) : Prop :=
  (∀ id, v_get (sql (do_sql s')) id = v_get (sql (do_sql s)) id) ∧
  s_queue (sql (do_sql s')) = s_queue (sql (do_sql s)).

Lemma records_refl s : records_same s s.
Proof. done. Qed.
Lemma records_trans s1 s2 s3 : records_same s1 s2 → records_same s2 s3 → records_same s1 s3.
Proof. intros [A1 A2] [B1 B2]. split; [intros id; by rewrite B1|by rewrite B2]. Qed.

Lemma records_sql {A} (m : Dm A) (s s' : SubmitterDo N) r :
  on_sql m s = (r, s') →
  dwp m (do_sql s) (λ _ d, (∀ id, v_get d id = v_get (sql (do_sql s)) id) ∧ s_queue d = s_queue (sql (do_sql s))) →
  records_same s s'.
Proof. intros He Hm. by destruct (on_sql_dwp _ _ _ _ _ He Hm) as ([Hg Hq] & _). Qed.

Lemma records_read {A} (m : Dm A) (s s' : SubmitterDo N) r :
  on_sql m s = (r, s') → dwp m (do_sql s) (λ _ d, d = sql (do_sql s)) → records_same s s'.
Proof. intros He Hm. eapply records_sql; [exact He|]. eapply dwp_mono; [exact Hm|]. by intros ?? ->. Qed.

Lemma records_bump key (s s' : SubmitterDo N) r :
  on_sql (sq_bump_minute_counter key) s = (r, s') → records_same s s'.
Proof.
  intros He. eapply records_sql; [exact He|]. unfold sq_bump_minute_counter.
  apply dwp_bind, dwp_now. intros w1 H1. apply dwp_statement; [by rewrite H1|].
  rewrite H1. by destruct (bump key _ _).
Qed.

(** A request that admits nothing. *)
Lemma fetch_reads id req (s : SubmitterDo N) :
  (∀ request ip, req ≠ RAdmit request ip) → records_same s (fetch (Ok dp) id req s).2.
Proof.
  intros Hreq. destruct (fetch (Ok dp) id req s) as [r s'] eqn:He. cbn [snd].
  assert (Hb : ∀ s s' r, bootstrap s = (r, s') → records_same s s').
  { intros s0 s1 r0 H0. eapply records_sql; [exact H0|]. by apply dwp_update. }
  assert (Hp : ∀ s s' r, on_sql sq_purge_expired s = (r, s') → records_same s s').
  { intros s0 s1 r0 H0. eapply records_sql; [exact H0|]. apply purge_same. }
  apply try_split in He as [(e & H1%Hb & _)|(u & s1 & H1%Hb & He)]; [done|].
  apply try_split in He as [(e & H2%Hp & _)|(u2 & s2 & H2%Hp & He)]; [by eapply records_trans|].
  eapply records_trans; [exact H1|]. eapply records_trans; [exact H2|]. clear H1 H2.
  destruct req as [request ip|t|k|ip| |]; [by destruct (Hreq request ip)| | | | |by injection He as _ <-].
  - assert (Hg : ∀ s' r, on_sql (sq_get_task t) s2 = (r, s') → records_same s2 s').
    { intros s3 r3 H3. eapply records_read; [exact H3|]. eapply dwp_mono; [apply get_task_same|]. by intros ?? [-> _]. }
    apply try_split in He as [(e & H3%Hg & _)|(a & s3 & H3%Hg & He)]; [done|]. by injection He as _ <-.
  - assert (Hg : ∀ s' r, on_sql (sq_find_by_public_key k) s2 = (r, s') → records_same s2 s').
    { intros s3 r3 H3. eapply records_read; [exact H3|]. eapply dwp_mono; [apply find_same|]. by intros ?? [-> _]. }
    apply try_split in He as [(e & H3%Hg & _)|(a & s3 & H3%Hg & He)]; [done|]. by injection He as _ <-.
  - apply try_split in He as [(e & H3%records_bump & _)|(a & s3 & H3%records_bump & He)]; [done|]. by injection He as _ <-.
  - assert (Hg : ∀ s' r, on_sql sq_queue_stats s2 = (r, s') → records_same s2 s').
    { intros s3 r3 H3. eapply records_read; [exact H3|]. apply stats_same. }
    apply try_split in He as [(e & H3%Hg & _)|(a & s3 & H3%Hg & He)]; [done|].
    assert (Ha : ∀ s' r, get_alarm s3 = (r, s') → records_same s3 s').
    { intros s4 r4 (Hx & _)%alarm_io_spec. unfold records_same. by rewrite Hx. }
    apply try_split in He as [(e & H4%Ha & _)|(b & s4 & H4%Ha & He)]; [by eapply records_trans|].
    apply try_split in He as [(e & [=] & _)|(c & s5 & [= _ <-] & He)].
    injection He as _ <-. by eapply records_trans.
Qed.

(** Steps of the edge that leave the object's records alone. *)
Definition reads {A} (m : Ed A) : Prop := ∀ w : EW, records_same (e_do w) (e_do (m w).2).

Lemma reads_ret {A} (a : A) : reads (ed_ret a).
Proof. intros w. apply records_refl. Qed.
Lemma reads_bind {A B} (m : Ed A) (f : A → Ed B) : reads m → (∀ a, reads (f a)) → reads (ed_bind m f).
Proof.
  intros Hm Hf w. unfold ed_bind. specialize (Hm w). destruct (m w) as [a w1]. cbn in Hm.
  eapply records_trans; [exact Hm|apply Hf].
Qed.
Lemma reads_chain {A} (m : S → A * S) : reads (ed_chain m).
Proof. intros w. unfold ed_chain. destruct (m (e_chain w)). apply records_refl. Qed.
Lemma reads_cache {A} (m : P → A * P) : reads (ed_cache m).
Proof. intros w. unfold ed_cache. destruct (m (e_cache w)). apply records_refl. Qed.
Lemma reads_now : reads ed_now.
Proof. intros w. apply records_refl. Qed.
Lemma reads_call id req : (∀ request ip, req ≠ RAdmit request ip) → reads (do_call (Ok dp) id req).
Proof.
  intros Hreq w. pose proof (fetch_reads id req (e_do w) Hreq) as Hf. unfold do_call.
  destruct (e_fates w) as [|[] fates]; [|..]; try apply records_refl; try exact Hf;
    by destruct (fetch (Ok dp) id req (e_do w)).
Qed.
Create HintDb reads.
#[local] Hint Resolve reads_ret reads_bind reads_chain reads_cache reads_now : reads.

Lemma reads_cache_get key limit : reads (edge_cache_get key limit).
Proof. unfold edge_cache_get. auto with reads. Qed.
Lemma reads_cache_set key v : reads (edge_cache_set key v).
Proof. unfold edge_cache_set. auto with reads. Qed.

Lemma reads_lookup id ip op : reads (edge_execute_lookup (Ok dp) id ip op).
Proof.
  destruct op as [key|key v negative| |fetch|k]; cbn [edge_execute_lookup].
  - apply reads_bind; [apply reads_cache_get|intros; apply reads_ret].
  - apply reads_bind; [destruct negative; apply reads_cache_set|intros; apply reads_ret].
  - apply reads_bind; [by apply reads_call|intros; apply reads_ret].
  - apply reads_chain.
  - apply reads_bind; [by apply reads_call|intros; apply reads_ret].
Qed.

Lemma reads_run {A} id ip (p : LProg A) (w w' : EW) t m :
  run (edge_execute_lookup (Ok dp) id ip) p w = (w', t, m) → records_same (e_do w) (e_do w').
Proof.
  revert w t. induction p as [a|op k IH]; intros w t; cbn [run]; [by intros [= <- _ _]|].
  pose proof (reads_lookup id ip op w) as Hop. destruct (edge_execute_lookup _ _ _ _ w) as [r w1].
  destruct (run _ (k r) w1) as [[w2 t2] m2] eqn:Er. intros [= <- _ <-].
  eapply records_trans; [exact Hop|]. by eapply IH.
Qed.

Lemma reads_run_lookup id req endpoint : reads (edge_run_lookup cfg (Ok dp) id req endpoint).
Proof.
  intros w. unfold edge_run_lookup. destruct (run _ _ w) as [[w' t] m] eqn:Er. cbn. by eapply reads_run.
Qed.

Lemma reads_health id : reads (edge_health cfg (Ok dp) id).
Proof.
  unfold edge_health. apply reads_bind; [apply reads_chain|]. intros circuit.
  apply reads_bind; [by apply reads_call|intros; apply reads_ret].
Qed.

(** Reading changes nothing.  Whatever is asked with any method but
    POST, with whatever parameters, and whatever calls are lost: no task
    record changes and no envelope is queued or dropped.  Only counters, the
    cache and the roster move. *)
Theorem reads_keep_tasks misconfigured id req (w : EW) :
  eq_method req ≠ PostM → records_same (e_do w) (e_do (route misconfigured id req w).2).
Proof.
  intros Hm. revert w. change (reads (route misconfigured id req)). unfold worker_fetch.
  case_bool_decide; [apply reads_ret|]. destruct misconfigured; [apply reads_ret|].
  apply reads_bind; [|intros; apply reads_ret]. unfold edge_route.
  destruct (eq_url req) as [[path pairs]|]; [|apply reads_ret].
  destruct (eq_method req); [|done|apply reads_bind; auto with reads..].
  assert (Htask : ∀ task_id, reads (edge_task_status (Ok dp) id task_id)).
  { intros task_id. apply reads_bind; [by apply reads_call|intros; apply reads_ret]. }
  pose proof (reads_health id) as Hhealth. pose proof (reads_run_lookup id req) as Hlookup.
  repeat case_match; auto with reads.
Qed.

(** ** The cache *)

(** The entry's own times decide; the platform may drop it at any moment. *)
Definition fresh_for (v : option Json) : Z :=
  match v with None => CACHE_NEGATIVE_TTL_MS | Some _ => CACHE_FRESH_TTL_MS end.
Definition read_back (v : option Json) (t0 t1 limit : Z) (r : CacheRead) : Prop :=
  match r with
  | CMiss => True
  | CNegative => v = None ∧ t1 ≤ t0 + 60 * 1000
  | CFresh x => v = Some x ∧ t1 ≤ t0 + 5 * 60 * 1000
  | CStale x age => v = Some x ∧ t0 + 5 * 60 * 1000 < t1 ∧ age = t1 - t0 ∧ age ≤ limit
  end.

(** What the cache gives back.  After a value was stored for a key, and
    however many entries the platform has dropped since, a read of that key
    gives nothing, or that value as fresh within five minutes, or that value
    as stale with its exact age and never older than the limit asked for; a
    stored "not found" is given back for one minute.  (A null value is not
    stored as one: it would read as "not found".) *)
Theorem edge_cache_life key v limit (w w1 w2 w3 : EW) r :
  v ≠ Some JNull → in_u64 (e_now w) → e_now w + CACHE_FRESH_TTL_MS ≤ U64_MAX → e_now w ≤ e_now w2 →
  edge_cache_set key v w = (Ok tt, w1) →
  (∀ t, cached (e_cache w2) (cache_url key) = Some t → cached (e_cache w1) (cache_url key) = Some t) →
  edge_cache_get key limit w2 = (Ok r, w3) →
  read_back v (e_now w) (e_now w2) limit r.
Proof.
  intros Hnull Hn Hmax Hle Hset Hheld Hget.
  assert (Hfresh : 0 ≤ fresh_for v ≤ CACHE_FRESH_TTL_MS) by by destruct v.
  assert (Hwrap : wrap64 (e_now w + fresh_for v) = e_now w + fresh_for v).
  { apply wrap64_small. unfold in_u64 in *. lia. }
  unfold edge_cache_set, ed_bind, ed_now, ed_cache in Hset.
  assert (Httl : (if bool_decide (v = None) then CACHE_NEGATIVE_TTL_MS else CACHE_FRESH_TTL_MS) = fresh_for v)
    by (by destruct v; case_bool_decide).
  rewrite Httl, Hwrap in Hset. destruct (cache_store _ _ _ _) as [o p] eqn:Hs. injection Hset as -> <-.
  unfold edge_cache_get, ed_bind, ed_cache, ed_now, ed_ret in Hget.
  destruct (cache_match (cache_url key) (e_cache w2)) as [hit p2] eqn:Hm. cbn [e_now] in Hget.
  injection Hget as Hr _. destruct hit as [hit|]; [|done]. cbn [rbind] in Hr. injection Hr as <-.
  destruct hit as [text|]; [|done]. apply cache_match_ok, Hheld in Hm. cbn [e_cache] in Hm.
  apply (cache_store_ok _ _ _ _ _ _ Hs) in Hm as ->. cbn [mbind option_bind].
  rewrite cache_json_roundtrip by done. unfold read_entry, sat_sub. cbn [ce_value ce_stored_at_ms ce_fresh_until_ms].
  destruct v as [x|]; cbn [fresh_for]; unfold CACHE_FRESH_TTL_MS, CACHE_NEGATIVE_TTL_MS.
  - destruct (Z.leb_spec (e_now w2) (e_now w + 5 * 60 * 1000)); [by split|].
    destruct (Z.leb_spec (Z.max 0 (e_now w2 - e_now w)) limit); [|done]. unfold read_back. split_and!; [done|lia..].
  - destruct (Z.leb_spec (e_now w2) (e_now w + 60 * 1000)); [by split|done].
Qed.
End edge_facts.

(** ** Evaluation on examples *)

(** One pair of a query, split at its first [=]. *)
Fixpoint split_pair (s : string) : option (string * string) :=
  match s with
  | EmptyString => None
  | String c s =>
      if Ascii.eqb c "=" then Some (EmptyString, s)
      else '(k, v) ← split_pair s; Some (String c k, v)
  end.

Lemma split_pair_plain k v : str_all is_alphanumeric k = true → split_pair (k +:+ "=" +:+ v) = Some (k, v).
Proof.
  induction k as [|c k IH]; [done|]. intros Hk. cbn [str_all] in Hk. apply andb_true_iff in Hk as [Hc Hk].
  change (split_pair (String c (k +:+ "=" +:+ v)) = Some (String c k, v)). cbn [split_pair].
  destruct (Ascii.eqb_spec c "=") as [->|]; [by vm_compute in Hc|]. by rewrite IH.
Qed.

#[refine] Instance concrete_url : UrlCrate := {|
  query_pairs s := match ('(k, e) ← split_pair s; v ← percent_decode e; Some (k, v)) with
                   | Some kv => [kv] | None => [] end;
|}.
Proof. intros k e v Hk He _. rewrite split_pair_plain by done. cbn. by rewrite He. Defined.

(** A cache that holds everything it is given. *)
#[refine] Instance concrete_cache : CacheApi (gmap string string) := {|
  cache_match url p := (Ok (p !! url), p);
  cache_store url text _ p := (Ok tt, <[url := text]> p);
  cached p url := p !! url;
|}.
Proof.
  - intros url p t p' [=]. done.
  - intros url p r p' u t [= <- <-]. done.
  - intros url text age p p' t [= <-]. rewrite lookup_insert_eq. congruence.
  - intros url text age p r p' u t [= _ <-] [[-> ->]|[_ ?]]%lookup_insert_Some; [by left|by right].
Defined.

Lemma sent_param_exact_witness : sent_param "id" (urlencode "a&id=b/%2F c") = "a&id=b/%2F c".
Proof. apply (sent_param_exact "id" "a&id=b/%2F c"); by vm_compute. Defined.

Section edge_examples.
#[local] Existing Instance concrete_crates.
#[local] Existing Instance concrete_codec.
#[local] Existing Instance confirming_chain.
#[local] Existing Instance cheap_chain.

(** A chain that knows nothing. *)
#[local] Instance blank_reads : ReadChain () := {|
  rc_circuit_state c := ("closed", c);
  rc_registry_address := sample_registry_hex;
  rc_domain_registry_address := sample_registry_hex;
  rc_entry _ c := (Ok None, c);
  rc_key_profile _ _ _ _ c := (Ok None, c);
  rc_groups_by_rp_id _ p n _ c := (Ok (mkPage 0 p n []), c);
  rc_rp_ids p n _ c := (Ok (mkPage 0 p n []), c);
  rc_totals c := (Ok (mkTotals 0 0 0 0), c);
  rc_is_content_registered _ c := (Ok false, c);
  rc_is_referenced _ _ c := (Ok false, c);
  rc_unit_by_group_key _ c := (Ok None, c);
  rc_group_detail_by_key _ _ _ _ c := (Ok None, c);
  rc_group_detail_by_id _ _ _ _ c := (Ok None, c);
|}.

Definition sample_edge : EdgeConfig := mkEdgeConfig None false.
Definition edge_at (d : SubmitterDo Z) (now : Z) : EdgeWorld (S := ()) (N := Z) (P := gmap string string) :=
  mkEdge () d ∅ now [].
(** The body is the sample submission. *)
Definition sample_post : EdgeRequest :=
  mkEdgeRequest PostM (Some ("/api/register", [])) (Some "2") (Some "10.0.0.7") (Some (as_bytes "{}")).
Definition served (req : EdgeRequest) (w : EdgeWorld (S := ()) (N := Z) (P := gmap string string)) :=
  worker_fetch hex_encode (λ _, None) (λ _, Some sample_register_request) (λ _, None)
    sample_edge (Ok sample_deployment) None "t1" req w.
Definition posted := served sample_post (edge_at quiet_do 1_000).
Definition posted_fired := keep_firing sample_deployment 1 (e_do posted.2).
#[local] Strategy expand [posted posted_fired].

Definition reply_code (r : EdgeReply) : Z := match r with Reply_ r => code_ r | _ => 0 end.

Lemma posted_reply : posted = (Reply_ (edge_render_admission (Queued "t1" Pending)), posted.2).
Proof. apply pair_of. vm_compute. reflexivity. Qed.
Lemma posted_fired_advanced : keep_firing sample_deployment 1 (e_do posted.2) = ([Ok BatchAdvanced], posted_fired.2).
Proof. fold posted_fired. apply pair_of. vm_compute. reflexivity. Qed.

Lemma queued_told i j st st' :
  edge_render_admission (Queued i st) = edge_render_admission (Queued j st') →
  i = j ∧ is_terminal st' = is_terminal st.
Proof. intros Hr. assert (Hi : i = j) by (destruct st, st'; try discriminate Hr; by injection Hr).
  subst j. by destruct st, st'; try discriminate Hr. Qed.

Lemma accepted_is_settled_witness : finished posted_fired.2 "t1".
Proof.
  destruct (accepted_is_settled hex_encode (λ _, None) (λ _, Some sample_register_request) (λ _, None)
    sample_edge sample_deployment quiet_service "t1" sample_post "/api/register" [] (edge_at quiet_do 1_000)
    posted.2 (edge_render_admission (Queued "t1" Pending)) quiet_reachable eq_refl quiet_absent eq_refl eq_refl
    (or_introl eq_refl) posted_reply) as (i & st & Hr & _ & Hs); [by vm_compute|].
  destruct (queued_told _ _ _ _ Hr) as [<- Hst]. rewrite Hst in Hs. destruct (Hs eq_refl) as [_ Hdone].
  apply (Hdone 1%nat [Ok BatchAdvanced]); [exact posted_fired_advanced|by repeat constructor|].
  apply Nat.leb_le. vm_compute. reflexivity.
Defined.

Lemma prevalidation_transparent_witness :
  validate_then_admit (Ok sample_deployment) "t1" sample_submission "peer" (edge_at quiet_do 1_000) =
    (λ p, (Ok p.1, p.2)) (edge_admit (Ok sample_deployment) "t1" sample_submission "peer" (edge_at quiet_do 1_000)).
Proof.
  apply (prevalidation_transparent (R := blank_reads) sample_deployment "t1" sample_submission "peer" (edge_at quiet_do 1_000) eq_refl).
  vm_compute. reflexivity.
Defined.

Definition sample_get : EdgeRequest :=
  mkEdgeRequest Get (Some ("/api/task/t1", [])) None None None.
Lemma reads_keep_tasks_witness :
  records_same (e_do posted.2) (e_do (served sample_get posted.2).2).
Proof.
  exact (reads_keep_tasks hex_encode (λ _, None) (λ _, Some sample_register_request) (λ _, None)
    sample_edge sample_deployment None "t1" sample_get posted.2 ltac:(discriminate)).
Defined.

(** Stored at second one, read seven minutes later. *)
Definition stored_7 := edge_cache_set (S := ()) (N := Z) (P := gmap string string)
  "k" (Some (JNum 7)) (edge_at quiet_do 1_000).
Definition read_7 := edge_cache_get (S := ()) (N := Z) (P := gmap string string) "k" (24 * 60 * 60 * 1000)
  (mkEdge () quiet_do (e_cache stored_7.2) (1_000 + 7 * 60 * 1000) []).
#[local] Strategy expand [stored_7 read_7].
Lemma edge_cache_life_witness :
  read_7.1 = Ok (CStale (JNum 7) (7 * 60 * 1000)) ∧
  read_back (Some (JNum 7)) 1_000 (1_000 + 7 * 60 * 1000) (24 * 60 * 60 * 1000) (CStale (JNum 7) (7 * 60 * 1000)).
Proof.
  assert (Hr : read_7 = (Ok (CStale (JNum 7) (7 * 60 * 1000)), read_7.2)) by (apply pair_of; vm_compute; reflexivity).
  split; [by rewrite Hr|].
  apply (edge_cache_life "k" (Some (JNum 7)) (24 * 60 * 60 * 1000) (edge_at quiet_do 1_000) stored_7.2
    (mkEdge () quiet_do (e_cache stored_7.2) (1_000 + 7 * 60 * 1000) []) read_7.2);
    [done|done|by vm_compute|by vm_compute|apply pair_of; vm_compute; reflexivity|done|exact Hr].
Defined.
End edge_examples.
