(* ===== verification/Startup.v ===== *)
(** * Start-up ([p256-index-server/src/config.rs], [telegram.rs], [main.rs];
      [p256-index-cf/src/telegram.rs], [Edge::new])

    The Docker shell's configuration from the process environment, what
    [main] makes of it, in its order, and which background tasks it starts;
    the Telegram client of both shells; and how the configurations of the two
    shells compare. *)
From Stdlib Require Import Ascii String Strings.Byte.
From S2P Require Export WorkerLoop Edge CfClient.
From stdpp Require Import options.
#[local] Set Warnings "-register-all".

(** ** Configuration *)

Definition DEFAULT_PORT : Z := 11256.
Definition DEFAULT_STREAM_NAME : string := "p256-index".
Definition DEFAULT_TOPIC_NAME : string := "create".

Definition parse_u16 : string → option Z :=
  parse_unsigned (λ n, if (0 <=? n) && (n <=? 65_535) then Some n else None).

(** [dotenvy::dotenv()]: a missing file is an I/O error. *)
Inductive Dotenv := DotLoaded | DotIo | DotBroken.
(** An error of dotenvy, of a number, or the [bail!]'s message. *)
Inductive ConfigError := CDotenv | CParse | CBail (message : string).

Record Config := mkConfig {
  c_port : Z;
  c_private_key : option string;
  c_alchemy_api_key : option string;
  c_iggy_url : string;
  c_iggy_consumer_url : string;
  c_iggy_provisioner_url : string;
  c_redis_url : string;
  c_queue_worker_enabled : bool;
  c_telegram_bot_token : option string;
  c_telegram_chat_id : option string;
  c_global_write_limit : Z;
  c_max_gas_price_wei : Z;
  c_iggy_enqueue_timeout_secs : Z;
  c_iggy_consumer_group : string;
  c_iggy_stream : string;
  c_iggy_topic : string;
  c_contract_address : string;
  c_domain_registry : string;
}.

Definition PRIVATE_KEY_SHAPE : string :=
  "PRIVATE_KEY must be a 0x-prefixed 32-byte (64 hex character) private key".

Definition validate_private_key (v : string) : result () ConfigError :=
  match strip_prefix "0x" v with
  | None => Err (CBail PRIVATE_KEY_SHAPE)
  | Some v =>
      if negb (str_len v =? 64) || negb (str_all is_ascii_hexdigit v)
      then Err (CBail PRIVATE_KEY_SHAPE) else Ok tt
  end.

Definition required_value (name : string) (v : option string) : result string ConfigError :=
  ok_or (CBail ("missing required environment variable: " +:+ name)) v.

(** [value.map(parse).transpose()?.unwrap_or(d)] *)
Definition number_or (parse : string → option Z) (d : Z) (v : option string) : result Z ConfigError :=
  match v with None => Ok d | Some s => ok_or CParse (parse s) end.

Section server_config.
(** [env::var(name).ok()], once [.env] is loaded. *)
Context (var : string → option string).

Definition sv_optional (name : string) : option string := nonempty (var name).
Definition sv_required (name : string) : result string ConfigError := required_value name (sv_optional name).

Definition sv_from_env (dotenv : Dotenv) : result Config ConfigError :=
  try u := match dotenv with DotBroken => Err CDotenv | _ => Ok tt end in
  try port := number_or parse_u16 DEFAULT_PORT (sv_optional "PORT") in
  let private_key := sv_optional "PRIVATE_KEY" in
  try u := match private_key with Some key => validate_private_key key | None => Ok tt end in
  try iggy_url := sv_required "P256_INDEX_IGGY_URL" in
  try redis_url := sv_required "P256_INDEX_REDIS_URL" in
  try global_write_limit := number_or parse_u64 40 (sv_optional "GLOBAL_WRITE_LIMIT") in
  if global_write_limit =? 0 then Err (CBail "GLOBAL_WRITE_LIMIT must be greater than zero") else
  try max_gas_price_wei :=
    number_or parse_u128 DEFAULT_MAX_FEE_WEI (sv_optional "P256_INDEX_MAX_GAS_PRICE_WEI") in
  if max_gas_price_wei =? 0
  then Err (CBail "P256_INDEX_MAX_GAS_PRICE_WEI must be greater than zero") else
  try contract_address := sv_required "P256_INDEX_CONTRACT_ADDRESS" in
  try enqueue_timeout := number_or parse_u64 5 (sv_optional "P256_INDEX_IGGY_ENQUEUE_TIMEOUT_SECS") in
  Ok (mkConfig port private_key (sv_optional "ALCHEMY_API_KEY") iggy_url
    (default iggy_url (sv_optional "P256_INDEX_IGGY_CONSUMER_URL"))
    (default iggy_url (sv_optional "P256_INDEX_IGGY_PROVISIONER_URL"))
    redis_url
    (negb (bool_decide (sv_optional "QUEUE_WORKER" = Some "0")))
    (sv_optional "TELEGRAM_BOT_TOKEN") (sv_optional "TELEGRAM_CHAT_ID")
    global_write_limit max_gas_price_wei enqueue_timeout
    (default "p256-index-server-v1" (sv_optional "P256_INDEX_IGGY_CONSUMER_GROUP"))
    (default DEFAULT_STREAM_NAME (sv_optional "P256_INDEX_IGGY_STREAM"))
    (default DEFAULT_TOPIC_NAME (sv_optional "P256_INDEX_IGGY_TOPIC"))
    contract_address
    (default contract_address (sv_optional "P256_INDEX_DOMAIN_REGISTRY"))).
End server_config.

(** ** Telegram *)

Record Telegram := mkTelegram { bot_token : string; chat_id : string }.

(** [builds]: [reqwest] could make its client. *)
Definition telegram_new (builds : bool) (token chat : string) : option Telegram :=
  if String.eqb token EmptyString || String.eqb chat EmptyString then None
  else if builds then Some (mkTelegram token chat) else None.

Definition telegram_from_config (builds : bool) (c : Config) : option Telegram :=
  token ← c_telegram_bot_token c; chat ← c_telegram_chat_id c; telegram_new builds token chat.

Definition cf_telegram_new (token chat : option string) : option Telegram :=
  match token, chat with
  | Some token, Some chat =>
      if negb (String.eqb token EmptyString) && negb (String.eqb chat EmptyString)
      then Some (mkTelegram token chat) else None
  | _, _ => None
  end.

(** The request of either shell. *)
Definition telegram_url (t : Telegram) : string :=
  "https://api.telegram.org/bot" +:+ bot_token t +:+ "/sendMessage".
Definition telegram_payload (t : Telegram) (message : string) : Json :=
  JObj [("chat_id", JStr (chat_id t)); ("text", JStr message)].

(** ** The process *)

Section startup.
Context `{C : Crates, J : JsonCrate, E : EthCrates}.

(** [Chain::new], [has_signer] and the roster. *)
Definition chain_of (c : Config) : option ChainConfig :=
  new_chain (c_private_key c) (c_contract_address c) (c_domain_registry c) (c_max_gas_price_wei c).

Definition sv_derive_ip_salt (secret : option string) : string :=
  hex_encode (sha256 (as_bytes ("ip-salt" +:+ String (ascii_of_nat 0) EmptyString +:+
    default "webauthnp256-index" secret))).

(** [AppState::new] *)
Definition app_config (c : Config) : AppConfig :=
  mkAppConfig (sv_derive_ip_salt (c_private_key c)) (c_global_write_limit c)
    (bool_decide (is_Some (c_telegram_bot_token c)) && bool_decide (is_Some (c_telegram_chat_id c)))
    CHAIN_ID.

(** The consumer's configuration, when the worker is started. *)
Definition start_worker_if_enabled (c : Config) (has_signer : bool) : option ConsumerConfig :=
  if negb (c_queue_worker_enabled c) then None else
  if negb has_signer then None else
  Some (mkConsumerConfig (c_iggy_consumer_url c) (c_iggy_consumer_group c) (c_iggy_stream c) (c_iggy_topic c)).

(** The release it reports, when maintenance is started. *)
Definition start_maintenance_if_enabled (var : string → option string) (c : Config) (has_signer : bool)
    : option (option string) :=
  if negb (c_queue_worker_enabled c) || negb has_signer then None
  else Some (nonempty (var "RELEASE")).

(** Whether what [main] connects to can be reached. *)
Record Outside := mkOutside {
  redis_connects : string → bool;
  iggy_connects : string → string → string → string → bool;
  topology_ensured : bool;
  port_binds : Z → bool;
  reqwest_builds : bool;
}.

Inductive BootError := BConfig (e : ConfigError) | BChain | BStore | BQueue | BTopology | BBind.

Record Process := mkProcess {
  pr_chain : ChainConfig;
  pr_roster : Roster;
  pr_app : AppConfig;
  pr_telegram : option Telegram;
  pr_worker : option ConsumerConfig;
  pr_maintenance : option (option string);
  pr_port : Z;
}.

Definition unless (e : BootError) (ok : bool) : result () BootError := if ok then Ok tt else Err e.

(** [main], up to serving. *)
Definition boot (var : string → option string) (dotenv : Dotenv) (o : Outside) : result Process BootError :=
  try config := map_err BConfig (sv_from_env var dotenv) in
  try chain := ok_or BChain (chain_of config) in
  try u := unless BStore (redis_connects o (c_redis_url config)) in
  try u := unless BQueue (iggy_connects o (c_iggy_url config) (c_iggy_provisioner_url config)
    (c_iggy_stream config) (c_iggy_topic config)) in
  try u := unless BTopology (topology_ensured o) in
  let telegram := telegram_from_config (reqwest_builds o) config in
  let worker := start_worker_if_enabled config (has_signer chain) in
  let app := app_config config in
  try u := unless BBind (port_binds o (c_port config)) in
  let maintenance := start_maintenance_if_enabled var config (has_signer chain) in
  Ok (mkProcess chain (rpc_roster_of (c_alchemy_api_key config)) app telegram worker maintenance (c_port config)).

(** ** The edge's own part *)

(** [Edge::new]: the configuration is read again for every request, the
    client is the isolate's, made once. *)
Definition edge_new (env : Env) (cell : option (ChainConfig * Roster))
    : result (CfConfig * (ChainConfig * Roster)) string :=
  try config := from_env env in
  match cell with
  | Some chain => Ok (config, chain)
  | None => try chain := cf_new_chain config in Ok (config, (chain, cf_roster config))
  end.

Definition edge_config (config : CfConfig) : EdgeConfig :=
  mkEdgeConfig (cf_private_key config)
    (bool_decide (is_Some (cf_telegram_bot_token config)) && bool_decide (is_Some (cf_telegram_chat_id config))).
End startup.

(** ** What an accepted configuration says *)

Lemma number_or_ok parse d v n :
  number_or parse d v = Ok n → (v = None ∧ n = d) ∨ ∃ s, v = Some s ∧ parse s = Some n.
Proof. destruct v as [s|]; cbn; [|by left; simplify_eq]. destruct (parse s) eqn:E; [|done]. intros [= ->]. eauto. Qed.

Lemma parse_unsigned_bound bound s n : parse_unsigned bound s = Some n → ∃ m, bound m = Some n.
Proof.
  unfold parse_unsigned. destruct (default s _); [done|]. destruct (parse_digits _ _); cbn; [eauto|done].
Qed.

Lemma nonempty_some v s : nonempty v = Some s → s ≠ EmptyString.
Proof. destruct v as [v|]; cbn; [|done]. destruct (String.eqb_spec v EmptyString); [done|]. by intros [= <-]. Qed.

Lemma number_bounds parse bound d v n lo hi :
  parse = parse_unsigned bound → (∀ m k, bound m = Some k → lo ≤ k ≤ hi) → lo ≤ d ≤ hi →
  number_or parse d v = Ok n → lo ≤ n ≤ hi.
Proof.
  intros -> Hb Hd [[_ ->]|(s & _ & (m & Hm)%parse_unsigned_bound)]%number_or_ok; [done|by eapply Hb].
Qed.

Section accepted.
Context (var : string → option string).

(** The facts of an accepted configuration that the rest reads. *)
Record accepted (c : Config) : Prop := {
  ac_key : c_private_key c = sv_optional var "PRIVATE_KEY";
  ac_key_shape key : c_private_key c = Some key → validate_private_key key = Ok tt;
  ac_alchemy : c_alchemy_api_key c = sv_optional var "ALCHEMY_API_KEY";
  ac_enabled : c_queue_worker_enabled c = negb (bool_decide (sv_optional var "QUEUE_WORKER" = Some "0"));
  ac_token : c_telegram_bot_token c = sv_optional var "TELEGRAM_BOT_TOKEN";
  ac_chat : c_telegram_chat_id c = sv_optional var "TELEGRAM_CHAT_ID";
  ac_contract : sv_optional var "P256_INDEX_CONTRACT_ADDRESS" = Some (c_contract_address c);
  ac_domain : c_domain_registry c =
    default (c_contract_address c) (sv_optional var "P256_INDEX_DOMAIN_REGISTRY");
  ac_limit : number_or parse_u64 40 (sv_optional var "GLOBAL_WRITE_LIMIT") = Ok (c_global_write_limit c);
  ac_cap : number_or parse_u128 DEFAULT_MAX_FEE_WEI (sv_optional var "P256_INDEX_MAX_GAS_PRICE_WEI")
    = Ok (c_max_gas_price_wei c);
  ac_limit_range : 0 < c_global_write_limit c ≤ U64_MAX;
  ac_cap_range : 0 < c_max_gas_price_wei c ≤ U128_MAX;
  ac_port_range : 0 ≤ c_port c ≤ 65_535;
}.

Lemma sv_from_env_accepted dotenv c : sv_from_env var dotenv = Ok c → accepted c.
Proof.
  unfold sv_from_env. intros (u & _ & (port & Hport & H)%rbind_ok)%rbind_ok.
  apply rbind_ok in H as (u2 & Hkey & H).
  apply rbind_ok in H as (url & _ & (redis & _ & H)%rbind_ok). apply rbind_ok in H as (limit & Hlimit & H).
  destruct (Z.eqb_spec limit 0); [done|]. apply rbind_ok in H as (cap & Hcap & H).
  destruct (Z.eqb_spec cap 0); [done|]. apply rbind_ok in H as (contract & Hc%ok_or_ok & H).
  apply rbind_ok in H as (timeout & _ & [= <-]). constructor; cbn; try done.
  - intros key Hk. rewrite Hk in Hkey. by destruct u2.
  - enough (0 ≤ limit ≤ U64_MAX) by lia.
    apply (number_bounds parse_u64 try_u64 40 _ limit 0 U64_MAX) in Hlimit; [done|done| |by vm_compute].
    intros m k. unfold try_u64. case_decide; [by intros [= <-]|done].
  - enough (0 ≤ cap ≤ U128_MAX) by lia.
    apply (number_bounds parse_u128 try_u128 DEFAULT_MAX_FEE_WEI _ cap 0 U128_MAX) in Hcap; [done|done| |by vm_compute].
    intros m k. unfold try_u128. case_decide; [by intros [= <-]|done].
  - apply (number_bounds parse_u16 _ DEFAULT_PORT _ port 0 65_535 eq_refl) in Hport; [done| |by vm_compute].
    intros m k. destruct (Z.leb_spec 0 m), (Z.leb_spec m 65_535); cbn; try done. intros [= <-]. lia.
Qed.

(** The same values as variables and as secrets of a Worker. *)
Definition both : Env := {| env_var := var; env_secret := var |}.

Lemma secret_same name : secret both name = sv_optional var name.
Proof. done. Qed.
Lemma optional_same name : optional both name = sv_optional var name.
Proof. unfold optional, secret, sv_optional. cbn. by destruct (var name). Qed.
Lemma env_list_none name : sv_optional var name = None → env_list both name = None.
Proof. unfold env_list. rewrite optional_same. by intros ->. Qed.

Lemma number_default parse d v n : number_or parse d v = Ok n → default d (v ≫= parse) = n.
Proof. by intros [[-> ->]|(s & -> & Hs)]%number_or_ok; cbn; rewrite ?Hs. Qed.
End accepted.

Section comparison.
Context `{C : Crates, J : JsonCrate, E : EthCrates} (var : string → option string).

(** What the two shells make of one configuration. *)
Record agree (c : Config) (cf : CfConfig) : Prop := {
  ag_limit : cf_global_write_limit cf = c_global_write_limit c;
  ag_chain chain : cf_new_chain cf = Ok chain ↔ chain_of c = Some chain;
  ag_roster : cf_roster cf = rpc_roster_of (c_alchemy_api_key c);
  ag_salt : derive_ip_salt (ec_private_key (edge_config cf)) = ip_salt (app_config c);
  ag_telegram : cf_telegram_new (cf_telegram_bot_token cf) (cf_telegram_chat_id cf) = telegram_from_config true c;
  ag_configured : ec_telegram_configured (edge_config cf) = telegram_configured (app_config c);
}.

(** C34. A configuration that the Docker shell accepts means the same to the
    Cloudflare shell.  With no endpoints of its own set, the Worker accepts
    the same values and makes of them the same signing client (or refuses as
    the other does), the same endpoints in the same order, the same write
    limit, the same salt for client addresses and the same alert channel. *)
Theorem shells_agree dotenv c :
  sv_from_env var dotenv = Ok c →
  sv_optional var "P256_INDEX_READ_RPCS" = None → sv_optional var "P256_INDEX_WRITE_RPCS" = None →
  ∃ cf, from_env (both var) = Ok cf ∧ agree c cf.
Proof.
  intros Hc%sv_from_env_accepted Hr Hw. destruct Hc.
  unfold from_env, required. rewrite !optional_same, !secret_same, ac_contract0. cbn [ok_or rbind].
  rewrite (env_list_none var _ Hr), (env_list_none var _ Hw).
  change DEFAULT_WRITE_LIMIT with 40. rewrite (number_default _ _ _ _ ac_limit0), (number_default _ _ _ _ ac_cap0).
  eexists. split; [done|]. split; cbn.
  - done.
  - intros chain. rewrite cf_new_chain_same. cbn. unfold chain_of. by rewrite ac_key0, ac_domain0.
  - unfold cf_roster, rpc_roster_of. cbn. by rewrite ac_alchemy0.
  - unfold app_config. cbn. by rewrite ac_key0.
  - unfold telegram_from_config. rewrite ac_token0, ac_chat0. unfold cf_telegram_new, telegram_new.
    destruct (sv_optional var "TELEGRAM_BOT_TOKEN") as [token|], (sv_optional var "TELEGRAM_CHAT_ID") as [chat|]; try done; cbn.
    by destruct (String.eqb token EmptyString), (String.eqb chat EmptyString).
  - by rewrite ac_token0, ac_chat0.
Qed.

(** A key of the checked shape decodes to 32 bytes. *)
Lemma validated_key key :
  validate_private_key key = Ok tt → ∃ b, hex_decode (strip_0x key) = Some b ∧ length b = 32%nat.
Proof.
  unfold validate_private_key, strip_0x. destruct (strip_prefix "0x" key) as [h|]; [|done]. cbn [default].
  destruct (Z.eqb_spec (str_len h) 64) as [Hl|]; [|done]. destruct (str_all is_ascii_hexdigit h) eqn:Hh; [|done]. intros _.
  assert (Hn : String.length h = 64%nat) by (unfold str_len in Hl; lia).
  destruct (proj2 (hex_decode_is_some h)) as [b Hb]; [split; [rewrite Hn; by exists 32%nat|done]|].
  exists b. split; [done|]. apply hex_decode_length in Hb. lia.
Qed.

(** A process that serves. *)
Record booted (p : Process) : Prop := {
  bt_limit : 0 < global_write_limit (pr_app p) ≤ U64_MAX;
  bt_cap : 0 < cfg_max_gas_price_wei (pr_chain p) ≤ U128_MAX;
  (** It signs with the key of the environment, 32 bytes of it. *)
  bt_signer : match cfg_signer_key (pr_chain p) with
    | None => sv_optional var "PRIVATE_KEY" = None
    | Some key => ∃ text b, sv_optional var "PRIVATE_KEY" = Some text ∧ hex_decode (strip_0x text) = Some b ∧
        length b = 32%nat ∧ secret_key_from_slice b = Some key
    end;
  (** The worker and the maintenance run together, when it signs. *)
  bt_worker : is_Some (pr_worker p) ↔
    sv_optional var "PRIVATE_KEY" ≠ None ∧ sv_optional var "QUEUE_WORKER" ≠ Some "0";
  bt_maintenance : is_Some (pr_maintenance p) ↔ is_Some (pr_worker p);
  (** Health says that alerts are configured whenever they are sent. *)
  bt_telegram : is_Some (pr_telegram p) → telegram_configured (pr_app p) = true;
}.

(** C33. What starts, starts as configured.  A process that comes to serve
    has a positive write limit and price cap; it signs exactly when a private
    key is set, and then with those 32 bytes; its worker and its maintenance
    run exactly when it signs and QUEUE_WORKER is not "0" (so a read-only
    deployment broadcasts and rescues nothing); and health reports a
    configured alert channel whenever there is one. *)
Theorem boot_exact dotenv o p : boot var dotenv o = Ok p → booted p.
Proof.
  unfold boot. intros (c & Hc & H)%rbind_ok.
  assert (Ha : accepted var c).
  { destruct (sv_from_env var dotenv) eqn:Hs; [|done]. cbn in Hc. injection Hc as ->. by eapply sv_from_env_accepted. }
  destruct Ha. apply rbind_ok in H as (chain & Hchain%ok_or_ok & H). do 4 (apply rbind_ok in H as (? & _ & H)).
  injection H as <-. unfold chain_of, new_chain in Hchain.
  assert (Hkey : match cfg_signer_key chain with
    | None => sv_optional var "PRIVATE_KEY" = None
    | Some key => ∃ text b, sv_optional var "PRIVATE_KEY" = Some text ∧ hex_decode (strip_0x text) = Some b ∧
        length b = 32%nat ∧ secret_key_from_slice b = Some key end
    ∧ cfg_max_gas_price_wei chain = c_max_gas_price_wei c).
  { rewrite <-ac_key0. destruct (c_private_key c) as [text|] eqn:Hk; cbn in Hchain.
    - destruct (validated_key text (ac_key_shape0 text eq_refl)) as (b & Hb & Hlen).
      unfold parse_secret_key in Hchain. rewrite Hb in Hchain. cbn in Hchain.
      destruct (secret_key_from_slice b) as [key|] eqn:Hsk; cbn in Hchain; [|done].
      destruct (address_parse (c_contract_address c)); cbn in Hchain; [|done].
      destruct (address_parse (c_domain_registry c)); cbn in Hchain; [|done]. injection Hchain as <-. cbn. split; [|done].
      by exists text, b.
    - destruct (address_parse (c_contract_address c)); cbn in Hchain; [|done].
      destruct (address_parse (c_domain_registry c)); cbn in Hchain; [|done]. by injection Hchain as <-. }
  destruct Hkey as [Hkey Hcap].
  assert (Hsig : has_signer chain = true ↔ sv_optional var "PRIVATE_KEY" ≠ None).
  { unfold has_signer. destruct (cfg_signer_key chain).
    - destruct Hkey as (text & b & -> & _). by rewrite bool_decide_eq_true_2.
    - rewrite Hkey, bool_decide_eq_false_2; [done|by intros []]. }
  assert (Hworker : is_Some (start_worker_if_enabled c (has_signer chain)) ↔
    sv_optional var "PRIVATE_KEY" ≠ None ∧ sv_optional var "QUEUE_WORKER" ≠ Some "0").
  { rewrite <-Hsig. unfold start_worker_if_enabled. rewrite ac_enabled0, negb_involutive.
    case_bool_decide; [split; [by intros []|by intros []]|].
    destruct (has_signer chain); cbn; unfold is_Some; naive_solver. }
  constructor; cbn; [done|by rewrite Hcap|done|done| |].
  - rewrite Hworker, <-Hsig. unfold start_maintenance_if_enabled. rewrite ac_enabled0, negb_involutive.
    case_bool_decide; cbn; [split; [by intros []|by intros []]|].
    destruct (has_signer chain); cbn; unfold is_Some; naive_solver.
  - unfold telegram_from_config. destruct (c_telegram_bot_token c), (c_telegram_chat_id c); cbn; by intros [].
Qed.
End comparison.

(** ** Evaluation on an example *)
Section startup_examples.
#[local] Existing Instance concrete_crates.
#[local] Existing Instance concrete_eth.

Definition sample_key : string := "0x0101010101010101010101010101010101010101010101010101010101010101".
Definition sample_var (name : string) : option string :=
  if String.eqb name "P256_INDEX_IGGY_URL" then Some "iggy+tcp://q" else
  if String.eqb name "P256_INDEX_REDIS_URL" then Some "redis://r" else
  if String.eqb name "P256_INDEX_CONTRACT_ADDRESS" then Some sample_registry_hex else
  if String.eqb name "PRIVATE_KEY" then Some sample_key else
  if String.eqb name "GLOBAL_WRITE_LIMIT" then Some "+7" else
  if String.eqb name "TELEGRAM_BOT_TOKEN" then Some "" else None.
Definition sample_outside : Outside := mkOutside (λ _, true) (λ _ _ _ _, true) true (λ _, true) true.

Lemma shells_agree_witness :
  ∃ c cf, sv_from_env sample_var DotIo = Ok c ∧ from_env (both sample_var) = Ok cf ∧
    c_global_write_limit c = 7 ∧ cf_global_write_limit cf = 7.
Proof.
  destruct (sv_from_env sample_var DotIo) as [c|e] eqn:Hc; [|by vm_compute in Hc].
  destruct (shells_agree sample_var DotIo c Hc eq_refl eq_refl) as (cf & Hcf & []).
  exists c, cf. rewrite ag_limit0. vm_compute in Hc. injection Hc as <-. done.
Defined.

Lemma is_ok_some {A X} (r : result A X) : is_ok r = true → ∃ a, r = Ok a.
Proof. destruct r as [a|]; [by exists a|done]. Qed.
Lemma sample_boots : is_ok (boot sample_var DotIo sample_outside) = true.
Proof. vm_compute. reflexivity. Qed.

Lemma boot_exact_witness : ∃ p, is_Some (pr_worker p) ∧ is_Some (pr_maintenance p).
Proof.
  destruct (is_ok_some _ sample_boots) as [p Hp]. destruct (boot_exact sample_var DotIo sample_outside p Hp) as [_ _ _ Hw Hm _].
  assert (Hworker : is_Some (pr_worker p)) by (apply Hw; split; vm_compute; discriminate).
  exists p. split; [exact Hworker|]. by apply Hm.
Defined.
End startup_examples.
