(* ===== verification/System.v ===== *)
(** * The Docker shell as a whole ([p256-index-server])

    The HTTP shell ([Http]) and the worker ([Worker]) on one Redis and one
    queue are a [Shell]: store commands and replies may be lost, the queue is
    an append-only log with the worker's offset and may hide an append behind
    an error, the chain answers anything, time passes.  What [Shell] proves of
    every shell then holds of this one. *)
From Stdlib Require Import Ascii String Strings.Byte.
From S2P Require Export Http StoreTasks.
From stdpp Require Import options.

(** Everything the processes share: Redis, the state behind the chain reads,
    the queue, the worker's nonce cache, its chain client, its offset. *)
Record Docker (S Q N : Type) := mkDocker {
  dk_store : World;
  dk_reads : S;
  dk_queue : Q;
  dk_nonce : option Z;
  dk_chain : N;
  dk_offset : nat;
}.
Arguments mkDocker {S Q N} _ _ _ _ _ _.
Arguments dk_store {S Q N} _.
Arguments dk_reads {S Q N} _.
Arguments dk_queue {S Q N} _.
Arguments dk_nonce {S Q N} _.
Arguments dk_chain {S Q N} _.
Arguments dk_offset {S Q N} _.

Section docker.
Context `{C : Crates, K : StoreCodec}.
Context {S Q N : Type} `{R : ReadChain S, T : TaskQueue Q, W : ChainClient N}.
Context (cfg : AppConfig).

Abbreviation X := (Docker S Q N).
Abbreviation xdb x := (db (dk_store x)).

Definition app_of (x : X) : App S Q := mkApp (dk_store x) (dk_reads x) (dk_queue x) None.
Definition worker_of (x : X) : Worker N := mkWorker (dk_store x) (dk_nonce x) (dk_chain x).

#[export] Instance docker_view : TaskView X := {|
  v_get x id := redis_get (task_key id) (xdb x) ≫= task_of_json;
  v_present x id := present (xdb x) id;
  v_waiting x := task_id <$> drop (dk_offset x) (q_log (dk_queue x));
|}.

Definition docker_admission (ip_hash : string) (op : AdmissionOperation) (x : X)
    : AdmissionResult * X :=
  let '(r, a) := execute_admission cfg ip_hash op (app_of x) in
  (r, mkDocker (a_store a) (a_chain a) (a_queue a) (dk_nonce x) (dk_chain x) (dk_offset x)).

Definition docker_submission (op : SubmissionOperation) (x : X) : SubmissionResult * X :=
  let '(r, w) := execute op (worker_of x) in
  (r, mkDocker (w_store w) (dk_reads x) (dk_queue x) (w_nonce w) (w_chain w) (dk_offset x)).

(** Storing the offset of the last message polled. *)
Definition docker_consume (n : nat) (x : X) : X :=
  mkDocker (dk_store x) (dk_reads x) (dk_queue x) (dk_nonce x) (dk_chain x) (dk_offset x + n).

Definition docker_inv (x : X) : Prop :=
  reachable (xdb x) ∧ (dk_offset x ≤ length (q_log (dk_queue x)))%nat.

(** ** The view and the store *)

Lemma get_record (x : X) id t :
  store_inv (xdb x) → v_get x id = Some t → stored (xdb x) id t.
Proof.
  intros Hi Hg. unfold v_get, docker_view in Hg.
  destruct (redis_get (task_key id) (xdb x)) as [v|] eqn:Hk; [|done]. simpl in Hg.
  pose proof Hk as (e & Hrec & _)%redis_get_some.
  destruct (inv_records _ Hi _ _ _ Hrec) as (t1 & -> & Hid & _).
  rewrite task_json_roundtrip in Hg. injection Hg as ->. by split.
Qed.

Lemma stored_get (x : X) id t : stored (xdb x) id t → v_get x id = Some t.
Proof.
  intros [Hs _]. unfold v_get, docker_view. rewrite Hs. simpl. apply task_json_roundtrip.
Qed.

Lemma finished_resolved (x : X) id :
  store_inv (xdb x) → finished x id ↔ resolved (xdb x) id.
Proof.
  intros Hi. split; intros Hf t Ht.
  - apply Hf. unfold v_get, docker_view. rewrite Ht. simpl. apply task_json_roundtrip.
  - apply Hf. by apply (get_record x id t Hi).
Qed.

(** A live record has no expiry. *)
Lemma record_stored (x : X) id t :
  store_inv (xdb x) → record (xdb x) id t → status t = Pending → v_get x id = Some t.
Proof.
  intros Hi (e & He) Hp. destruct (inv_records _ Hi _ _ _ He) as (t1 & <-%task_to_json_inj & Hid & Hn).
  destruct (Hn Hp) as [-> _]. apply stored_get. split; [|done]. apply redis_get_some. by eexists.
Qed.

Lemma evolves_moves own mark (x x' : X) :
  store_inv (xdb x) → store_inv (xdb x') → evolves own mark (xdb x) (xdb x') →
  v_waiting x `prefix_of` v_waiting x' → moves own mark x x'.
Proof.
  intros Hi Hi' [H1 H2 H3 H4] Hw. split; try done.
  - intros id Ho. rewrite !finished_resolved by done. auto.
  - intros id t Hg Ha. pose proof (get_record x' id t Hi' Hg) as [Hrec _]%stored_record.
    destruct (H4 id t Hrec Ha) as [?|(t0 & Hr0 & Ha0)]; [by left|right].
    exists t0. split; [|done]. eapply record_stored; [done|done|apply Ha0].
Qed.

Lemma waiting_grows (x x' : X) ext :
  docker_inv x → dk_offset x' = dk_offset x →
  q_log (dk_queue x') = q_log (dk_queue x) ++ ext →
  v_waiting x' = v_waiting x ++ (task_id <$> ext).
Proof.
  intros [_ Hl] Ho Hq. unfold v_waiting, docker_view. by rewrite Ho, Hq, drop_app_le, fmap_app.
Qed.

(** ** What one operation of a request does *)

Record admission_effect (op : AdmissionOperation) (r : AdmissionResult) (a a' : App S Q) : Prop := {
  ae_reach : reachable (db (a_store a'));
  ae_evolves : evolves (own_of op) (mark_of op) (db (a_store a)) (db (a_store a'));
  ae_log : ∃ ext, q_log (a_queue a') = q_log (a_queue a) ++ ext ∧
    ∀ x, x ∈ ext → op = Enqueue x;
  ae_enqueued x : op = Enqueue x → r = Enqueued → q_log (a_queue a') = q_log (a_queue a) ++ [x];
  ae_found x : r = TaskFound (Some x) → stored (db (a_store a')) (task_id x) x ∧
    ∀ i, op = MarkAdmitted i → task_id x = i;
  ae_new task : op = Admit task → r = AdmittedAs New → present (db (a_store a')) (task_id task);
}.

(** A store call: what its answer and its effect give. *)
Lemma effect_of_call {A} op (m : St A) (f : A → AdmissionResult) (a : App S Q) :
  reachable (db (a_store a)) →
  store_call (db (a_store a)) m → evolving (own_of op) (mark_of op) m (a_store a) →
  (∀ x, op ≠ Enqueue x) →
  (∀ v x, (m (a_store a)).1 = Ok v → f v = TaskFound (Some x) →
     stored (db (m (a_store a)).2) (task_id x) x ∧ ∀ i, op = MarkAdmitted i → task_id x = i) →
  (∀ v task, (m (a_store a)).1 = Ok v → op = Admit task → f v = AdmittedAs New →
     present (db (m (a_store a)).2) (task_id task)) →
  let '(r, a') := ap_bind (ap_store m) (λ r, ap_ret (answer f r)) a in admission_effect op r a a'.
Proof.
  intros Hr Hc He Hq Hf Hn. unfold ap_bind, ap_store, ap_ret.
  pose proof (reach_call m (a_store a) Hc Hr) as Hr'. unfold evolving in He.
  destruct (m (a_store a)) as [o w]; cbn [fst snd] in *. split; cbn [a_store a_queue].
  - done.
  - done.
  - exists []. rewrite app_nil_r. split; [done|set_solver].
  - intros x ->. by destruct (Hq x).
  - intros x Hx. destruct o as [v|e]; [|done]. by eapply Hf.
  - intros task Hop Hx. destruct o as [v|e]; [|done]. by eapply Hn.
Qed.

Lemma effect_of_read op r (a : App S Q) c :
  reachable (db (a_store a)) → own_of op = None → mark_of op = None → (∀ x, op ≠ Enqueue x) →
  (∀ x, r ≠ TaskFound x) → (∀ task, op ≠ Admit task) →
  admission_effect op r a (mkApp (a_store a) c (a_queue a) (worker_pulse a)).
Proof.
  intros Hr Ho Hm Hq Hf Ha. split; cbn [a_store a_queue].
  - done.
  - apply evolves_refl.
  - exists []. rewrite app_nil_r. split; [done|set_solver].
  - intros x Hx. by destruct (Hq x).
  - intros x Hx. by destruct (Hf (Some x)).
  - intros task Hx. by destruct (Ha task).
Qed.

Lemma same_app (a : App S Q) : mkApp (a_store a) (a_chain a) (a_queue a) (worker_pulse a) = a.
Proof. by destruct a. Qed.

Lemma effect_of_chain {A} op (m : S → result A ChainError * S) (f : A → bool) (a : App S Q) :
  reachable (db (a_store a)) → own_of op = None → mark_of op = None → (∀ x, op ≠ Enqueue x) →
  (∀ task, op ≠ Admit task) →
  let '(r, a') := ap_bind (ap_chain m) (λ r, ap_ret (chain_bool f r)) a in admission_effect op r a a'.
Proof.
  intros. unfold ap_bind, ap_chain, ap_ret. destruct (m (a_chain a)) as [o c].
  apply effect_of_read; try done. intros x. by destruct o.
Qed.
(** Same store, same queue. *)
Lemma effect_of_nothing op r (a : App S Q) :
  reachable (db (a_store a)) → own_of op = None → mark_of op = None → (∀ x, op ≠ Enqueue x) →
  (∀ x, r ≠ TaskFound x) → (∀ task, op ≠ Admit task) → admission_effect op r a a.
Proof. intros. rewrite <-(same_app a) at 2. by apply effect_of_read. Qed.

Lemma effect_of_enqueue task (a : App S Q) :
  reachable (db (a_store a)) →
  let '(r, a') := ap_bind (ap_queue (q_enqueue task))
    (λ r, ap_ret (match r with Ok _ => Enqueued | Err _ => QueueUnavailable end)) a in
  admission_effect (Enqueue task) r a a'.
Proof.
  intros Hr. unfold ap_bind, ap_queue, ap_ret.
  destruct (q_enqueue task (a_queue a)) as [o q'] eqn:Eq.
  assert (Hlog : q_log q' = q_log (a_queue a) ++ [task] ∨ o ≠ Ok () ∧ q_log q' = q_log (a_queue a)).
  { destruct o as [[]|e]; [left; by apply q_enqueue_ok|].
    destruct (q_enqueue_err _ _ _ _ Eq); [by right|by left]. }
  split; cbn [a_store a_queue]; try (by destruct o).
  - apply evolves_refl.
  - destruct Hlog as [->|[_ ->]]; [exists [task]|exists []; rewrite app_nil_r].
    + split; [done|]. by intros x ->%list_elem_of_singleton.
    + split; [done|set_solver].
  - intros x [= ->] Ho. destruct Hlog as [->|[Hn _]]; [done|].
    destruct o as [[]|]; [by destruct Hn|done].
Qed.

(** Every operation of the shell, as the source executes it. *)
Lemma execute_admission_effect ip_hash op r (a a' : App S Q) :
  reachable (db (a_store a)) →
  (∀ task, op = Admit task → status task = Pending ∧ admitted task = false ∧
     strings (db (a_store a)) !! task_key (task_id task) = None) →
  execute_admission cfg ip_hash op a = (r, a') → admission_effect op r a a'.
Proof.
  intros Hr Had He. pose proof (inv_reachable _ Hr) as Hi.
  assert (H : let '(r, a') := execute_admission cfg ip_hash op a in admission_effect op r a a');
    [|by rewrite He in H]. clear He r a'.
  destruct op as [|h|dg|dg i|h|g m|g|k| | |task|i|task|i]; cbn [execute_admission].
  - apply (effect_of_call AllowIpCreate); try done; [apply call_ip|].
    unfold allow_ip_create. apply evolving_rate; by intros ? [=].
  - apply (effect_of_call (FindTaskByContent h)); try done; [apply call_find_content|apply evolving_find|].
    intros v x Hv [= ->]. split; [by apply find_found|done].
  - apply (effect_of_call (FindTaskByRetryDigest dg)); try done; [apply call_find_digest|apply evolving_find|].
    intros v x Hv [= ->]. split; [by apply find_found|done].
  - generalize RETRY_COALESCE_TTL_SECS; intros ttl.
    apply (effect_of_call (RecordRetryDigest dg i)); try done; [apply call_record_digest|apply evolving_record_digest].
  - destruct (parse_b256 h); [|by apply effect_of_nothing]. by apply effect_of_chain.
  - destruct (parse_hex_bytes g); [|by apply effect_of_nothing].
    destruct (parse_hex_bytes m); [|by apply effect_of_nothing]. by apply effect_of_chain.
  - destruct (parse_hex_bytes g); [|by apply effect_of_nothing]. by apply effect_of_chain.
  - apply (effect_of_call (FindTaskByKey k)); try done; [apply call_find_key|apply evolving_find|].
    intros v x Hv [= ->]. split; [by apply find_found|done].
  - apply (effect_of_call QueueDepth); try done; [apply call_stats|apply evolving_stats].
  - apply (effect_of_call AllowGlobalCreate); try done; [apply call_global|].
    unfold allow_global_create. apply evolving_rate; by intros ? [=].
  - destruct (Had task eq_refl) as (Hs & Hn & Hf).
    apply (effect_of_call (Admit task)); try done; [by apply call_admit|by apply evolving_admit|by intros [] x|].
    intros [i|i] t Hv [= <-] H; [|done]. by eapply admit_new_present.
  - apply (effect_of_call (LoadTask i)); try done; [apply call_get|apply evolving_same, get_task_db|].
    intros v x Hv [= ->]. pose proof (get_task_found _ _ _ Hv Hi) as Hst.
    split; [by rewrite (proj2 Hst)|done].
  - by apply effect_of_enqueue.
  - apply (effect_of_call (MarkAdmitted i)); try done; [apply call_mark_admitted|by apply evolving_mark_admitted|].
    intros v x Hv [= ->]. pose proof (mark_admitted_found _ _ _ Hv Hi) as Hst.
    split; [by rewrite (proj2 Hst)|]. intros j [= <-]. apply Hst.
Qed.

(** ** What one operation of the worker does *)

Lemma evolving_load own mark ids w :
  store_inv (db w) → evolving own mark (load_tasks ids) w.
Proof. intros Hi. apply evolving_same. by destruct (load_tasks_spec ids w Hi). Qed.

Lemma execute_evolves op r (w w' : Worker N) :
  reachable (db (w_store w)) → execute op w = (r, w') →
  evolves None None (db (w_store w)) (db (w_store w')).
Proof.
  intros Hr He. pose proof (inv_reachable _ Hr) as Hi.
  assert (H : evolves None None (db (w_store w)) (db (w_store (execute op w).2)));
    [|by rewrite He in H]. clear He r w'.
  destruct op as [ids|h|g m|t|id tx n|id k msg|id msg]; cbn [execute].
  - unfold wk_bind, on_store. pose proof (evolving_load None None ids (w_store w) Hi) as He.
    unfold evolving in He. by destruct (load_tasks ids _).
  - destruct (parse_b256 h); [|apply evolves_refl]. unfold wk_bind, on_chain.
    destruct (Worker.is_content_registered _ _). apply evolves_refl.
  - destruct (parse_hex_bytes g); [|apply evolves_refl].
    destruct (parse_hex_bytes m); [|apply evolves_refl].
    unfold wk_bind, on_chain. destruct (Worker.is_referenced _ _ _). apply evolves_refl.
  - unfold wk_bind. destruct (submit_same t w) as (Hs & _ & Hn). destruct (Worker.submit t w) as [o w1].
    apply evolves_frame; cbn in *; [by rewrite Hs|by rewrite Hn].
  - unfold wk_bind, on_store. pose proof (evolving_mark_done None id tx n (w_store w) Hi) as He.
    unfold evolving in He. by destruct (Store.mark_done id tx n _).
  - unfold wk_bind, on_store.
    pose proof (evolving_mark_failed None id (as_store_class k) msg (w_store w) Hi) as He.
    unfold evolving in He. by destruct (Store.mark_failed id _ msg _).
  - unfold wk_bind, on_store. pose proof (evolving_transient None id msg (w_store w) Hi) as He.
    unfold evolving in He. by destruct (record_transient_failure id msg _).
Qed.

(** The answer of [LoadTasks], read back. *)
Lemma execute_load ids loaded (w w' : Worker N) :
  store_inv (db (w_store w)) → execute (LoadTasks ids) w = (TasksLoaded loaded, w') →
  db (w_store w') = db (w_store w) ∧ ∀ id, id ∈ ids → resolved (db (w_store w)) id ∨
    ∃ x, Some x ∈ loaded ∧ task_id x = id ∧ status x = Pending.
Proof.
  intros Hi. cbn [execute]. unfold wk_bind, on_store.
  destruct (load_tasks_spec ids (w_store w) Hi) as [Hd Hl].
  destruct (load_tasks ids (w_store w)) as [[l|e] v]; [|by intros [=]].
  cbn [fst snd wk_ret] in *. intros [= <- <-]. split; [done|]. by apply Hl.
Qed.

(** ** The laws of a shell *)

Lemma docker_admission_ok ip op (x : X) r x' :
  docker_inv x →
  (∀ task, op = Admit task → wf_task task ∧ ¬ v_present x (task_id task)) →
  docker_admission ip op x = (r, x') → docker_inv x' ∧ admission_law op r x x'.
Proof.
  intros Hinv Had He. pose proof Hinv as [Hr Hl]. unfold docker_admission in He.
  destruct (execute_admission cfg ip op (app_of x)) as [r' a] eqn:Ee. injection He as -> <-.
  assert (Hef : admission_effect op r (app_of x) a).
  { eapply execute_admission_effect; [exact Hr| |done]. intros task ->.
    destruct (Had task eq_refl) as [Hwf Hn]. destruct (wt_pending _ Hwf) as (Hs & Ha & _).
    split_and!; [done..|]. cbn [app_of a_store].
    destruct (strings (xdb x) !! task_key (task_id task)) eqn:Hk; [|done].
    destruct Hn. unfold v_present, docker_view, present. rewrite Hk. by eexists. }
  destruct Hef as [E1 E2 (ext & E3 & E3') E4 E5 E6]. cbn [app_of a_store a_queue] in *.
  set (x' := mkDocker _ _ _ _ _ _).
  assert (Hw : v_waiting x' = v_waiting x ++ (task_id <$> ext)) by by apply waiting_grows.
  split; [split; [done|]; cbn; rewrite E3, length_app; lia|]. split.
  - apply evolves_moves; [by apply inv_reachable..|done|]. rewrite Hw. by eexists.
  - exists (task_id <$> ext). split; [done|]. intros i (t & -> & Ht)%list_elem_of_fmap.
    exists t. split; [by apply E3'|done].
  - intros task -> Hq. pose proof (E4 task eq_refl Hq) as Hlog. rewrite E3 in Hlog.
    apply app_inv_head in Hlog as ->. rewrite Hw. set_solver.
  - intros t Ht. destruct (E5 t Ht) as [Hst Hm]. split; [by apply stored_get|done].
  - done.
Qed.

Lemma docker_submission_ok op (x : X) r x' :
  docker_inv x → docker_submission op x = (r, x') → docker_inv x' ∧ submission_law op r x x'.
Proof.
  intros Hinv He. pose proof Hinv as [Hr Hl]. unfold docker_submission in He.
  pose proof (execute_effect op (worker_of x) Hr) as (E1 & _ & E3).
  destruct (execute op (worker_of x)) as [r' w] eqn:Ee. injection He as -> <-.
  pose proof (execute_evolves op r (worker_of x) w Hr Ee) as Hev.
  cbn [fst snd worker_of w_store] in *. pose proof (inv_reachable _ Hr) as Hi.
  split; [by split|]. set (x' := mkDocker _ _ _ _ _ _).
  pose proof (inv_reachable _ E1 : store_inv (xdb x')) as Hi'. split.
  - by apply evolves_moves.
  - done.
  - intros id Hs. apply finished_resolved; [done|]. by apply E3.
  - intros ids loaded id -> -> Hid.
    destruct (execute_load _ _ (worker_of x) w Hi Ee) as [Hd Hload].
    destruct (Hload id Hid) as [?|?]; [left|by right]. apply finished_resolved; [done|].
    subst x'. cbn [dk_store]. by rewrite Hd.
Qed.

Lemma docker_consume_ok n (x : X) :
  docker_inv x → (n ≤ length (v_waiting x))%nat →
  docker_inv (docker_consume n x) ∧ (∀ id, v_get (docker_consume n x) id = v_get x id) ∧
  (∀ id, v_present (docker_consume n x) id ↔ v_present x id) ∧
  v_waiting (docker_consume n x) = drop n (v_waiting x).
Proof.
  intros [Hr Hl] Hn. unfold v_waiting, docker_view in Hn. rewrite length_fmap, length_drop in Hn.
  split_and!; try done.
  - split; [done|]. cbn. lia.
  - unfold v_waiting, docker_view. cbn [docker_consume dk_offset dk_queue].
    by rewrite <-drop_drop, <-fmap_drop.
Qed.

(** Time, other traffic on other keys, faults to come, the chain; a nonce
    cache is lost with its process. *)
Inductive docker_other (x : X) : X → Prop :=
| docker_environment d fs reads nonce chain :
    frame (xdb x) d →
    docker_other x (mkDocker (mkWorld d fs) reads (dk_queue x) nonce chain (dk_offset x)).

Lemma docker_other_ok (x x' : X) :
  docker_inv x → docker_other x x' →
  docker_inv x' ∧ moves None None x x' ∧ v_waiting x' = v_waiting x.
Proof.
  intros [Hr Hl] [d fs reads nonce chain Hf].
  assert (Hr' : reachable d) by (eapply reachable_step; [exact Hr|by apply step_frame]).
  split_and!; [by split| |done]. destruct Hf as (Hs & _ & _ & Hn).
  apply evolves_moves; [by apply inv_reachable..| |done]. by apply evolves_frame.
Qed.

Definition docker_initial (x : X) : Prop :=
  initial (xdb x) ∧ q_log (dk_queue x) = [] ∧ dk_offset x = O.

Lemma docker_initial_ok (x : X) :
  docker_initial x → docker_inv x ∧ v_waiting x = [] ∧ ∀ id, v_get x id = None.
Proof.
  intros (Hd & Hq & Ho). split_and!.
  - split; [by exists (xdb x)|]. rewrite Ho, Hq. done.
  - unfold v_waiting, docker_view. by rewrite Ho, Hq.
  - intros id. unfold v_get, docker_view, redis_get. by rewrite (proj1 Hd), lookup_empty.
Qed.

Lemma docker_get_present (x : X) id t :
  docker_inv x → v_get x id = Some t → v_present x id.
Proof.
  intros [Hr _] Hg. pose proof (get_record x id t (inv_reachable _ Hr) Hg) as [[e He] _]%stored_record.
  by eexists.
Qed.

Definition docker_shell : Shell X := {|
  sh_chain_id := app_chain_id cfg;
  sh_registry := rc_domain_registry_address;
  sh_now x := now (xdb x);
  sh_admission := docker_admission;
  sh_submission := docker_submission;
  sh_consume := docker_consume;
  sh_other := docker_other;
  sh_initial := docker_initial;
  sh_inv := docker_inv;
  sh_inv_initial := docker_initial_ok;
  sh_get_present := docker_get_present;
  sh_admission_ok := docker_admission_ok;
  sh_submission_ok := docker_submission_ok;
  sh_consume_ok := docker_consume_ok;
  sh_other_ok := docker_other_ok;
|}.
End docker.

Section docker_service.
Context `{C : Crates, K : StoreCodec}.
Context {S Q N : Type} `{R : ReadChain S, T : TaskQueue Q, W : ChainClient N}.
Context (cfg : AppConfig).
#[local] Instance this_shell : Shell (Docker S Q N) := docker_shell cfg.

(** C1. No admitted task is ever lost.  However requests, the worker,
    their crashes, lost store commands and replies, queue errors, expiry
    and the chain interleave: a stored task that is marked admitted and
    still pending has an envelope in the queue at or after the worker's
    offset, so a worker that keeps running gets to it. *)
Theorem no_task_lost (s : Sys (Docker S Q N)) id t :
  sys_reachable s → stored (db (dk_store (y_shell s))) id t →
  admitted t = true → status t = Pending →
  id ∈ task_id <$> drop (dk_offset (y_shell s)) (q_log (dk_queue (y_shell s))).
Proof.
  intros Hs Hst Ha Hp. apply (awaiting_waits s id t Hs); [by apply stored_get|by split].
Qed.

(** C6. What a client was told is kept.  When a request has been answered
    [Queued] with a task id, then from that moment on, in every later state
    of the service, the task's record is in the store and the task is
    either finished (done or failed, or its finished record expired) or
    waiting in the queue at or after the worker's offset. *)
Theorem queued_is_kept (s s' : Sys (Docker S Q N)) q m id st :
  sys_reachable s → q ∈ y_requests s → rq_prog q = Ret m → settle m = Queued id st →
  rtc sys_step s s' →
  present (db (dk_store (y_shell s'))) id ∧
  (resolved (db (dk_store (y_shell s'))) id ∨
   id ∈ task_id <$> drop (dk_offset (y_shell s')) (q_log (dk_queue (y_shell s')))).
Proof.
  intros Hs Hq Hp Hm Hrtc. destruct (queued_stays s q m id st s' Hs Hq Hp Hm Hrtc) as [Hpr Ha].
  split; [done|]. destruct Ha as [Hf|?]; [left|by right]. apply (finished_resolved (y_shell s') id); [|done].
  assert (Hs' : sys_reachable s').
  { destruct Hs as (s0 & H0 & Hs). exists s0. split; [done|]. by etrans. }
  apply inv_reachable, (so_inv _ (si_shell _ (inv_sys _ Hs'))).
Qed.
End docker_service.

(** ** Evaluation on examples *)
Section system_examples.
#[local] Existing Instance concrete_crates.
#[local] Existing Instance concrete_codec.
#[local] Existing Instance confirming_chain.

(** A deployment with nothing on-chain. *)
#[local] Instance empty_reads : ReadChain () := {|
  rc_circuit_state c := ("closed", c);
  rc_registry_address := sample_registry_hex;
  rc_domain_registry_address := sample_registry_hex;
  rc_entry _ c := (Ok None, c);
  rc_key_profile _ _ _ _ c := (Ok None, c);
  rc_groups_by_rp_id _ p n _ c := (Ok (mkPage 0 p n []), c);
  rc_rp_ids p n _ c := (Ok (mkPage 0 p n []), c);
  rc_totals c := (Ok (mkTotals 0 0 0 0), c);
  rc_is_content_registered _ c := (Ok false, c);
  rc_is_referenced _ _ c := (Ok false, c);
  rc_unit_by_group_key _ c := (Ok None, c);
  rc_group_detail_by_key _ _ _ _ c := (Ok None, c);
  rc_group_detail_by_id _ _ _ _ c := (Ok None, c);
|}.

#[local, refine] Instance list_queue : TaskQueue (list RegisterTask) := {|
  q_log l := l;
  q_enqueue task l := (Ok (), l ++ [task]);
|}.
Proof.
  - intros task q q' [=]. by subst.
  - intros task q e q' [=].
Defined.

Definition sample_config : AppConfig := mkAppConfig "salt" 100 false 100.
#[local] Instance sample_shell : Shell (Docker () (list RegisterTask) Z) := docker_shell sample_config.

Definition quiet_docker : Docker () (list RegisterTask) Z :=
  mkDocker (mkWorld empty_redis []) () [] None 0 O.
Definition quiet_system : Sys (Docker () (list RegisterTask) Z) := mkSys quiet_docker [] None.
Definition asked_system : Sys (Docker () (list RegisterTask) Z) :=
  mkSys quiet_docker [new_request "t1" "peer" sample_submission 1_000] None.
Definition answered_system : Sys (Docker () (list RegisterTask) Z) := turns 20 asked_system.

Lemma asked_step : sys_step quiet_system asked_system.
Proof.
  pose proof (sys_request quiet_system "t1" "peer" sample_submission) as H. simpl in H.
  apply H; [by intros [v Hv]|set_solver].
Qed.

Lemma answered_reachable : sys_reachable answered_system.
Proof.
  exists quiet_system. split; [done|]. eapply rtc_l; [apply asked_step|]. apply turns_steps.
Qed.

Lemma queued_is_kept_witness :
  ∃ q m, y_requests answered_system = [q] ∧ rq_prog q = Ret m ∧ settle m = Queued "t1" Pending ∧
    present (db (dk_store (y_shell answered_system))) "t1" ∧
    (resolved (db (dk_store (y_shell answered_system))) "t1" ∨
     "t1" ∈ task_id <$> drop (dk_offset (y_shell answered_system)) (q_log (dk_queue (y_shell answered_system)))).
Proof.
  destruct (y_requests answered_system) as [|q [|]] eqn:Hl; [by vm_compute in Hl| |by vm_compute in Hl].
  assert (Ha : answer_of <$> y_requests answered_system = [Some (Queued "t1" Pending)])
    by (vm_compute; reflexivity).
  rewrite Hl in Ha. injection Ha as Ha. unfold answer_of in Ha.
  destruct (rq_prog q) as [m|] eqn:Hp; [|done]. injection Ha as Hm.
  exists q, m. split; [done|]. split; [done|]. split; [done|].
  apply (queued_is_kept sample_config answered_system answered_system q m "t1" Pending
    answered_reachable); [rewrite Hl; by left|done|done|apply rtc_refl].
Defined.

Lemma no_task_lost_witness :
  ∃ t, stored (db (dk_store (y_shell answered_system))) "t1" t ∧ admitted t = true ∧ status t = Pending ∧
    "t1" ∈ task_id <$> drop (dk_offset (y_shell answered_system)) (q_log (dk_queue (y_shell answered_system))).
Proof.
  set (t := set_admitted true sample_task).
  assert (Hs : stored (db (dk_store (y_shell answered_system))) "t1" t)
    by (split; [vm_compute; reflexivity|done]).
  exists t. split_and!; [done..|].
  by apply (no_task_lost sample_config answered_system "t1" t answered_reachable Hs).
Defined.
End system_examples.
